(** * zolang: the scanner and the file-set serializer

    A shallow embedding of [scanner/scanner.go] and of the file-set
    serializer of package [token], with the properties the specification
    states about them.

    Go's [int] and [rune] are modelled as [Z].  Offsets never exceed the
    length of a byte slice and the error count never exceeds the number of
    decoding steps, so none of the [int] arithmetic below can wrap; the one
    place where the source computes in [uint32] ([scanEscape]) has its
    wrap-around written out.  Byte slices are [list byte]; Go strings that
    are slices of the source are [list byte] too, and messages are
    [string]. *)

From Stdlib Require Import ZArith List String Ascii Bool Lia.
From Stdlib.Strings Require Import Byte.
Import ListNotations.
Local Open Scope Z_scope.

(** ** Bytes and runes *)

Definition b2z (b : byte) : Z := Z.of_N (Byte.to_N b).

Definition len {A : Type} (l : list A) : Z := Z.of_nat (List.length l).

(** [p[lo:hi]] on a slice. *)
Definition slice {A : Type} (l : list A) (lo hi : Z) : list A :=
  firstn (Z.to_nat hi - Z.to_nat lo) (skipn (Z.to_nat lo) l).

(** [p[lo:]] on a slice. *)
Definition slice_from {A : Type} (l : list A) (lo : Z) : list A :=
  skipn (Z.to_nat lo) l.

Definition bytes (s : string) : list byte := list_byte_of_string s.

Fixpoint bytes_eqb (a b : list byte) : bool :=
  match a, b with
  | [], [] => true
  | x :: a', y :: b' => Byte.eqb x y && bytes_eqb a' b'
  | _, _ => false
  end.

(** ** Package unicode/utf8 (Go standard library) *)

Module utf8.

Definition RuneSelf : Z := 0x80.
Definition RuneError : Z := 0xFFFD.
Definition MaxRune : Z := 0x10FFFF.

(** [utf8.DecodeRune].  The library reads the size of the sequence and
    the range accepted for its second byte from the tables [first] and
    [acceptRanges]; the ranges below are those tables' contents. *)
Definition DecodeRune (p : list byte) : Z * Z :=
  match p with
  | [] => (RuneError, 0)
  | c0 :: p1 =>
    let p0 := b2z c0 in
    if p0 <? 0x80 then (p0, 1)                               (* first[p0] = as *)
    else if (p0 <? 0xC2) || (0xF4 <? p0) then (RuneError, 1)  (* first[p0] = xx *)
    else
      let sz := if p0 <? 0xE0 then 2 else if p0 <? 0xF0 then 3 else 4 in
      let lo := if p0 =? 0xE0 then 0xA0 else if p0 =? 0xF0 then 0x90 else 0x80 in
      let hi := if p0 =? 0xED then 0x9F else if p0 =? 0xF4 then 0x8F else 0xBF in
      if len p <? sz then (RuneError, 1)
      else
        match p1 with
        | [] => (RuneError, 1)
        | c1 :: p2 =>
          let b1 := b2z c1 in
          if (b1 <? lo) || (hi <? b1) then (RuneError, 1)
          else if sz <=? 2 then
            (Z.lor (Z.shiftl (Z.land p0 0x1F) 6) (Z.land b1 0x3F), 2)
          else
            match p2 with
            | [] => (RuneError, 1)
            | c2 :: p3 =>
              let b2 := b2z c2 in
              if (b2 <? 0x80) || (0xBF <? b2) then (RuneError, 1)
              else if sz <=? 3 then
                (Z.lor (Z.lor (Z.shiftl (Z.land p0 0x0F) 12)
                              (Z.shiftl (Z.land b1 0x3F) 6))
                       (Z.land b2 0x3F), 3)
              else
                match p3 with
                | [] => (RuneError, 1)
                | c3 :: _ =>
                  let b3 := b2z c3 in
                  if (b3 <? 0x80) || (0xBF <? b3) then (RuneError, 1)
                  else
                    (Z.lor (Z.lor (Z.lor (Z.shiftl (Z.land p0 0x07) 18)
                                         (Z.shiftl (Z.land b1 0x3F) 12))
                                  (Z.shiftl (Z.land b2 0x3F) 6))
                           (Z.land b3 0x3F), 4)
                end
            end
        end
  end.

Definition z2b (z : Z) : byte :=
  match Byte.of_N (Z.to_N z) with Some b => b | None => x00 end.

(** The conversion [string(r)] of a rune: its UTF-8 encoding, and that of
    [RuneError] for a surrogate or an out-of-range value. *)
Definition EncodeRune (r : Z) : list byte :=
  let enc3 (r : Z) :=
    [z2b (Z.lor 0xE0 (Z.shiftr r 12));
     z2b (Z.lor 0x80 (Z.land (Z.shiftr r 6) 0x3F));
     z2b (Z.lor 0x80 (Z.land r 0x3F))] in
  if r <? 0 then enc3 RuneError
  else if r <=? 0x7F then [z2b r]
  else if r <=? 0x7FF then
    [z2b (Z.lor 0xC0 (Z.shiftr r 6)); z2b (Z.lor 0x80 (Z.land r 0x3F))]
  else if (MaxRune <? r) || ((0xD800 <=? r) && (r <=? 0xDFFF)) then enc3 RuneError
  else if r <=? 0xFFFF then enc3 r
  else
    [z2b (Z.lor 0xF0 (Z.shiftr r 18));
     z2b (Z.lor 0x80 (Z.land (Z.shiftr r 12) 0x3F));
     z2b (Z.lor 0x80 (Z.land (Z.shiftr r 6) 0x3F));
     z2b (Z.lor 0x80 (Z.land r 0x3F))].

End utf8.

(** ** Package unicode (Go standard library)

    The scanner consults the Unicode tables through [unicode.IsLetter] and
    [unicode.IsDigit], and [fmt]'s [%#U] verb through [unicode.IsPrint].
    The tables are data of the standard library, so they are taken as
    given. *)

Class UnicodeTables : Type := {
  unicode_IsLetter : Z -> bool;
  unicode_IsDigit : Z -> bool;
  unicode_IsPrint : Z -> bool
}.

(** ** Package token *)

Module token.

(** The token kinds the scanner produces. *)
Inductive Token : Type :=
  | ILLEGAL | EOF | COMMENT
  | IDENT | BOOL | INT | FLOAT | STRING | RAWSTRING
  | ADD | SUB | MUL | QUO | REM
  | AND | OR
  | EQL | LSS | GTR | ASSIGN | NOT
  | NEQ | LEQ | GEQ
  | LPAREN | LBRACK | LBRACE | COMMA | PERIOD
  | RPAREN | RBRACK | RBRACE | COLON.

Definition Token_eqb (a b : Token) : bool :=
  match a, b with
  | ILLEGAL, ILLEGAL | EOF, EOF | COMMENT, COMMENT
  | IDENT, IDENT | BOOL, BOOL | INT, INT | FLOAT, FLOAT
  | STRING, STRING | RAWSTRING, RAWSTRING
  | ADD, ADD | SUB, SUB | MUL, MUL | QUO, QUO | REM, REM
  | AND, AND | OR, OR
  | EQL, EQL | LSS, LSS | GTR, GTR | ASSIGN, ASSIGN | NOT, NOT
  | NEQ, NEQ | LEQ, LEQ | GEQ, GEQ
  | LPAREN, LPAREN | LBRACK, LBRACK | LBRACE, LBRACE | COMMA, COMMA
  | PERIOD, PERIOD | RPAREN, RPAREN | RBRACK, RBRACK | RBRACE, RBRACE
  | COLON, COLON => true
  | _, _ => false
  end.

(** [Pos]: an offset in the space the files of a set share; [0] is no
    position. *)
Definition Pos : Type := Z.

(** Modelled from the spec: the type [Position], which is not among the
    sources. *)
Record Position : Type := mkPosition {
  Filename : string;
  Offset : Z;
  Line : Z;
  Column : Z
}.

(** Modelled from the spec: an alternate-position entry of a [File].  The
    field names are those [FileSet.Read] and [serializedFile] use for
    the table ([Infos]) and those of the entries of [Position]. *)
Record lineInfo : Type := mkLineInfo {
  li_Offset : Z;
  li_Filename : string;
  li_Line : Z
}.

(** A [*FileSet] held by a [File]: the identity of the owning set. *)
Definition FileSetRef : Type := positive.

(** The fields of [File], in the order [FileSet.Read] fills them. *)
Record File : Type := mkFile {
  set : FileSetRef;
  name : string;
  base : Z;
  size : Z;
  lines : list Z;
  infos : list lineInfo
}.

Definition Name (f : File) : string := name f.
Definition Size (f : File) : Z := size f.

(** Modelled from the spec: [File.AddLine], which is not among the
    sources.  The offset is appended when it lies beyond the last
    recorded line start and inside the file; the bound is read as
    [offset < size], which the position [TestScan] expects for the
    end-of-input token requires. *)
Definition AddLine (f : File) (offset : Z) : File :=
  if (match rev (lines f) with [] => true | l :: _ => l <? offset end)
       && (offset <? size f)
  then mkFile (set f) (name f) (base f) (size f) (lines f ++ [offset]) (infos f)
  else f.

(** Modelled from the spec: [File.Pos], the global position of a local
    offset, and [File.Offset], its inverse.  Both require the offset to
    lie in [0, size]. *)
Definition FilePos (f : File) (offset : Z) : Pos := base f + offset.
Definition FileOffset (f : File) (p : Pos) : Z := p - base f.

(** The index of the last entry of an ascending table that is [<= x],
    or [-1]. *)
Fixpoint searchInts (a : list Z) (x : Z) : Z :=
  match a with
  | [] => -1
  | y :: a' => if y <=? x then 1 + searchInts a' x else -1
  end.

Fixpoint searchLineInfos (a : list lineInfo) (x : Z) : Z :=
  match a with
  | [] => -1
  | y :: a' => if li_Offset y <=? x then 1 + searchLineInfos a' x else -1
  end.

(** Modelled from the spec: [File.Position], which is not among the
    sources.  The line is found from the largest line start [<=] the
    local offset, the column counts from that line start, and an
    alternate-position entry at or before the offset replaces the file
    name and rebases the line.  [Offset] holds the local offset, as the
    offsets expected by [TestScanErrors] show. *)
Definition FilePosition (f : File) (p : Pos) : Position :=
  if p =? 0 then mkPosition EmptyString 0 0 0
  else
    let offset := p - base f in
    let i := searchInts (lines f) offset in
    let line := if 0 <=? i then i + 1 else 0 in
    let column :=
      if 0 <=? i then offset - nth (Z.to_nat i) (lines f) 0 + 1 else 0 in
    let j := searchLineInfos (infos f) offset in
    if 0 <=? j then
      let alt := nth (Z.to_nat j) (infos f) (mkLineInfo 0 EmptyString 0) in
      let k := searchInts (lines f) (li_Offset alt) in
      mkPosition (li_Filename alt) offset
                 (if 0 <=? k then line + (li_Line alt - k - 1) else line) column
    else mkPosition (name f) offset line column.

(** ** serialize.go *)

Record serializedFile : Type := mkSerializedFile {
  sf_Name : string;
  sf_Base : Z;
  sf_Size : Z;
  sf_Lines : list Z;
  sf_Infos : list lineInfo
}.

Record serializedFileSet : Type := mkSerializedFileSet {
  ss_Base : Z;
  ss_Files : list serializedFile
}.

(** A [FileSet]: [self] is the identity under which its files refer to
    it.  The mutex is taken and released inside each operation and has
    no effect on a sequential run. *)
Record FileSet : Type := mkFileSet {
  self : FileSetRef;
  fs_base : Z;
  files : list File;
  last : option File
}.

Definition error : Type := option string.

(** [encode] and [decode] are closures over a stream; [W] is the state of
    that stream.  [encode] is handed the value to write; [decode] fills
    the value it is handed, here the zero [serializedFileSet]. *)
Definition Encoder (W : Type) : Type := serializedFileSet -> W -> W * error.
Definition Decoder (W : Type) : Type :=
  serializedFileSet -> W -> serializedFileSet * W * error.

Definition zeroSerializedFileSet : serializedFileSet :=
  mkSerializedFileSet 0 [].

Definition Read {W : Type} (s : FileSet) (decode : Decoder W) (w : W) :
    FileSet * W * error :=
  let '(ss, w', e) := decode zeroSerializedFileSet w in
  match e with
  | Some msg => (s, w', Some msg)
  | None =>
    let files :=
      map (fun f => mkFile (self s) (sf_Name f) (sf_Base f) (sf_Size f)
                           (sf_Lines f) (sf_Infos f))
          (ss_Files ss) in
    (mkFileSet (self s) (ss_Base ss) files None, w', None)
  end.

Definition Write {W : Type} (s : FileSet) (encode : Encoder W) (w : W) :
    W * error :=
  let ss :=
    mkSerializedFileSet
      (fs_base s)
      (map (fun f => mkSerializedFile (name f) (base f) (size f) (lines f) (infos f))
           (files s)) in
  encode ss w.

(** What is persisted of a file. *)
Definition persisted (f : File) : string * Z * Z * list Z * list lineInfo :=
  (name f, base f, size f, lines f, infos f).

End token.

(** ** Package scanner: the state *)

(** A rune constant of the source, ['a'] being [rune "a"]. *)
Definition rune (a : ascii) : Z := Z.of_N (N_of_ascii a).

Definition NL : Z := 10.      (* '\n' *)
Definition TAB : Z := 9.      (* '\t' *)
Definition CR : Z := 13.      (* '\r' *)
Definition DQUOTE : Z := 34.  (* the double quote *)
Definition SQUOTE : Z := rune "'".
Definition BACKSLASH : Z := rune "\".

(** One invocation of the error handler. *)
Record Call : Type := mkCall {
  call_pos : token.Position;
  call_msg : string
}.

(** The scanner.  An [ErrorHandler] is a callback whose effect lies
    outside the scanner; what can be observed of it is the sequence of
    its invocations.  [err] tells whether a handler is installed ([nil]
    is [false]) and [calls] is the trace of the invocations made so far,
    oldest first.  The [File] the scanner points to is held in place. *)
Record Scanner : Type := mkScanner {
  file : token.File;
  dir : string;
  src : list byte;
  err : bool;
  ch : Z;
  offset : Z;
  rdOffset : Z;
  ErrorCount : Z;
  calls : list Call
}.

Definition set_file (f : token.File) (s : Scanner) : Scanner :=
  mkScanner f (dir s) (src s) (err s) (ch s) (offset s) (rdOffset s)
            (ErrorCount s) (calls s).
Definition set_ch (c : Z) (s : Scanner) : Scanner :=
  mkScanner (file s) (dir s) (src s) (err s) c (offset s) (rdOffset s)
            (ErrorCount s) (calls s).
Definition set_offset (o : Z) (s : Scanner) : Scanner :=
  mkScanner (file s) (dir s) (src s) (err s) (ch s) o (rdOffset s)
            (ErrorCount s) (calls s).
Definition set_rdOffset (o : Z) (s : Scanner) : Scanner :=
  mkScanner (file s) (dir s) (src s) (err s) (ch s) (offset s) o
            (ErrorCount s) (calls s).
Definition set_ErrorCount (n : Z) (s : Scanner) : Scanner :=
  mkScanner (file s) (dir s) (src s) (err s) (ch s) (offset s) (rdOffset s)
            n (calls s).
Definition set_calls (l : list Call) (s : Scanner) : Scanner :=
  mkScanner (file s) (dir s) (src s) (err s) (ch s) (offset s) (rdOffset s)
            (ErrorCount s) l.

Definition bom : Z := 0xFEFF.

(** [s.error]: the handler, when there is one, is called with the
    resolved position of [offs]; the count is incremented either way. *)
Definition error (offs : Z) (msg : string) (s : Scanner) : Scanner :=
  let s :=
    if err s then
      set_calls
        (calls s ++
           [mkCall (token.FilePosition (file s) (token.FilePos (file s) offs)) msg])
        s
    else s in
  set_ErrorCount (ErrorCount s + 1) s.

(** [s.next]. *)
Definition next (s : Scanner) : Scanner :=
  if rdOffset s <? len (src s) then
    let s := set_offset (rdOffset s) s in
    let s := if ch s =? NL then set_file (token.AddLine (file s) (offset s)) s else s in
    let r := b2z (nth (Z.to_nat (rdOffset s)) (src s) x00) in
    let w := 1 in
    let '(r, w, s) :=
      if r =? 0 then (r, w, error (offset s) "illegal character NUL" s)
      else if utf8.RuneSelf <=? r then
        let '(r, w) := utf8.DecodeRune (slice_from (src s) (rdOffset s)) in
        if (r =? utf8.RuneError) && (w =? 1) then
          (r, w, error (offset s) "illegal UTF-8 encoding" s)
        else if (r =? bom) && (0 <? offset s) then
          (r, w, error (offset s) "illegal byte order mark" s)
        else (r, w, s)
      else (r, w, s) in
    let s := set_rdOffset (rdOffset s + w) s in
    set_ch r s
  else
    let s := set_offset (len (src s)) s in
    let s := if ch s =? NL then set_file (token.AddLine (file s) (offset s)) s else s in
    set_ch (-1) s.

(** [filepath.Split], for slash-separated paths: the directory part ends
    with the last separator. *)
Fixpoint Split_dir (p : string) : string :=
  match p with
  | EmptyString => EmptyString
  | String c p' =>
    let d := Split_dir p' in
    if (Ascii.eqb c "/") || negb (String.eqb d EmptyString)
    then String c d else EmptyString
  end.

(** The fields as [s.Init] sets them before it reads the first rune. *)
Definition Init_fields (file : token.File) (src : list byte) (err : bool) : Scanner :=
  mkScanner file (Split_dir (token.Name file)) src err (rune " ") 0 0 0 [].

(** [s.Init]: the result is [inl] when the source panics, the file size
    not matching the source; the message, which the source completes with
    the two sizes, is abridged.  Every field is set anew, so the scanner
    that is re-used does not matter; the trace of the handler installed
    here starts empty. *)
Definition Init (file : token.File) (src : list byte) (err : bool) :
    string + Scanner :=
  if negb (token.Size file =? len src) then
    inl "file size does not match src len"%string
  else
    let s := Init_fields file src err in
    let s := next s in
    let s := if ch s =? bom then next s else s in
    inr s.

(** ** Package scanner: the monad of the scanning operations

    The loops of the scanner run on fuel; [None] is a loop that was not
    given enough. *)

Definition M (A : Type) : Type := Scanner -> option (A * Scanner).

Definition ret {A : Type} (a : A) : M A := fun s => Some (a, s).

Definition bind {A B : Type} (m : M A) (k : A -> M B) : M B :=
  fun s => match m s with
           | Some (a, s') => k a s'
           | None => None
           end.

Definition gets {A : Type} (f : Scanner -> A) : M A := fun s => Some (f s, s).

Definition modify (f : Scanner -> Scanner) : M unit := fun s => Some (tt, f s).

Definition out_of_fuel {A : Type} : M A := fun _ => None.

Declare Scope scan_scope.
Delimit Scope scan_scope with scan.
Notation "x <- m ;; k" := (bind m (fun x => k))
  (at level 61, m at next level, right associativity) : scan_scope.
Notation "m ;; k" := (bind m (fun _ => k))
  (at level 61, right associativity) : scan_scope.
Local Open Scope scan_scope.

(** Fuel that covers every loop started in state [s]: each iteration of a
    loop of the scanner calls [next] on a rune that is not end-of-input. *)
Definition budget (s : Scanner) : nat :=
  S (S (Z.to_nat (len (src s) - rdOffset s))).

(** ** Package scanner: the scanning operations *)

Section Scanning.

Context {U : UnicodeTables}.

Definition isLetter (ch : Z) : bool :=
  ((rune "a" <=? ch) && (ch <=? rune "z"))
  || ((rune "A" <=? ch) && (ch <=? rune "Z"))
  || (ch =? rune "_")
  || ((utf8.RuneSelf <=? ch) && unicode_IsLetter ch).

Definition isDigit (ch : Z) : bool :=
  ((rune "0" <=? ch) && (ch <=? rune "9"))
  || ((utf8.RuneSelf <=? ch) && unicode_IsDigit ch).

Definition digitVal (ch : Z) : Z :=
  if (rune "0" <=? ch) && (ch <=? rune "9") then ch - rune "0"
  else if (rune "a" <=? ch) && (ch <=? rune "f") then ch - rune "a" + 10
  else if (rune "A" <=? ch) && (ch <=? rune "F") then ch - rune "A" + 10
  else 16.

(** [fmt]'s [%X] with a minimum of four digits. *)
Fixpoint hex_upper (fuel : nat) (z : Z) (acc : string) : string :=
  match fuel with
  | O => acc
  | S fuel' =>
    if (z =? 0) && (4 <=? Z.of_nat (String.length acc)) then acc
    else
      let d := z mod 16 in
      let c := if d <? 10 then ascii_of_N (Z.to_N (d + 48))
               else ascii_of_N (Z.to_N (d + 55)) in
      hex_upper fuel' (z / 16) (String c acc)
  end.

(** [fmt.Sprintf("%#U", ch)] for a rune that is not negative: the code
    point, followed by the quoted character when it is printable. *)
Definition Sprintf_U (ch : Z) : string :=
  ("U+" ++ hex_upper 16 ch EmptyString
   ++ (if ((ch <=? utf8.MaxRune)%Z && unicode_IsPrint ch)%bool
       then " '" ++ string_of_list_byte (utf8.EncodeRune ch) ++ "'"
       else EmptyString))%string.

Definition msg_illegal_character (ch : Z) : string :=
  ("illegal character " ++ Sprintf_U ch)%string.

Definition msg_illegal_in_escape (ch : Z) : string :=
  ("illegal character " ++ Sprintf_U ch ++ " in escape sequence")%string.

(** The loop [for cond(s.ch) { s.next() }]. *)
Fixpoint next_while (fuel : nat) (cond : Z -> bool) : M unit :=
  match fuel with
  | O => out_of_fuel
  | S fuel' =>
    c <- gets ch ;;
    if cond c then modify next ;; next_while fuel' cond
    else ret tt
  end.

Definition next_loop (cond : Z -> bool) : M unit :=
  n <- gets budget ;;
  next_while n cond.

(** [s.scanComment]: the loop of a block comment. *)
Fixpoint scanComment_block (fuel : nat) : M unit :=
  match fuel with
  | O => out_of_fuel
  | S fuel' =>
    c <- gets ch ;;
    if 0 <=? c then
      modify next ;;
      c' <- gets ch ;;
      if (c =? rune "*") && (c' =? rune "/") then modify next
      else scanComment_block fuel'
    else ret tt
  end.

Definition scanComment : M unit :=
  c <- gets ch ;;
  if c =? rune "/" then
    modify next ;;
    next_loop (fun c => negb (c =? NL) && (0 <=? c))
  else
    modify next ;;
    n <- gets budget ;;
    scanComment_block n.

Definition scanIdentifier : M (list byte) :=
  offs <- gets offset ;;
  next_loop (fun c => isLetter c || isDigit c) ;;
  b <- gets src ;;
  o <- gets offset ;;
  ret (slice b offs o).

Definition scanMantissa (base : Z) : M unit :=
  next_loop (fun c => digitVal c <? base).

(** [scanNumber], from the label [exit]. *)
Definition scanNumber_exit (offs : Z) (tok : token.Token) :
    M (token.Token * list byte) :=
  b <- gets src ;;
  o <- gets offset ;;
  ret (tok, slice b offs o).

(** [scanNumber], from the label [exponent]. *)
Definition scanNumber_exponent (offs : Z) (tok : token.Token) :
    M (token.Token * list byte) :=
  c <- gets ch ;;
  if (c =? rune "e") || (c =? rune "E") then
    modify next ;;
    c' <- gets ch ;;
    (if (c' =? rune "-") || (c' =? rune "+") then modify next else ret tt) ;;
    scanMantissa 10 ;;
    scanNumber_exit offs token.FLOAT
  else scanNumber_exit offs tok.

(** [scanNumber], from the label [fraction]. *)
Definition scanNumber_fraction (offs : Z) (tok : token.Token) :
    M (token.Token * list byte) :=
  c <- gets ch ;;
  if c =? rune "." then
    modify next ;;
    scanMantissa 10 ;;
    scanNumber_exponent offs token.FLOAT
  else scanNumber_exponent offs tok.

Definition scanNumber (seenDecimalPoint : bool) : M (token.Token * list byte) :=
  offs <- gets offset ;;
  let tok := token.INT in
  if seenDecimalPoint then
    let offs := offs - 1 in
    let tok := token.FLOAT in
    scanMantissa 10 ;;
    scanNumber_exponent offs tok
  else
    c <- gets ch ;;
    if c =? rune "0" then
      offs' <- gets offset ;;
      modify next ;;
      c <- gets ch ;;
      if (c =? rune "x") || (c =? rune "X") then
        modify next ;;
        scanMantissa 16 ;;
        o <- gets offset ;;
        (if o - offs' <=? 2 then modify (error offs' "illegal hexadecimal number")
         else ret tt) ;;
        scanNumber_exit offs tok
      else
        scanMantissa 8 ;;
        c <- gets ch ;;
        seenDecimalPoint' <-
          (if (c =? rune "8") || (c =? rune "9")
           then scanMantissa 10 ;; ret true
           else ret false) ;;
        c <- gets ch ;;
        if (c =? rune ".") || (c =? rune "e") || (c =? rune "E") then
          scanNumber_fraction offs tok
        else
          (if seenDecimalPoint' : bool
           then modify (error offs' "illegal octal number")
           else ret tt) ;;
          scanNumber_exit offs tok
    else
      scanMantissa 10 ;;
      scanNumber_fraction offs tok.

Definition wrap32 (z : Z) : Z := z mod 2 ^ 32.

(** [scanEscape]: the loop over the [n] digits.  [None] is the [return
    false] from inside the loop. *)
Fixpoint scanEscape_digits (n : nat) (base : Z) (x : Z) : M (option Z) :=
  match n with
  | O => ret (Some x)
  | S n' =>
    c <- gets ch ;;
    let d := wrap32 (digitVal c) in
    if base <=? d then
      let msg := if c <? 0 then "escape sequence not terminated"%string
                 else msg_illegal_in_escape c in
      o <- gets offset ;;
      modify (error o msg) ;;
      ret None
    else
      modify next ;;
      scanEscape_digits n' base (wrap32 (x * base + d))
  end.

Definition scanEscape (quote : Z) : M bool :=
  offs <- gets offset ;;
  c <- gets ch ;;
  let digits (n : nat) (base max : Z) : M bool :=
    r <- scanEscape_digits n base 0 ;;
    match r with
    | None => ret false
    | Some x =>
      if (max <? x) || ((0xD800 <=? x) && (x <? 0xE000)) then
        modify (error offs "escape sequence is invalid Unicode code point") ;;
        ret false
      else ret true
    end in
  if (c =? rune "a") || (c =? rune "b") || (c =? rune "f") || (c =? rune "n")
     || (c =? rune "r") || (c =? rune "t") || (c =? rune "v")
     || (c =? BACKSLASH) || (c =? quote) then
    modify next ;; ret true
  else if (rune "0" <=? c) && (c <=? rune "7") then
    digits 3%nat 8 255
  else if c =? rune "x" then
    modify next ;; digits 2%nat 16 255
  else if c =? rune "u" then
    modify next ;; digits 4%nat 16 utf8.MaxRune
  else if c =? rune "U" then
    modify next ;; digits 8%nat 16 utf8.MaxRune
  else
    let msg := if c <? 0 then "escape sequence not terminated"%string
               else "unknown escape sequence"%string in
    modify (error offs msg) ;;
    ret false.

Fixpoint scanString_loop (fuel : nat) (quote offs : Z) : M unit :=
  match fuel with
  | O => out_of_fuel
  | S fuel' =>
    c <- gets ch ;;
    if (c =? NL) || (c <? 0) then
      modify (error offs "string literal not terminated")
    else
      modify next ;;
      if c =? quote then ret tt
      else
        (if c =? BACKSLASH then _ <- scanEscape quote ;; ret tt else ret tt) ;;
        scanString_loop fuel' quote offs
  end.

Definition scanString (quote : Z) : M (list byte) :=
  o <- gets offset ;;
  let offs := o - 1 in
  n <- gets budget ;;
  scanString_loop n quote offs ;;
  b <- gets src ;;
  o <- gets offset ;;
  ret (slice b offs o).

Definition skipWhiteSpace : M unit :=
  next_loop (fun c => (c =? rune " ") || (c =? TAB) || (c =? NL) || (c =? CR)).

(** The fallbacks of [Scan] for a rune that starts no token. *)
Definition Scan_illegal (pos : token.Pos) (c : Z) :
    M (token.Pos * token.Token * list byte) :=
  f <- gets file ;;
  modify (error (token.FileOffset f pos) (msg_illegal_character c)) ;;
  ret (pos, token.ILLEGAL, utf8.EncodeRune c).

(** A one-rune token that becomes [tok2] when [second] follows. *)
Definition Scan_pair (pos : token.Pos) (second : Z) (tok2 tok1 : token.Token) :
    M (token.Pos * token.Token * list byte) :=
  c' <- gets ch ;;
  if c' =? second then modify next ;; ret (pos, tok2, [])
  else ret (pos, tok1, []).

(** [Scan]: the inner [switch ch], entered after [s.next()] with the rune
    [c] the token starts with. *)
Definition Scan_switch (pos : token.Pos) (c : Z) :
    M (token.Pos * token.Token * list byte) :=
  if c =? -1 then ret (pos, token.EOF, [])
  else if c =? DQUOTE then
    lit <- scanString DQUOTE ;; ret (pos, token.STRING, lit)
  else if c =? SQUOTE then
    lit <- scanString SQUOTE ;; ret (pos, token.RAWSTRING, lit)
  else if c =? rune ":" then ret (pos, token.COLON, [])
  else if c =? rune "." then
    c' <- gets ch ;;
    if (rune "0" <=? c') && (c' <=? rune "9") then
      r <- scanNumber true ;;
      ret (pos, fst r, snd r)
    else ret (pos, token.PERIOD, [])
  else if c =? rune "," then ret (pos, token.COMMA, [])
  else if c =? rune "(" then ret (pos, token.LPAREN, [])
  else if c =? rune ")" then ret (pos, token.RPAREN, [])
  else if c =? rune "[" then ret (pos, token.LBRACK, [])
  else if c =? rune "]" then ret (pos, token.RBRACK, [])
  else if c =? rune "{" then ret (pos, token.LBRACE, [])
  else if c =? rune "}" then ret (pos, token.RBRACE, [])
  else if c =? rune "+" then ret (pos, token.ADD, [])
  else if c =? rune "-" then ret (pos, token.SUB, [])
  else if c =? rune "*" then ret (pos, token.MUL, [])
  else if c =? rune "/" then
    c' <- gets ch ;;
    if (c' =? rune "/") || (c' =? rune "*") then
      scanComment ;; ret (pos, token.COMMENT, [])
    else ret (pos, token.QUO, [])
  else if c =? rune "%" then ret (pos, token.REM, [])
  else if c =? rune "<" then Scan_pair pos (rune "=") token.LEQ token.LSS
  else if c =? rune ">" then Scan_pair pos (rune "=") token.GEQ token.GTR
  else if c =? rune "=" then Scan_pair pos (rune "=") token.EQL token.ASSIGN
  else if c =? rune "!" then Scan_pair pos (rune "=") token.NEQ token.NOT
  else if c =? rune "&" then
    c' <- gets ch ;;
    if c' =? rune "&" then modify next ;; ret (pos, token.AND, [])
    else Scan_illegal pos c
  else if c =? rune "|" then
    c' <- gets ch ;;
    if c' =? rune "|" then modify next ;; ret (pos, token.OR, [])
    else Scan_illegal pos c
  else
    (* next reports unexpected BOMs - don't repeat. *)
    if negb (c =? bom) then Scan_illegal pos c
    else ret (pos, token.ILLEGAL, utf8.EncodeRune c).

Definition Scan : M (token.Pos * token.Token * list byte) :=
  skipWhiteSpace ;;
  (* Current token start. *)
  o <- gets offset ;;
  f <- gets file ;;
  let pos := token.FilePos f o in
  (* Determine token value. *)
  c <- gets ch ;;
  if isLetter c then
    lit <- scanIdentifier ;;
    if bytes_eqb lit (bytes "true") || bytes_eqb lit (bytes "false")
    then ret (pos, token.BOOL, lit)
    else ret (pos, token.IDENT, lit)
  else if (rune "0" <=? c) && (c <=? rune "9") then
    r <- scanNumber false ;;
    ret (pos, fst r, snd r)
  else
    modify next ;; (* always make progress *)
    Scan_switch pos c.

(** Calling [Scan] until it returns [token.EOF], as the drivers of the
    tests do: the tokens in order, the end-of-input token last. *)
Fixpoint ScanAll (fuel : nat) : M (list (token.Pos * token.Token * list byte)) :=
  match fuel with
  | O => out_of_fuel
  | S fuel' =>
    r <- Scan ;;
    if token.Token_eqb (snd (fst r)) token.EOF then ret [r]
    else rs <- ScanAll fuel' ;; ret (r :: rs)
  end.

End Scanning.

(** ** Notions the properties are stated with *)

(** [AddFile] of a fresh file set, as the tests call it: the file starts
    with the line table holding the first line. *)
Definition NewFile (name : string) (base size : Z) : token.File :=
  token.mkFile 1%positive name base size [0] [].

(** The scanner is at a rune of the source: [ch] is the rune decoded at
    [offset] and [rdOffset] is the offset after it, or the scanner is at
    the end, where [ch] is [-1]. *)
Definition at_rune (s : Scanner) : Prop :=
  offset s < len (src s) /\
  utf8.DecodeRune (slice_from (src s) (offset s))
  = (ch s, rdOffset s - offset s).

Definition at_end (s : Scanner) : Prop :=
  ch s = -1 /\ offset s = len (src s) /\ rdOffset s = len (src s).

(** The invariant of the scanning state that [Init] sets up and every
    operation keeps. *)
Definition Inv (s : Scanner) : Prop :=
  0 <= offset s /\ (at_rune s \/ at_end s).

(** What is left to read, counted in calls of [next] that can still
    change the state. *)
Definition mu (s : Scanner) : nat :=
  Z.to_nat (len (src s) - rdOffset s) + (if 0 <=? ch s then 1%nat else 0%nat).

(** The same scanner without a handler. *)
Definition strip (s : Scanner) : Scanner :=
  mkScanner (file s) (dir s) (src s) false (ch s) (offset s) (rdOffset s)
            (ErrorCount s) [].

(** How many invocations in a trace carry the message [m]. *)
Definition count_msg (m : string) (l : list Call) : Z :=
  len (filter (fun c => String.eqb (call_msg c) m) l).

(** The messages [next] reports. *)
Definition next_msg (m : string) : Prop :=
  m = "illegal character NUL"%string
  \/ m = "illegal UTF-8 encoding"%string
  \/ m = "illegal byte order mark"%string.

(** A relation between the state before and the state after holds along
    every run of [m] that returns. *)
Definition steps (R : Scanner -> Scanner -> Prop) {A : Type} (m : M A) : Prop :=
  forall s a s', m s = Some (a, s') -> R s s'.

(** [m] returns from every state that satisfies [I], in a state that
    satisfies it again. *)
Definition ok (I : Scanner -> Prop) {A : Type} (m : M A) : Prop :=
  forall s, I s -> exists a s', m s = Some (a, s') /\ I s'.

(** [m] does the same with and without a handler. *)
Definition sim {A : Type} (m : M A) : Prop :=
  forall s,
    m (strip s) =
    match m s with
    | Some (a, s') => Some (a, strip s')
    | None => None
    end.

(** The relation every operation of the scanner keeps between the state
    it starts in and the state it leaves: the invariant is kept, the
    source and the handler stay, and the scanner never moves back. *)
Definition forward (s s' : Scanner) : Prop :=
  Inv s ->
  Inv s' /\ src s' = src s /\ err s' = err s /\ token.base (file s') = token.base (file s) /\
  offset s <= offset s' /\ rdOffset s <= rdOffset s' /\ (mu s' <= mu s)%nat.

(** The same with progress: the scanner has moved on. *)
Definition progress (s s' : Scanner) : Prop :=
  Inv s ->
  Inv s' /\ src s' = src s /\ err s' = err s /\ token.base (file s') = token.base (file s) /\
  offset s < offset s' /\ rdOffset s <= rdOffset s' /\ (mu s' < mu s)%nat.

(** The message [next] reports for the rune [r] of width [w] it decodes
    at offset [o], if any. *)
Definition decode_msg (o r w : Z) : option string :=
  if r =? 0 then Some "illegal character NUL"%string
  else if (utf8.RuneSelf <=? r) && (r =? utf8.RuneError) && (w =? 1)
       then Some "illegal UTF-8 encoding"%string
  else if (utf8.RuneSelf <=? r) && (r =? bom) && (0 <? o)
       then Some "illegal byte order mark"%string
  else None.

(** The file after [next] has seen that the rune it leaves was [c]. *)
Definition line_added (c o : Z) (f : token.File) : token.File :=
  if c =? NL then token.AddLine f o else f.

(** The token kinds [Scan] returns a literal for. *)
Definition literal_kind (tok : token.Token) : bool :=
  match tok with
  | token.IDENT | token.BOOL | token.INT | token.FLOAT
  | token.STRING | token.RAWSTRING | token.ILLEGAL => true
  | _ => false
  end.

(** With a handler installed, the error count is the number of its
    invocations: kept from the state before to the state after. *)
Definition counted (s s' : Scanner) : Prop :=
  err s = true -> ErrorCount s = len (calls s) ->
  err s' = true /\ ErrorCount s' = len (calls s').

(** Bytes and the runes they decode to.  A byte below [RuneSelf] is the
    rune itself; any other byte starts, or fails to start, a rune that is
    at least [RuneSelf]. *)
Definition ascii_byte (b : byte) : Prop := b2z b < utf8.RuneSelf.

(** A loop [for cond(s.ch) { s.next() }] goes on over a rune that starts
    with the byte [b]. *)
Definition continues (cond : Z -> bool) (b : byte) : Prop :=
  if b2z b <? utf8.RuneSelf then cond (b2z b) = true
  else forall r, utf8.RuneSelf <= r -> cond r = true.

(** The loop stops in front of the bytes [rest]. *)
Definition stops (cond : Z -> bool) (rest : list byte) : Prop :=
  cond (-1) = false /\
  match rest with
  | [] => True
  | b :: _ =>
    if b2z b <? utf8.RuneSelf then cond (b2z b) = false
    else forall r, utf8.RuneSelf <= r -> cond r = false
  end.

(** No rune that starts in [body] reaches into [rest]. *)
Definition no_straddle (body rest : list byte) : Prop :=
  Forall ascii_byte body \/
  match rest with [] => True | b :: _ => ascii_byte b end.

(** A byte [next] reads without a report: ASCII and not NUL. *)
Definition clean_byte (b : byte) : Prop := 0 < b2z b < utf8.RuneSelf.

Definition clean_head (p : list byte) : Prop :=
  match p with [] => True | b :: _ => clean_byte b end.

(** Nothing was reported from [s] to [s']. *)
Definition silent (s s' : Scanner) : Prop :=
  ErrorCount s' = ErrorCount s /\ calls s' = calls s.

(** The bytes hold the closing mark of a block comment. *)
Fixpoint has_close (p : list byte) : bool :=
  match p with
  | a :: tl =>
    match tl with
    | b :: _ => ((b2z a =? rune "*") && (b2z b =? rune "/")) || has_close tl
    | [] => false
    end
  | [] => false
  end.

(** The message [m] was not reported from [s] to [s']. *)
Definition avoids (m : string) (s s' : Scanner) : Prop :=
  exists l, calls s' = calls s ++ l /\ Forall (fun c => call_msg c <> m) l.

(** A byte of the body of a string that is neither the quote nor a
    newline nor a backslash. *)
Definition plain_byte (quote : Z) (b : byte) : Prop :=
  b2z b <> quote /\ b2z b <> NL /\ b2z b <> BACKSLASH.

(** The bytes are at a newline or at their end. *)
Definition line_end (p : list byte) : Prop :=
  p = [] \/ exists bs, p = x0a :: bs.

Definition not_terminated : string := "string literal not terminated".

(** The bytes hold no newline and no quote that closes the string: a
    quote that follows a backslash does not close it, and is passed over
    together with the backslash, as is a backslash that follows a
    backslash.  These are the bodies of the strings that a newline or the
    end of the input cuts short. *)
Fixpoint open_body (quote : Z) (p : list byte) : bool :=
  match p with
  | [] => true
  | b :: p' =>
    if (b2z b =? NL) || (b2z b =? quote) then false
    else if b2z b =? BACKSLASH then
      match p' with
      | c :: p'' =>
        if (b2z c =? quote) || (b2z c =? BACKSLASH) then open_body quote p''
        else open_body quote p'
      | [] => true
      end
    else open_body quote p'
  end.

(** The escapes with digits: [\NNN], [\xNN], [\uNNNN] and [\UNNNNNNNN]. *)
Inductive EscapeForm : Type := EscOctal | EscX | EscU4 | EscU8.

(** The byte that introduces the digits, if any: an octal escape starts
    with its first digit. *)
Definition esc_intro (k : EscapeForm) : list byte :=
  match k with
  | EscOctal => []
  | EscX => [x78]
  | EscU4 => [x75]
  | EscU8 => [x55]
  end.

Definition esc_n (k : EscapeForm) : nat :=
  match k with EscOctal => 3 | EscX => 2 | EscU4 => 4 | EscU8 => 8 end%nat.

Definition esc_base (k : EscapeForm) : Z :=
  match k with EscOctal => 8 | _ => 16 end.

Definition esc_max (k : EscapeForm) : Z :=
  match k with EscOctal | EscX => 255 | _ => utf8.MaxRune end.

(** The number the digits [ds] denote in [base], after [x]. *)
Definition digits_value (base : Z) (ds : list byte) (x : Z) : Z :=
  fold_left (fun x d => x * base + digitVal (b2z d)) ds x.

Definition invalid_code_point : string :=
  "escape sequence is invalid Unicode code point".

(** The encoding of the byte order mark. *)
Definition bom_bytes : list byte := [xef; xbb; xbf].

Definition illegal_bom : string := "illegal byte order mark".

(** From [s] to [s'] the scanner has kept its invariant and its source
    and has moved forward over bytes none of which is a newline. *)
Definition calm (s s' : Scanner) : Prop :=
  Inv s ->
  Inv s' /\ src s' = src s /\ offset s <= offset s' /\
  Forall (fun b => b2z b <> NL) (slice (src s) (offset s) (offset s')).

(** The bytes of numeric literals. *)
Definition dec_digit (b : byte) : Prop := rune "0" <= b2z b <= rune "9".
Definition digit_8_9 (b : byte) : Prop := b2z b = rune "8" \/ b2z b = rune "9".
Definition oct_digit (b : byte) : Prop := rune "0" <= b2z b <= rune "7".

(** The bytes start with what turns the digits before them into a float. *)
Definition float_mark (p : list byte) : bool :=
  match p with
  | b :: _ => (b2z b =? rune ".") || (b2z b =? rune "e") || (b2z b =? rune "E")
  | [] => false
  end.

(** The bytes do not go on with a decimal digit. *)
Definition no_digit_ahead (p : list byte) : Prop :=
  match p with [] => True | b :: _ => ~ dec_digit b end.

(** Only messages of [next] were reported from [s] to [s']. *)
Definition quiet (s s' : Scanner) : Prop :=
  exists l, calls s' = calls s ++ l /\ Forall (fun c => next_msg (call_msg c)) l.

(** Tables that hold no entry: enough to run inputs whose runes are all
    ASCII, for which [isLetter] and [isDigit] never reach the tables. *)
Definition NoTables : UnicodeTables :=
  {| unicode_IsLetter := fun _ => false;
     unicode_IsDigit := fun _ => false;
     unicode_IsPrint := fun c => (32 <=? c) && (c <? 127) |}.

(** The scanner the tests start from: initialized on [input], registered
    as the first file of a fresh file set, with a handler installed. *)
Definition scanner_of (input : list byte) : Scanner :=
  match Init (NewFile EmptyString 1 (len input)) input true with
  | inr s => s
  | inl _ => Init_fields (NewFile EmptyString 1 (len input)) input true
  end.

(** The kind of a scanned token. *)
Definition tok_of (r : token.Pos * token.Token * list byte) : token.Token :=
  snd (fst r).

(** ** Notions the further properties are stated with *)

(** What an operation of the scanner leaves alone and what it only adds
    to: the source, the directory and the handler stay, the error count
    does not go down, and the trace of the handler is only appended to,
    by as many invocations as errors were counted when there is a
    handler and by none when there is not. *)
Definition extends (s s' : Scanner) : Prop :=
  src s' = src s /\ err s' = err s /\ dir s' = dir s /\
  ErrorCount s <= ErrorCount s' /\
  exists l, calls s' = calls s ++ l /\
            (err s = true -> ErrorCount s' = ErrorCount s + len l) /\
            (err s = false -> l = []).

(** The condition of the loop of [skipWhiteSpace]. *)
Definition white (c : Z) : bool :=
  (c =? rune " ") || (c =? TAB) || (c =? NL) || (c =? CR).

(** The token kinds whose literal is the text of the token. *)
Definition text_kind (tok : token.Token) : bool :=
  match tok with
  | token.IDENT | token.BOOL | token.INT | token.FLOAT
  | token.STRING | token.RAWSTRING => true
  | _ => false
  end.

(** The bytes of identifiers written in ASCII. *)
Definition ascii_letter (b : byte) : Prop :=
  rune "a" <= b2z b <= rune "z" \/ rune "A" <= b2z b <= rune "Z" \/ b2z b = rune "_".

Definition ascii_ident (b : byte) : Prop := ascii_letter b \/ dec_digit b.

(** The bytes do not go on with a letter or a digit, of ASCII or not. *)
Definition ident_end (p : list byte) : Prop :=
  match p with [] => True | b :: _ => ascii_byte b /\ ~ ascii_ident b end.

(** The classification of the text of an identifier. *)
Definition ident_token (lit : list byte) : token.Token :=
  if bytes_eqb lit (bytes "true") || bytes_eqb lit (bytes "false")
  then token.BOOL else token.IDENT.

(** A byte of white space. *)
Definition white_byte (b : byte) : Prop := white (b2z b) = true.

(** The source starts with the encoding of the byte order mark. *)
Definition starts_with_bom (p : list byte) : Prop :=
  exists rest, p = bom_bytes ++ rest.

(** The bytes of hexadecimal literals. *)
Definition hex_digit (b : byte) : Prop :=
  dec_digit b \/ rune "a" <= b2z b <= rune "f" \/ rune "A" <= b2z b <= rune "F".

Definition hex_mark (b : byte) : Prop := b2z b = rune "x" \/ b2z b = rune "X".

(** What the bytes do not go on with. *)
Definition no_hex_ahead (p : list byte) : Prop :=
  match p with [] => True | b :: _ => ~ hex_digit b end.

Definition no_hex_mark_ahead (p : list byte) : Prop :=
  match p with [] => True | b :: _ => ~ hex_mark b end.

(** The parts of a number after its integer digits: a fraction is a
    period and digits; an exponent is [e] or [E], a sign or none, and
    digits.  Either may be missing, and either may be without digits. *)
Definition exp_mark (b : byte) : Prop := b2z b = rune "e" \/ b2z b = rune "E".

Definition sign_byte (b : byte) : Prop := b2z b = rune "+" \/ b2z b = rune "-".

Definition Fraction : Type := option (list byte).

Definition Exponent : Type := option (byte * option byte * list byte).

Definition frac_bytes (fr : Fraction) : list byte :=
  match fr with Some fs => x2e :: fs | None => [] end.

Definition exp_bytes (ex : Exponent) : list byte :=
  match ex with
  | Some (e, sg, es) => e :: match sg with Some c => [c] | None => [] end ++ es
  | None => []
  end.

Definition frac_ok (fr : Fraction) : Prop :=
  match fr with Some fs => Forall dec_digit fs | None => True end.

(** The exponent is one, and it is all of it: what is taken for the sign
    is a sign, and where there is no exponent, or no sign, the bytes that
    follow do not start one. *)
Definition exp_ok (ex : Exponent) (rest : list byte) : Prop :=
  match ex with
  | Some (e, sg, es) =>
    exp_mark e /\ Forall dec_digit es /\
    match sg with
    | Some c => sign_byte c
    | None => match es ++ rest with [] => True | b :: _ => ~ sign_byte b end
    end
  | None => match rest with [] => True | b :: _ => ~ exp_mark b end
  end.

(** The kind of a number with these parts. *)
Definition number_token (fr : Fraction) (ex : Exponent) : token.Token :=
  match fr, ex with None, None => token.INT | _, _ => token.FLOAT end.

(** A leading [0] makes the number octal unless it is a float: then a
    digit [8] or [9] is illegal. *)
Definition illegal_octal (ip : list byte) (fr : Fraction) (ex : Exponent) : bool :=
  match ip, fr, ex with
  | b :: ds, None, None =>
    (b2z b =? rune "0") && existsb (fun d => rune "8" <=? b2z d) ds
  | _, _, _ => false
  end.

Definition no_period_ahead (p : list byte) : Prop :=
  match p with [] => True | b :: _ => b2z b <> rune "." end.

(** The messages [scanEscape] reports, [c] being the rune it stops at. *)
Definition escape_msg {U : UnicodeTables} (m : string) (c : Z) : Prop :=
  m = "unknown escape sequence"%string
  \/ m = "escape sequence not terminated"%string
  \/ m = msg_illegal_in_escape c
  \/ m = invalid_code_point.

(** What a run has added to the trace of the handler: invocations with
    messages of [next], and after them the invocations [own]. *)
Definition reported (own : list Call) (s s' : Scanner) : Prop :=
  err s' = err s /\
  exists l, calls s' = calls s ++ l ++ own /\
            Forall (fun c => next_msg (call_msg c)) l.

(** The body of a string, byte by byte: a plain byte, or a backslash and
    the byte it escapes. *)
Inductive StrItem : Type := Plain (b : byte) | Escaped (c : byte).

Definition item_bytes (i : StrItem) : list byte :=
  match i with Plain b => [b] | Escaped c => [x5c; c] end.

Definition items_bytes (items : list StrItem) : list byte :=
  List.concat (map item_bytes items).

(** The bytes the first case of [scanEscape] accepts. *)
Definition simple_escape (quote : Z) (c : byte) : Prop :=
  b2z c = rune "a" \/ b2z c = rune "b" \/ b2z c = rune "f" \/ b2z c = rune "n"
  \/ b2z c = rune "r" \/ b2z c = rune "t" \/ b2z c = rune "v"
  \/ b2z c = BACKSLASH \/ b2z c = quote.

Definition item_ok (quote : Z) (i : StrItem) : Prop :=
  match i with
  | Plain b => plain_byte quote b
  | Escaped c => simple_escape quote c
  end.

(** * Properties *)

(** ** Bytes, slices and UTF-8 decoding *)

Lemma b2z_range (b : byte) : 0 <= b2z b < 256.
Proof.
  unfold b2z. pose proof (Byte.to_N_bounded b). lia.
Qed.

Lemma len_nonneg {A : Type} (l : list A) : 0 <= len l.
Proof. unfold len. lia. Qed.

Lemma len_cons {A : Type} (a : A) (l : list A) : len (a :: l) = 1 + len l.
Proof. unfold len. simpl List.length. lia. Qed.

Lemma len_app {A : Type} (l l' : list A) : len (l ++ l') = len l + len l'.
Proof. unfold len. rewrite length_app. lia. Qed.

Lemma lor_lower (a b : Z) : 0 <= a -> 0 <= b -> a <= Z.lor a b.
Proof.
  intros Ha Hb.
  assert (E : Z.lor a b = a + Z.ldiff b a).
  { rewrite <- (Z.add_lor_land a (Z.ldiff b a)).
    replace (Z.land a (Z.ldiff b a)) with 0.
    - rewrite Z.add_0_r. apply Z.bits_inj'. intros n Hn.
      rewrite !Z.lor_spec, Z.ldiff_spec.
      destruct (Z.testbit a n), (Z.testbit b n); reflexivity.
    - symmetry. apply Z.bits_inj'. intros n Hn.
      rewrite Z.land_spec, Z.ldiff_spec, Z.bits_0.
      destruct (Z.testbit a n), (Z.testbit b n); reflexivity. }
  rewrite E. pose proof (proj2 (Z.ldiff_nonneg b a) (or_introl Hb)). lia.
Qed.

Lemma lor_lower_r (a b : Z) : 0 <= a -> 0 <= b -> b <= Z.lor a b.
Proof. intros. rewrite Z.lor_comm. now apply lor_lower. Qed.

Lemma land_mask_range (a n : Z) : 0 <= n -> 0 <= Z.land a (Z.ones n) < 2 ^ n.
Proof.
  intros Hn. rewrite Z.land_ones by assumption.
  apply Z.mod_pos_bound. apply Z.pow_pos_nonneg; lia.
Qed.

Lemma land_1F (a : Z) : Z.land a 0x1F = a mod 32.
Proof. change 0x1F with (Z.ones 5). now rewrite Z.land_ones. Qed.

Lemma land_0F (a : Z) : Z.land a 0x0F = a mod 16.
Proof. change 0x0F with (Z.ones 4). now rewrite Z.land_ones. Qed.

Lemma land_07 (a : Z) : Z.land a 0x07 = a mod 8.
Proof. change 0x07 with (Z.ones 3). now rewrite Z.land_ones. Qed.

Lemma land_3F (a : Z) : Z.land a 0x3F = a mod 64.
Proof. change 0x3F with (Z.ones 6). now rewrite Z.land_ones. Qed.

Ltac zl := Z.div_mod_to_equations; lia.
Ltac len_pos :=
  repeat match goal with
         | |- context [len ?l] =>
           lazymatch goal with
           | H : 0 <= len l |- _ => fail
           | _ => pose proof (len_nonneg l)
           end
         end.
Ltac fin :=
  cbn [fst snd orb]; rewrite ?len_cons; change (len (@nil byte)) with 0 in *;
  len_pos; lia.
Ltac stepif H :=
  match goal with |- context [if ?c then (?e, 1) else _] =>
    destruct c eqn:H; [fin|] end.
Lemma lor_nonneg' (a b : Z) : 0 <= a -> 0 <= b -> 0 <= Z.lor a b.
Proof. intros. now apply Z.lor_nonneg. Qed.

Lemma DecodeRune_cons (b : byte) (tl : list byte) :
  let r := fst (utf8.DecodeRune (b :: tl)) in
  let w := snd (utf8.DecodeRune (b :: tl)) in
  1 <= w <= len (b :: tl) /\
  (b2z b < utf8.RuneSelf -> r = b2z b /\ w = 1) /\
  (utf8.RuneSelf <= b2z b -> utf8.RuneSelf <= r).
Proof.
  pose proof (b2z_range b) as Hb.
  cbv zeta. unfold utf8.DecodeRune, utf8.RuneSelf, utf8.RuneError.
  rewrite !len_cons.
  pose proof (len_nonneg tl) as Htl.
  destruct (Z.ltb_spec (b2z b) 0x80) as [H0|H0]; [fin|].
  destruct (Z.ltb_spec (b2z b) 0xC2) as [H1|H1]; [fin|].
  destruct (Z.ltb_spec 0xF4 (b2z b)) as [H2|H2]; [fin|].
  cbv [orb].
  destruct (Z.ltb_spec (b2z b) 0xE0) as [H3|H3];
    [|destruct (Z.ltb_spec (b2z b) 0xF0) as [H4|H4]].
  - (* two bytes *)
    stepif Hlen. apply Z.ltb_ge in Hlen.
    destruct tl as [|c1 p2]; [fin|].
    pose proof (b2z_range c1) as Hc1.
    rewrite !len_cons in *. pose proof (len_nonneg p2) as Hp2.
    stepif Hacc. apply orb_false_elim in Hacc. destruct Hacc as [Hlo Hhi].
    assert (Hb1 : 0x80 <= b2z c1 <= 0xBF).
    { revert Hlo Hhi.
      repeat match goal with |- context [if ?c then _ else _] => destruct c end;
        intros Hlo Hhi; apply Z.ltb_ge in Hlo, Hhi; lia. }
    change (2 <=? 2) with true. cbv iota. cbn [fst snd].
    split; [lia|]. split; [lia|]. intros _.
    rewrite land_1F, land_3F, Z.shiftl_mul_pow2 by lia.
    change (2 ^ 6) with 64.
    etransitivity; [|apply lor_lower]; zl.
  - (* three bytes *)
    stepif Hlen. apply Z.ltb_ge in Hlen.
    destruct tl as [|c1 p2]; [fin|].
    pose proof (b2z_range c1) as Hc1.
    rewrite !len_cons in *. pose proof (len_nonneg p2) as Hp2.
    stepif Hacc. apply orb_false_elim in Hacc. destruct Hacc as [Hlo Hhi].
    assert (Hb1 : 0x80 <= b2z c1 <= 0xBF).
    { revert Hlo Hhi.
      repeat match goal with |- context [if ?c then _ else _] => destruct c end;
        intros Hlo Hhi; apply Z.ltb_ge in Hlo, Hhi; lia. }
    change (3 <=? 2) with false. change (3 <=? 3) with true. cbv iota.
    destruct p2 as [|c2 p3]; [fin|].
    pose proof (b2z_range c2) as Hc2.
    stepif Hacc2.
    cbn [fst snd]. rewrite !len_cons. pose proof (len_nonneg p3).
    split; [lia|]. split; [lia|]. intros _.
    rewrite land_0F, !land_3F, !Z.shiftl_mul_pow2 by lia.
    change (2 ^ 12) with 4096. change (2 ^ 6) with 64.
    etransitivity; [|apply lor_lower]; try zl.
    2:{ repeat apply lor_nonneg'; zl. }
    destruct (Z.eqb_spec (b2z b) 0xE0) as [He|He].
    + assert (0xA0 <= b2z c1) by (apply Z.ltb_ge in Hlo; lia).
      etransitivity; [|apply lor_lower_r]; zl.
    + etransitivity; [|apply lor_lower]; zl.
  - (* four bytes *)
    stepif Hlen. apply Z.ltb_ge in Hlen.
    destruct tl as [|c1 p2]; [fin|].
    pose proof (b2z_range c1) as Hc1.
    rewrite !len_cons in *. pose proof (len_nonneg p2) as Hp2.
    stepif Hacc. apply orb_false_elim in Hacc. destruct Hacc as [Hlo Hhi].
    assert (Hb1 : 0x80 <= b2z c1 <= 0xBF).
    { revert Hlo Hhi.
      repeat match goal with |- context [if ?c then _ else _] => destruct c end;
        intros Hlo Hhi; apply Z.ltb_ge in Hlo, Hhi; lia. }
    change (4 <=? 2) with false. change (4 <=? 3) with false. cbv iota.
    destruct p2 as [|c2 p3]; [fin|].
    pose proof (b2z_range c2) as Hc2.
    rewrite !len_cons in *. pose proof (len_nonneg p3) as Hp3.
    stepif Hacc2.
    destruct p3 as [|c3 p4]; [fin|].
    pose proof (b2z_range c3) as Hc3.
    stepif Hacc3.
    cbn [fst snd]. rewrite !len_cons. pose proof (len_nonneg p4).
    split; [lia|]. split; [lia|]. intros _.
    rewrite land_07, !land_3F, !Z.shiftl_mul_pow2 by lia.
    change (2 ^ 18) with 262144. change (2 ^ 12) with 4096. change (2 ^ 6) with 64.
    etransitivity; [|apply lor_lower]; try zl.
    2:{ repeat apply lor_nonneg'; zl. }
    etransitivity; [|apply lor_lower]; try zl.
    2:{ repeat apply lor_nonneg'; zl. }
    destruct (Z.eqb_spec (b2z b) 0xF0) as [He|He].
    + assert (0x90 <= b2z c1).
      { destruct (Z.eqb_spec (b2z b) 224); [lia|]. apply Z.ltb_ge in Hlo; lia. }
      etransitivity; [|apply lor_lower_r]; zl.
    + etransitivity; [|apply lor_lower]; zl.
Qed.

Lemma DecodeRune_width (p : list byte) :
  p <> [] -> 1 <= snd (utf8.DecodeRune p) <= len p.
Proof.
  destruct p as [|b tl]; [congruence|]. intros _.
  apply (DecodeRune_cons b tl).
Qed.

Lemma DecodeRune_nonneg (p : list byte) : 0 <= fst (utf8.DecodeRune p).
Proof.
  destruct p as [|b tl]; [simpl; unfold utf8.RuneError; lia|].
  pose proof (DecodeRune_cons b tl) as (_ & H1 & H2).
  pose proof (b2z_range b). unfold utf8.RuneSelf in *.
  destruct (Z.lt_ge_cases (b2z b) 0x80) as [Hlt|Hge].
  - destruct (H1 Hlt) as [-> _]. lia.
  - specialize (H2 Hge). lia.
Qed.

Lemma slice_from_nonempty {A : Type} (l : list A) (o : Z) :
  0 <= o -> o < len l -> slice_from l o <> [].
Proof.
  unfold slice_from, len. intros H0 H1 E.
  apply (f_equal (@List.length A)) in E. rewrite length_skipn in E. simpl in E. lia.
Qed.

Lemma len_slice_from {A : Type} (l : list A) (o : Z) :
  0 <= o <= len l -> len (slice_from l o) = len l - o.
Proof.
  unfold slice_from, len. intros H. rewrite length_skipn. lia.
Qed.

Lemma skipn_nth {A : Type} (l : list A) (n : nat) (d : A) :
  (n < List.length l)%nat -> skipn n l = nth n l d :: skipn (S n) l.
Proof.
  revert n. induction l as [|a l IH]; intros n Hn; simpl in Hn; [lia|].
  destruct n as [|n]; [reflexivity|].
  simpl. apply IH. lia.
Qed.

Lemma DecodeRune_ascii (b : byte) (tl : list byte) :
  b2z b < utf8.RuneSelf -> utf8.DecodeRune (b :: tl) = (b2z b, 1).
Proof.
  intros H. unfold utf8.DecodeRune.
  destruct (Z.ltb_spec (b2z b) 0x80); [reflexivity|].
  unfold utf8.RuneSelf in H. lia.
Qed.

Lemma next_unfold (s : Scanner) :
  0 <= rdOffset s ->
  next s =
  if rdOffset s <? len (src s) then
    let rw := utf8.DecodeRune (slice_from (src s) (rdOffset s)) in
    let s1 := set_offset (rdOffset s) s in
    let s2 := if ch s =? NL then set_file (token.AddLine (file s) (rdOffset s)) s1 else s1 in
    let s3 :=
      if fst rw =? 0 then error (rdOffset s) "illegal character NUL" s2
      else if (utf8.RuneSelf <=? fst rw) && (fst rw =? utf8.RuneError) && (snd rw =? 1)
        then error (rdOffset s) "illegal UTF-8 encoding" s2
      else if (utf8.RuneSelf <=? fst rw) && (fst rw =? bom) && (0 <? rdOffset s)
        then error (rdOffset s) "illegal byte order mark" s2
      else s2 in
    set_ch (fst rw) (set_rdOffset (rdOffset s + snd rw) s3)
  else
    let s1 := set_offset (len (src s)) s in
    let s2 := if ch s =? NL then set_file (token.AddLine (file s) (len (src s))) s1 else s1 in
    set_ch (-1) s2.
Proof.
  intros Hrd. unfold next.
  destruct (Z.ltb_spec (rdOffset s) (len (src s))) as [Hlt|Hge]; [|reflexivity].
  cbv zeta.
  assert (Hn : (Z.to_nat (rdOffset s) < List.length (src s))%nat)
    by (unfold len in Hlt; lia).
  unfold slice_from.
  replace (src (if ch (set_offset (rdOffset s) s) =? NL
                then set_file (token.AddLine (file (set_offset (rdOffset s) s))
                                 (offset (set_offset (rdOffset s) s)))
                       (set_offset (rdOffset s) s)
                else set_offset (rdOffset s) s)) with (src s)
    by (destruct (ch (set_offset (rdOffset s) s) =? NL); reflexivity).
  replace (rdOffset (if ch (set_offset (rdOffset s) s) =? NL
                then set_file (token.AddLine (file (set_offset (rdOffset s) s))
                                 (offset (set_offset (rdOffset s) s)))
                       (set_offset (rdOffset s) s)
                else set_offset (rdOffset s) s)) with (rdOffset s)
    by (destruct (ch (set_offset (rdOffset s) s) =? NL); reflexivity).
  replace (offset (if ch (set_offset (rdOffset s) s) =? NL
                then set_file (token.AddLine (file (set_offset (rdOffset s) s))
                                 (offset (set_offset (rdOffset s) s)))
                       (set_offset (rdOffset s) s)
                else set_offset (rdOffset s) s)) with (rdOffset s)
    by (destruct (ch (set_offset (rdOffset s) s) =? NL); reflexivity).
  cbn [ch set_offset file offset].
  rewrite (skipn_nth (src s) _ x00 Hn).
  set (b := nth (Z.to_nat (rdOffset s)) (src s) x00).
  set (tl := skipn (S (Z.to_nat (rdOffset s))) (src s)).
  pose proof (DecodeRune_cons b tl) as (Hw & Hlo & Hhi).
  pose proof (b2z_range b) as Hb.
  assert (Fin : forall (m : string) (r w : Z),
    set_ch r (set_rdOffset
      (rdOffset (error (rdOffset s) m
         (if ch s =? NL
          then set_file (token.AddLine (file s) (rdOffset s)) (set_offset (rdOffset s) s)
          else set_offset (rdOffset s) s)) + w)
      (error (rdOffset s) m
         (if ch s =? NL
          then set_file (token.AddLine (file s) (rdOffset s)) (set_offset (rdOffset s) s)
          else set_offset (rdOffset s) s)))
    = set_ch r (set_rdOffset (rdOffset s + w)
      (error (rdOffset s) m
         (if ch s =? NL
          then set_file (token.AddLine (file s) (rdOffset s)) (set_offset (rdOffset s) s)
          else set_offset (rdOffset s) s)))).
  { intros m r w. destruct (ch s =? NL); unfold error; cbn;
      destruct (err s); reflexivity. }
  assert (Fin' : forall (r w : Z),
    set_ch r (set_rdOffset
      (rdOffset
         (if ch s =? NL
          then set_file (token.AddLine (file s) (rdOffset s)) (set_offset (rdOffset s) s)
          else set_offset (rdOffset s) s) + w)
         (if ch s =? NL
          then set_file (token.AddLine (file s) (rdOffset s)) (set_offset (rdOffset s) s)
          else set_offset (rdOffset s) s))
    = set_ch r (set_rdOffset (rdOffset s + w)
         (if ch s =? NL
          then set_file (token.AddLine (file s) (rdOffset s)) (set_offset (rdOffset s) s)
          else set_offset (rdOffset s) s))).
  { intros r w. destruct (ch s =? NL); reflexivity. }
  destruct (Z.eqb_spec (b2z b) 0) as [H0|H0].
  - rewrite (DecodeRune_ascii b tl) by (unfold utf8.RuneSelf; lia).
    cbn [fst snd]. rewrite H0. change (0 =? 0) with true. cbv iota. apply Fin.
  - destruct (Z.leb_spec utf8.RuneSelf (b2z b)) as [H1|H1].
    + specialize (Hhi H1).
      destruct (utf8.DecodeRune (b :: tl)) as [r w]. cbn [fst snd] in *.
      destruct (Z.eqb_spec r 0) as [Hr|Hr]; [unfold utf8.RuneSelf in *; lia|].
      destruct (Z.leb_spec utf8.RuneSelf r); [|lia].
      cbn [andb].
      destruct ((r =? utf8.RuneError) && (w =? 1)); [apply Fin|].
      destruct ((r =? bom) && (0 <? rdOffset s)); [apply Fin|apply Fin'].
    + rewrite (DecodeRune_ascii b tl) by lia.
      cbn [fst snd].
      destruct (Z.eqb_spec (b2z b) 0); [lia|].
      destruct (Z.leb_spec utf8.RuneSelf (b2z b)); [lia|].
      apply Fin'.
Qed.

(** ** Relations kept along every run *)

Create HintDb scan_steps.

Section Steps.

Context {U : UnicodeTables}.
Variable R : Scanner -> Scanner -> Prop.
Hypothesis R_refl : forall s, R s s.
Hypothesis R_trans : forall a b c, R a b -> R b c -> R a c.
Hypothesis R_next : forall s, R s (next s).
Hypothesis R_error : forall o m s, R s (error o m s).

Lemma steps_ret {A : Type} (a : A) : steps R (ret a).
Proof. intros s a' s' H. inversion H; subst. apply R_refl. Qed.

Lemma steps_gets {A : Type} (f : Scanner -> A) : steps R (gets f).
Proof. intros s a' s' H. inversion H; subst. apply R_refl. Qed.

Lemma steps_next : steps R (modify next).
Proof. intros s a' s' H. inversion H; subst. apply R_next. Qed.

Lemma steps_error (o : Z) (m : string) : steps R (modify (error o m)).
Proof. intros s a' s' H. inversion H; subst. apply R_error. Qed.

Lemma steps_out_of_fuel {A : Type} : steps R (@out_of_fuel A).
Proof. intros s a' s' H. discriminate. Qed.

Lemma steps_bind {A B : Type} (m : M A) (k : A -> M B) :
  steps R m -> (forall a, steps R (k a)) -> steps R (bind m k).
Proof.
  intros Hm Hk s b s' H. unfold bind in H.
  destruct (m s) as [[a s1]|] eqn:E; [|discriminate].
  eapply R_trans; [eapply Hm; eassumption | eapply Hk; eassumption].
Qed.

Ltac steps_tac :=
  repeat first
    [ apply steps_ret | apply steps_gets | apply steps_next
    | apply steps_error | apply steps_out_of_fuel
    | progress cbv beta zeta
    | apply steps_bind; [|intro]
    | match goal with |- steps _ (if ?b then _ else _) => destruct b end
    | match goal with |- steps _ (match ?x with _ => _ end) => destruct x end
    | solve [auto with scan_steps] ].

Lemma steps_next_while (n : nat) (cond : Z -> bool) : steps R (next_while n cond).
Proof. induction n; simpl; steps_tac. Qed.

Lemma steps_scanComment_block (n : nat) : steps R (scanComment_block n).
Proof. induction n; simpl; steps_tac. Qed.

Lemma steps_next_loop (cond : Z -> bool) : steps R (next_loop cond).
Proof. unfold next_loop. steps_tac. auto using steps_next_while. Qed.

#[local] Hint Resolve steps_next_while steps_next_loop steps_scanComment_block : scan_steps.

Lemma steps_scanComment : steps R scanComment.
Proof. unfold scanComment. steps_tac. Qed.

#[local] Hint Resolve steps_scanComment : scan_steps.

Lemma steps_scanIdentifier : steps R scanIdentifier.
Proof. unfold scanIdentifier. steps_tac. Qed.

#[local] Hint Resolve steps_scanIdentifier : scan_steps.

Lemma steps_scanMantissa (base : Z) : steps R (scanMantissa base).
Proof. unfold scanMantissa. steps_tac. Qed.

#[local] Hint Resolve steps_scanMantissa : scan_steps.

Lemma steps_scanNumber_exit (offs : Z) (tok : token.Token) :
  steps R (scanNumber_exit offs tok).
Proof. unfold scanNumber_exit. steps_tac. Qed.

#[local] Hint Resolve steps_scanNumber_exit : scan_steps.

Lemma steps_scanNumber_exponent (offs : Z) (tok : token.Token) :
  steps R (scanNumber_exponent offs tok).
Proof. unfold scanNumber_exponent. steps_tac. Qed.

#[local] Hint Resolve steps_scanNumber_exponent : scan_steps.

Lemma steps_scanNumber_fraction (offs : Z) (tok : token.Token) :
  steps R (scanNumber_fraction offs tok).
Proof. unfold scanNumber_fraction. steps_tac. Qed.

#[local] Hint Resolve steps_scanNumber_fraction : scan_steps.

Lemma steps_scanNumber (seen : bool) : steps R (scanNumber seen).
Proof. unfold scanNumber. steps_tac. Qed.

Lemma steps_scanEscape_digits (n : nat) (base x : Z) :
  steps R (scanEscape_digits n base x).
Proof. revert x. induction n; intros x; simpl; steps_tac. Qed.

#[local] Hint Resolve steps_scanNumber steps_scanEscape_digits : scan_steps.

Lemma steps_scanEscape (quote : Z) : steps R (scanEscape quote).
Proof. unfold scanEscape. steps_tac. Qed.

#[local] Hint Resolve steps_scanEscape : scan_steps.

Lemma steps_scanString_loop (n : nat) (quote offs : Z) :
  steps R (scanString_loop n quote offs).
Proof. induction n; simpl; steps_tac. Qed.

#[local] Hint Resolve steps_scanString_loop : scan_steps.

Lemma steps_scanString (quote : Z) : steps R (scanString quote).
Proof. unfold scanString. steps_tac. Qed.

#[local] Hint Resolve steps_scanString : scan_steps.

Lemma steps_skipWhiteSpace : steps R skipWhiteSpace.
Proof. unfold skipWhiteSpace. steps_tac. Qed.

Lemma steps_Scan_illegal (pos c : Z) : steps R (Scan_illegal pos c).
Proof. unfold Scan_illegal. steps_tac. Qed.

Lemma steps_Scan_pair (pos second : Z) (tok2 tok1 : token.Token) :
  steps R (Scan_pair pos second tok2 tok1).
Proof. unfold Scan_pair. steps_tac. Qed.

#[local] Hint Resolve steps_skipWhiteSpace steps_Scan_illegal steps_Scan_pair : scan_steps.

Lemma steps_Scan_switch (pos c : Z) : steps R (Scan_switch pos c).
Proof. unfold Scan_switch. steps_tac. Qed.

#[local] Hint Resolve steps_Scan_switch : scan_steps.

Lemma steps_Scan : steps R Scan.
Proof. unfold Scan. steps_tac. Qed.

#[local] Hint Resolve steps_Scan : scan_steps.

Lemma steps_ScanAll (n : nat) : steps R (ScanAll n).
Proof. induction n; simpl; steps_tac. Qed.

End Steps.

(** ** The advance step *)

Ltac rec_simpl :=
  cbn [file dir src err ch offset rdOffset ErrorCount calls
       set_file set_ch set_offset set_rdOffset set_ErrorCount set_calls].

(** Case analysis on the conditions of a goal, innermost first. *)
Ltac break_ifs :=
  cbv beta iota zeta; rec_simpl;
  repeat (match goal with
          | |- context [if ?c then _ else _] =>
            lazymatch c with
            | context [if _ then _ else _] => fail
            | context [utf8.DecodeRune _] => fail
            | _ => destruct c
            end
          | |- context [utf8.DecodeRune ?p] =>
            lazymatch p with
            | context [if _ then _ else _] => fail
            | _ => destruct (utf8.DecodeRune p)
            end
          end; cbv beta iota zeta; rec_simpl).

Lemma error_fields (o : Z) (m : string) (s : Scanner) :
  src (error o m s) = src s /\ err (error o m s) = err s /\
  file (error o m s) = file s /\ ch (error o m s) = ch s /\
  offset (error o m s) = offset s /\ rdOffset (error o m s) = rdOffset s /\
  ErrorCount (error o m s) = ErrorCount s + 1 /\
  calls (error o m s) =
    calls s ++ (if err s
                then [mkCall (token.FilePosition (file s) (token.FilePos (file s) o)) m]
                else []).
Proof.
  destruct s as [f d b e c o' r n l]. unfold error. destruct e; cbn;
    rewrite ?app_nil_r; repeat split; reflexivity.
Qed.

Lemma next_src (s : Scanner) : src (next s) = src s.
Proof.
  destruct s as [f d b e c o r n l]. unfold next, error.
  rec_simpl. break_ifs; rec_simpl; reflexivity.
Qed.

Lemma next_err (s : Scanner) : err (next s) = err s.
Proof.
  destruct s as [f d b e c o r n l]. unfold next, error.
  rec_simpl. break_ifs; rec_simpl; reflexivity.
Qed.

Lemma AddLine_base (f : token.File) (o : Z) :
  token.base (token.AddLine f o) = token.base f.
Proof. unfold token.AddLine. break_ifs; reflexivity. Qed.

Lemma AddLine_size (f : token.File) (o : Z) :
  token.size (token.AddLine f o) = token.size f.
Proof. unfold token.AddLine. break_ifs; reflexivity. Qed.

Lemma next_base (s : Scanner) : token.base (file (next s)) = token.base (file s).
Proof.
  destruct s as [f d b e c o r n l]. unfold next, error.
  rec_simpl. break_ifs; rec_simpl; rewrite ?AddLine_base; reflexivity.
Qed.

(** [next] on a scanner that has bytes left to read. *)
Lemma next_read (s : Scanner) :
  0 <= rdOffset s -> rdOffset s < len (src s) ->
  let r := fst (utf8.DecodeRune (slice_from (src s) (rdOffset s))) in
  let w := snd (utf8.DecodeRune (slice_from (src s) (rdOffset s))) in
  let f := line_added (ch s) (rdOffset s) (file s) in
  ch (next s) = r /\ offset (next s) = rdOffset s /\
  rdOffset (next s) = rdOffset s + w /\
  file (next s) = f /\
  ErrorCount (next s) =
    ErrorCount s + (match decode_msg (rdOffset s) r w with Some _ => 1 | None => 0 end) /\
  calls (next s) =
    calls s ++
    (match decode_msg (rdOffset s) r w with
     | Some m =>
       if err s
       then [mkCall (token.FilePosition f (token.FilePos f (rdOffset s))) m]
       else []
     | None => []
     end).
Proof.
  intros H0 H1. cbv zeta. rewrite (next_unfold s H0).
  destruct (Z.ltb_spec (rdOffset s) (len (src s))) as [_|]; [|lia].
  cbv zeta. unfold decode_msg, line_added.
  destruct (utf8.DecodeRune (slice_from (src s) (rdOffset s))) as [r w].
  cbn [fst snd].
  destruct s as [f d b e c o rd n l]. rec_simpl.
  destruct (c =? NL);
  destruct (r =? 0); [| destruct ((utf8.RuneSelf <=? r) && (r =? utf8.RuneError) && (w =? 1));
                       [| destruct ((utf8.RuneSelf <=? r) && (r =? bom) && (0 <? rd)) ] |
                      | destruct ((utf8.RuneSelf <=? r) && (r =? utf8.RuneError) && (w =? 1));
                       [| destruct ((utf8.RuneSelf <=? r) && (r =? bom) && (0 <? rd)) ] ];
  unfold error; rec_simpl; destruct e; rec_simpl; rewrite ?app_nil_r, ?Z.add_0_r;
  repeat split; reflexivity.
Qed.

(** [next] on a scanner that has read everything. *)
Lemma next_eof (s : Scanner) :
  len (src s) <= rdOffset s ->
  ch (next s) = -1 /\ offset (next s) = len (src s) /\
  rdOffset (next s) = rdOffset s /\
  file (next s) = line_added (ch s) (len (src s)) (file s) /\
  ErrorCount (next s) = ErrorCount s /\ calls (next s) = calls s.
Proof.
  intros H. unfold next, line_added.
  destruct (Z.ltb_spec (rdOffset s) (len (src s))); [lia|].
  destruct s as [f d b e c o rd n l]. rec_simpl.
  destruct (c =? NL); rec_simpl; repeat split; reflexivity.
Qed.

(** ** The invariant *)

Lemma at_rune_bounds (s : Scanner) :
  0 <= offset s -> at_rune s ->
  0 <= ch s /\ offset s < rdOffset s <= len (src s).
Proof.
  intros H0 [Hlt Hd].
  pose proof (slice_from_nonempty (src s) (offset s) H0 Hlt) as Hne.
  pose proof (DecodeRune_width _ Hne) as Hw.
  pose proof (DecodeRune_nonneg (slice_from (src s) (offset s))) as Hr.
  rewrite Hd in Hw, Hr. cbn [fst snd] in Hw, Hr.
  rewrite len_slice_from in Hw by lia. lia.
Qed.

Lemma Inv_bounds (s : Scanner) :
  Inv s ->
  0 <= offset s <= rdOffset s /\ rdOffset s <= len (src s) /\ -1 <= ch s.
Proof.
  intros [H0 [Hr|(Hc & Ho & Hrd)]].
  - pose proof (at_rune_bounds s H0 Hr). lia.
  - lia.
Qed.

Lemma Inv_rune (s : Scanner) :
  Inv s -> ch s <> -1 ->
  at_rune s /\ 0 <= ch s /\ offset s < rdOffset s <= len (src s).
Proof.
  intros [H0 [Hr|(Hc & _)]] Hne; [|congruence].
  split; [assumption|]. now apply at_rune_bounds.
Qed.

Lemma Inv_end (s : Scanner) : Inv s -> ch s = -1 -> at_end s.
Proof.
  intros [H0 [Hr|He]] Hc; [|assumption].
  pose proof (at_rune_bounds s H0 Hr). lia.
Qed.

Lemma forward_refl (s : Scanner) : forward s s.
Proof. intros H. split; [exact H|]. repeat split; lia. Qed.

Lemma forward_trans (a b c : Scanner) : forward a b -> forward b c -> forward a c.
Proof.
  intros Hab Hbc Ha.
  destruct (Hab Ha) as (Hb & E1 & E2 & E3 & L1 & L2 & L3).
  destruct (Hbc Hb) as (Hc & F1 & F2 & F3 & M1 & M2 & M3).
  split; [exact Hc|]. repeat split; try congruence; lia.
Qed.

Lemma progress_forward (a b : Scanner) : progress a b -> forward a b.
Proof.
  intros H Ha. destruct (H Ha) as (Hb & E1 & E2 & E3 & L1 & L2 & L3).
  split; [exact Hb|]. repeat split; auto; lia.
Qed.

Lemma progress_trans_l (a b c : Scanner) : progress a b -> forward b c -> progress a c.
Proof.
  intros Hab Hbc Ha.
  destruct (Hab Ha) as (Hb & E1 & E2 & E3 & L1 & L2 & L3).
  destruct (Hbc Hb) as (Hc & F1 & F2 & F3 & M1 & M2 & M3).
  split; [exact Hc|]. repeat split; try congruence; lia.
Qed.

Lemma progress_trans_r (a b c : Scanner) : forward a b -> progress b c -> progress a c.
Proof.
  intros Hab Hbc Ha.
  destruct (Hab Ha) as (Hb & E1 & E2 & E3 & L1 & L2 & L3).
  destruct (Hbc Hb) as (Hc & F1 & F2 & F3 & M1 & M2 & M3).
  split; [exact Hc|]. repeat split; try congruence; lia.
Qed.

Lemma forward_error (o : Z) (m : string) (s : Scanner) : forward s (error o m s).
Proof.
  intros HI.
  destruct (error_fields o m s) as (E1 & E2 & E3 & E4 & E5 & E6 & _).
  unfold Inv, at_rune, at_end, mu in *. rewrite E1, E4, E5, E6, E2, E3.
  repeat split; try tauto; lia.
Qed.

(** [next] from a rune moves on; [next] at the end stays. *)
Lemma next_Inv (s : Scanner) :
  Inv s ->
  Inv (next s) /\ offset (next s) = rdOffset s /\
  (ch s <> -1 -> (mu (next s) < mu s)%nat) /\
  (ch s = -1 -> ch (next s) = -1 /\ mu (next s) = mu s /\
                rdOffset (next s) = rdOffset s) /\
  rdOffset s <= rdOffset (next s).
Proof.
  intros HI. pose proof (Inv_bounds s HI) as (Hb1 & Hb2 & Hb3).
  destruct (Z.lt_ge_cases (rdOffset s) (len (src s))) as [Hlt|Hge].
  - pose proof (next_read s ltac:(lia) Hlt) as (Ec & Eo & Er & _).
    pose proof (slice_from_nonempty (src s) (rdOffset s) ltac:(lia) Hlt) as Hne.
    pose proof (DecodeRune_width _ Hne) as Hw.
    pose proof (DecodeRune_nonneg (slice_from (src s) (rdOffset s))) as Hr.
    rewrite len_slice_from in Hw by lia.
    assert (Hch : ch s <> -1).
    { intros Hc. pose proof (Inv_end s HI Hc) as (_ & _ & ?). lia. }
    split; [|split; [assumption|split; [|split; [tauto|lia]]]].
    + split; [lia|]. left. unfold at_rune.
      rewrite next_src, Eo, Ec, Er. split; [lia|].
      replace (rdOffset s + snd (utf8.DecodeRune (slice_from (src s) (rdOffset s)))
               - rdOffset s)
        with (snd (utf8.DecodeRune (slice_from (src s) (rdOffset s)))) by lia.
      apply surjective_pairing.
    + intros _. unfold mu. rewrite next_src, Er, Ec.
      pose proof (Inv_rune s HI Hch) as (_ & Hc0 & _).
      destruct (Z.leb_spec 0 (ch s)); [|lia].
      destruct (Z.leb_spec 0 (fst (utf8.DecodeRune (slice_from (src s) (rdOffset s))))); lia.
  - pose proof (next_eof s Hge) as (Ec & Eo & Er & _).
    split; [|split; [lia|split; [|split; [|lia]]]].
    + split; [rewrite Eo; apply len_nonneg|]. right. unfold at_end.
      rewrite next_src, Ec, Eo, Er. repeat split; lia.
    + intros Hch. unfold mu. rewrite next_src, Er, Ec.
      pose proof (Inv_rune s HI Hch) as (_ & Hc0 & _).
      destruct (Z.leb_spec 0 (ch s)); [|lia]. simpl. lia.
    + intros Hc. unfold mu. rewrite next_src, Er, Ec, Hc. repeat split; lia.
Qed.

Lemma forward_next (s : Scanner) : forward s (next s).
Proof.
  intros HI. pose proof (next_Inv s HI) as (H1 & H2 & H3 & H4 & H5).
  pose proof (Inv_bounds s HI).
  split; [assumption|]. split; [apply next_src|]. split; [apply next_err|].
  split; [apply next_base|]. split; [lia|]. split; [lia|].
  destruct (Z.eq_dec (ch s) (-1)) as [E|E].
  - destruct (H4 E) as (_ & -> & _). lia.
  - specialize (H3 E). lia.
Qed.

Lemma progress_next (s : Scanner) : ch s <> -1 -> progress s (next s).
Proof.
  intros Hc HI. pose proof (next_Inv s HI) as (H1 & H2 & H3 & H4 & H5).
  pose proof (Inv_rune s HI Hc).
  split; [assumption|]. split; [apply next_src|]. split; [apply next_err|].
  split; [apply next_base|]. split; [lia|]. split; [lia|]. auto.
Qed.

(** ** Running the monad *)

Lemma bind_Some {A B : Type} (m : M A) (k : A -> M B) (s : Scanner) (b : B)
    (s' : Scanner) :
  bind m k s = Some (b, s') ->
  exists a s1, m s = Some (a, s1) /\ k a s1 = Some (b, s').
Proof.
  unfold bind. destruct (m s) as [[a s1]|]; [|discriminate].
  intros H. now exists a, s1.
Qed.

Lemma bind_eq {A B : Type} (m : M A) (k : A -> M B) (s s1 : Scanner) (a : A) :
  m s = Some (a, s1) -> bind m k s = k a s1.
Proof. unfold bind. now intros ->. Qed.

Lemma bind_gets {A B : Type} (f : Scanner -> A) (k : A -> M B) (s : Scanner) :
  bind (gets f) k s = k (f s) s.
Proof. reflexivity. Qed.

Lemma bind_modify {B : Type} (f : Scanner -> Scanner) (k : unit -> M B) (s : Scanner) :
  bind (modify f) k s = k tt (f s).
Proof. reflexivity. Qed.

Lemma bind_ret {A B : Type} (a : A) (k : A -> M B) (s : Scanner) :
  bind (ret a) k s = k a s.
Proof. reflexivity. Qed.

(** Taking a run that returned apart. *)
Ltac minv H :=
  cbv beta zeta in H;
  lazymatch type of H with
  | bind (gets _) _ _ = Some _ => rewrite bind_gets in H; minv H
  | bind (modify _) _ _ = Some _ => rewrite bind_modify in H; minv H
  | bind (ret _) _ _ = Some _ => rewrite bind_ret in H; minv H
  | bind _ _ _ = Some _ =>
    let a := fresh "a" in let s1 := fresh "s" in
    let H1 := fresh "Hrun" in
    apply bind_Some in H; destruct H as (a & s1 & H1 & H);
    minv H1; minv H
  | (if ?c then _ else _) _ = Some _ =>
    let E := fresh "Hc" in destruct c eqn:E; minv H
  | ret _ _ = Some _ => unfold ret in H; inversion H; subst; clear H
  | gets _ _ = Some _ => unfold gets in H; inversion H; subst; clear H
  | modify _ _ = Some _ => unfold modify in H; inversion H; subst; clear H
  | out_of_fuel _ = Some _ => discriminate H
  | _ => idtac
  end.

(** ** Every operation moves forward *)

Section Forward.

Context {U : UnicodeTables}.

Lemma scanEscape_forward (quote : Z) : steps forward (scanEscape quote).
Proof.
  apply steps_scanEscape;
    [exact forward_refl | exact forward_trans | exact forward_next | exact forward_error].
Qed.

Lemma next_while_forward (n : nat) (cond : Z -> bool) : steps forward (next_while n cond).
Proof.
  apply steps_next_while;
    [exact forward_refl | exact forward_trans | exact forward_next].
Qed.

Lemma next_loop_forward (cond : Z -> bool) : steps forward (next_loop cond).
Proof.
  apply steps_next_loop;
    [exact forward_refl | exact forward_trans | exact forward_next].
Qed.

Lemma scanMantissa_forward (base : Z) : steps forward (scanMantissa base).
Proof.
  apply steps_scanMantissa;
    [exact forward_refl | exact forward_trans | exact forward_next].
Qed.

Lemma scanComment_forward : steps forward scanComment.
Proof.
  apply steps_scanComment;
    [exact forward_refl | exact forward_trans | exact forward_next].
Qed.

Lemma scanNumber_forward (seen : bool) : steps forward (scanNumber seen).
Proof.
  apply steps_scanNumber;
    [exact forward_refl | exact forward_trans | exact forward_next | exact forward_error].
Qed.

Lemma scanString_forward (quote : Z) : steps forward (scanString quote).
Proof.
  apply steps_scanString;
    [exact forward_refl | exact forward_trans | exact forward_next | exact forward_error].
Qed.

Lemma skipWhiteSpace_forward : steps forward skipWhiteSpace.
Proof.
  apply steps_skipWhiteSpace;
    [exact forward_refl | exact forward_trans | exact forward_next].
Qed.

Lemma scanIdentifier_forward : steps forward scanIdentifier.
Proof.
  apply steps_scanIdentifier;
    [exact forward_refl | exact forward_trans | exact forward_next].
Qed.

Lemma Scan_switch_forward (pos c : Z) : steps forward (Scan_switch pos c).
Proof.
  apply steps_Scan_switch;
    [exact forward_refl | exact forward_trans | exact forward_next | exact forward_error].
Qed.

Lemma Scan_forward : steps forward Scan.
Proof.
  apply steps_Scan;
    [exact forward_refl | exact forward_trans | exact forward_next | exact forward_error].
Qed.

Lemma ScanAll_forward (n : nat) : steps forward (ScanAll n).
Proof.
  apply steps_ScanAll;
    [exact forward_refl | exact forward_trans | exact forward_next | exact forward_error].
Qed.

End Forward.

(** ** Every operation returns *)

Create HintDb scan_ok.

Section Total.

Context {U : UnicodeTables}.

Lemma ok_ret {A : Type} (a : A) : ok Inv (ret a).
Proof. intros s H. now exists a, s. Qed.

Lemma ok_gets {A : Type} (f : Scanner -> A) : ok Inv (gets f).
Proof. intros s H. now exists (f s), s. Qed.

Lemma ok_next : ok Inv (modify next).
Proof. intros s H. exists tt, (next s). split; [reflexivity|]. now apply forward_next. Qed.

Lemma ok_error (o : Z) (m : string) : ok Inv (modify (error o m)).
Proof.
  intros s H. exists tt, (error o m s). split; [reflexivity|]. now apply forward_error.
Qed.

Lemma ok_bind {A B : Type} (m : M A) (k : A -> M B) :
  ok Inv m -> (forall a, ok Inv (k a)) -> ok Inv (bind m k).
Proof.
  intros Hm Hk s H. destruct (Hm s H) as (a & s1 & E & H1).
  destruct (Hk a s1 H1) as (b & s2 & E2 & H2).
  exists b, s2. split; [|assumption]. now rewrite (bind_eq _ _ _ _ _ E).
Qed.

Lemma budget_mu (s : Scanner) : (mu s < budget s)%nat.
Proof. unfold mu, budget. destruct (0 <=? ch s); lia. Qed.

(** A loop [for cond(s.ch) { s.next() }] whose condition fails at the end
    of the input stops before the fuel [mu s] allows for runs out, and it
    stops because its condition fails. *)
Lemma next_while_ok (cond : Z -> bool) :
  cond (-1) = false ->
  forall (n : nat) (s : Scanner),
    Inv s -> (mu s < n)%nat ->
    exists s', next_while n cond s = Some (tt, s') /\ Inv s' /\ cond (ch s') = false.
Proof.
  intros Hcond. induction n as [|n IH]; intros s HI Hmu; [lia|].
  simpl. rewrite bind_gets. destruct (cond (ch s)) eqn:Ec.
  - rewrite bind_modify.
    assert (Hch : ch s <> -1) by (intros E; rewrite E in Ec; congruence).
    destruct (progress_next s Hch HI) as (HI' & _ & _ & _ & _ & _ & Hlt).
    apply IH; [assumption|lia].
  - exists s. auto.
Qed.

Lemma ok_next_loop (cond : Z -> bool) :
  cond (-1) = false -> ok Inv (next_loop cond).
Proof.
  intros Hcond s HI. unfold next_loop. rewrite bind_gets.
  destruct (next_while_ok cond Hcond (budget s) s HI (budget_mu s)) as (s' & E & HI' & _).
  now exists tt, s'.
Qed.

Lemma scanComment_block_ok (n : nat) (s : Scanner) :
  Inv s -> (mu s < n)%nat ->
  exists s', scanComment_block n s = Some (tt, s') /\ Inv s'.
Proof.
  revert s. induction n as [|n IH]; intros s HI Hmu; [lia|].
  simpl. rewrite bind_gets. destruct (Z.leb_spec 0 (ch s)) as [Hc|Hc].
  - rewrite bind_modify, bind_gets.
    destruct (progress_next s ltac:(lia) HI) as (HI' & _ & _ & _ & _ & _ & Hlt).
    destruct ((ch s =? rune "*") && (ch (next s) =? rune "/")).
    + exists (next (next s)). split; [reflexivity|]. now apply forward_next.
    + apply IH; [assumption|lia].
  - exists s. auto.
Qed.

Lemma digitVal_eof (base : Z) : base <= 16 -> (digitVal (-1) <? base) = false.
Proof. intros H. apply Z.ltb_ge. vm_compute digitVal. lia. Qed.

Lemma digitVal_range (c : Z) : 0 <= digitVal c <= 16.
Proof.
  unfold digitVal.
  repeat match goal with
         | |- context [if ?b then _ else _] => destruct b eqn:?
         end;
  repeat match goal with
         | H : (_ && _) = true |- _ =>
           apply andb_true_iff in H; destruct H as [?H ?H]
         | H : (_ <=? _) = true |- _ => apply Z.leb_le in H
         end;
  unfold rune in *; simpl in *; lia.
Qed.

Lemma ok_scanMantissa (base : Z) : base <= 16 -> ok Inv (scanMantissa base).
Proof. intros H. unfold scanMantissa. apply ok_next_loop. now apply digitVal_eof. Qed.

Lemma ok_skipWhiteSpace : ok Inv skipWhiteSpace.
Proof. unfold skipWhiteSpace. now apply ok_next_loop. Qed.

Lemma ok_scanComment : ok Inv scanComment.
Proof.
  intros s HI. unfold scanComment. rewrite bind_gets.
  pose proof (forward_next s HI) as (HI' & _).
  destruct (ch s =? rune "/"); rewrite bind_modify.
  - now apply ok_next_loop.
  - rewrite bind_gets. destruct (scanComment_block_ok (budget (next s)) (next s) HI' (budget_mu _))
      as (s' & E & H').
    now exists tt, s'.
Qed.

Lemma isLetter_isDigit_eof : isLetter (-1) || isDigit (-1) = false.
Proof. reflexivity. Qed.

#[local] Hint Resolve ok_skipWhiteSpace ok_scanComment : scan_ok.

Ltac ok_tac :=
  repeat first
    [ progress cbv beta zeta
    | apply ok_ret | apply ok_gets | apply ok_next | apply ok_error
    | apply ok_next_loop; reflexivity
    | apply ok_scanMantissa; lia
    | solve [auto with scan_ok]
    | apply ok_bind; [|intro]
    | match goal with |- ok _ (if ?b then _ else _) => destruct b end
    | match goal with |- ok _ (match ?x with _ => _ end) => destruct x end
    | solve [auto with scan_ok] ].

Lemma ok_scanIdentifier : ok Inv scanIdentifier.
Proof. unfold scanIdentifier. ok_tac. Qed.

Lemma ok_scanNumber_exit (offs : Z) (tok : token.Token) :
  ok Inv (scanNumber_exit offs tok).
Proof. unfold scanNumber_exit. ok_tac. Qed.

#[local] Hint Resolve ok_scanIdentifier ok_scanNumber_exit : scan_ok.

Lemma ok_scanNumber_exponent (offs : Z) (tok : token.Token) :
  ok Inv (scanNumber_exponent offs tok).
Proof. unfold scanNumber_exponent. ok_tac. Qed.

#[local] Hint Resolve ok_scanNumber_exponent : scan_ok.

Lemma ok_scanNumber_fraction (offs : Z) (tok : token.Token) :
  ok Inv (scanNumber_fraction offs tok).
Proof. unfold scanNumber_fraction. ok_tac. Qed.

#[local] Hint Resolve ok_scanNumber_fraction : scan_ok.

Lemma ok_scanNumber (seen : bool) : ok Inv (scanNumber seen).
Proof. unfold scanNumber. ok_tac. Qed.

Lemma ok_scanEscape_digits (n : nat) (base x : Z) :
  ok Inv (scanEscape_digits n base x).
Proof. revert x. induction n; intros x; simpl; ok_tac. Qed.

#[local] Hint Resolve ok_scanNumber ok_scanEscape_digits : scan_ok.

Lemma ok_scanEscape (quote : Z) : ok Inv (scanEscape quote).
Proof. unfold scanEscape. ok_tac. Qed.

Lemma scanString_loop_ok (quote offs : Z) (n : nat) (s : Scanner) :
  Inv s -> (mu s < n)%nat ->
  exists s', scanString_loop n quote offs s = Some (tt, s') /\ Inv s'.
Proof.
  revert s. induction n as [|n IH]; intros s HI Hmu; [lia|].
  simpl. rewrite bind_gets.
  destruct (Z.eqb_spec (ch s) NL) as [Hn|Hn]; cbn [orb].
  { exists (error offs "string literal not terminated" s).
    split; [reflexivity|]. now apply forward_error. }
  destruct (Z.ltb_spec (ch s) 0) as [Hc|Hc].
  { exists (error offs "string literal not terminated" s).
    split; [reflexivity|]. now apply forward_error. }
  rewrite bind_modify.
  destruct (progress_next s ltac:(lia) HI) as (HI' & _ & _ & _ & _ & _ & Hlt).
  destruct (ch s =? quote); [now exists (next s)|].
  destruct (ch s =? BACKSLASH).
  - destruct (ok_scanEscape quote (next s) HI') as (b & s2 & E & HI2).
    pose proof (scanEscape_forward quote _ _ _ E HI') as (_ & _ & _ & _ & _ & _ & Hle).
    destruct (IH s2 HI2 ltac:(lia)) as (s' & E' & HI3).
    exists s'. split; [|assumption].
    unfold bind at 1. unfold bind at 1. rewrite E. unfold ret. exact E'.
  - rewrite bind_ret. apply IH; [assumption|lia].
Qed.

Lemma ok_scanString (quote : Z) : ok Inv (scanString quote).
Proof.
  intros s HI. unfold scanString. rewrite !bind_gets.
  destruct (scanString_loop_ok quote (offset s - 1) (budget s) s HI (budget_mu s))
    as (s' & E & HI').
  rewrite (bind_eq _ _ _ _ _ E), !bind_gets.
  eexists _, s'. split; [reflexivity|assumption].
Qed.

Lemma ok_Scan_illegal (pos c : Z) : ok Inv (Scan_illegal pos c).
Proof. unfold Scan_illegal. ok_tac. Qed.

Lemma ok_Scan_pair (pos second : Z) (tok2 tok1 : token.Token) :
  ok Inv (Scan_pair pos second tok2 tok1).
Proof. unfold Scan_pair. ok_tac. Qed.

#[local] Hint Resolve ok_scanString ok_Scan_illegal ok_Scan_pair : scan_ok.

Lemma ok_Scan_switch (pos c : Z) : ok Inv (Scan_switch pos c).
Proof. unfold Scan_switch. ok_tac. Qed.

#[local] Hint Resolve ok_Scan_switch : scan_ok.

(** [Scan] returns from every state the scanner can be in. *)
Lemma ok_Scan : ok Inv Scan.
Proof. unfold Scan. ok_tac. Qed.

End Total.

(** ** Progress and termination of [Scan] *)

Ltac fwd_tac :=
  repeat first
    [ progress cbv beta zeta
    | apply scanEscape_forward | apply next_while_forward | apply next_loop_forward
    | apply scanMantissa_forward | apply scanComment_forward
    | apply scanNumber_forward | apply scanString_forward
    | apply skipWhiteSpace_forward | apply scanIdentifier_forward
    | apply Scan_switch_forward | apply Scan_forward
    | apply (steps_scanNumber_exit forward forward_refl forward_trans)
    | apply (steps_scanNumber_exponent forward forward_refl forward_trans forward_next)
    | apply (steps_scanNumber_fraction forward forward_refl forward_trans forward_next)
    | apply (steps_ret forward forward_refl)
    | apply (steps_gets forward forward_refl)
    | apply (steps_next forward forward_next)
    | apply (steps_error forward forward_error)
    | apply (steps_bind forward forward_trans); [|intro]
    | match goal with |- steps _ (if ?b then _ else _) => destruct b end
    | match goal with |- steps _ (match ?x with _ => _ end) => destruct x end ].

(** The run [H : m s = Some (a, s')] moves forward. *)
Ltac forward_of H :=
  lazymatch type of H with
  | ?m ?s = Some (?a, ?s') =>
    let F := fresh "Hfwd" in
    assert (F : forward s s');
    [ let S := fresh in
      assert (S : steps forward m) by fwd_tac; exact (S s a s' H)
    | ]
  end.

Section Progress.

Context {U : UnicodeTables}.

Lemma next_loop_progress (cond : Z -> bool) (s s' : Scanner) :
  next_loop cond s = Some (tt, s') ->
  cond (ch s) = true -> ch s <> -1 -> progress s s'.
Proof.
  unfold next_loop. rewrite bind_gets. unfold budget.
  cbn [next_while]. rewrite bind_gets. intros H Hc Hne. rewrite Hc in H.
  rewrite bind_modify in H. forward_of H.
  eapply progress_trans_l; [now apply progress_next|exact Hfwd].
Qed.

Lemma next_loop_stop (cond : Z -> bool) (s : Scanner) :
  cond (ch s) = false -> next_loop cond s = Some (tt, s).
Proof.
  intros H. unfold next_loop. rewrite bind_gets. unfold budget.
  cbn [next_while]. rewrite bind_gets, H. reflexivity.
Qed.

Lemma digit_digitVal (c : Z) :
  (rune "0" <=? c) && (c <=? rune "9") = true -> (digitVal c <? 10) = true.
Proof.
  intros H. unfold digitVal. rewrite H.
  apply andb_true_iff in H. destruct H as [H1 H2].
  apply Z.leb_le in H1, H2. apply Z.ltb_lt. unfold rune in *. simpl in *. lia.
Qed.

Lemma scanNumber_progress (s s' : Scanner) (r : token.Token * list byte) :
  scanNumber false s = Some (r, s') ->
  (rune "0" <=? ch s) && (ch s <=? rune "9") = true ->
  progress s s'.
Proof.
  intros H Hd. unfold scanNumber in H. rewrite !bind_gets in H.
  assert (Hne : ch s <> -1).
  { apply andb_true_iff in Hd. destruct Hd as [H1 _]. apply Z.leb_le in H1.
    unfold rune in H1. simpl in H1. lia. }
  destruct (ch s =? rune "0").
  - rewrite bind_gets, bind_modify in H. forward_of H.
    eapply progress_trans_l; [now apply progress_next|exact Hfwd].
  - apply bind_Some in H. destruct H as ([] & s1 & H1 & H2).
    forward_of H2.
    eapply progress_trans_l; [|exact Hfwd].
    eapply next_loop_progress; [exact H1| |exact Hne].
    now apply digit_digitVal.
Qed.

Lemma isLetter_not_eof (c : Z) : isLetter c = true -> c <> -1.
Proof. intros H ->. discriminate H. Qed.

(** A call of [Scan] that returns a token other than [token.EOF] has
    moved the scanner on. *)
Lemma Scan_progress (s s' : Scanner) (pos : token.Pos) (tok : token.Token)
    (lit : list byte) :
  Scan s = Some ((pos, tok, lit), s') -> tok <> token.EOF -> progress s s'.
Proof.
  intros H Htok. unfold Scan in H.
  apply bind_Some in H. destruct H as ([] & s1 & Hws & H).
  forward_of Hws. rename Hfwd into Hfwd1.
  rewrite !bind_gets in H.
  eapply progress_trans_r; [exact Hfwd1|].
  destruct (isLetter (ch s1)) eqn:HL.
  - apply bind_Some in H. destruct H as (lit0 & s2 & Hid & H).
    assert (s2 = s') by (destruct (_ || _) in H; inversion H; reflexivity).
    subst s2. unfold scanIdentifier in Hid. rewrite bind_gets in Hid.
    apply bind_Some in Hid. destruct Hid as ([] & s3 & Hl & Hid).
    rewrite !bind_gets in Hid. inversion Hid; subst.
    eapply next_loop_progress; [exact Hl| |now apply isLetter_not_eof].
    cbv beta. now rewrite HL.
  - destruct ((rune "0" <=? ch s1) && (ch s1 <=? rune "9")) eqn:HD.
    + apply bind_Some in H. destruct H as (r & s2 & Hn & H).
      inversion H; subst. eapply scanNumber_progress; eassumption.
    + rewrite bind_modify in H.
      destruct (Z.eq_dec (ch s1) (-1)) as [E|E].
      * unfold Scan_switch in H. rewrite E in H. simpl in H. inversion H; congruence.
      * forward_of H.
        eapply progress_trans_l; [now apply progress_next|exact Hfwd].
Qed.

(** At the end of the input [Scan] returns [token.EOF] with an empty
    literal and leaves the scanner as it is. *)
Lemma Scan_at_end (s : Scanner) :
  Inv s -> ch s = -1 ->
  Scan s = Some ((token.FilePos (file s) (offset s), token.EOF, []), s).
Proof.
  intros HI Hc. pose proof (Inv_end s HI Hc) as (_ & Ho & Hr).
  assert (Hn : next s = s).
  { pose proof (next_eof s ltac:(lia)) as (E1 & E2 & E3 & E4 & E5 & E6).
    pose proof (next_src s) as E7. pose proof (next_err s) as E8.
    assert (E9 : dir (next s) = dir s).
    { unfold next. destruct (Z.ltb_spec (rdOffset s) (len (src s))); [lia|].
      cbv zeta. destruct (ch (set_offset (len (src s)) s) =? NL); reflexivity. }
    unfold line_added in E4. rewrite Hc in E4. change (-1 =? NL) with false in E4.
    destruct s as [f d b e c o rd n l], (next _) as [f' d' b' e' c' o' rd' n' l'].
    cbn in *. congruence. }
  unfold Scan. unfold skipWhiteSpace.
  erewrite bind_eq; [|apply next_loop_stop; rewrite Hc; reflexivity].
  rewrite !bind_gets, Hc.
  change (isLetter (-1)) with false. cbv iota.
  change ((rune "0" <=? -1) && (-1 <=? rune "9")) with false. cbv iota.
  rewrite bind_modify, Hn. reflexivity.
Qed.

Lemma scanNumber_tok (seen : bool) (s s' : Scanner) (r : token.Token * list byte) :
  scanNumber seen s = Some (r, s') -> fst r = token.INT \/ fst r = token.FLOAT.
Proof.
  intros H. unfold scanNumber, scanNumber_fraction, scanNumber_exponent,
    scanNumber_exit in H.
  minv H; cbn [fst]; auto.
Qed.

(** What the inner switch of [Scan] returns: [token.EOF] for the
    end-of-input rune only, leaving the state as it is, and a literal
    only with a token of a literal kind. *)
Lemma Scan_switch_class (pos c : Z) (s s' : Scanner) (p : token.Pos)
    (tok : token.Token) (lit : list byte) :
  Scan_switch pos c s = Some ((p, tok, lit), s') ->
  p = pos /\
  (tok = token.EOF -> c = -1 /\ s' = s) /\
  (literal_kind tok = false -> lit = []).
Proof.
  intros H. unfold Scan_switch, Scan_pair, Scan_illegal in H.
  minv H;
    try match goal with
        | Hn : scanNumber _ _ = Some (?r, _) |- _ =>
          let E := fresh in
          destruct (scanNumber_tok _ _ _ _ Hn) as [E|E]; rewrite E
        end;
    (split; [reflexivity|split; [intros E; try discriminate E|intros E; try discriminate E]]);
    try reflexivity.
  split; [|reflexivity]. now apply Z.eqb_eq.
Qed.

Lemma Scan_class (s s' : Scanner) (p : token.Pos) (tok : token.Token)
    (lit : list byte) :
  Scan s = Some ((p, tok, lit), s') ->
  (tok = token.EOF -> Inv s -> ch s' = -1) /\
  (literal_kind tok = false -> lit = []).
Proof.
  intros H. unfold Scan in H.
  apply bind_Some in H. destruct H as ([] & s1 & Hws & H).
  rewrite !bind_gets in H.
  destruct (isLetter (ch s1)) eqn:HL.
  - apply bind_Some in H. destruct H as (lit0 & s2 & Hid & H).
    destruct (_ || _) in H; inversion H; subst; split; intros E; discriminate E.
  - destruct ((rune "0" <=? ch s1) && (ch s1 <=? rune "9")) eqn:HD.
    + apply bind_Some in H. destruct H as (r & s2 & Hn & H).
      inversion H; subst.
      destruct (scanNumber_tok _ _ _ _ Hn) as [E|E]; rewrite E;
        split; intros E'; discriminate E'.
    + rewrite bind_modify in H.
      apply Scan_switch_class in H. destruct H as (_ & H1 & H2).
      split; [|exact H2].
      intros E HI. destruct (H1 E) as [Hc ->].
      destruct (skipWhiteSpace_forward _ _ _ Hws HI) as (HI1 & _).
      now apply (next_Inv s1 HI1).
Qed.

(** Once [Scan] has returned [token.EOF] it returns it again, with the
    same position, and changes nothing. *)
Lemma Scan_EOF_again (s s' : Scanner) (p : token.Pos) (lit : list byte) :
  Inv s -> Scan s = Some ((p, token.EOF, lit), s') ->
  lit = [] /\
  Scan s' = Some ((token.FilePos (file s') (offset s'), token.EOF, []), s').
Proof.
  intros HI H. pose proof (Scan_class _ _ _ _ _ H) as (H1 & H2).
  split; [now apply H2|].
  apply Scan_at_end; [now apply (Scan_forward _ _ _ H)|now apply H1].
Qed.

(** Calling [Scan] until [token.EOF]: the fuel [mu s] allows for is
    enough. *)
Lemma ScanAll_ok (n : nat) (s : Scanner) :
  Inv s -> (mu s < n)%nat ->
  exists toks s', ScanAll n s = Some (toks, s') /\ Inv s' /\ ch s' = -1.
Proof.
  revert s. induction n as [|n IH]; intros s HI Hmu; [lia|].
  destruct (ok_Scan s HI) as ([[p tok] lit] & s1 & E & HI1).
  cbn [ScanAll]. rewrite (bind_eq _ _ _ _ _ E). cbn [fst snd].
  destruct (token.Token_eqb tok token.EOF) eqn:Et.
  - assert (tok = token.EOF) by (destruct tok; try discriminate Et; reflexivity).
    subst tok. exists [(p, token.EOF, lit)], s1.
    split; [reflexivity|]. split; [assumption|].
    now apply (Scan_class _ _ _ _ _ E).
  - assert (Hne : tok <> token.EOF) by (intros ->; discriminate Et).
    destruct (Scan_progress _ _ _ _ _ E Hne HI) as (_ & _ & _ & _ & _ & _ & Hlt).
    destruct (IH s1 HI1 ltac:(lia)) as (toks & s' & E' & HI' & Hc).
    exists ((p, tok, lit) :: toks), s'.
    split; [|auto]. now rewrite (bind_eq _ _ _ _ _ E').
Qed.

End Progress.

(** ** With and without a handler *)

Create HintDb scan_sim.

Section Sim.

Context {U : UnicodeTables}.

Lemma sim_ret {A : Type} (a : A) : sim (ret a).
Proof. intros s. reflexivity. Qed.

Lemma sim_gets {A : Type} (f : Scanner -> A) :
  (forall s, f (strip s) = f s) -> sim (gets f).
Proof. intros H s. unfold gets. now rewrite H. Qed.

Lemma next_strip (s : Scanner) : next (strip s) = strip (next s).
Proof.
  destruct s as [f d b e c o r n l]. unfold next, strip, error. rec_simpl.
  break_ifs; rec_simpl; reflexivity.
Qed.

Lemma error_strip (o : Z) (m : string) (s : Scanner) :
  error o m (strip s) = strip (error o m s).
Proof.
  destruct s as [f d b e c o' r n l]. unfold strip, error. rec_simpl.
  destruct e; reflexivity.
Qed.

Lemma sim_next : sim (modify next).
Proof. intros s. unfold modify. now rewrite next_strip. Qed.

Lemma sim_error (o : Z) (m : string) : sim (modify (error o m)).
Proof. intros s. unfold modify. now rewrite error_strip. Qed.

Lemma sim_out_of_fuel {A : Type} : sim (@out_of_fuel A).
Proof. intros s. reflexivity. Qed.

Lemma sim_bind {A B : Type} (m : M A) (k : A -> M B) :
  sim m -> (forall a, sim (k a)) -> sim (bind m k).
Proof.
  intros Hm Hk s. unfold bind. rewrite Hm.
  destruct (m s) as [[a s1]|]; [apply Hk|reflexivity].
Qed.

Ltac sim_tac :=
  repeat first
    [ progress cbv beta zeta
    | apply sim_ret | apply sim_gets; reflexivity | apply sim_next
    | apply sim_error | apply sim_out_of_fuel
    | solve [auto with scan_sim]
    | apply sim_bind; [|intro]
    | match goal with |- sim (if ?b then _ else _) => destruct b end
    | match goal with |- sim (match ?x with _ => _ end) => destruct x end ].

Lemma sim_next_while (n : nat) (cond : Z -> bool) : sim (next_while n cond).
Proof. induction n; simpl; sim_tac. Qed.

#[local] Hint Resolve sim_next_while : scan_sim.

Lemma sim_next_loop (cond : Z -> bool) : sim (next_loop cond).
Proof. unfold next_loop. sim_tac. Qed.

Lemma sim_scanComment_block (n : nat) : sim (scanComment_block n).
Proof. induction n; simpl; sim_tac. Qed.

#[local] Hint Resolve sim_next_loop sim_scanComment_block : scan_sim.

Lemma sim_scanComment : sim scanComment.
Proof. unfold scanComment. sim_tac. Qed.

Lemma sim_scanIdentifier : sim scanIdentifier.
Proof. unfold scanIdentifier. sim_tac. Qed.

Lemma sim_scanMantissa (base : Z) : sim (scanMantissa base).
Proof. unfold scanMantissa. sim_tac. Qed.

#[local] Hint Resolve sim_scanComment sim_scanIdentifier sim_scanMantissa : scan_sim.

Lemma sim_scanNumber (seen : bool) : sim (scanNumber seen).
Proof.
  unfold scanNumber, scanNumber_fraction, scanNumber_exponent, scanNumber_exit.
  sim_tac.
Qed.

Lemma sim_scanEscape_digits (n : nat) (base x : Z) : sim (scanEscape_digits n base x).
Proof. revert x. induction n; intros x; simpl; sim_tac. Qed.

#[local] Hint Resolve sim_scanNumber sim_scanEscape_digits : scan_sim.

Lemma sim_scanEscape (quote : Z) : sim (scanEscape quote).
Proof. unfold scanEscape. sim_tac. Qed.

#[local] Hint Resolve sim_scanEscape : scan_sim.

Lemma sim_scanString_loop (n : nat) (quote offs : Z) : sim (scanString_loop n quote offs).
Proof. induction n; simpl; sim_tac. Qed.

#[local] Hint Resolve sim_scanString_loop : scan_sim.

Lemma sim_scanString (quote : Z) : sim (scanString quote).
Proof. unfold scanString. sim_tac. Qed.

Lemma sim_skipWhiteSpace : sim skipWhiteSpace.
Proof. unfold skipWhiteSpace. sim_tac. Qed.

#[local] Hint Resolve sim_scanString sim_skipWhiteSpace : scan_sim.

Lemma sim_Scan_switch (pos c : Z) : sim (Scan_switch pos c).
Proof. unfold Scan_switch, Scan_pair, Scan_illegal. sim_tac. Qed.

#[local] Hint Resolve sim_Scan_switch : scan_sim.

Lemma sim_Scan : sim Scan.
Proof. unfold Scan. sim_tac. Qed.

#[local] Hint Resolve sim_Scan : scan_sim.

Lemma sim_ScanAll (n : nat) : sim (ScanAll n).
Proof. induction n; simpl; sim_tac. Qed.

Lemma counted_refl (s : Scanner) : counted s s.
Proof. intros H1 H2. auto. Qed.

Lemma counted_trans (a b c : Scanner) : counted a b -> counted b c -> counted a c.
Proof. intros Hab Hbc H1 H2. destruct (Hab H1 H2). auto. Qed.

Lemma counted_error (o : Z) (m : string) (s : Scanner) : counted s (error o m s).
Proof.
  intros H1 H2.
  destruct (error_fields o m s) as (_ & E2 & _ & _ & _ & _ & E7 & E8).
  rewrite E2, E7, E8, H1, len_app, H2. split; [reflexivity|].
  change (len [_]) with 1. lia.
Qed.

Lemma counted_next (s : Scanner) : counted s (next s).
Proof.
  destruct s as [f d b e c o r n l]. unfold counted, next, error. rec_simpl.
  intros -> ->.
  break_ifs; rec_simpl; rewrite ?len_app; change (len [_]) with 1;
    split; reflexivity || lia.
Qed.

Lemma ScanAll_counted (n : nat) : steps counted (ScanAll n).
Proof.
  apply steps_ScanAll;
    [exact counted_refl | exact counted_trans | exact counted_next | exact counted_error].
Qed.

Lemma Scan_counted : steps counted Scan.
Proof.
  apply steps_Scan;
    [exact counted_refl | exact counted_trans | exact counted_next | exact counted_error].
Qed.

End Sim.

(** ** [Init] *)

Lemma next_fresh_Inv (s : Scanner) : rdOffset s = 0 -> Inv (next s).
Proof.
  intros Hr.
  destruct (Z.lt_ge_cases (rdOffset s) (len (src s))) as [Hlt|Hge].
  - pose proof (next_read s ltac:(lia) Hlt) as (Ec & Eo & Er & _).
    split; [lia|]. left. unfold at_rune. rewrite next_src, Eo, Ec, Er.
    split; [lia|].
    replace (rdOffset s + snd (utf8.DecodeRune (slice_from (src s) (rdOffset s)))
             - rdOffset s)
      with (snd (utf8.DecodeRune (slice_from (src s) (rdOffset s)))) by lia.
    apply surjective_pairing.
  - pose proof (next_eof s Hge) as (Ec & Eo & Er & _). pose proof (len_nonneg (src s)).
    split; [lia|]. right. unfold at_end. rewrite next_src, Ec, Eo, Er.
    repeat split; lia.
Qed.

(** [Init] succeeds when the sizes agree and leaves the scanner in a state
    that satisfies the invariant, on the source and with the handler it
    was given, with the error count equal to the number of invocations
    made so far. *)
Lemma Init_ok (file : token.File) (b : list byte) (e : bool) :
  token.Size file = len b ->
  exists s, Init file b e = inr s /\ Inv s /\ src s = b /\ err s = e /\
            ErrorCount s = (if e then len (calls s) else ErrorCount s) /\
            Init file b false = inr (strip s).
Proof.
  intros Hsz. unfold Init. rewrite Hsz, Z.eqb_refl. cbn [negb]. cbv zeta.
  assert (H1 : Inv (next (Init_fields file b e))) by now apply next_fresh_Inv.
  assert (C1 : counted (Init_fields file b e) (next (Init_fields file b e)))
    by apply counted_next.
  assert (S1 : next (Init_fields file b false) = strip (next (Init_fields file b e)))
    by (rewrite <- next_strip; reflexivity).
  rewrite S1.
  replace (ch (strip (next (Init_fields file b e))))
    with (ch (next (Init_fields file b e))) by reflexivity.
  destruct (ch (next (Init_fields file b e)) =? bom).
  - eexists. split; [reflexivity|]. split; [now apply forward_next|].
    rewrite next_src, next_src, next_err, next_err.
    split; [reflexivity|]. split; [reflexivity|].
    split; [|now rewrite next_strip].
    destruct e; [|reflexivity].
    apply (counted_trans _ _ _ C1 (counted_next _)); reflexivity.
  - eexists. split; [reflexivity|]. split; [assumption|].
    rewrite next_src, next_err.
    split; [reflexivity|]. split; [reflexivity|]. split; [|reflexivity].
    destruct e; [|reflexivity]. apply C1; reflexivity.
Qed.

(** ** The claims about the error count, progress and literals *)

Lemma ScanAll_last {U : UnicodeTables} (n : nat) (s s' : Scanner)
    (toks : list (token.Pos * token.Token * list byte)) :
  ScanAll n s = Some (toks, s') ->
  exists init r,
    toks = init ++ [r] /\ tok_of r = token.EOF /\
    Forall (fun x => tok_of x <> token.EOF) init.
Proof.
  revert s toks. induction n as [|n IH]; intros s toks H; [discriminate H|].
  cbn [ScanAll] in H. apply bind_Some in H. destruct H as (r & s1 & H1 & H).
  destruct (token.Token_eqb (snd (fst r)) token.EOF) eqn:E.
  - inversion H; subst. exists [], r. split; [reflexivity|]. split; [|constructor].
    unfold tok_of. destruct (snd (fst r)); try discriminate E; reflexivity.
  - apply bind_Some in H. destruct H as (rs & s2 & H2 & H).
    inversion H; subst. destruct (IH _ _ H2) as (init & r' & -> & Hr & Hi).
    exists (r :: init), r'. split; [reflexivity|]. split; [assumption|].
    constructor; [|assumption]. unfold tok_of. intros E'. rewrite E' in E. discriminate E.
Qed.

Lemma ScanAll_length {U : UnicodeTables} (n : nat) (s s' : Scanner)
    (toks : list (token.Pos * token.Token * list byte)) :
  ScanAll n s = Some (toks, s') -> (List.length toks <= n)%nat.
Proof.
  revert s toks. induction n as [|n IH]; intros s toks E; [discriminate E|].
  cbn [ScanAll] in E. apply bind_Some in E. destruct E as (r & s1 & H1 & H).
  destruct (token.Token_eqb (snd (fst r)) token.EOF).
  - inversion H; subst. simpl. lia.
  - apply bind_Some in H. destruct H as (rs & s2 & H2 & H).
    inversion H; subst. specialize (IH _ _ H2). simpl. lia.
Qed.

(** C1.  When the scanner is initialized on any source with a handler and
    the source is scanned to the end-of-input token, the field
    [ErrorCount] is the number of invocations of the handler; initialized
    on the same source without a handler, the same scan returns the same
    tokens and ends with the same [ErrorCount]. *)
Theorem C1_error_count {U : UnicodeTables} (file : token.File) (b : list byte) :
  token.Size file = len b ->
  exists s1 s2 toks t1 t2,
    Init file b true = inr s1 /\ Init file b false = inr s2 /\
    ScanAll (budget s1) s1 = Some (toks, t1) /\
    ScanAll (budget s2) s2 = Some (toks, t2) /\
    ErrorCount t1 = len (calls t1) /\
    ErrorCount t2 = ErrorCount t1 /\ calls t2 = [].
Proof.
  intros Hsz.
  destruct (Init_ok file b true Hsz) as (s1 & E1 & HI & _ & He & Hc & E2).
  destruct (ScanAll_ok (budget s1) s1 HI (budget_mu s1)) as (toks & t1 & R1 & _ & _).
  exists s1, (strip s1), toks, t1, (strip t1).
  split; [assumption|]. split; [assumption|]. split; [assumption|].
  split.
  { change (budget (strip s1)) with (budget s1). rewrite sim_ScanAll, R1. reflexivity. }
  split; [|split; reflexivity].
  now apply (ScanAll_counted _ _ _ _ R1).
Qed.

(** C2, as amended.  From every state of the scanner [Scan] returns.  A
    call that does not return the end-of-input token strictly advances the
    character offset and does not move the reading offset back; calling
    [Scan] repeatedly reaches the end-of-input token within the fuel the
    rest of the input allows; and once [Scan] has returned the
    end-of-input token, the next call returns it again with an empty
    literal and leaves the state, and so the error count and the trace of
    the handler, as they are. *)
Theorem C2_scan_progress {U : UnicodeTables} (s : Scanner) :
  Inv s ->
  (exists pos tok lit s',
      Scan s = Some ((pos, tok, lit), s') /\ Inv s' /\
      (tok <> token.EOF -> offset s < offset s' /\ rdOffset s <= rdOffset s') /\
      (tok = token.EOF -> exists pos', Scan s' = Some ((pos', token.EOF, []), s'))) /\
  (exists toks s_end init r,
      ScanAll (budget s) s = Some (toks, s_end) /\
      toks = init ++ [r] /\ tok_of r = token.EOF /\
      Forall (fun x => tok_of x <> token.EOF) init /\
      (List.length toks <= budget s)%nat).
Proof.
  intros HI. split.
  - destruct (ok_Scan s HI) as ([[pos tok] lit] & s' & E & HI').
    exists pos, tok, lit, s'. split; [assumption|]. split; [assumption|]. split.
    + intros Hne. destruct (Scan_progress _ _ _ _ _ E Hne HI) as (_ & _ & _ & _ & H1 & H2 & _).
      auto.
    + intros ->. destruct (Scan_EOF_again _ _ _ _ HI E) as (_ & H). eauto.
  - destruct (ScanAll_ok (budget s) s HI (budget_mu s)) as (toks & s' & E & _ & _).
    destruct (ScanAll_last _ _ _ _ E) as (init & r & Et & Hr & Hi).
    exists toks, s', init, r. repeat split; try assumption.
    exact (ScanAll_length _ _ _ _ E).
Qed.

(** C10.  From every state of the scanner [Scan] returns, and it returns a
    literal that is not empty only with an identifier, boolean, integer,
    float, string, raw-string or illegal token: with a comment token,
    with any operator or delimiter token and with the end-of-input token
    the literal is empty. *)
Theorem C10_literal_kinds {U : UnicodeTables} (s : Scanner) :
  Inv s ->
  exists pos tok lit s',
    Scan s = Some ((pos, tok, lit), s') /\
    (lit <> [] ->
     In tok [token.IDENT; token.BOOL; token.INT; token.FLOAT; token.STRING;
             token.RAWSTRING; token.ILLEGAL]) /\
    (In tok [token.COMMENT; token.EOF;
             token.ADD; token.SUB; token.MUL; token.QUO; token.REM;
             token.AND; token.OR;
             token.EQL; token.LSS; token.GTR; token.ASSIGN; token.NOT;
             token.NEQ; token.LEQ; token.GEQ;
             token.LPAREN; token.LBRACK; token.LBRACE; token.COMMA; token.PERIOD;
             token.RPAREN; token.RBRACK; token.RBRACE; token.COLON] ->
     lit = []).
Proof.
  intros HI. destruct (ok_Scan s HI) as ([[pos tok] lit] & s' & E & HI').
  exists pos, tok, lit, s'. split; [assumption|].
  destruct (Scan_class _ _ _ _ _ E) as (_ & H). split.
  - intros Hne. destruct tok; simpl; try tauto; exfalso; apply Hne, H; reflexivity.
  - intros Hin. apply H. simpl in Hin.
    repeat (destruct Hin as [<-|Hin]; [reflexivity|]). contradiction.
Qed.

(** C1 at the source of [testError]: three errors, three invocations. *)
Lemma C1_error_count_witness :
  exists s1 s2 toks t1 t2,
    Init (NewFile "File1" 1 6) [x40; x0a; x40; x20; x40; x0a] true = inr s1 /\
    Init (NewFile "File1" 1 6) [x40; x0a; x40; x20; x40; x0a] false = inr s2 /\
    @ScanAll NoTables (budget s1) s1 = Some (toks, t1) /\
    @ScanAll NoTables (budget s2) s2 = Some (toks, t2) /\
    ErrorCount t1 = len (calls t1) /\
    ErrorCount t2 = ErrorCount t1 /\ calls t2 = [].
Proof.
  apply (@C1_error_count NoTables (NewFile "File1" 1 6)
           [x40; x0a; x40; x20; x40; x0a]).
  reflexivity.
Defined.

Lemma scanner_of_Inv (input : list byte) : Inv (scanner_of input).
Proof.
  unfold scanner_of.
  destruct (Init_ok (NewFile EmptyString 1 (len input)) input true eq_refl)
    as (s & E & HI & _).
  now rewrite E.
Qed.

(** C2 as stated fails on the reading offset: on the source [a] the call
    of [Scan] that returns the identifier consumes the rune, yet the
    reading offset was at the end of the source before the call already
    and stays there.  The source is ASCII, so this is so whatever the
    Unicode tables hold. *)
Lemma C2_reading_offset_counterexample :
  exists s,
    Init (NewFile EmptyString 1 1) (bytes "a") true = inr s /\
    forall U : UnicodeTables,
    exists pos lit s',
      @Scan U s = Some ((pos, token.IDENT, lit), s') /\
      ~ rdOffset s < rdOffset s'.
Proof.
  eexists. split; [reflexivity|]. intros U.
  eexists _, _, _. split; [lazy; reflexivity|]. vm_compute. discriminate.
Qed.

(** C2 on the source [a b]. *)
Lemma C2_scan_progress_witness :
  let s := scanner_of (bytes "a b") in
  Inv s /\
  (exists pos tok lit s',
      @Scan NoTables s = Some ((pos, tok, lit), s') /\ Inv s' /\
      (tok <> token.EOF -> offset s < offset s' /\ rdOffset s <= rdOffset s') /\
      (tok = token.EOF ->
       exists pos', @Scan NoTables s' = Some ((pos', token.EOF, []), s'))) /\
  (exists toks s_end init r,
      @ScanAll NoTables (budget s) s = Some (toks, s_end) /\
      toks = init ++ [r] /\ tok_of r = token.EOF /\
      Forall (fun x => tok_of x <> token.EOF) init /\
      (List.length toks <= budget s)%nat).
Proof.
  cbv zeta.
  assert (H : Inv (scanner_of (bytes "a b"))).
  { split; [vm_compute; discriminate|]. left. split; vm_compute; reflexivity. }
  split; [exact H|]. exact (@C2_scan_progress NoTables _ H).
Defined.

(** C10 on a comment: the whole comment is consumed and the literal is
    empty. *)
Lemma C10_literal_kinds_witness :
  let s := scanner_of (bytes "/* a comment */") in
  Inv s /\
  exists pos tok lit s',
    @Scan NoTables s = Some ((pos, tok, lit), s') /\
    (lit <> [] ->
     In tok [token.IDENT; token.BOOL; token.INT; token.FLOAT; token.STRING;
             token.RAWSTRING; token.ILLEGAL]) /\
    (In tok [token.COMMENT; token.EOF;
             token.ADD; token.SUB; token.MUL; token.QUO; token.REM;
             token.AND; token.OR;
             token.EQL; token.LSS; token.GTR; token.ASSIGN; token.NOT;
             token.NEQ; token.LEQ; token.GEQ;
             token.LPAREN; token.LBRACK; token.LBRACE; token.COMMA; token.PERIOD;
             token.RPAREN; token.RBRACK; token.RBRACE; token.COLON] ->
     lit = []).
Proof.
  cbv zeta.
  assert (H : Inv (scanner_of (bytes "/* a comment */"))).
  { split; [vm_compute; discriminate|]. left. split; vm_compute; reflexivity. }
  split; [exact H|]. exact (@C10_literal_kinds NoTables _ H).
Defined.

Example Scan_comment_literal :
  exists s',
    @Scan NoTables (scanner_of (bytes "/* a comment */"))
    = Some ((1, token.COMMENT, []), s') /\ offset s' = 15.
Proof. eexists. split; [lazy; reflexivity|reflexivity]. Qed.
(** ** The file-set serializer *)

Lemma FilePosition_persisted (f f' : token.File) (p : token.Pos) :
  token.persisted f' = token.persisted f ->
  token.FilePosition f' p = token.FilePosition f p.
Proof.
  unfold token.persisted. intros H. inversion H as [[E1 E2 E3 E4 E5]].
  unfold token.FilePosition. now rewrite E1, E2, E4, E5.
Qed.

(** C9.  Over any stream on which [decode] returns what [encode] was
    handed, writing a file set with [Write] and restoring it with [Read]
    into any file set succeeds and reproduces the base offset and, file
    by file in order, the name, base, size, line table and
    alternate-position infos, so that every position resolves as before;
    the restored files belong to the set read into, and its cache of the
    last file is empty. *)
Theorem C9_write_read_roundtrip {W : Type}
    (encode : token.Encoder W) (decode : token.Decoder W)
    (s t : token.FileSet) (w w' : W) :
  (forall x w0 w1, encode x w0 = (w1, None) ->
                   exists w2, decode token.zeroSerializedFileSet w1 = (x, w2, None)) ->
  token.Write s encode w = (w', None) ->
  exists t' w'',
    token.Read t decode w' = (t', w'', None) /\
    token.fs_base t' = token.fs_base s /\
    map token.persisted (token.files t') = map token.persisted (token.files s) /\
    Forall2 (fun f f' => forall p, token.FilePosition f' p = token.FilePosition f p)
            (token.files s) (token.files t') /\
    Forall (fun f => token.set f = token.self t) (token.files t') /\
    token.self t' = token.self t /\
    token.last t' = None.
Proof.
  intros Hcodec Hw. unfold token.Write in Hw.
  destruct (Hcodec _ _ _ Hw) as (w2 & Hd).
  unfold token.Read. rewrite Hd. cbn [token.ss_Files token.ss_Base].
  eexists _, w2. split; [reflexivity|]. cbn [token.fs_base token.files token.last token.self].
  split; [reflexivity|].
  rewrite !map_map. cbn [token.sf_Name token.sf_Base token.sf_Size token.sf_Lines token.sf_Infos].
  assert (Hp : map (fun x => token.persisted
                 (token.mkFile (token.self t) (token.name x) (token.base x)
                    (token.size x) (token.lines x) (token.infos x))) (token.files s)
               = map token.persisted (token.files s)).
  { apply map_ext. intros f. reflexivity. }
  split; [exact Hp|]. split; [|split; [|split; reflexivity]].
  - clear. induction (token.files s) as [|f l IH]; simpl; constructor; [|exact IH].
    intros p. now apply FilePosition_persisted.
  - clear. induction (token.files s) as [|f l IH]; simpl; constructor; [reflexivity|exact IH].
Qed.

(** C9 over the stream that holds the last value written. *)
Lemma C9_write_read_roundtrip_witness :
  let encode : token.Encoder (option token.serializedFileSet) :=
    fun x _ => (Some x, None) in
  let decode : token.Decoder (option token.serializedFileSet) :=
    fun z w => match w with
               | Some x => (x, None, None)
               | None => (z, None, Some "EOF"%string)
               end in
  let f1 := token.mkFile 1%positive "a.zo" 1 10 [0; 4] [] in
  let f2 := token.mkFile 1%positive "b.zo" 12 3 [0]
                         [token.mkLineInfo 1 "gen.y" 7] in
  let s := token.mkFileSet 1%positive 16 [f1; f2] (Some f2) in
  let t := token.mkFileSet 2%positive 1 [] None in
  exists t' w'',
    token.Read t decode (Some (token.mkSerializedFileSet 16
      [token.mkSerializedFile "a.zo" 1 10 [0; 4] [];
       token.mkSerializedFile "b.zo" 12 3 [0] [token.mkLineInfo 1 "gen.y" 7]]))
    = (t', w'', None) /\
    token.fs_base t' = token.fs_base s /\
    map token.persisted (token.files t') = map token.persisted (token.files s) /\
    Forall2 (fun f f' => forall p, token.FilePosition f' p = token.FilePosition f p)
            (token.files s) (token.files t') /\
    Forall (fun f => token.set f = token.self t) (token.files t') /\
    token.self t' = token.self t /\
    token.last t' = None.
Proof.
  cbv zeta.
  refine (C9_write_read_roundtrip
            (fun x _ => (Some x, None))
            (fun z w => match w with
                        | Some x => (x, None, None)
                        | None => (z, None, Some "EOF"%string)
                        end)
            _ _ None _ _ _).
  - intros x w0 w1 H. inversion H. now exists None.
  - reflexivity.
Defined.

(** The bytes of a sequence after its first byte are continuation bytes. *)
Lemma DecodeRune_cont (b : byte) (tl : list byte) :
  Forall (fun c => utf8.RuneSelf <= b2z c)
         (firstn (Z.to_nat (snd (utf8.DecodeRune (b :: tl)) - 1)) tl).
Proof.
  pose proof (b2z_range b) as Hb.
  unfold utf8.DecodeRune, utf8.RuneSelf, utf8.RuneError.
  assert (W1 : forall r : Z,
             Forall (fun c => 128 <= b2z c) (firstn (Z.to_nat (snd (r, 1) - 1)) tl))
    by (intros r; cbn [snd]; constructor).
  destruct (Z.ltb_spec (b2z b) 0x80) as [H0|H0]; [apply W1|].
  destruct ((b2z b <? 0xC2) || (0xF4 <? b2z b)); [apply W1|].
  match goal with |- context [if ?c then (?e, 1) else _] =>
    destruct c; [apply W1|] end.
  destruct tl as [|c1 p2]; [apply W1|].
  match goal with |- context [if ?c then (?e, 1) else _] =>
    destruct c eqn:Hacc; [apply W1|] end.
  apply orb_false_elim in Hacc. destruct Hacc as [Hlo Hhi].
  assert (Hb1 : 0x80 <= b2z c1).
  { revert Hlo.
    repeat match goal with |- context [if ?c then _ else _] => destruct c end;
      intros Hlo; apply Z.ltb_ge in Hlo; lia. }
  clear Hlo Hhi.
  match goal with |- context [if ?c then (?e, 2) else _] => destruct c end.
  { cbn [snd]. change (Z.to_nat (2 - 1)) with 1%nat. cbn [firstn].
    repeat constructor. exact Hb1. }
  destruct p2 as [|c2 p3]; [apply W1|].
  match goal with |- context [if ?c then (?e, 1) else _] =>
    destruct c eqn:Hacc2; [apply W1|] end.
  apply orb_false_elim in Hacc2. destruct Hacc2 as [Hlo2 _].
  apply Z.ltb_ge in Hlo2.
  match goal with |- context [if ?c then (?e, 3) else _] => destruct c end.
  { cbn [snd]. change (Z.to_nat (3 - 1)) with 2%nat. cbn [firstn].
    repeat constructor; assumption. }
  destruct p3 as [|c3 p4]; [apply W1|].
  match goal with |- context [if ?c then (?e, 1) else _] =>
    destruct c eqn:Hacc3; [apply W1|] end.
  apply orb_false_elim in Hacc3. destruct Hacc3 as [Hlo3 _].
  apply Z.ltb_ge in Hlo3.
  cbn [snd]. change (Z.to_nat (4 - 1)) with 3%nat. cbn [firstn].
  repeat constructor; assumption.
Qed.

(** ** The scanner and the bytes ahead of it *)

(** The current rune, read off the bytes from the current offset on. *)
Lemma Inv_ch (s : Scanner) :
  Inv s ->
  match slice_from (src s) (offset s) with
  | [] => at_end s
  | b :: tl => utf8.DecodeRune (b :: tl) = (ch s, rdOffset s - offset s)
  end.
Proof.
  intros [H0 [[Hlt Hd]|He]].
  - pose proof (slice_from_nonempty _ _ H0 Hlt).
    destruct (slice_from (src s) (offset s)); [congruence|exact Hd].
  - destruct He as (Hc & Ho & Hr).
    replace (slice_from (src s) (offset s)) with (@nil byte).
    + repeat split; assumption.
    + unfold slice_from, len in *. symmetry. apply skipn_all2. lia.
Qed.

Lemma slice_from_add {A : Type} (l : list A) (o w : Z) :
  0 <= o -> 0 <= w ->
  slice_from l (o + w) = skipn (Z.to_nat w) (slice_from l o).
Proof.
  intros Ho Hw. unfold slice_from. rewrite skipn_skipn.
  f_equal. lia.
Qed.

Lemma slice_from_len {A : Type} (l : list A) (o : Z) (p : list A) :
  0 <= o -> slice_from l o = p -> p <> [] -> o + len p = len l.
Proof.
  intros Ho E Hp. subst p. unfold slice_from, len in *.
  rewrite length_skipn.
  assert (Z.to_nat o < List.length l)%nat; [|lia].
  destruct (Nat.lt_ge_cases (Z.to_nat o) (List.length l)) as [|Hge]; [assumption|].
  exfalso. apply Hp. now apply skipn_all2.
Qed.

(** One call of [next] from a rune: the scanner moves over the bytes of
    that rune. *)
Lemma next_rune (s : Scanner) (b : byte) (tl : list byte) :
  Inv s -> slice_from (src s) (offset s) = b :: tl ->
  exists w,
    1 <= w <= 1 + len tl /\ rdOffset s = offset s + w /\
    Inv (next s) /\ src (next s) = src s /\ err (next s) = err s /\
    offset (next s) = offset s + w /\
    slice_from (src (next s)) (offset (next s)) = skipn (Z.to_nat (w - 1)) tl /\
    (b2z b < utf8.RuneSelf -> w = 1 /\ ch s = b2z b) /\
    (utf8.RuneSelf <= b2z b -> utf8.RuneSelf <= ch s) /\
    Forall (fun c => utf8.RuneSelf <= b2z c) (firstn (Z.to_nat (w - 1)) tl).
Proof.
  intros HI Hs. pose proof (Inv_ch s HI) as Hd. rewrite Hs in Hd.
  pose proof (DecodeRune_cons b tl) as (Hw & Hlo & Hhi).
  pose proof (DecodeRune_cont b tl) as Hcont.
  rewrite Hd in Hw, Hlo, Hhi, Hcont. cbn [fst snd] in *.
  rewrite len_cons in Hw.
  pose proof (next_Inv s HI) as (HI' & Ho & _).
  destruct HI as [H0 _].
  exists (rdOffset s - offset s).
  split; [lia|]. split; [lia|]. split; [assumption|].
  split; [apply next_src|]. split; [apply next_err|].
  split; [lia|]. split.
  - rewrite next_src, Ho.
    replace (rdOffset s) with (offset s + (rdOffset s - offset s)) at 1 by lia.
    rewrite slice_from_add by lia. rewrite Hs.
    replace (Z.to_nat (rdOffset s - offset s))
      with (S (Z.to_nat (rdOffset s - offset s - 1))) by lia.
    reflexivity.
  - split; [|split; assumption].
    intros Hb. destruct (Hlo Hb). split; [lia|assumption].
Qed.

(** The same over an ASCII byte. *)
Lemma next_ascii (s : Scanner) (b : byte) (tl : list byte) :
  Inv s -> slice_from (src s) (offset s) = b :: tl -> b2z b < utf8.RuneSelf ->
  ch s = b2z b /\ rdOffset s = offset s + 1 /\
  Inv (next s) /\ src (next s) = src s /\ err (next s) = err s /\
  offset (next s) = offset s + 1 /\
  slice_from (src (next s)) (offset (next s)) = tl.
Proof.
  intros HI Hs Hb.
  destruct (next_rune s b tl HI Hs) as (w & Hw & Hr & HI' & E1 & E2 & Ho & Hsl & Hlo & _).
  destruct (Hlo Hb) as [-> Hc].
  split; [assumption|]. split; [assumption|]. split; [assumption|].
  split; [assumption|]. split; [assumption|]. split; [assumption|].
  rewrite Hsl. reflexivity.
Qed.

(** The current rune when the bytes ahead are known. *)
Lemma ch_of_slice (s : Scanner) (p : list byte) :
  Inv s -> slice_from (src s) (offset s) = p ->
  match p with
  | [] => ch s = -1
  | b :: _ =>
    (b2z b < utf8.RuneSelf -> ch s = b2z b) /\
    (utf8.RuneSelf <= b2z b -> utf8.RuneSelf <= ch s)
  end.
Proof.
  intros HI Hs. pose proof (Inv_ch s HI) as Hd. rewrite Hs in Hd.
  destruct p as [|b tl]; [apply Hd|].
  pose proof (DecodeRune_cons b tl) as (_ & Hlo & Hhi).
  rewrite Hd in Hlo, Hhi. cbn [fst snd] in *. split; [|assumption].
  intros Hb. now destruct (Hlo Hb).
Qed.

Lemma Forall_skipn {A : Type} (P : A -> Prop) (n : nat) (l : list A) :
  Forall P l -> Forall P (skipn n l).
Proof.
  revert l. induction n as [|n IH]; intros l H; [exact H|].
  destruct l as [|a l]; [constructor|]. simpl. apply IH. now inversion H.
Qed.

Lemma len_skipn {A : Type} (n : nat) (l : list A) :
  (n <= List.length l)%nat -> len (skipn n l) = len l - Z.of_nat n.
Proof. intros H. unfold len. rewrite length_skipn. lia. Qed.

(** A rune that starts in [body] ends in [body]. *)
Lemma rune_in_body (w : Z) (body rest : list byte) (b : byte) :
  1 <= w <= 1 + len (body ++ rest) ->
  (ascii_byte b -> w = 1) ->
  Forall (fun c => utf8.RuneSelf <= b2z c) (firstn (Z.to_nat (w - 1)) (body ++ rest)) ->
  no_straddle (b :: body) rest ->
  w - 1 <= len body.
Proof.
  intros Hw Hb Hc Hn.
  destruct (Z.le_gt_cases (w - 1) (len body)) as [|Hgt]; [assumption|exfalso].
  destruct Hn as [Ha|Hr].
  - inversion Ha; subst. specialize (Hb H1). pose proof (len_nonneg body). lia.
  - rewrite len_app in Hw.
    destruct rest as [|c rest]; [change (len (@nil byte)) with 0 in Hw; lia|].
    rewrite firstn_app in Hc. apply Forall_app in Hc. destruct Hc as [_ Hc].
    unfold len in Hgt.
    replace (Z.to_nat (w - 1) - List.length body)%nat
      with (S (Z.to_nat (w - 1) - List.length body - 1)) in Hc by lia.
    cbn [firstn] in Hc. inversion Hc; subst. unfold ascii_byte in Hr. lia.
Qed.

(** [next] reports nothing when the byte it reads is clean, or when there
    is none. *)
Lemma next_clean (s : Scanner) :
  Inv s -> clean_head (slice_from (src s) (rdOffset s)) -> silent s (next s).
Proof.
  intros HI Hc. pose proof (Inv_bounds s HI) as (Hb1 & Hb2 & _).
  destruct (Z.lt_ge_cases (rdOffset s) (len (src s))) as [Hlt|Hge].
  - pose proof (next_read s ltac:(lia) Hlt) as (_ & _ & _ & _ & E5 & E6).
    pose proof (slice_from_nonempty (src s) (rdOffset s) ltac:(lia) Hlt) as Hne.
    destruct (slice_from (src s) (rdOffset s)) as [|c tl]; [congruence|].
    cbn [clean_head] in Hc. unfold clean_byte in Hc.
    rewrite (DecodeRune_ascii c tl) in E5, E6 by lia. cbn [fst snd] in E5, E6.
    unfold decode_msg in E5, E6.
    destruct (Z.eqb_spec (b2z c) 0); [lia|].
    destruct (Z.leb_spec utf8.RuneSelf (b2z c)); [lia|].
    cbn [andb] in E5, E6. rewrite app_nil_r in E6. split; [lia|assumption].
  - pose proof (next_eof s Hge) as (_ & _ & _ & _ & E5 & E6). split; assumption.
Qed.

Lemma silent_trans (a b c : Scanner) : silent a b -> silent b c -> silent a c.
Proof. intros [H1 H2] [H3 H4]. split; congruence. Qed.

Section Runs.

Context {U : UnicodeTables}.

(** A loop [for cond(s.ch) { s.next() }] run over bytes on whose runes the
    condition holds, up to bytes on whose first rune it fails: the loop
    consumes exactly those bytes. *)
Lemma next_while_run (cond : Z -> bool) (rest : list byte) :
  stops cond rest ->
  forall (n : nat) (body : list byte) (s : Scanner),
    Inv s -> (mu s < n)%nat ->
    slice_from (src s) (offset s) = body ++ rest ->
    Forall (continues cond) body ->
    no_straddle body rest ->
    exists s',
      next_while n cond s = Some (tt, s') /\ Inv s' /\
      offset s' = offset s + len body /\
      slice_from (src s') (offset s') = rest /\
      (Forall clean_byte (tl body) -> clean_head rest -> silent s s').
Proof.
  intros [Heof Hstop]. induction n as [|n IH]; intros body s HI Hmu Hs Hc Hn; [lia|].
  cbn [next_while]. rewrite bind_gets.
  destruct body as [|b body].
  - (* the loop stops *)
    cbn [app] in Hs. pose proof (ch_of_slice s rest HI Hs) as Hch.
    assert (Hf : cond (ch s) = false).
    { destruct rest as [|c rest]; [now rewrite Hch|].
      destruct Hch as [Hlo Hhi]. unfold utf8.RuneSelf in *.
      destruct (Z.ltb_spec (b2z c) 0x80) as [Hlt|Hge].
      - now rewrite (Hlo Hlt).
      - now apply Hstop, Hhi. }
    rewrite Hf. exists s. change (len (@nil byte)) with 0.
    split; [reflexivity|]. split; [assumption|]. split; [lia|].
    split; [assumption|]. intros _ _. split; reflexivity.
  - (* the loop goes on *)
    cbn [app] in Hs.
    destruct (next_rune s b (body ++ rest) HI Hs)
      as (w & Hw & Hr & HI' & E1 & E2 & Ho & Hsl & Hlo & Hhi & Hcont).
    assert (Ht : cond (ch s) = true).
    { inversion Hc as [|? ? Hb _]; subst. unfold continues in Hb.
      unfold utf8.RuneSelf in *.
      destruct (Z.ltb_spec (b2z b) 0x80) as [Hlt|Hge].
      - destruct (Hlo Hlt) as [_ ->]. exact Hb.
      - apply Hb. now apply Hhi. }
    rewrite Ht, bind_modify.
    assert (Hch : ch s <> -1) by (intros E; rewrite E in Ht; congruence).
    assert (Hwb : w - 1 <= len body).
    { apply (rune_in_body w body rest b); try assumption.
      intros Hb. now destruct (Hlo Hb). }
    pose proof (len_nonneg body) as Hlb.
    destruct (progress_next s Hch ltac:(assumption)) as (_ & _ & _ & _ & _ & _ & Hlt).
    destruct (IH (skipn (Z.to_nat (w - 1)) body) (next s) HI' ltac:(lia))
      as (s' & Hrun & HI2 & Ho2 & Hs2 & Hsil).
    + rewrite Hsl, skipn_app.
      replace (Z.to_nat (w - 1) - List.length body)%nat with 0%nat
        by (unfold len in Hwb; lia).
      reflexivity.
    + apply Forall_skipn. now inversion Hc.
    + destruct Hn as [Ha|Hn]; [left|right; exact Hn].
      apply Forall_skipn. now inversion Ha.
    + exists s'. split; [exact Hrun|]. split; [assumption|].
      split; [|split; [assumption|]].
      { rewrite Ho2, Ho, len_cons, len_skipn by (unfold len in Hwb; lia). lia. }
      cbn [tl]. intros Hcl Hcr.
      assert (Hw1 : w = 1).
      { destruct body as [|c body]; [change (len (@nil byte)) with 0 in Hwb; lia|].
        destruct (Z.eq_dec w 1) as [|Hne]; [assumption|exfalso].
        replace (Z.to_nat (w - 1)) with (S (Z.to_nat (w - 2))) in Hcont by lia.
        cbn [app firstn] in Hcont. inversion Hcont; subst.
        inversion Hcl; subst. unfold clean_byte in *. lia. }
      subst w. change (Z.to_nat (1 - 1)) with 0%nat in *. cbn [skipn] in *.
      apply (silent_trans _ (next s)).
      * apply next_clean; [assumption|].
        rewrite Hr. rewrite <- Ho, <- E1, Hsl.
        destruct body as [|c body]; [exact Hcr|now inversion Hcl].
      * apply Hsil; [|assumption].
        destruct body as [|c body]; [constructor|now inversion Hcl].
Qed.

Lemma next_loop_run (cond : Z -> bool) (body rest : list byte) (s : Scanner) :
  Inv s ->
  slice_from (src s) (offset s) = body ++ rest ->
  Forall (continues cond) body ->
  stops cond rest ->
  no_straddle body rest ->
  exists s',
    next_loop cond s = Some (tt, s') /\ Inv s' /\
    offset s' = offset s + len body /\
    slice_from (src s') (offset s') = rest /\
    (Forall clean_byte (tl body) -> clean_head rest -> silent s s').
Proof.
  intros HI Hs Hc Hst Hn. unfold next_loop. rewrite bind_gets.
  now apply (next_while_run cond rest Hst (budget s) body s HI (budget_mu s)).
Qed.

End Runs.

(** ** What is reported *)

Lemma quiet_refl (s : Scanner) : quiet s s.
Proof. exists []. split; [now rewrite app_nil_r|constructor]. Qed.

Lemma quiet_trans (a b c : Scanner) : quiet a b -> quiet b c -> quiet a c.
Proof.
  intros (l1 & E1 & F1) (l2 & E2 & F2). exists (l1 ++ l2).
  split; [now rewrite E2, E1, app_assoc|now apply Forall_app].
Qed.

Lemma quiet_next (s : Scanner) : quiet s (next s).
Proof.
  destruct s as [f d b e c o r n l]. unfold quiet, next, error.
  break_ifs;
    first [ exists []; split; [now rewrite app_nil_r|constructor]
          | eexists [_]; split; [reflexivity|];
            constructor; [|constructor]; unfold next_msg; cbn [call_msg]; tauto ].
Qed.

Lemma silent_quiet (s s' : Scanner) : silent s s' -> quiet s s'.
Proof. intros [_ H]. exists []. split; [now rewrite app_nil_r|constructor]. Qed.

Lemma count_msg_app (m : string) (l l' : list Call) :
  count_msg m (l ++ l') = count_msg m l + count_msg m l'.
Proof. unfold count_msg. now rewrite filter_app, len_app. Qed.

Lemma count_msg_next (m : string) (l : list Call) :
  ~ next_msg m -> Forall (fun c => next_msg (call_msg c)) l -> count_msg m l = 0.
Proof.
  intros Hm H. induction H as [|c l Hc _ IH]; [reflexivity|].
  unfold count_msg in *. cbn [filter].
  destruct (String.eqb_spec (call_msg c) m) as [E|E]; [|exact IH].
  exfalso. apply Hm. now rewrite <- E.
Qed.

Lemma quiet_count (m : string) (s s' : Scanner) :
  quiet s s' -> ~ next_msg m -> count_msg m (calls s') = count_msg m (calls s).
Proof.
  intros (l & E & F) Hm. rewrite E, count_msg_app, (count_msg_next m l Hm F). lia.
Qed.

Lemma error_count (o : Z) (m m' : string) (s : Scanner) :
  err s = true ->
  count_msg m' (calls (error o m s))
  = count_msg m' (calls s) + (if String.eqb m m' then 1 else 0).
Proof.
  intros He. destruct (error_fields o m s) as (_ & _ & _ & _ & _ & _ & _ & E).
  rewrite E, He, count_msg_app. f_equal.
  unfold count_msg. cbn [filter call_msg]. now destruct (String.eqb m m').
Qed.

Section Quiet.

Context {U : UnicodeTables}.

Lemma next_loop_quiet (cond : Z -> bool) : steps quiet (next_loop cond).
Proof.
  apply steps_next_loop; [exact quiet_refl | exact quiet_trans | exact quiet_next].
Qed.

Lemma scanComment_quiet : steps quiet scanComment.
Proof.
  apply steps_scanComment; [exact quiet_refl | exact quiet_trans | exact quiet_next].
Qed.

Lemma scanComment_block_quiet (n : nat) : steps quiet (scanComment_block n).
Proof.
  apply steps_scanComment_block; [exact quiet_refl | exact quiet_trans | exact quiet_next].
Qed.

Lemma scanMantissa_quiet (base : Z) : steps quiet (scanMantissa base).
Proof.
  apply steps_scanMantissa; [exact quiet_refl | exact quiet_trans | exact quiet_next].
Qed.

Lemma scanNumber_fraction_quiet (offs : Z) (tok : token.Token) :
  steps quiet (scanNumber_fraction offs tok).
Proof.
  apply steps_scanNumber_fraction; [exact quiet_refl | exact quiet_trans | exact quiet_next].
Qed.

Lemma skipWhiteSpace_quiet : steps quiet skipWhiteSpace.
Proof.
  apply steps_skipWhiteSpace; [exact quiet_refl | exact quiet_trans | exact quiet_next].
Qed.

End Quiet.

(** ** Comments *)

Lemma has_close_tl (b : byte) (tl : list byte) :
  has_close (b :: tl) = false -> has_close tl = false.
Proof.
  cbn [has_close]. destruct tl as [|c tl]; [reflexivity|].
  intros H. apply orb_false_elim in H. tauto.
Qed.

Lemma has_close_skipn (k : nat) (p : list byte) :
  has_close p = false -> has_close (skipn k p) = false.
Proof.
  revert p. induction k as [|k IH]; intros p H; [exact H|].
  destruct p as [|b tl]; [reflexivity|]. cbn [skipn]. apply IH.
  now apply has_close_tl in H.
Qed.

Section Comments.

Context {U : UnicodeTables}.

(** The loop of a block comment over bytes that do not hold the closing
    mark runs to the end of the input. *)
Lemma scanComment_block_run (n : nat) (body : list byte) (s : Scanner) :
  Inv s -> (mu s < n)%nat ->
  slice_from (src s) (offset s) = body ->
  has_close body = false ->
  exists s',
    scanComment_block n s = Some (tt, s') /\ Inv s' /\ ch s' = -1 /\
    (Forall clean_byte (tl body) -> silent s s').
Proof.
  revert body s. induction n as [|n IH]; intros body s HI Hmu Hs Hcl; [lia|].
  cbn [scanComment_block]. rewrite bind_gets.
  destruct body as [|b bs].
  - pose proof (ch_of_slice s [] HI Hs) as Hc. cbn in Hc. rewrite Hc.
    change (0 <=? -1) with false. cbv iota.
    exists s. split; [reflexivity|]. split; [assumption|]. split; [assumption|].
    intros _. split; reflexivity.
  - destruct (next_rune s b bs HI Hs)
      as (w & Hw & Hr & HI' & E1 & E2 & Ho & Hsl & Hlo & Hhi & Hcont).
    pose proof (Inv_ch s HI) as Hd. rewrite Hs in Hd.
    pose proof (DecodeRune_nonneg (b :: bs)) as Hnn. rewrite Hd in Hnn. cbn [fst] in Hnn.
    destruct (Z.leb_spec 0 (ch s)) as [_|]; [|lia].
    rewrite bind_modify, bind_gets.
    destruct (progress_next s ltac:(lia) HI) as (_ & _ & _ & _ & _ & _ & Hlt).
    destruct ((ch s =? rune "*") && (ch (next s) =? rune "/")) eqn:Hclose.
    + (* the closing mark would be among the bytes *)
      exfalso. apply andb_true_iff in Hclose. destruct Hclose as [H1 H2].
      apply Z.eqb_eq in H1, H2.
      pose proof (b2z_range b) as Hb. unfold utf8.RuneSelf in *.
      assert (Hb1 : b2z b < 128).
      { destruct (Z.lt_ge_cases (b2z b) 128) as [|Hge]; [assumption|].
        specialize (Hhi Hge). rewrite H1 in Hhi. unfold rune in Hhi. simpl in Hhi. lia. }
      destruct (Hlo Hb1) as [-> Hcb].
      change (Z.to_nat (1 - 1)) with 0%nat in Hsl. cbn [skipn] in Hsl.
      pose proof (ch_of_slice (next s) bs HI' Hsl) as Hc2.
      destruct bs as [|c bs]; [rewrite Hc2 in H2; discriminate H2|].
      destruct Hc2 as [Hlo2 Hhi2]. unfold utf8.RuneSelf in *.
      assert (Hc1 : b2z c < 128).
      { destruct (Z.lt_ge_cases (b2z c) 128) as [|Hge]; [assumption|].
        specialize (Hhi2 Hge). rewrite H2 in Hhi2. unfold rune in Hhi2. simpl in Hhi2. lia. }
      specialize (Hlo2 Hc1). cbn [has_close] in Hcl.
      rewrite <- Hcb, H1, <- Hlo2, H2 in Hcl. discriminate Hcl.
    + destruct (IH (skipn (Z.to_nat (w - 1)) bs) (next s) HI' ltac:(lia) Hsl)
        as (s' & Hrun & HI2 & Hc & Hsil).
      { apply has_close_skipn. now apply has_close_tl in Hcl. }
      exists s'. split; [exact Hrun|]. split; [assumption|]. split; [assumption|].
      cbn [tl]. intros Hclean.
      assert (Hw1 : w = 1).
      { destruct bs as [|c bs]; [change (len (@nil byte)) with 0 in Hw; lia|].
        destruct (Z.eq_dec w 1) as [|Hne]; [assumption|exfalso].
        replace (Z.to_nat (w - 1)) with (S (Z.to_nat (w - 2))) in Hcont by lia.
        cbn [firstn] in Hcont. inversion Hcont; subst.
        inversion Hclean; subst. unfold clean_byte in *. lia. }
      subst w. change (Z.to_nat (1 - 1)) with 0%nat in *. cbn [skipn] in *.
      apply (silent_trans _ (next s)).
      * apply next_clean; [assumption|].
        rewrite Hr. rewrite <- Ho, <- E1, Hsl.
        destruct bs as [|c bs]; [exact I|now inversion Hclean].
      * apply Hsil. destruct bs as [|c bs]; [constructor|now inversion Hclean].
Qed.

End Comments.

Section ScanAt.

Context {U : UnicodeTables}.

(** [Scan] at a rune that is neither white space nor a letter nor a
    digit: the rune is consumed and the inner switch decides. *)
Lemma Scan_other (s : Scanner) (c : Z) :
  ch s = c ->
  (c =? rune " ") || (c =? TAB) || (c =? NL) || (c =? CR) = false ->
  isLetter c = false ->
  (rune "0" <=? c) && (c <=? rune "9") = false ->
  Scan s = Scan_switch (token.FilePos (file s) (offset s)) c (next s).
Proof.
  intros Hc Hw Hl Hd. unfold Scan, skipWhiteSpace.
  erewrite bind_eq; [|apply next_loop_stop; rewrite Hc; exact Hw].
  rewrite !bind_gets, Hc, Hl, Hd, bind_modify. reflexivity.
Qed.

(** [Scan] at a digit. *)
Lemma Scan_digit (s : Scanner) (c : Z) :
  ch s = c ->
  (rune "0" <=? c) && (c <=? rune "9") = true ->
  Scan s =
  bind (scanNumber false)
       (fun r => ret (token.FilePos (file s) (offset s), fst r, snd r)) s.
Proof.
  intros Hc Hd. unfold Scan, skipWhiteSpace.
  assert (Hr : 48 <= c <= 57).
  { apply andb_true_iff in Hd. destruct Hd as [H1 H2].
    apply Z.leb_le in H1, H2. unfold rune in *. simpl in *. lia. }
  erewrite bind_eq; [|apply next_loop_stop; rewrite Hc].
  2:{ unfold rune, TAB, NL, CR. simpl.
      destruct (Z.eqb_spec c 32), (Z.eqb_spec c 9), (Z.eqb_spec c 10), (Z.eqb_spec c 13);
        try lia; reflexivity. }
  rewrite !bind_gets, Hc, Hd.
  replace (isLetter c) with false; [reflexivity|].
  symmetry. unfold isLetter, rune, utf8.RuneSelf. simpl.
  destruct (Z.leb_spec 97 c), (Z.leb_spec c 122), (Z.leb_spec 65 c), (Z.leb_spec c 90),
    (Z.eqb_spec c 95), (Z.leb_spec 128 c); try lia; reflexivity.
Qed.

End ScanAt.

Section CommentClaim.

Context {U : UnicodeTables}.

(** C8, as amended.  A block comment that the end of the input cuts short is scanned
    as a [COMMENT] token with an empty literal: the scanner consumes the
    rest of the input, and nothing is reported but what [next] reports
    for the runes it decodes, so nothing at all when the bytes of the
    comment are clean.  A line comment is scanned as a [COMMENT] token
    that ends in front of the next newline, or at the end of the input
    when there is none. *)
Theorem C8_comments (s : Scanner) (body rest : list byte) :
  Inv s ->
  (slice_from (src s) (offset s) = bytes "/*" ++ body ->
   has_close body = false ->
   exists s',
     Scan s = Some ((token.FilePos (file s) (offset s), token.COMMENT, []), s') /\
     Inv s' /\ ch s' = -1 /\ offset s' = len (src s) /\
     quiet s s' /\ (Forall clean_byte body -> silent s s')) /\
  (slice_from (src s) (offset s) = bytes "//" ++ body ++ rest ->
   Forall (fun b => b2z b <> NL) body ->
   rest = [] \/ (exists bs, rest = x0a :: bs) ->
   exists s',
     Scan s = Some ((token.FilePos (file s) (offset s), token.COMMENT, []), s') /\
     Inv s' /\ offset s' = offset s + 2 + len body /\
     slice_from (src s') (offset s') = rest /\
     quiet s s' /\ (Forall clean_byte body -> silent s s')).
Proof.
  intros HI. split.
  - (* block comment *)
    intros Hs Hcl. change (bytes "/*" ++ body) with (x2f :: x2a :: body) in Hs.
    destruct (next_ascii s _ _ HI Hs ltac:(reflexivity))
      as (Hc & Hr & HI1 & E1 & _ & Ho1 & Hs1).
    rewrite (Scan_other s (rune "/")) by (assumption || reflexivity).
    change (Scan_switch (token.FilePos (file s) (offset s)) (rune "/"))
      with (bind (gets ch) (fun c' =>
              if (c' =? rune "/") || (c' =? rune "*") then
                bind scanComment
                     (fun _ => ret (token.FilePos (file s) (offset s), token.COMMENT,
                                    @nil byte))
              else ret (token.FilePos (file s) (offset s), token.QUO, @nil byte))).
    destruct (next_ascii (next s) _ _ HI1 Hs1 ltac:(reflexivity))
      as (Hc1 & Hr1 & HI2 & E2 & _ & Ho2 & Hs2).
    rewrite bind_gets, Hc1. change ((b2z x2a =? rune "/") || (b2z x2a =? rune "*")) with true.
    cbv iota.
    destruct (scanComment_block_run (budget (next (next s))) body (next (next s))
                HI2 (budget_mu _) Hs2 Hcl) as (s' & Hrun & HI3 & Hc3 & Hsil).
    assert (Hsc : scanComment (next s) = Some (tt, s')).
    { unfold scanComment. rewrite bind_gets, Hc1.
      change (b2z x2a =? rune "/") with false. cbv iota.
      rewrite bind_modify, bind_gets. exact Hrun. }
    rewrite (bind_eq _ _ _ _ _ Hsc).
    exists s'. split; [reflexivity|]. split; [assumption|].
    split; [assumption|]. split.
    { pose proof (Inv_end s' HI3 Hc3) as (_ & -> & _).
      pose proof (steps_scanComment_block forward forward_refl forward_trans forward_next
                    _ _ _ _ Hrun HI2) as (_ & -> & _).
      now rewrite E2, E1. }
    split.
    { apply (quiet_trans _ (next s)); [apply quiet_next|].
      apply (quiet_trans _ (next (next s))); [apply quiet_next|].
      exact (scanComment_block_quiet _ _ _ _ Hrun). }
    intros Hclean.
    apply (silent_trans _ (next s)).
    { apply next_clean; [assumption|]. rewrite Hr, <- Ho1, <- E1, Hs1. cbv. auto. }
    apply (silent_trans _ (next (next s))).
    { apply next_clean; [assumption|]. rewrite Hr1, <- Ho2, <- E2, Hs2.
      destruct body; [exact I|now inversion Hclean]. }
    apply Hsil. destruct body; [constructor|now inversion Hclean].
  - (* line comment *)
    intros Hs Hnl Hrest.
    change (bytes "//" ++ body ++ rest) with (x2f :: x2f :: body ++ rest) in Hs.
    destruct (next_ascii s _ _ HI Hs ltac:(reflexivity))
      as (Hc & Hr & HI1 & E1 & _ & Ho1 & Hs1).
    rewrite (Scan_other s (rune "/")) by (assumption || reflexivity).
    change (Scan_switch (token.FilePos (file s) (offset s)) (rune "/"))
      with (bind (gets ch) (fun c' =>
              if (c' =? rune "/") || (c' =? rune "*") then
                bind scanComment
                     (fun _ => ret (token.FilePos (file s) (offset s), token.COMMENT,
                                    @nil byte))
              else ret (token.FilePos (file s) (offset s), token.QUO, @nil byte))).
    destruct (next_ascii (next s) _ _ HI1 Hs1 ltac:(reflexivity))
      as (Hc1 & Hr1 & HI2 & E2 & _ & Ho2 & Hs2).
    rewrite bind_gets, Hc1. change ((b2z x2f =? rune "/") || (b2z x2f =? rune "*")) with true.
    cbv iota.
    destruct (next_loop_run (fun c => negb (c =? NL) && (0 <=? c)) body rest
                (next (next s)) HI2 Hs2) as (s' & Hrun & HI3 & Ho3 & Hs3 & Hsil).
    { apply Forall_forall. intros b Hb. rewrite Forall_forall in Hnl.
      specialize (Hnl b Hb). pose proof (b2z_range b). unfold continues, utf8.RuneSelf, NL in *.
      destruct (Z.ltb_spec (b2z b) 128).
      - destruct (Z.eqb_spec (b2z b) 10); [lia|].
        destruct (Z.leb_spec 0 (b2z b)); [reflexivity|lia].
      - intros r Hr0. destruct (Z.eqb_spec r 10); [lia|].
        destruct (Z.leb_spec 0 r); [reflexivity|lia]. }
    { split; [reflexivity|]. destruct Hrest as [->|(bs & ->)]; [exact I|reflexivity]. }
    { right. destruct Hrest as [->|(bs & ->)]; [exact I|]. cbv. reflexivity. }
    assert (Hsc : scanComment (next s) = Some (tt, s')).
    { unfold scanComment. rewrite bind_gets, Hc1.
      change (b2z x2f =? rune "/") with true. cbv iota.
      rewrite bind_modify. exact Hrun. }
    rewrite (bind_eq _ _ _ _ _ Hsc).
    exists s'. split; [reflexivity|]. split; [assumption|].
    split; [lia|]. split; [assumption|]. split.
    { apply (quiet_trans _ (next s)); [apply quiet_next|].
      apply (quiet_trans _ (next (next s))); [apply quiet_next|].
      exact (next_loop_quiet _ _ _ _ Hrun). }
    intros Hclean.
    assert (Hcr : clean_head rest).
    { destruct Hrest as [->|(bs & ->)]; [exact I|]. cbv. auto. }
    apply (silent_trans _ (next s)).
    { apply next_clean; [assumption|]. rewrite Hr, <- Ho1, <- E1, Hs1. cbv. auto. }
    apply (silent_trans _ (next (next s))).
    { apply next_clean; [assumption|]. rewrite Hr1, <- Ho2, <- E2, Hs2.
      destruct body; [exact Hcr|now inversion Hclean]. }
    apply Hsil; [|assumption]. destruct body; [constructor|now inversion Hclean].
Qed.

End CommentClaim.

(** ** Numbers *)

Section Digits.

Context {U : UnicodeTables}.

Lemma digitVal_cases (c : Z) :
  (48 <= c <= 57 /\ digitVal c = c - 48) \/
  (97 <= c <= 102 /\ digitVal c = c - 87) \/
  (65 <= c <= 70 /\ digitVal c = c - 55) \/
  (~ 48 <= c <= 57 /\ ~ 97 <= c <= 102 /\ ~ 65 <= c <= 70 /\ digitVal c = 16).
Proof.
  unfold digitVal, rune. simpl.
  destruct (Z.leb_spec 48 c), (Z.leb_spec c 57), (Z.leb_spec 97 c), (Z.leb_spec c 102),
    (Z.leb_spec 65 c), (Z.leb_spec c 70); cbn [andb]; try lia.
Qed.

Lemma digitVal_lt10 (c : Z) : (digitVal c <? 10) = true <-> 48 <= c <= 57.
Proof.
  rewrite Z.ltb_lt. destruct (digitVal_cases c) as [H|[H|[H|H]]]; lia.
Qed.

Lemma digitVal_lt8 (c : Z) : (digitVal c <? 8) = true <-> 48 <= c <= 55.
Proof.
  rewrite Z.ltb_lt. destruct (digitVal_cases c) as [H|[H|[H|H]]]; lia.
Qed.

Lemma digitVal_ge (c base : Z) : (digitVal c <? base) = false <-> base <= digitVal c.
Proof. now rewrite Z.ltb_ge. Qed.

Lemma stops_digits (rest : list byte) :
  no_digit_ahead rest -> stops (fun c => digitVal c <? 10) rest.
Proof.
  intros H. split; [reflexivity|]. destruct rest as [|b rest]; [exact I|].
  cbn [no_digit_ahead] in H. unfold dec_digit, rune in H. simpl in H.
  unfold utf8.RuneSelf. destruct (Z.ltb_spec (b2z b) 128).
  - apply Z.ltb_ge. destruct (digitVal_cases (b2z b)) as [H'|[H'|[H'|H']]]; lia.
  - intros r Hr. apply Z.ltb_ge.
    destruct (digitVal_cases r) as [H'|[H'|[H'|H']]]; lia.
Qed.

(** Decimal digits with an [8] or a [9] among them: octal digits up to
    the first [8] or [9]. *)
Lemma split_octal (ds : list byte) :
  Forall dec_digit ds -> Exists digit_8_9 ds ->
  exists o8 d ds', ds = o8 ++ d :: ds' /\ Forall oct_digit o8 /\ digit_8_9 d.
Proof.
  intros Hd He. induction ds as [|b ds IH]; [inversion He|].
  inversion Hd as [|? ? Hb Hds]; subst.
  unfold dec_digit, digit_8_9, oct_digit, rune in *. simpl in *.
  destruct (Z.le_gt_cases (b2z b) 55) as [Ho|Ho].
  - inversion He as [? ? H89|? ? Hrest]; subst.
    + unfold rune in H89. simpl in H89. lia.
    + destruct (IH Hds Hrest) as (o8 & d & ds' & -> & Ho8 & Hd').
      exists (b :: o8), d, ds'. split; [reflexivity|]. split; [|assumption].
      constructor; [lia|assumption].
  - exists [], b, ds. split; [reflexivity|]. split; [constructor|]. lia.
Qed.

End Digits.

Lemma slice_prefix {A : Type} (l p q : list A) (o : Z) :
  0 <= o -> slice_from l o = p ++ q -> slice l o (o + len p) = p.
Proof.
  intros Ho H. unfold slice, slice_from, len in *. rewrite H.
  replace (Z.to_nat (o + Z.of_nat (List.length p)) - Z.to_nat o)%nat
    with (List.length p + 0)%nat by lia.
  rewrite firstn_app_2. cbn [firstn]. apply app_nil_r.
Qed.

Section Numbers.

Context {U : UnicodeTables}.

Lemma float_mark_ch (s : Scanner) (rest : list byte) :
  Inv s -> slice_from (src s) (offset s) = rest ->
  (ch s =? rune ".") || (ch s =? rune "e") || (ch s =? rune "E") = float_mark rest.
Proof.
  intros HI Hs. pose proof (ch_of_slice s rest HI Hs) as Hc.
  destruct rest as [|b rest]; [rewrite Hc; reflexivity|].
  destruct Hc as [Hlo Hhi]. cbn [float_mark]. unfold utf8.RuneSelf, rune in *. simpl.
  destruct (Z.lt_ge_cases (b2z b) 128) as [Hlt|Hge].
  - now rewrite (Hlo Hlt).
  - specialize (Hhi Hge).
    destruct (Z.eqb_spec (ch s) 46), (Z.eqb_spec (ch s) 101), (Z.eqb_spec (ch s) 69),
      (Z.eqb_spec (b2z b) 46), (Z.eqb_spec (b2z b) 101), (Z.eqb_spec (b2z b) 69);
      try lia; reflexivity.
Qed.

Lemma continues_digits (base : Z) (lo hi : Z) (ds : list byte) :
  (forall c, lo <= c <= hi -> (digitVal c <? base) = true) ->
  0 <= lo -> hi < 128 ->
  Forall (fun b => lo <= b2z b <= hi) ds ->
  Forall (continues (fun c => digitVal c <? base)) ds /\ Forall ascii_byte ds.
Proof.
  intros Hd Hlo Hhi Hds. split; eapply Forall_impl; try exact Hds; intros b Hb; cbv beta in *.
  - unfold continues, utf8.RuneSelf. destruct (Z.ltb_spec (b2z b) 128); [|lia].
    now apply Hd.
  - unfold ascii_byte, utf8.RuneSelf. lia.
Qed.

(** [scanNumber] on a leading [0] followed by decimal digits with an [8]
    or a [9] among them: the digits are consumed; then either the bytes
    go on with what makes a float and the scan continues at the label
    [fraction], or the illegal octal number is reported at the offset of
    the leading [0] and the integer is returned. *)
Lemma scanNumber_octal (s : Scanner) (ds rest : list byte) :
  Inv s ->
  slice_from (src s) (offset s) = x30 :: ds ++ rest ->
  Forall dec_digit ds -> Exists digit_8_9 ds -> no_digit_ahead rest ->
  exists s3,
    Inv s3 /\ quiet s s3 /\ src s3 = src s /\ err s3 = err s /\
    offset s3 = offset s + 1 + len ds /\
    slice_from (src s3) (offset s3) = rest /\
    (Forall clean_byte ds -> clean_head rest -> silent s s3) /\
    scanNumber false s =
    if float_mark rest then scanNumber_fraction (offset s) token.INT s3
    else Some ((token.INT, x30 :: ds), error (offset s) "illegal octal number" s3).
Proof.
  intros HI Hs Hdec H89 Hrest.
  destruct (split_octal ds Hdec H89) as (o8 & d & ds' & Eds & Ho8 & Hd).
  destruct (next_ascii s _ _ HI Hs ltac:(reflexivity))
    as (Hc & Hr & HI1 & E1 & R1 & Ho1 & Hs1).
  pose proof HI as [Hoff _].
  (* the octal digits *)
  assert (Hs1' : slice_from (src (next s)) (offset (next s)) = o8 ++ (d :: ds' ++ rest)).
  { rewrite Hs1, Eds, <- app_assoc. reflexivity. }
  destruct (continues_digits 8 48 55 o8) as [Hc8 Ha8]; try lia.
  { intros c Hcc. now apply digitVal_lt8. }
  { eapply Forall_impl; [|exact Ho8]. intros b Hb. unfold oct_digit, rune in Hb.
    simpl in Hb. exact Hb. }
  assert (Hd' : 56 <= b2z d <= 57).
  { unfold digit_8_9, rune in Hd. simpl in Hd. lia. }
  destruct (next_loop_run (fun c => digitVal c <? 8) o8 (d :: ds' ++ rest) (next s)
              HI1 Hs1' Hc8) as (s2 & Hrun8 & HI2 & Ho2 & Hs2 & Hsil2).
  { split; [reflexivity|]. unfold utf8.RuneSelf.
    destruct (Z.ltb_spec (b2z d) 128); [|lia].
    apply Z.ltb_ge. destruct (digitVal_cases (b2z d)) as [X|[X|[X|X]]]; lia. }
  { left. exact Ha8. }
  (* the decimal digits from the first 8 or 9 on *)
  assert (Hdec' : Forall dec_digit (d :: ds')).
  { rewrite Eds in Hdec. apply Forall_app in Hdec. tauto. }
  assert (Hs2' : slice_from (src s2) (offset s2) = (d :: ds') ++ rest) by exact Hs2.
  destruct (continues_digits 10 48 57 (d :: ds')) as [Hc10 Ha10]; try lia.
  { intros c Hcc. now apply digitVal_lt10. }
  { eapply Forall_impl; [|exact Hdec']. intros b Hb. unfold dec_digit, rune in Hb.
    simpl in Hb. exact Hb. }
  destruct (next_loop_run (fun c => digitVal c <? 10) (d :: ds') rest s2
              HI2 Hs2' Hc10 (stops_digits rest Hrest) (or_introl Ha10))
    as (s3 & Hrun10 & HI3 & Ho3 & Hs3 & Hsil3).
  pose proof (next_loop_forward _ _ _ _ Hrun8 HI1) as (_ & F1 & F2 & _).
  pose proof (next_loop_forward _ _ _ _ Hrun10 HI2) as (_ & G1 & G2 & _).
  exists s3. split; [assumption|]. split.
  { apply (quiet_trans _ (next s)); [apply quiet_next|].
    apply (quiet_trans _ s2); [exact (next_loop_quiet _ _ _ _ Hrun8)|].
    exact (next_loop_quiet _ _ _ _ Hrun10). }
  split; [congruence|]. split; [congruence|]. split.
  { rewrite Ho3, Ho2, Ho1, Eds, len_app, !len_cons. lia. }
  split; [assumption|]. split.
  { intros Hcl Hcr. rewrite Eds in Hcl. apply Forall_app in Hcl. destruct Hcl as [Hcl1 Hcl2].
    apply (silent_trans _ (next s)).
    { apply next_clean; [assumption|]. rewrite Hr, <- Ho1, <- E1, Hs1, Eds.
      destruct o8; [now inversion Hcl2|now inversion Hcl1]. }
    apply (silent_trans _ s2).
    { apply Hsil2; [|now inversion Hcl2]. destruct o8; [constructor|now inversion Hcl1]. }
    apply Hsil3; [|assumption]. now inversion Hcl2. }
  (* the run of scanNumber *)
  unfold scanNumber. rewrite !bind_gets, Hc.
  change (b2z x30 =? rune "0") with true. cbv iota.
  rewrite bind_gets, bind_modify, bind_gets.
  assert (Hc1 : 48 <= ch (next s) <= 57).
  { pose proof (ch_of_slice (next s) _ HI1 Hs1) as Hch. rewrite Eds in Hch.
    destruct o8 as [|b o8]; cbn [app] in Hch; destruct Hch as [Hlo _].
    - rewrite Hlo by (unfold utf8.RuneSelf; lia). lia.
    - inversion Ho8; subst. unfold oct_digit, rune in *. simpl in *.
      rewrite Hlo by (unfold utf8.RuneSelf; lia). lia. }
  replace ((ch (next s) =? rune "x") || (ch (next s) =? rune "X")) with false.
  2:{ unfold rune. simpl.
      destruct (Z.eqb_spec (ch (next s)) 120), (Z.eqb_spec (ch (next s)) 88);
        try lia; reflexivity. }
  cbv iota. unfold scanMantissa at 1. rewrite (bind_eq _ _ _ _ _ Hrun8), bind_gets.
  assert (Hc2 : ch s2 = b2z d).
  { pose proof (ch_of_slice s2 _ HI2 Hs2) as [Hlo _]. apply Hlo. unfold utf8.RuneSelf. lia. }
  replace ((ch s2 =? rune "8") || (ch s2 =? rune "9")) with true.
  2:{ rewrite Hc2. unfold rune. simpl.
      destruct (Z.eqb_spec (b2z d) 56), (Z.eqb_spec (b2z d) 57); try lia; reflexivity. }
  cbv iota.
  assert (H10 : bind (scanMantissa 10) (fun _ => ret true) s2 = Some (true, s3)).
  { unfold scanMantissa. now rewrite (bind_eq _ _ _ _ _ Hrun10). }
  rewrite (bind_eq _ _ _ _ _ H10), bind_gets.
  rewrite (float_mark_ch s3 rest HI3 Hs3).
  destruct (float_mark rest); [reflexivity|].
  rewrite bind_modify. unfold scanNumber_exit. rewrite !bind_gets. unfold ret.
  destruct (error_fields (offset s) "illegal octal number" s3)
    as (X1 & _ & _ & _ & X5 & _).
  rewrite X1, X5, G1, F1, E1, Ho3, Ho2, Ho1.
  replace (offset s + 1 + len o8 + len (d :: ds')) with (offset s + len (x30 :: ds))
    by (rewrite Eds, !len_cons, len_app, len_cons; lia).
  rewrite (slice_prefix (src s) (x30 :: ds) rest (offset s) Hoff Hs). reflexivity.
Qed.

End Numbers.

Section OctalClaim.

Context {U : UnicodeTables}.

Lemma scanNumber_fraction_float (offs : Z) (tok : token.Token) (s s' : Scanner)
    (r : token.Token * list byte) :
  scanNumber_fraction offs tok s = Some (r, s') ->
  (ch s =? rune ".") || (ch s =? rune "e") || (ch s =? rune "E") = true ->
  fst r = token.FLOAT.
Proof.
  intros H Hc. unfold scanNumber_fraction, scanNumber_exponent, scanNumber_exit in H.
  minv H; cbn [fst]; try reflexivity.
  cbn [orb] in Hc. rewrite Hc in Hc1. discriminate Hc1.
Qed.

Lemma octal_not_next_msg : ~ next_msg "illegal octal number".
Proof. unfold next_msg. intros [H|[H|H]]; discriminate H. Qed.

(** C3.  The source [078] is scanned as the integer [078] with exactly
    one error, the illegal octal number; the source [078.] is scanned as
    the float [078.] with no error.  In general, at a leading [0]
    followed by decimal digits with an [8] or a [9] among them: when the
    bytes after the digits start with [.], [e] or [E] the token is a
    float and no illegal octal number is reported; otherwise the token is
    the integer made of the digits, the illegal octal number is reported
    once, and the error count grows by one besides what [next] reports
    for the rune after the digits. *)
Theorem C3_octal_or_float :
  (exists s',
      Scan (scanner_of (bytes "078")) = Some ((1, token.INT, bytes "078"), s') /\
      ErrorCount s' = 1 /\
      map call_msg (calls s') = ["illegal octal number"%string]) /\
  (exists s',
      Scan (scanner_of (bytes "078.")) = Some ((1, token.FLOAT, bytes "078."), s') /\
      ErrorCount s' = 0 /\ calls s' = []) /\
  (forall (s : Scanner) (ds rest : list byte),
      Inv s ->
      slice_from (src s) (offset s) = x30 :: ds ++ rest ->
      Forall dec_digit ds -> Exists digit_8_9 ds -> no_digit_ahead rest ->
      exists tok lit s',
        Scan s = Some ((token.FilePos (file s) (offset s), tok, lit), s') /\
        if float_mark rest then
          tok = token.FLOAT /\
          count_msg "illegal octal number" (calls s')
          = count_msg "illegal octal number" (calls s)
        else
          tok = token.INT /\ lit = x30 :: ds /\
          (err s = true ->
           count_msg "illegal octal number" (calls s')
           = count_msg "illegal octal number" (calls s) + 1) /\
          (Forall clean_byte ds -> clean_head rest ->
           ErrorCount s' = ErrorCount s + 1)).
Proof.
  split; [|split].
  - eexists. split; [lazy; reflexivity|]. split; reflexivity.
  - eexists. split; [lazy; reflexivity|]. split; reflexivity.
  - intros s ds rest HI Hs Hdec H89 Hrest.
    destruct (scanNumber_octal s ds rest HI Hs Hdec H89 Hrest)
      as (s3 & HI3 & Hq & E1 & E2 & Ho & Hs3 & Hsil & Hrun).
    destruct (next_ascii s _ _ HI Hs ltac:(reflexivity)) as (Hc & _).
    rewrite (Scan_digit s (b2z x30) Hc eq_refl).
    destruct (float_mark rest) eqn:Hf.
    + destruct (ok_scanNumber_fraction (offset s) token.INT s3 HI3)
        as ([tok lit] & s' & Hfr & HI').
      exists tok, lit, s'. rewrite Hfr in Hrun.
      rewrite (bind_eq _ _ _ _ _ Hrun). split; [reflexivity|].
      split.
      * apply (scanNumber_fraction_float _ _ _ _ _ Hfr).
        now rewrite (float_mark_ch s3 rest HI3 Hs3).
      * apply quiet_count; [|exact octal_not_next_msg].
        apply (quiet_trans _ s3); [assumption|].
        exact (scanNumber_fraction_quiet _ _ _ _ _ Hfr).
    + exists token.INT, (x30 :: ds), (error (offset s) "illegal octal number" s3).
      rewrite (bind_eq _ _ _ _ _ Hrun). split; [reflexivity|].
      split; [reflexivity|]. split; [reflexivity|]. split.
      * intros He. rewrite error_count by congruence. cbn [String.eqb].
        rewrite (quiet_count _ _ _ Hq octal_not_next_msg).
        reflexivity.
      * intros Hcl Hcr. destruct (Hsil Hcl Hcr) as [Hec _].
        destruct (error_fields (offset s) "illegal octal number" s3)
          as (_ & _ & _ & _ & _ & _ & X & _).
        lia.
Qed.

End OctalClaim.

(** ** Strings *)

Lemma avoids_refl (m : string) (s : Scanner) : avoids m s s.
Proof. exists []. split; [now rewrite app_nil_r|constructor]. Qed.

Lemma avoids_trans (m : string) (a b c : Scanner) :
  avoids m a b -> avoids m b c -> avoids m a c.
Proof.
  intros (l1 & E1 & F1) (l2 & E2 & F2). exists (l1 ++ l2).
  split; [now rewrite E2, E1, app_assoc|now apply Forall_app].
Qed.

Lemma quiet_avoids (m : string) (s s' : Scanner) :
  ~ next_msg m -> quiet s s' -> avoids m s s'.
Proof.
  intros Hm (l & E & F). exists l. split; [assumption|].
  eapply Forall_impl; [|exact F]. intros c Hc E'. apply Hm. now rewrite <- E'.
Qed.

Lemma avoids_error (m m' : string) (o : Z) (s : Scanner) :
  m' <> m -> avoids m s (error o m' s).
Proof.
  intros Hm. destruct (error_fields o m' s) as (_ & _ & _ & _ & _ & _ & _ & E).
  eexists. split; [exact E|]. destruct (err s); repeat constructor. exact Hm.
Qed.

Lemma avoids_count (m : string) (s s' : Scanner) :
  avoids m s s' -> count_msg m (calls s') = count_msg m (calls s).
Proof.
  intros (l & E & F). rewrite E, count_msg_app. clear E.
  replace (count_msg m l) with 0; [lia|].
  induction F as [|c l Hc _ IH]; [reflexivity|].
  unfold count_msg in *. cbn [filter].
  destruct (String.eqb_spec (call_msg c) m); [contradiction|exact IH].
Qed.

Lemma not_terminated_not_next : ~ next_msg not_terminated.
Proof. unfold next_msg, not_terminated. intros [H|[H|H]]; discriminate H. Qed.

Section Strings.

Context {U : UnicodeTables}.

Lemma avoids_next (s : Scanner) : avoids not_terminated s (next s).
Proof. apply quiet_avoids; [exact not_terminated_not_next|apply quiet_next]. Qed.

Lemma msg_illegal_in_escape_neq (c : Z) : msg_illegal_in_escape c <> not_terminated.
Proof. unfold msg_illegal_in_escape, not_terminated. cbn [append]. discriminate. Qed.

Lemma scanEscape_digits_avoids (n : nat) (base x : Z) (s s' : Scanner) (r : option Z) :
  scanEscape_digits n base x s = Some (r, s') -> avoids not_terminated s s'.
Proof.
  revert x s. induction n as [|n IH]; intros x s H; cbn [scanEscape_digits] in H.
  - inversion H; subst. apply avoids_refl.
  - rewrite bind_gets in H. cbv zeta in H.
    destruct (base <=? wrap32 (digitVal (ch s))).
    + rewrite bind_gets, bind_modify in H. inversion H; subst.
      apply avoids_error. destruct (ch s <? 0); [discriminate|apply msg_illegal_in_escape_neq].
    + rewrite bind_modify in H. apply IH in H.
      eapply avoids_trans; [apply avoids_next|exact H].
Qed.

Lemma scanEscape_avoids (quote : Z) (s s' : Scanner) (b : bool) :
  scanEscape quote s = Some (b, s') -> avoids not_terminated s s'.
Proof.
  intros H. unfold scanEscape in H. rewrite !bind_gets in H. cbv zeta in H.
  assert (D : forall n base max s0 s1 b0,
    bind (scanEscape_digits n base 0)
      (fun r => match r with
                | Some x0 =>
                  if (max <? x0) || (55296 <=? x0) && (x0 <? 57344)
                  then bind (modify (error (offset s)
                         "escape sequence is invalid Unicode code point"))
                         (fun _ => ret false)
                  else ret true
                | None => ret false
                end) s0 = Some (b0, s1) -> avoids not_terminated s0 s1).
  { intros n base max s0 s1 b0 H0. apply bind_Some in H0.
    destruct H0 as (r & s2 & H1 & H2).
    apply scanEscape_digits_avoids in H1.
    eapply avoids_trans; [exact H1|].
    destruct r as [x0|]; [|inversion H2; subst; apply avoids_refl].
    destruct ((max <? x0) || (55296 <=? x0) && (x0 <? 57344)).
    - rewrite bind_modify in H2. inversion H2; subst.
      apply avoids_error. discriminate.
    - inversion H2; subst. apply avoids_refl. }
  repeat match type of H with
         | (if ?c then _ else _) _ = Some _ => destruct c
         end;
    try (rewrite bind_modify in H);
    try (apply D in H);
    try (inversion H; subst);
    first [ assumption
          | apply avoids_next
          | eapply avoids_trans; [apply avoids_next|eassumption]
          | apply avoids_error; discriminate
          | apply avoids_error; destruct (ch s <? 0); discriminate ].
Qed.

End Strings.

Lemma b2z_inj (a b : byte) : b2z a = b2z b -> a = b.
Proof.
  unfold b2z. intros H. apply N2Z.inj in H.
  pose proof (Byte.of_to_N a) as Ha. pose proof (Byte.of_to_N b) as Hb.
  rewrite H in Ha. congruence.
Qed.

(** A scanner at an ASCII rune stands at the byte of that rune. *)
Lemma Inv_ascii_ch (s : Scanner) :
  Inv s -> 0 <= ch s < utf8.RuneSelf ->
  exists b tl,
    slice_from (src s) (offset s) = b :: tl /\ b2z b = ch s /\
    rdOffset s = offset s + 1.
Proof.
  intros HI Hc. pose proof (Inv_ch s HI) as Hd.
  destruct (slice_from (src s) (offset s)) as [|b tl] eqn:Hs.
  - destruct Hd as (E & _). lia.
  - pose proof (DecodeRune_cons b tl) as (_ & Hlo & Hhi).
    rewrite Hd in Hlo, Hhi. cbn [fst snd] in *.
    destruct (Z.lt_ge_cases (b2z b) utf8.RuneSelf) as [Hlt|Hge].
    + destruct (Hlo Hlt) as [E1 E2]. exists b, tl. repeat split; [congruence|lia].
    + specialize (Hhi Hge). lia.
Qed.

(** A scanner whose current rune is the newline, or the end of the input,
    has a newline, or nothing, ahead. *)
Lemma line_end_ch (s : Scanner) :
  Inv s -> ch s = NL \/ ch s = -1 -> line_end (slice_from (src s) (offset s)).
Proof.
  intros HI [Hc|Hc].
  - destruct (Inv_ascii_ch s HI) as (b & tl & Hs & Hb & _).
    { rewrite Hc. unfold NL, utf8.RuneSelf. lia. }
    right. exists tl. rewrite Hs. f_equal. apply b2z_inj. now rewrite Hb, Hc.
  - left. pose proof (Inv_ch s HI) as Hd.
    destruct (slice_from (src s) (offset s)) as [|b tl]; [reflexivity|].
    pose proof (DecodeRune_nonneg (b :: tl)) as Hn. rewrite Hd in Hn. cbn [fst] in Hn. lia.
Qed.

(** ** Newlines are never consumed inside a string *)

Lemma firstn_add {A : Type} (n m : nat) (l : list A) :
  firstn (n + m) l = firstn n l ++ firstn m (skipn n l).
Proof.
  revert l. induction n as [|n IH]; intros l; [reflexivity|].
  destruct l as [|a l]; [cbn [Nat.add firstn skipn app]; now rewrite firstn_nil|].
  cbn [Nat.add firstn skipn app]. now rewrite IH.
Qed.

Lemma slice_split {A : Type} (l : list A) (a b c : Z) :
  0 <= a <= b -> b <= c -> slice l a c = slice l a b ++ slice l b c.
Proof.
  intros Hab Hbc. unfold slice.
  replace (Z.to_nat c - Z.to_nat a)%nat
    with ((Z.to_nat b - Z.to_nat a) + (Z.to_nat c - Z.to_nat b))%nat by lia.
  rewrite firstn_add, skipn_skipn.
  replace (Z.to_nat b - Z.to_nat a + Z.to_nat a)%nat with (Z.to_nat b) by lia.
  reflexivity.
Qed.

Lemma slice_empty {A : Type} (l : list A) (a : Z) : slice l a a = [].
Proof. unfold slice. now rewrite Nat.sub_diag. Qed.

Lemma calm_refl (s : Scanner) : calm s s.
Proof.
  intros HI. split; [assumption|]. split; [reflexivity|]. split; [lia|].
  rewrite slice_empty. constructor.
Qed.

Lemma calm_trans (a b c : Scanner) : calm a b -> calm b c -> calm a c.
Proof.
  intros Hab Hbc HI. destruct (Hab HI) as (HIb & E1 & L1 & F1).
  destruct (Hbc HIb) as (HIc & E2 & L2 & F2).
  split; [assumption|]. split; [congruence|]. split; [lia|].
  destruct HI as [H0 _].
  rewrite (slice_split (src a) (offset a) (offset b) (offset c)) by lia.
  apply Forall_app. split; [assumption|]. now rewrite <- E1.
Qed.

Lemma calm_error (o : Z) (m : string) (s : Scanner) : calm s (error o m s).
Proof.
  intros HI. destruct (forward_error o m s HI) as (HI' & E & _).
  destruct (error_fields o m s) as (_ & _ & _ & _ & X & _).
  split; [assumption|]. split; [assumption|]. rewrite X. split; [lia|].
  rewrite slice_empty. constructor.
Qed.

(** [next] from a rune that is not a newline consumes no newline. *)
Lemma calm_next (s : Scanner) : ch s <> NL -> calm s (next s).
Proof.
  intros Hc HI. destruct (forward_next s HI) as (HI' & E & _ & _ & L & _).
  split; [assumption|]. split; [assumption|]. split; [assumption|].
  pose proof (Inv_ch s HI) as Hd.
  destruct (slice_from (src s) (offset s)) as [|b bs] eqn:Hs.
  - destruct Hd as (_ & Ho & Hr).
    pose proof (next_Inv s HI) as (_ & Ho' & _).
    rewrite Ho', Hr, <- Ho, slice_empty. constructor.
  - destruct (next_rune s b bs HI Hs)
      as (w & Hw & Hr & _ & _ & _ & Ho & _ & Hlo & Hhi & Hcont).
    unfold slice. rewrite Ho. fold (slice_from (src s) (offset s)). rewrite Hs.
    destruct HI as [H0 _].
    replace (Z.to_nat (offset s + w) - Z.to_nat (offset s))%nat
      with (S (Z.to_nat (w - 1))) by lia.
    cbn [firstn]. constructor.
    + unfold utf8.RuneSelf, NL in *.
      destruct (Z.lt_ge_cases (b2z b) 128) as [Hlt|Hge]; [|lia].
      destruct (Hlo Hlt) as [_ E']. congruence.
    + eapply Forall_impl; [|exact Hcont]. intros c Hc'. cbv beta in Hc'.
      unfold utf8.RuneSelf, NL in *. lia.
Qed.

Section Calm.

Context {U : UnicodeTables}.

Lemma digit_not_newline (c base : Z) :
  (base <=? wrap32 (digitVal c)) = false -> base <= 16 -> c <> NL.
Proof.
  intros H Hb ->. apply Z.leb_gt in H.
  assert (E : wrap32 (digitVal NL) = 16) by (vm_compute; reflexivity).
  rewrite E in H. lia.
Qed.

Lemma scanEscape_digits_calm (n : nat) (base x : Z) (s s' : Scanner) (r : option Z) :
  base <= 16 -> scanEscape_digits n base x s = Some (r, s') -> calm s s'.
Proof.
  intros Hb. revert x s. induction n as [|n IH]; intros x s H; cbn [scanEscape_digits] in H.
  - inversion H; subst. apply calm_refl.
  - rewrite bind_gets in H. cbv zeta in H.
    destruct (base <=? wrap32 (digitVal (ch s))) eqn:Hd.
    + rewrite bind_gets, bind_modify in H. inversion H; subst. apply calm_error.
    + rewrite bind_modify in H. apply IH in H.
      eapply calm_trans; [apply calm_next|exact H].
      exact (digit_not_newline _ _ Hd Hb).
Qed.

Lemma scanEscape_calm (quote : Z) (s s' : Scanner) (b : bool) :
  quote <> NL -> scanEscape quote s = Some (b, s') -> calm s s'.
Proof.
  intros Hq H. unfold scanEscape in H. rewrite !bind_gets in H. cbv zeta in H.
  assert (D : forall n base max s0 s1 b0,
    base <= 16 ->
    bind (scanEscape_digits n base 0)
      (fun r => match r with
                | Some x0 =>
                  if (max <? x0) || (55296 <=? x0) && (x0 <? 57344)
                  then bind (modify (error (offset s)
                         "escape sequence is invalid Unicode code point"))
                         (fun _ => ret false)
                  else ret true
                | None => ret false
                end) s0 = Some (b0, s1) -> calm s0 s1).
  { intros n base max s0 s1 b0 Hb H0. apply bind_Some in H0.
    destruct H0 as (r & s2 & H1 & H2).
    apply scanEscape_digits_calm in H1; [|assumption].
    eapply calm_trans; [exact H1|].
    destruct r as [x0|]; [|inversion H2; subst; apply calm_refl].
    destruct ((max <? x0) || (55296 <=? x0) && (x0 <? 57344)).
    - rewrite bind_modify in H2. inversion H2; subst. apply calm_error.
    - inversion H2; subst. apply calm_refl. }
  destruct ((ch s =? rune "a") || (ch s =? rune "b") || (ch s =? rune "f")
            || (ch s =? rune "n") || (ch s =? rune "r") || (ch s =? rune "t")
            || (ch s =? rune "v") || (ch s =? BACKSLASH) || (ch s =? quote)) eqn:H1.
  { rewrite bind_modify in H. inversion H; subst. apply calm_next.
    intros E. rewrite E in H1.
    replace (NL =? quote) with false in H1
      by (symmetry; apply Z.eqb_neq; congruence).
    discriminate H1. }
  destruct ((rune "0" <=? ch s) && (ch s <=? rune "7")) eqn:H2.
  { apply D in H; [assumption|lia]. }
  destruct (Z.eqb_spec (ch s) (rune "x")) as [Ex|_].
  { rewrite bind_modify in H. apply D in H; [|lia].
    eapply calm_trans; [apply calm_next|exact H]. rewrite Ex. discriminate. }
  destruct (Z.eqb_spec (ch s) (rune "u")) as [Eu|_].
  { rewrite bind_modify in H. apply D in H; [|lia].
    eapply calm_trans; [apply calm_next|exact H]. rewrite Eu. discriminate. }
  destruct (Z.eqb_spec (ch s) (rune "U")) as [EU|_].
  { rewrite bind_modify in H. apply D in H; [|lia].
    eapply calm_trans; [apply calm_next|exact H]. rewrite EU. discriminate. }
  rewrite bind_modify in H. inversion H; subst. apply calm_error.
Qed.

(** The loop of [scanString] never consumes a newline. *)
Lemma scanString_loop_calm (n : nat) (quote offs : Z) (s s' : Scanner) :
  quote <> NL -> scanString_loop n quote offs s = Some (tt, s') -> calm s s'.
Proof.
  intros Hq. revert s. induction n as [|n IH]; intros s H; [discriminate H|].
  cbn [scanString_loop] in H. rewrite bind_gets in H.
  destruct (Z.eqb_spec (ch s) NL) as [En|En]; cbn [orb] in H.
  { unfold modify in H. inversion H; subst. apply calm_error. }
  destruct (ch s <? 0).
  { unfold modify in H. inversion H; subst. apply calm_error. }
  rewrite bind_modify in H.
  eapply calm_trans; [apply calm_next; exact En|].
  destruct (ch s =? quote); [inversion H; subst; apply calm_refl|].
  apply bind_Some in H. destruct H as ([] & s2 & H1 & H2).
  eapply calm_trans; [|exact (IH _ H2)].
  destruct (ch s =? BACKSLASH).
  - apply bind_Some in H1. destruct H1 as (b & s3 & H3 & H4).
    inversion H4; subst. exact (scanEscape_calm _ _ _ _ Hq H3).
  - inversion H1; subst. apply calm_refl.
Qed.

End Calm.

Section StringLoop.

Context {U : UnicodeTables}.

(** How the loop of [scanString] ends: at a newline or at the end of the
    input, where it reports the string as not terminated and stops in
    front of the newline, or just after a quote of the source that it has
    reached and consumed; nothing before reports the string as not
    terminated. *)
Lemma scanString_loop_outcome (n : nat) (quote offs : Z) (s s' : Scanner) :
  Inv s ->
  scanString_loop n quote offs s = Some (tt, s') ->
  (exists s1, avoids not_terminated s s1 /\ (ch s1 = NL \/ ch s1 < 0) /\
              s' = error offs not_terminated s1) \/
  (exists s0, Inv s0 /\ src s0 = src s /\ offset s <= offset s0 /\
              avoids not_terminated s s0 /\ ch s0 = quote /\ s' = next s0).
Proof.
  revert s. induction n as [|n IH]; intros s HI H; [discriminate H|].
  cbn [scanString_loop] in H. rewrite bind_gets in H.
  destruct ((ch s =? NL) || (ch s <? 0)) eqn:Hend.
  - left. exists s. split; [apply avoids_refl|]. split.
    + apply orb_true_iff in Hend. destruct Hend as [E|E];
        [left; now apply Z.eqb_eq|right; now apply Z.ltb_lt].
    + unfold modify in H. inversion H. reflexivity.
  - rewrite bind_modify in H. destruct (Z.eqb_spec (ch s) quote) as [Eq|Eq].
    + right. exists s. split; [assumption|]. split; [reflexivity|]. split; [lia|].
      split; [apply avoids_refl|]. split; [assumption|].
      inversion H. reflexivity.
    + apply bind_Some in H. destruct H as ([] & s2 & H1 & H2).
      destruct (forward_next s HI) as (HI1 & E1 & _ & _ & L1 & _).
      assert (A : avoids not_terminated (next s) s2 /\ forward (next s) s2).
      { destruct (ch s =? BACKSLASH).
        - apply bind_Some in H1. destruct H1 as (b & s3 & H3 & H4).
          inversion H4; subst. split; [exact (scanEscape_avoids _ _ _ _ H3)|].
          exact (scanEscape_forward _ _ _ _ H3).
        - inversion H1; subst. split; [apply avoids_refl|apply forward_refl]. }
      destruct A as [A F]. destruct (F HI1) as (HI2 & E2 & _ & _ & L2 & _).
      assert (A' : avoids not_terminated s s2)
        by exact (avoids_trans _ _ _ _ (avoids_next s) A).
      destruct (IH s2 HI2 H2) as [(s1 & A1 & Hc & E)|(s0 & HI0 & E0 & L0 & A0 & Hc & E)].
      * left. exists s1. split; [|tauto]. exact (avoids_trans _ _ _ _ A' A1).
      * right. exists s0. split; [assumption|]. split; [congruence|]. split; [lia|].
        split; [|tauto]. exact (avoids_trans _ _ _ _ A' A0).
Qed.

(** The loop of [scanString] over plain bytes up to a newline or the end
    of the input: the bytes are consumed and the string is reported as
    not terminated. *)
Lemma scanString_loop_plain (quote offs : Z) (rest : list byte) :
  0 <= quote < utf8.RuneSelf -> line_end rest ->
  forall (n : nat) (body : list byte) (s : Scanner),
    Inv s -> (mu s < n)%nat ->
    slice_from (src s) (offset s) = body ++ rest ->
    Forall (plain_byte quote) body ->
    exists s1,
      scanString_loop n quote offs s = Some (tt, error offs not_terminated s1) /\
      Inv s1 /\ quiet s s1 /\ src s1 = src s /\ err s1 = err s /\
      offset s1 = offset s + len body /\
      slice_from (src s1) (offset s1) = rest /\
      (Forall clean_byte (tl body) -> clean_head rest -> silent s s1).
Proof.
  intros Hq Hrest. induction n as [|n IH]; intros body s HI Hmu Hs Hp; [lia|].
  cbn [scanString_loop]. rewrite bind_gets.
  destruct body as [|b body].
  - cbn [app] in Hs. pose proof (ch_of_slice s rest HI Hs) as Hch.
    assert (Hend : (ch s =? NL) || (ch s <? 0) = true).
    { destruct Hrest as [->|(bs & ->)].
      - rewrite Hch. reflexivity.
      - destruct Hch as [Hlo _]. rewrite Hlo by (cbv; reflexivity). reflexivity. }
    rewrite Hend. exists s. split; [reflexivity|]. split; [assumption|].
    split; [apply quiet_refl|]. split; [reflexivity|]. split; [reflexivity|].
    change (len (@nil byte)) with 0. split; [lia|]. split; [assumption|].
    intros _ _. split; reflexivity.
  - cbn [app] in Hs.
    destruct (next_rune s b (body ++ rest) HI Hs)
      as (w & Hw & Hr & HI' & E1 & E2 & Ho & Hsl & Hlo & Hhi & Hcont).
    inversion Hp as [|? ? (Hb1 & Hb2 & Hb3) Hp']; subst.
    pose proof (b2z_range b) as Hbr.
    assert (Hc : ch s <> NL /\ 0 <= ch s /\ ch s <> quote /\ ch s <> BACKSLASH).
    { unfold utf8.RuneSelf, NL, BACKSLASH, rune in *. simpl in *.
      destruct (Z.lt_ge_cases (b2z b) 128) as [Hlt|Hge].
      - destruct (Hlo Hlt) as [_ ->]. lia.
      - specialize (Hhi Hge). lia. }
    destruct Hc as (C1 & C2 & C3 & C4).
    destruct (Z.eqb_spec (ch s) NL); [contradiction|].
    destruct (Z.ltb_spec (ch s) 0); [lia|]. cbn [orb].
    rewrite bind_modify.
    destruct (Z.eqb_spec (ch s) quote); [contradiction|].
    destruct (Z.eqb_spec (ch s) BACKSLASH); [contradiction|].
    rewrite bind_ret.
    assert (Hwb : w - 1 <= len body).
    { apply (rune_in_body w body rest b); try assumption.
      - intros Hb. now destruct (Hlo Hb).
      - right. destruct Hrest as [->|(bs & ->)]; [exact I|cbv; reflexivity]. }
    pose proof (len_nonneg body) as Hlb.
    destruct (progress_next s ltac:(lia) HI) as (_ & _ & _ & _ & _ & _ & Hlt).
    destruct (IH (skipn (Z.to_nat (w - 1)) body) (next s) HI' ltac:(lia))
      as (s1 & Hrun & HI1 & Hq1 & F1 & F2 & Ho1 & Hs1 & Hsil).
    + rewrite Hsl, skipn_app.
      replace (Z.to_nat (w - 1) - List.length body)%nat with 0%nat
        by (unfold len in Hwb; lia).
      reflexivity.
    + now apply Forall_skipn.
    + exists s1. split; [exact Hrun|]. split; [assumption|].
      split; [exact (quiet_trans _ _ _ (quiet_next s) Hq1)|].
      split; [congruence|]. split; [congruence|]. split.
      { rewrite Ho1, Ho, len_cons, len_skipn by (unfold len in Hwb; lia). lia. }
      split; [assumption|].
      cbn [tl]. intros Hcl Hcr.
      assert (Hw1 : w = 1).
      { destruct body as [|c body]; [change (len (@nil byte)) with 0 in Hwb; lia|].
        destruct (Z.eq_dec w 1) as [|Hne]; [assumption|exfalso].
        replace (Z.to_nat (w - 1)) with (S (Z.to_nat (w - 2))) in Hcont by lia.
        cbn [app firstn] in Hcont. inversion Hcont; subst.
        inversion Hcl; subst. unfold clean_byte in *. lia. }
      subst w. change (Z.to_nat (1 - 1)) with 0%nat in *. cbn [skipn] in *.
      apply (silent_trans _ (next s)).
      * apply next_clean; [assumption|].
        rewrite Hr. rewrite <- Ho, <- E1, Hsl.
        destruct body as [|c body]; [exact Hcr|now inversion Hcl].
      * apply Hsil; [|assumption].
        destruct body as [|c body]; [constructor|now inversion Hcl].
Qed.

End StringLoop.

(** ** Strings that are cut short, whatever they hold *)

Lemma open_body_plain (quote : Z) (b : byte) (p : list byte) :
  plain_byte quote b -> open_body quote (b :: p) = open_body quote p.
Proof.
  intros (H1 & H2 & H3). cbn [open_body].
  destruct (Z.eqb_spec (b2z b) NL); [contradiction|].
  destruct (Z.eqb_spec (b2z b) quote); [contradiction|].
  destruct (Z.eqb_spec (b2z b) BACKSLASH); [contradiction|]. reflexivity.
Qed.

Lemma open_body_plain_app (quote : Z) (ds p : list byte) :
  Forall (plain_byte quote) ds -> open_body quote (ds ++ p) = open_body quote p.
Proof.
  induction 1 as [|d ds Hd _ IH]; [reflexivity|].
  cbn [app]. now rewrite open_body_plain.
Qed.

Lemma open_body_skipn_high (quote : Z) (k : nat) (p : list byte) :
  quote < utf8.RuneSelf ->
  Forall (fun c => utf8.RuneSelf <= b2z c) (firstn k p) ->
  open_body quote p = true -> open_body quote (skipn k p) = true.
Proof.
  intros Hq. revert p. induction k as [|k IH]; intros p Hh Ho; [exact Ho|].
  destruct p as [|c p]; [reflexivity|]. cbn [firstn skipn] in *.
  inversion Hh; subst. apply IH; [assumption|].
  rewrite open_body_plain in Ho; [exact Ho|].
  unfold plain_byte, utf8.RuneSelf, NL, BACKSLASH, rune in *. simpl. lia.
Qed.

(** One call of [next] at a rune of ASCII moves over the one byte of that
    rune. *)
Lemma ascii_step (s : Scanner) :
  Inv s -> 0 <= ch s < utf8.RuneSelf ->
  exists b,
    b2z b = ch s /\
    slice_from (src s) (offset s) = b :: slice_from (src (next s)) (offset (next s)) /\
    Inv (next s).
Proof.
  intros HI Hc. destruct (Inv_ascii_ch s HI Hc) as (b & tl & Hs & Hb & _).
  destruct (next_ascii s b tl HI Hs ltac:(lia)) as (_ & _ & HI1 & _ & _ & _ & Hs1).
  exists b. split; [assumption|]. split; [now rewrite Hs1|assumption].
Qed.

Lemma error_slice (o : Z) (m : string) (s : Scanner) :
  slice_from (src (error o m s)) (offset (error o m s)) = slice_from (src s) (offset s).
Proof.
  destruct (error_fields o m s) as (E1 & _ & _ & _ & E5 & _). now rewrite E1, E5.
Qed.

Section OpenStrings.

Context {U : UnicodeTables}.

Lemma hex_digit_plain (quote : Z) (c : Z) (d : byte) :
  quote = DQUOTE \/ quote = SQUOTE -> b2z d = c -> digitVal c < 16 ->
  plain_byte quote d.
Proof.
  intros Hq Hd Hv. unfold plain_byte, DQUOTE, SQUOTE, NL, BACKSLASH, rune in *.
  simpl in *. rewrite Hd.
  destruct (digitVal_cases c) as [X|[X|[X|X]]]; lia.
Qed.

(** The digits of an escape that [scanEscape] moves over are bytes of the
    source, each a digit. *)
Lemma scanEscape_digits_consumes (quote : Z) (n : nat) (base x : Z) (s s' : Scanner)
    (r : option Z) :
  quote = DQUOTE \/ quote = SQUOTE -> base <= 16 -> Inv s ->
  scanEscape_digits n base x s = Some (r, s') ->
  exists ds,
    slice_from (src s) (offset s) = ds ++ slice_from (src s') (offset s') /\
    Forall (plain_byte quote) ds /\ Inv s'.
Proof.
  intros Hq Hb. revert x s. induction n as [|n IH]; intros x s HI H;
    cbn [scanEscape_digits] in H.
  - inversion H; subst. exists []. split; [reflexivity|]. split; [constructor|assumption].
  - rewrite bind_gets in H. cbv zeta in H.
    destruct (Z.leb_spec base (wrap32 (digitVal (ch s)))) as [Hd|Hd].
    + rewrite bind_gets, bind_modify in H. inversion H; subst.
      exists []. split; [now rewrite error_slice|]. split; [constructor|].
      now apply forward_error.
    + rewrite bind_modify in H.
      pose proof (digitVal_range (ch s)) as Hr.
      unfold wrap32 in Hd. rewrite Z.mod_small in Hd by lia.
      assert (Hc : 0 <= ch s < utf8.RuneSelf).
      { unfold utf8.RuneSelf. destruct (digitVal_cases (ch s)) as [X|[X|[X|X]]]; lia. }
      destruct (ascii_step s HI Hc) as (d & Ed & Hs & HI1).
      destruct (IH _ _ HI1 H) as (ds & Hs' & Hp & HI').
      exists (d :: ds). split; [now rewrite Hs, Hs'|]. split; [|assumption].
      constructor; [|assumption].
      apply (hex_digit_plain quote (ch s) d Hq Ed). lia.
Qed.

(** What [scanEscape] moves over: the one byte after the backslash when
    it is the quote or a backslash, and else bytes none of which is a
    quote, a newline or a backslash. *)
Lemma scanEscape_consumes (quote : Z) (s s' : Scanner) (b : bool) :
  quote = DQUOTE \/ quote = SQUOTE -> Inv s ->
  scanEscape quote s = Some (b, s') ->
  exists ds,
    slice_from (src s) (offset s) = ds ++ slice_from (src s') (offset s') /\
    Inv s' /\
    if (ch s =? quote) || (ch s =? BACKSLASH)
    then exists c, ds = [c] /\ b2z c = ch s
    else Forall (plain_byte quote) ds.
Proof.
  intros Hq HI H.
  assert (Hqr : quote = 34 \/ quote = 39) by exact Hq.
  unfold scanEscape in H. rewrite !bind_gets in H. cbv zeta in H.
  assert (D : forall n base max s0 s1 b0,
    base <= 16 -> Inv s0 ->
    bind (scanEscape_digits n base 0)
      (fun r => match r with
                | Some x0 =>
                  if (max <? x0) || (55296 <=? x0) && (x0 <? 57344)
                  then bind (modify (error (offset s)
                         "escape sequence is invalid Unicode code point"))
                         (fun _ => ret false)
                  else ret true
                | None => ret false
                end) s0 = Some (b0, s1) ->
    exists ds,
      slice_from (src s0) (offset s0) = ds ++ slice_from (src s1) (offset s1) /\
      Forall (plain_byte quote) ds /\ Inv s1).
  { intros n base max s0 s1 b0 Hb HI0 H0. apply bind_Some in H0.
    destruct H0 as (r & s2 & H1 & H2).
    destruct (scanEscape_digits_consumes quote _ _ _ _ _ _ Hq Hb HI0 H1)
      as (ds & Hs & Hp & HI2).
    exists ds.
    destruct r as [x0|]; [|inversion H2; subst; tauto].
    destruct ((max <? x0) || (55296 <=? x0) && (x0 <? 57344)).
    - rewrite bind_modify in H2. inversion H2; subst.
      rewrite error_slice. split; [assumption|]. split; [assumption|].
      now apply forward_error.
    - inversion H2; subst. tauto. }
  destruct ((ch s =? rune "a") || (ch s =? rune "b") || (ch s =? rune "f")
            || (ch s =? rune "n") || (ch s =? rune "r") || (ch s =? rune "t")
            || (ch s =? rune "v") || (ch s =? BACKSLASH) || (ch s =? quote)) eqn:H1.
  { (* the one byte of a simple escape *)
    rewrite bind_modify in H. inversion H; subst. clear H.
    assert (Hc : 0 <= ch s < utf8.RuneSelf).
    { unfold utf8.RuneSelf, BACKSLASH, rune in *. simpl in H1.
      repeat (apply orb_true_iff in H1; destruct H1 as [H1|H1]);
        apply Z.eqb_eq in H1; lia. }
    destruct (ascii_step s HI Hc) as (c & Ec & Hs & HI1).
    exists [c]. split; [exact Hs|]. split; [assumption|].
    destruct ((ch s =? quote) || (ch s =? BACKSLASH)) eqn:H2.
    - exists c. split; [reflexivity|assumption].
    - constructor; [|constructor]. apply orb_false_elim in H2. destruct H2 as [H2 H3].
      apply Z.eqb_neq in H2, H3. unfold plain_byte. rewrite Ec.
      split; [assumption|]. split; [|assumption].
      unfold NL, BACKSLASH, rune in *. simpl in H1.
      repeat (apply orb_true_iff in H1; destruct H1 as [H1|H1]);
        apply Z.eqb_eq in H1; lia. }
  assert (H2 : (ch s =? quote) || (ch s =? BACKSLASH) = false).
  { repeat (apply orb_false_elim in H1; destruct H1 as [H1 ?]).
    apply orb_false_iff. split; assumption. }
  rewrite H2.
  assert (N : forall n base max s1 b0 c,
    base <= 16 -> ch s = c -> 0 <= c < utf8.RuneSelf ->
    c <> NL ->
    bind (modify next) (fun _ =>
      bind (scanEscape_digits n base 0)
        (fun r => match r with
                  | Some x0 =>
                    if (max <? x0) || (55296 <=? x0) && (x0 <? 57344)
                    then bind (modify (error (offset s)
                           "escape sequence is invalid Unicode code point"))
                           (fun _ => ret false)
                    else ret true
                  | None => ret false
                  end)) s = Some (b0, s1) ->
    exists ds,
      slice_from (src s) (offset s) = ds ++ slice_from (src s1) (offset s1) /\
      Inv s1 /\ Forall (plain_byte quote) ds).
  { intros n base max s1 b0 c Hb Ec Hc Hn H0. rewrite bind_modify in H0.
    destruct (ascii_step s HI ltac:(rewrite Ec; exact Hc)) as (d & Ed & Hs & HI1).
    destruct (D _ _ _ _ _ _ Hb HI1 H0) as (ds & Hs' & Hp & HI').
    exists (d :: ds). split; [now rewrite Hs, Hs'|]. split; [assumption|].
    constructor; [|assumption]. apply orb_false_elim in H2. destruct H2 as [H3 H4].
    apply Z.eqb_neq in H3, H4. unfold plain_byte. rewrite Ed. repeat split; congruence. }
  destruct ((rune "0" <=? ch s) && (ch s <=? rune "7")).
  { destruct (D 3%nat 8 255 s s' b ltac:(lia) HI H) as (ds & Hs' & Hp & HI').
    exists ds. tauto. }
  destruct (Z.eqb_spec (ch s) (rune "x")) as [Ex|_].
  { exact (N 2%nat 16 255 s' b _ ltac:(lia) Ex ltac:(cbv; split; congruence)
             ltac:(discriminate) H). }
  destruct (Z.eqb_spec (ch s) (rune "u")) as [Eu|_].
  { exact (N 4%nat 16 utf8.MaxRune s' b _ ltac:(lia) Eu ltac:(cbv; split; congruence)
             ltac:(discriminate) H). }
  destruct (Z.eqb_spec (ch s) (rune "U")) as [EU|_].
  { exact (N 8%nat 16 utf8.MaxRune s' b _ ltac:(lia) EU ltac:(cbv; split; congruence)
             ltac:(discriminate) H). }
  rewrite bind_modify in H. inversion H; subst.
  exists []. split; [now rewrite error_slice|]. split; [now apply forward_error|constructor].
Qed.

End OpenStrings.

Lemma plain_prefix (quote : Z) (ds x body rest : list byte) :
  ds ++ x = body ++ rest -> Forall (plain_byte quote) ds -> line_end rest ->
  exists body', body = ds ++ body' /\ x = body' ++ rest.
Proof.
  revert body. induction ds as [|d ds IH]; intros body E Hp Hr.
  - exists body. split; [reflexivity|exact E].
  - inversion Hp as [|? ? (_ & Hd & _) Hp']; subst.
    destruct body as [|c body].
    + exfalso. destruct Hr as [->|(bs & ->)]; [discriminate E|].
      cbn [app] in E. inversion E; subst. apply Hd. reflexivity.
    + cbn [app] in E. inversion E; subst.
      destruct (IH body ltac:(assumption) Hp' Hr) as (body' & -> & ->).
      exists body'. split; reflexivity.
Qed.

Section OpenLoop.

Context {U : UnicodeTables}.

(** The loop of [scanString] over a body that no quote closes, up to a
    newline or the end of the input: the body is consumed, whatever it
    holds, and the string is reported as not terminated there, for the
    first time. *)
Lemma scanString_loop_open (quote offs : Z) (rest : list byte) :
  quote = DQUOTE \/ quote = SQUOTE -> line_end rest ->
  forall (n : nat) (body : list byte) (s : Scanner),
    Inv s -> (mu s < n)%nat ->
    slice_from (src s) (offset s) = body ++ rest ->
    open_body quote body = true ->
    exists s1,
      scanString_loop n quote offs s = Some (tt, error offs not_terminated s1) /\
      Inv s1 /\ src s1 = src s /\ err s1 = err s /\
      slice_from (src s1) (offset s1) = rest /\
      avoids not_terminated s s1.
Proof.
  intros Hq Hrest.
  assert (Hqr : quote = 34 \/ quote = 39) by exact Hq.
  induction n as [|n IH]; intros body s HI Hmu Hs Ho; [lia|].
  cbn [scanString_loop]. rewrite bind_gets.
  destruct body as [|b body].
  - (* the newline, or the end of the input *)
    cbn [app] in Hs. pose proof (ch_of_slice s rest HI Hs) as Hch.
    assert (Hend : (ch s =? NL) || (ch s <? 0) = true).
    { destruct Hrest as [->|(bs & ->)].
      - rewrite Hch. reflexivity.
      - destruct Hch as [Hlo _]. rewrite Hlo by (cbv; reflexivity). reflexivity. }
    rewrite Hend. exists s. split; [reflexivity|]. split; [assumption|].
    split; [reflexivity|]. split; [reflexivity|]. split; [assumption|apply avoids_refl].
  - cbn [app] in Hs.
    destruct (next_rune s b (body ++ rest) HI Hs)
      as (w & Hw & Hr & HI' & E1 & E2 & Hoff & Hsl & Hlo & Hhi & Hcont).
    pose proof (b2z_range b) as Hbr.
    assert (Hb : b2z b <> NL /\ b2z b <> quote).
    { cbn [open_body] in Ho.
      destruct (Z.eqb_spec (b2z b) NL), (Z.eqb_spec (b2z b) quote);
        cbn [orb] in Ho; try discriminate Ho. tauto. }
    destruct Hb as [Hb1 Hb2].
    assert (Hc : ch s <> NL /\ 0 <= ch s /\ ch s <> quote /\
                 (ch s = BACKSLASH <-> b2z b = BACKSLASH)).
    { unfold utf8.RuneSelf, NL, BACKSLASH, rune in *. simpl in *.
      destruct (Z.lt_ge_cases (b2z b) 128) as [Hlt|Hge].
      - destruct (Hlo Hlt) as [_ ->]. lia.
      - specialize (Hhi Hge). lia. }
    destruct Hc as (C1 & C2 & C3 & C4).
    destruct (Z.eqb_spec (ch s) NL); [contradiction|].
    destruct (Z.ltb_spec (ch s) 0); [lia|]. cbn [orb].
    rewrite bind_modify.
    destruct (Z.eqb_spec (ch s) quote); [contradiction|].
    destruct (progress_next s ltac:(lia) HI) as (_ & _ & _ & _ & _ & _ & Hlt).
    destruct (Z.eqb_spec (ch s) BACKSLASH) as [Ebs|Ebs].
    + (* an escape *)
      assert (Hbb : b2z b = BACKSLASH) by now apply C4.
      assert (Hw1 : w = 1).
      { apply Hlo. rewrite Hbb. reflexivity. }
      subst w. change (Z.to_nat (1 - 1)) with 0%nat in Hsl. cbn [skipn] in Hsl.
      destruct (ok_scanEscape quote (next s) HI') as (r & s2 & Hesc & HI2).
      destruct (scanEscape_consumes quote _ _ _ Hq HI' Hesc) as (ds & Hds & _ & Hkind).
      pose proof (scanEscape_forward quote _ _ _ Hesc HI') as (_ & F1 & F2 & _ & _ & _ & Hmu2).
      assert (Hbody : exists body',
                slice_from (src s2) (offset s2) = body' ++ rest /\
                open_body quote body' = true).
      { rewrite Hsl in Hds. cbn [open_body] in Ho.
        replace ((b2z b =? NL) || (b2z b =? quote)) with false in Ho
          by (symmetry; apply orb_false_iff; split; apply Z.eqb_neq; assumption).
        rewrite Hbb, Z.eqb_refl in Ho.
        pose proof (ch_of_slice (next s) _ HI' Hsl) as Hch.
        destruct ((ch (next s) =? quote) || (ch (next s) =? BACKSLASH)) eqn:Hk.
        - destruct Hkind as (c & -> & Ec). cbn [app] in Hds.
          destruct body as [|c' body].
          + exfalso. cbn [app] in Hds. destruct Hrest as [->|(bs & ->)]; [discriminate Hds|].
            inversion Hds; subst c.
            change (b2z x0a) with 10 in Ec. rewrite <- Ec in Hk.
            unfold BACKSLASH, rune in Hk. simpl in Hk.
            destruct Hqr as [-> | ->]; discriminate Hk.
          + cbn [app] in Hds. inversion Hds; subst c'. exists body.
            split; [reflexivity|].
            rewrite Ec in Ho. rewrite Hk in Ho. exact Ho.
        - destruct (plain_prefix quote ds _ body rest (eq_sym Hds) Hkind Hrest)
            as (body' & Eb & Ex).
          exists body'. split; [exact Ex|].
          assert (Hob : open_body quote body = true).
          { destruct body as [|c body0]; [reflexivity|].
            cbn [app] in Hch. destruct Hch as [Hlo' Hhi'].
            replace ((b2z c =? quote) || (b2z c =? BACKSLASH)) with false in Ho;
              [exact Ho|].
            symmetry. unfold utf8.RuneSelf in *.
            destruct (Z.lt_ge_cases (b2z c) 128) as [Hlt'|Hge'].
            - rewrite <- (Hlo' Hlt'). exact Hk.
            - unfold BACKSLASH, rune. simpl. apply orb_false_iff.
              split; apply Z.eqb_neq; lia. }
          rewrite Eb, open_body_plain_app in Hob; assumption. }
      destruct Hbody as (body' & Hs2 & Ho2).
      destruct (IH body' s2 HI2 ltac:(lia) Hs2 Ho2)
        as (s1 & Hrun & HI1 & G1 & G2 & Hs1 & A1).
      assert (Hin : bind (scanEscape quote) (fun _ => ret tt) (next s) = Some (tt, s2))
        by now rewrite (bind_eq _ _ _ _ _ Hesc).
      rewrite (bind_eq _ _ _ _ _ Hin).
      exists s1. split; [exact Hrun|]. split; [assumption|].
      split; [congruence|]. split; [congruence|]. split; [assumption|].
      apply (avoids_trans _ _ (next s)); [apply avoids_next|].
      apply (avoids_trans _ _ s2); [exact (scanEscape_avoids _ _ _ _ Hesc)|assumption].
    + (* a rune of the body *)
      rewrite bind_ret.
      assert (Hwb : w - 1 <= len body).
      { apply (rune_in_body w body rest b); try assumption.
        - intros Hb. now destruct (Hlo Hb).
        - right. destruct Hrest as [->|(bs & ->)]; [exact I|cbv; reflexivity]. }
      pose proof (len_nonneg body) as Hlb.
      assert (Hsl' : slice_from (src (next s)) (offset (next s))
                     = skipn (Z.to_nat (w - 1)) body ++ rest).
      { rewrite Hsl, skipn_app.
        replace (Z.to_nat (w - 1) - List.length body)%nat with 0%nat
          by (unfold len in Hwb; lia).
        reflexivity. }
      assert (Ho' : open_body quote (skipn (Z.to_nat (w - 1)) body) = true).
      { apply open_body_skipn_high.
        - unfold utf8.RuneSelf. lia.
        - rewrite firstn_app in Hcont. apply Forall_app in Hcont. tauto.
        - rewrite open_body_plain in Ho; [exact Ho|].
          unfold plain_byte. split; [assumption|]. split; [assumption|]. tauto. }
      destruct (IH _ (next s) HI' ltac:(lia) Hsl' Ho')
        as (s1 & Hrun & HI1 & G1 & G2 & Hs1 & A1).
      exists s1. split; [exact Hrun|]. split; [assumption|].
      split; [congruence|]. split; [congruence|]. split; [assumption|].
      exact (avoids_trans _ _ _ _ (avoids_next s) A1).
Qed.

End OpenLoop.

Section StringClaim.

Context {U : UnicodeTables}.

(** [Scan] at a quote. *)
Lemma Scan_quote (s : Scanner) (quote : Z) (tok : token.Token) :
  Inv s -> ch s = quote ->
  quote = DQUOTE /\ tok = token.STRING \/ quote = SQUOTE /\ tok = token.RAWSTRING ->
  Scan s =
  bind (scanString quote)
       (fun lit => ret (token.FilePos (file s) (offset s), tok, lit)) (next s) /\
  Inv (next s) /\ offset (next s) = offset s + 1 /\ src (next s) = src s /\
  err (next s) = err s.
Proof.
  intros HI Hc Hq.
  destruct (Inv_ascii_ch s HI) as (b & bs & Hs & Hb & Hr).
  { destruct Hq as [[-> _]|[-> _]]; rewrite Hc; cbv; split; congruence. }
  destruct (next_ascii s b bs HI Hs) as (_ & _ & HI1 & E1 & E2 & Ho & _).
  { destruct Hq as [[-> _]|[-> _]]; rewrite Hb, Hc; cbv; reflexivity. }
  split; [|tauto].
  destruct Hq as [[-> ->]|[-> ->]].
  - now rewrite (Scan_other s DQUOTE Hc eq_refl eq_refl eq_refl).
  - now rewrite (Scan_other s SQUOTE Hc eq_refl eq_refl eq_refl).
Qed.

(** How the scan of a string ends.  The token is a [STRING] or a
    [RAWSTRING] and the literal is the text from the opening quote to
    where the scan stops; it holds no newline, for the scan never
    consumes one.  Either the string is reported as not
    terminated, once and at the offset of the opening quote, and the scan
    has stopped in front of a newline or at the end of the input; or the
    scan has reached a quote of the source after the opening one and has
    stopped just after it, and no such report was made. *)
Lemma Scan_string_outcome (s : Scanner) (quote : Z) (tok : token.Token) :
  Inv s -> ch s = quote ->
  quote = DQUOTE /\ tok = token.STRING \/ quote = SQUOTE /\ tok = token.RAWSTRING ->
  exists lit s',
    Scan s = Some ((token.FilePos (file s) (offset s), tok, lit), s') /\
    Inv s' /\ lit = slice (src s) (offset s) (offset s') /\
    Forall (fun b => b2z b <> NL) lit /\
    ((exists s1,
         s' = error (offset s) not_terminated s1 /\
         avoids not_terminated s s1 /\
         line_end (slice_from (src s') (offset s')) /\
         (err s = true ->
          count_msg not_terminated (calls s')
          = count_msg not_terminated (calls s) + 1)) \/
     (exists s0,
         Inv s0 /\ src s0 = src s /\ offset s < offset s0 /\
         s' = next s0 /\ ch s0 = quote /\ avoids not_terminated s s')).
Proof.
  intros HI Hc Hq.
  destruct (Scan_quote s quote tok HI Hc Hq) as (-> & HI1 & Ho1 & E1 & E2).
  destruct (ok_scanString quote (next s) HI1) as (lit & s' & Hrun & HI').
  rewrite (bind_eq _ _ _ _ _ Hrun).
  exists lit, s'. split; [reflexivity|]. split; [assumption|].
  unfold scanString in Hrun. rewrite !bind_gets in Hrun.
  apply bind_Some in Hrun. destruct Hrun as ([] & s2 & Hloop & Hret).
  rewrite !bind_gets in Hret. inversion Hret; subst s2.
  pose proof (steps_scanString_loop forward forward_refl forward_trans forward_next
                forward_error _ _ _ _ _ _ Hloop HI1) as (_ & F1 & F2 & _).
  split.
  { rewrite F1, E1, Ho1. f_equal. lia. }
  assert (Hqn : quote <> NL) by (destruct Hq as [[-> _]|[-> _]]; discriminate).
  split.
  { assert (Hcalm : calm s s').
    { apply (calm_trans _ (next s)); [apply calm_next; congruence|].
      exact (scanString_loop_calm _ _ _ _ _ Hqn Hloop). }
    destruct (Hcalm HI) as (_ & _ & _ & HF).
    rewrite F1, E1, Ho1. replace (offset s + 1 - 1) with (offset s) by lia.
    exact HF. }
  replace (offset (next s) - 1) with (offset s) in Hloop by lia.
  destruct (scanString_loop_outcome _ _ _ _ _ HI1 Hloop)
    as [(s1 & A1 & Hc1 & E)|(s0 & HI0 & E0 & L0 & A0 & Hc0 & E)].
  + left. exists s1. split; [assumption|].
    assert (A : avoids not_terminated s s1)
      by exact (avoids_trans _ _ _ _ (avoids_next s) A1).
    split; [assumption|]. split.
    * apply line_end_ch; [assumption|].
      destruct (error_fields (offset s) not_terminated s1) as (_ & _ & _ & X & _).
      rewrite E, X. destruct Hc1 as [|Hneg]; [now left|right].
      rewrite E in HI'.
      pose proof (Inv_bounds _ HI') as (_ & _ & Hb). rewrite X in Hb. lia.
    * intros He. rewrite E, error_count.
      -- rewrite (avoids_count _ _ _ A). reflexivity.
      -- destruct A as (l & El & _).
         pose proof (steps_scanString_loop forward forward_refl forward_trans
                       forward_next forward_error _ _ _ _ _ _ Hloop HI1)
           as (_ & _ & G & _).
         rewrite E in G.
         destruct (error_fields (offset s) not_terminated s1) as (_ & X & _).
         congruence.
  + right. exists s0. split; [assumption|]. split; [congruence|]. split; [lia|].
    split; [assumption|]. split; [assumption|].
    rewrite E. apply (avoids_trans _ _ (next s)); [apply avoids_next|].
    apply (avoids_trans _ _ s0); [assumption|apply avoids_next].
Qed.

(** A string that a newline or the end of the input cuts short, whatever
    its body holds: escapes of any form, well formed or not, bytes that
    are not UTF-8, NUL.  The token is returned with the text from the
    opening quote up to the newline as its literal, and the string is
    reported as not terminated, at the offset of the opening quote and
    for the first time. *)
Lemma Scan_string_open (s : Scanner) (quote : Z) (tok : token.Token) (q : byte)
    (body rest : list byte) :
  Inv s ->
  quote = DQUOTE /\ tok = token.STRING \/ quote = SQUOTE /\ tok = token.RAWSTRING ->
  b2z q = quote ->
  slice_from (src s) (offset s) = q :: body ++ rest ->
  open_body quote body = true -> line_end rest ->
  exists s1,
    Scan s = Some ((token.FilePos (file s) (offset s), tok, q :: body),
                   error (offset s) not_terminated s1) /\
    Inv s1 /\ src s1 = src s /\ err s1 = err s /\
    slice_from (src s1) (offset s1) = rest /\
    avoids not_terminated s s1.
Proof.
  intros HI Hq Hb Hs Ho Hrest. pose proof HI as [Hoff _].
  assert (Hquote : quote = DQUOTE \/ quote = SQUOTE) by tauto.
  assert (Hqa : b2z q < utf8.RuneSelf)
    by (rewrite Hb; destruct Hquote as [-> | ->]; reflexivity).
  destruct (next_ascii s q (body ++ rest) HI Hs Hqa)
    as (Hc & Hr & HI1 & E1 & E2 & Ho1 & Hs1).
  rewrite Hb in Hc.
  destruct (Scan_quote s quote tok HI Hc Hq) as (-> & _).
  destruct (scanString_loop_open quote (offset (next s) - 1) rest Hquote Hrest
              (budget (next s)) body (next s) HI1 (budget_mu _) Hs1 Ho)
    as (s1 & Hloop & HI2 & F1 & F2 & Hs2 & A1).
  assert (Hoff1 : offset s1 = offset s + len (q :: body)).
  { pose proof (Inv_bounds s HI) as (B1 & B2 & _).
    pose proof (Inv_bounds s1 HI2) as (B3 & B4 & _).
    pose proof (len_slice_from (src s) (offset s) ltac:(lia)) as L1.
    pose proof (len_slice_from (src s1) (offset s1) ltac:(lia)) as L2.
    rewrite Hs in L1. rewrite Hs2, F1, E1 in L2.
    rewrite len_cons, len_app in L1. rewrite len_cons. lia. }
  replace (offset (next s) - 1) with (offset s) in Hloop by lia.
  assert (Hrun : scanString quote (next s)
                 = Some (q :: body, error (offset s) not_terminated s1)).
  { unfold scanString. rewrite !bind_gets.
    replace (offset (next s) - 1) with (offset s) by lia.
    rewrite (bind_eq _ _ _ _ _ Hloop), !bind_gets. unfold ret.
    destruct (error_fields (offset s) not_terminated s1) as (X1 & _ & _ & _ & X5 & _).
    rewrite X1, X5, F1, E1, Hoff1.
    now rewrite (slice_prefix (src s) (q :: body) rest (offset s) Hoff Hs). }
  rewrite (bind_eq _ _ _ _ _ Hrun).
  exists s1. split; [reflexivity|]. split; [assumption|].
  split; [congruence|]. split; [congruence|]. split; [assumption|].
  exact (avoids_trans _ _ _ _ (avoids_next s) A1).
Qed.

(** C4.  A string or raw string that is cut short by a newline or by the
    end of the input is still scanned as a [STRING] or [RAWSTRING] token,
    [not_terminated] is reported exactly once, and the
    literal is the text from the opening quote up to, and without, the
    newline.  This holds whatever the body of the string holds, escapes
    included: the body is any run of bytes without a newline and without
    a quote that closes the string.  A scan that ends after a closing
    quote has reached that quote in the source and has met no newline on
    its way, as the literal shows. *)
Theorem C4_unterminated_string :
  (* two unterminated sources of the tests: a string with the body abc,
     and a raw string whose only quote after the opening one is escaped *)
  (exists s',
      Scan (scanner_of [x22; x61; x62; x63])
      = Some ((1, token.STRING, [x22; x61; x62; x63]), s') /\
      ErrorCount s' = 1 /\ map call_msg (calls s') = [not_terminated]) /\
  (exists s',
      Scan (scanner_of [x27; x5c; x27])
      = Some ((1, token.RAWSTRING, [x27; x5c; x27]), s') /\
      ErrorCount s' = 1 /\ map call_msg (calls s') = [not_terminated]) /\
  (* every string that a newline or the end of the input cuts short,
     whatever its body holds *)
  (forall (s : Scanner) (quote : Z) (tok : token.Token) (q : byte)
          (body rest : list byte),
      Inv s ->
      quote = DQUOTE /\ tok = token.STRING \/ quote = SQUOTE /\ tok = token.RAWSTRING ->
      b2z q = quote ->
      slice_from (src s) (offset s) = q :: body ++ rest ->
      open_body quote body = true -> line_end rest ->
      exists s1,
        Scan s = Some ((token.FilePos (file s) (offset s), tok, q :: body),
                       error (offset s) not_terminated s1) /\
        slice_from (src s1) (offset s1) = rest /\
        avoids not_terminated s s1 /\
        ErrorCount (error (offset s) not_terminated s1) = ErrorCount s1 + 1 /\
        (err s = true ->
         count_msg not_terminated (calls (error (offset s) not_terminated s1))
         = count_msg not_terminated (calls s) + 1)) /\
  (* every string: how the scan ends *)
  (forall (s : Scanner) (quote : Z) (tok : token.Token),
      Inv s -> ch s = quote ->
      quote = DQUOTE /\ tok = token.STRING \/ quote = SQUOTE /\ tok = token.RAWSTRING ->
      exists lit s',
        Scan s = Some ((token.FilePos (file s) (offset s), tok, lit), s') /\
        Inv s' /\ lit = slice (src s) (offset s) (offset s') /\
        Forall (fun b => b2z b <> NL) lit /\
        ((exists s1,
             s' = error (offset s) not_terminated s1 /\
             avoids not_terminated s s1 /\
             line_end (slice_from (src s') (offset s')) /\
             (err s = true ->
              count_msg not_terminated (calls s')
              = count_msg not_terminated (calls s) + 1)) \/
         (exists s0,
             Inv s0 /\ src s0 = src s /\ offset s < offset s0 /\
             s' = next s0 /\ ch s0 = quote /\ avoids not_terminated s s'))) /\
  (* a string of plain bytes in front of a newline or the end of the input *)
  (forall (s : Scanner) (quote : Z) (tok : token.Token) (q : byte)
          (body rest : list byte),
      Inv s ->
      quote = DQUOTE /\ tok = token.STRING \/ quote = SQUOTE /\ tok = token.RAWSTRING ->
      b2z q = quote ->
      slice_from (src s) (offset s) = q :: body ++ rest ->
      Forall (plain_byte quote) body -> line_end rest ->
      exists s',
        Scan s = Some ((token.FilePos (file s) (offset s), tok, q :: body), s') /\
        slice_from (src s') (offset s') = rest /\
        (err s = true ->
         count_msg not_terminated (calls s')
         = count_msg not_terminated (calls s) + 1) /\
        (Forall clean_byte body -> ErrorCount s' = ErrorCount s + 1)).
Proof.
  split; [|split; [|split; [|split]]].
  - eexists. split; [lazy; reflexivity|]. split; reflexivity.
  - eexists. split; [lazy; reflexivity|]. split; reflexivity.
  - intros s quote tok q body rest HI Hq Hb Hs Ho Hrest.
    destruct (Scan_string_open s quote tok q body rest HI Hq Hb Hs Ho Hrest)
      as (s1 & HScan & HI1 & F1 & F2 & Hs1 & A1).
    exists s1. split; [exact HScan|]. split; [assumption|]. split; [assumption|].
    destruct (error_fields (offset s) not_terminated s1)
      as (_ & _ & _ & _ & _ & _ & X7 & _).
    split; [exact X7|].
    intros He. rewrite error_count by congruence.
    rewrite (avoids_count _ _ _ A1). reflexivity.
  - intros s quote tok HI Hc Hq. now apply Scan_string_outcome.
  - intros s quote tok q body rest HI Hq Hb Hs Hp Hrest.
    assert (Hqa : 0 <= quote < utf8.RuneSelf)
      by (destruct Hq as [[-> _]|[-> _]]; cbv; split; congruence).
    destruct (next_ascii s q (body ++ rest) HI Hs ltac:(rewrite Hb; apply Hqa))
      as (Hc & Hr & HI1 & E1 & E2 & Ho1 & Hs1).
    rewrite Hb in Hc.
    destruct (Scan_quote s quote tok HI Hc Hq) as (-> & _).
    destruct (scanString_loop_plain quote (offset (next s) - 1) rest Hqa Hrest
                (budget (next s)) body (next s) HI1 (budget_mu _) Hs1 Hp)
      as (s1 & Hloop & HI2 & Hq1 & F1 & F2 & Ho2 & Hs2 & Hsil).
    destruct (error_fields (offset (next s) - 1) not_terminated s1)
      as (X1 & X2 & _ & _ & X5 & _ & X7 & _).
    assert (Hrun : scanString quote (next s)
                   = Some (q :: body, error (offset (next s) - 1) not_terminated s1)).
    { unfold scanString. rewrite !bind_gets, (bind_eq _ _ _ _ _ Hloop), !bind_gets.
      unfold ret. rewrite X1, X5, F1, E1, Ho2, Ho1.
      replace (offset s + 1 - 1) with (offset s) by lia.
      replace (offset s + 1 + len body) with (offset s + len (q :: body))
        by (rewrite len_cons; lia).
      destruct HI as [H0 _].
      now rewrite (slice_prefix (src s) (q :: body) rest (offset s) H0 Hs). }
    rewrite (bind_eq _ _ _ _ _ Hrun).
    eexists. split; [reflexivity|]. split; [now rewrite X1, X5|]. split.
    + intros He. rewrite error_count by congruence.
      rewrite (quiet_count _ _ _ (quiet_trans _ _ _ (quiet_next s) Hq1)
                 not_terminated_not_next).
      reflexivity.
    + intros Hcl.
      assert (Hcr : clean_head rest)
        by (destruct Hrest as [->|(bs & ->)]; [exact I|cbv; auto]).
      assert (S0 : silent s (next s)).
      { apply next_clean; [assumption|]. rewrite Hr, <- Ho1, <- E1, Hs1.
        destruct body; [exact Hcr|now inversion Hcl]. }
      assert (S1 : silent (next s) s1).
      { apply Hsil; [|assumption]. destruct body; [constructor|now inversion Hcl]. }
      destruct S0 as [S0 _], S1 as [S1 _]. lia.
Qed.

End StringClaim.

(** ** Escapes *)

Section Escapes.

Context {U : UnicodeTables}.

Lemma digitVal_ascii (c base : Z) :
  digitVal c < base -> base <= 16 -> 48 <= c < 128.
Proof.
  intros H Hb. destruct (digitVal_cases c) as [X|[X|[X|X]]]; lia.
Qed.

Lemma wrap32_small (z : Z) : 0 <= z < 2 ^ 32 -> wrap32 z = z.
Proof. intros H. unfold wrap32. now apply Z.mod_small. Qed.

(** The loop of [scanEscape] over digits that all parse: they are
    consumed, and the value computed in [uint32] is the number they
    denote, as long as that number fits. *)
Lemma scanEscape_digits_run (base : Z) (rest : list byte) :
  2 <= base <= 16 ->
  forall (ds : list byte) (x : Z) (s : Scanner),
    Inv s ->
    slice_from (src s) (offset s) = ds ++ rest ->
    Forall (fun d => digitVal (b2z d) < base) ds ->
    0 <= x -> (x + 1) * base ^ len ds <= 2 ^ 32 ->
    exists s',
      scanEscape_digits (List.length ds) base x s
      = Some (Some (digits_value base ds x), s') /\
      Inv s' /\ quiet s s' /\ src s' = src s /\ err s' = err s /\
      offset s' = offset s + len ds /\
      slice_from (src s') (offset s') = rest /\
      0 <= digits_value base ds x < 2 ^ 32.
Proof.
  intros Hbase. induction ds as [|d ds IH]; intros x s HI Hs Hd Hx Hfit.
  - exists s. change (len (@nil byte)) with 0 in *. cbn [digits_value fold_left].
    split; [reflexivity|]. split; [assumption|]. split; [apply quiet_refl|].
    split; [reflexivity|]. split; [reflexivity|]. split; [lia|].
    split; [assumption|]. simpl in Hfit. lia.
  - inversion Hd as [|? ? Hd1 Hd2]; subst.
    pose proof (digitVal_range (b2z d)) as Hr.
    pose proof (digitVal_ascii _ _ Hd1 ltac:(lia)) as Ha.
    cbn [app] in Hs.
    destruct (next_ascii s d (ds ++ rest) HI Hs ltac:(unfold utf8.RuneSelf; lia))
      as (Hc & _ & HI1 & E1 & E2 & Ho & Hs1).
    pose proof (len_nonneg ds) as Hl.
    assert (Hpow : 0 < base ^ len ds) by (apply Z.pow_pos_nonneg; lia).
    rewrite len_cons in Hfit.
    replace (base ^ (1 + len ds)) with (base * base ^ len ds) in Hfit
      by (rewrite Z.pow_add_r by lia; rewrite Z.pow_1_r; reflexivity).
    assert (Hx' : 0 <= x * base + digitVal (b2z d) < 2 ^ 32) by nia.
    destruct (IH (x * base + digitVal (b2z d)) (next s) HI1 Hs1 Hd2 ltac:(lia))
      as (s' & Hrun & HI' & Hq & F1 & F2 & Ho' & Hs' & Hv).
    { nia. }
    exists s'. cbn [List.length scanEscape_digits]. rewrite bind_gets. cbv zeta.
    rewrite Hc, (wrap32_small (digitVal (b2z d))) by lia.
    destruct (Z.leb_spec base (digitVal (b2z d))); [lia|].
    rewrite bind_modify, (wrap32_small _ Hx').
    split; [exact Hrun|]. split; [assumption|].
    split; [exact (quiet_trans _ _ _ (quiet_next s) Hq)|].
    split; [congruence|]. split; [congruence|].
    split; [rewrite Ho', Ho, len_cons; lia|]. split; [assumption|exact Hv].
Qed.

End Escapes.

Section EscapeClaim.

Context {U : UnicodeTables}.

Lemma invalid_not_next : ~ next_msg invalid_code_point.
Proof. unfold next_msg, invalid_code_point. intros [H|[H|H]]; discriminate H. Qed.

(** [scanEscape] on an escape with digits, all of which parse: the escape
    is consumed, and it is refused, with a report at the offset where the
    escape starts, exactly when the number is beyond the maximum of its
    form or a surrogate. *)
Lemma scanEscape_form (k : EscapeForm) (quote : Z) (s : Scanner)
    (ds rest : list byte) :
  Inv s -> quote = DQUOTE \/ quote = SQUOTE ->
  slice_from (src s) (offset s) = esc_intro k ++ ds ++ rest ->
  List.length ds = esc_n k ->
  Forall (fun d => digitVal (b2z d) < esc_base k) ds ->
  exists s2,
    Inv s2 /\ quiet s s2 /\ err s2 = err s /\
    slice_from (src s2) (offset s2) = rest /\
    scanEscape quote s =
    (let x := digits_value (esc_base k) ds 0 in
     if (esc_max k <? x) || ((0xD800 <=? x) && (x <? 0xE000))
     then Some (false, error (offset s) invalid_code_point s2)
     else Some (true, s2)).
Proof.
  intros HI Hq Hs Hlen Hd.
  assert (Hb : 2 <= esc_base k <= 16) by (destruct k; cbn; lia).
  assert (Hfit : (0 + 1) * esc_base k ^ len ds <= 2 ^ 32).
  { unfold len. rewrite Hlen. destruct k; cbn; lia. }
  destruct k; cbn [esc_intro app] in Hs.
  - (* octal: the first digit is the current rune *)
    destruct (scanEscape_digits_run 8 rest Hb ds 0 s HI Hs Hd ltac:(lia) Hfit)
      as (s2 & Hrun & HI2 & Hq2 & F1 & F2 & Ho & Hs2 & Hv).
    exists s2. split; [assumption|]. split; [assumption|]. split; [assumption|].
    split; [assumption|].
    rewrite Hlen in Hrun. cbn [esc_n] in Hrun.
    destruct ds as [|d ds]; [discriminate Hlen|]. inversion Hd as [|? ? Hd1 _]; subst.
    pose proof (ch_of_slice s _ HI Hs) as [Hlo _].
    assert (Hc : 48 <= ch s <= 55).
    { cbn [esc_base] in Hd1.
      destruct (digitVal_cases (b2z d)) as [X|[X|[X|X]]]; try lia.
      rewrite Hlo by (unfold utf8.RuneSelf; lia). lia. }
    unfold scanEscape. rewrite !bind_gets. cbv zeta.
    replace ((ch s =? rune "a") || (ch s =? rune "b") || (ch s =? rune "f")
             || (ch s =? rune "n") || (ch s =? rune "r") || (ch s =? rune "t")
             || (ch s =? rune "v") || (ch s =? BACKSLASH) || (ch s =? quote))
      with false.
    2:{ symmetry. unfold rune, BACKSLASH. simpl.
        repeat (apply orb_false_intro); apply Z.eqb_neq;
          try lia; destruct Hq as [->| ->]; unfold DQUOTE, SQUOTE, rune; simpl; lia. }
    replace ((rune "0" <=? ch s) && (ch s <=? rune "7")) with true.
    2:{ symmetry. unfold rune. simpl. apply andb_true_iff. split; apply Z.leb_le; lia. }
    cbv iota. rewrite (bind_eq _ _ _ _ _ Hrun). cbn [esc_base esc_max].
    destruct ((255 <? digits_value 8 (d :: ds) 0)
              || (55296 <=? digits_value 8 (d :: ds) 0)
                 && (digits_value 8 (d :: ds) 0 <? 57344)); reflexivity.
  - (* \x *)
    destruct (next_ascii s _ _ HI Hs ltac:(reflexivity)) as (Hc & _ & HI1 & E1 & E2 & Ho1 & Hs1).
    destruct (scanEscape_digits_run 16 rest Hb ds 0 (next s) HI1 Hs1 Hd ltac:(lia) Hfit)
      as (s2 & Hrun & HI2 & Hq2 & F1 & F2 & Ho & Hs2 & Hv).
    exists s2. split; [assumption|].
    split; [exact (quiet_trans _ _ _ (quiet_next s) Hq2)|].
    split; [congruence|]. split; [assumption|].
    rewrite Hlen in Hrun. cbn [esc_n] in Hrun.
    unfold scanEscape. rewrite !bind_gets, Hc. cbv zeta.
    destruct Hq as [->| ->];
      (match goal with |- (if ?c then _ else _) _ = _ => change c with false end;
       cbv iota;
       match goal with |- (if ?c then _ else _) _ = _ => change c with false end;
       cbv iota;
       match goal with |- (if ?c then _ else _) _ = _ => change c with true end;
       cbv iota; rewrite bind_modify, (bind_eq _ _ _ _ _ Hrun); cbn [esc_base esc_max];
       destruct ((255 <? digits_value 16 ds 0)
                 || (55296 <=? digits_value 16 ds 0)
                    && (digits_value 16 ds 0 <? 57344)); reflexivity).
  - (* \u *)
    destruct (next_ascii s _ _ HI Hs ltac:(reflexivity)) as (Hc & _ & HI1 & E1 & E2 & Ho1 & Hs1).
    destruct (scanEscape_digits_run 16 rest Hb ds 0 (next s) HI1 Hs1 Hd ltac:(lia) Hfit)
      as (s2 & Hrun & HI2 & Hq2 & F1 & F2 & Ho & Hs2 & Hv).
    exists s2. split; [assumption|].
    split; [exact (quiet_trans _ _ _ (quiet_next s) Hq2)|].
    split; [congruence|]. split; [assumption|].
    rewrite Hlen in Hrun. cbn [esc_n] in Hrun.
    unfold scanEscape. rewrite !bind_gets, Hc. cbv zeta.
    destruct Hq as [->| ->];
      (do 3 (match goal with |- (if ?c then _ else _) _ = _ => change c with false end;
             cbv iota);
       match goal with |- (if ?c then _ else _) _ = _ => change c with true end;
       cbv iota; rewrite bind_modify, (bind_eq _ _ _ _ _ Hrun); cbn [esc_base esc_max];
       destruct ((utf8.MaxRune <? digits_value 16 ds 0)
                 || (55296 <=? digits_value 16 ds 0)
                    && (digits_value 16 ds 0 <? 57344)); reflexivity).
  - (* \U *)
    destruct (next_ascii s _ _ HI Hs ltac:(reflexivity)) as (Hc & _ & HI1 & E1 & E2 & Ho1 & Hs1).
    destruct (scanEscape_digits_run 16 rest Hb ds 0 (next s) HI1 Hs1 Hd ltac:(lia) Hfit)
      as (s2 & Hrun & HI2 & Hq2 & F1 & F2 & Ho & Hs2 & Hv).
    exists s2. split; [assumption|].
    split; [exact (quiet_trans _ _ _ (quiet_next s) Hq2)|].
    split; [congruence|]. split; [assumption|].
    rewrite Hlen in Hrun. cbn [esc_n] in Hrun.
    unfold scanEscape. rewrite !bind_gets, Hc. cbv zeta.
    destruct Hq as [->| ->];
      (do 4 (match goal with |- (if ?c then _ else _) _ = _ => change c with false end;
             cbv iota);
       match goal with |- (if ?c then _ else _) _ = _ => change c with true end;
       cbv iota; rewrite bind_modify, (bind_eq _ _ _ _ _ Hrun); cbn [esc_base esc_max];
       destruct ((utf8.MaxRune <? digits_value 16 ds 0)
                 || (55296 <=? digits_value 16 ds 0)
                    && (digits_value 16 ds 0 <? 57344)); reflexivity).
Qed.

End EscapeClaim.

Section EscapeTheorem.

Context {U : UnicodeTables}.

(** C6.  An escape of the form [\u] or [\U], and likewise of the form
    [\x] or octal, whose digits all parse is accepted exactly when the
    number they denote does not exceed the maximum of the form, the
    Unicode maximum for [\u] and [\U] and 255 for [\x] and octal, and is
    no surrogate; otherwise [invalid_code_point] is reported, once, at
    the offset where the escape starts.  Either way the escape is
    consumed.  The raw string with the escape [\u0000] is scanned as one
    token with the whole source as literal and no error. *)
Theorem C6_escape_code_point :
  (exists s',
      Scan (scanner_of (bytes "'\u0000'"))
      = Some ((1, token.RAWSTRING, bytes "'\u0000'"), s') /\
      ErrorCount s' = 0 /\ calls s' = [] /\ ch s' = -1) /\
  (exists s',
      Scan (scanner_of (bytes "'\Uffffffff'"))
      = Some ((1, token.RAWSTRING, bytes "'\Uffffffff'"), s') /\
      ErrorCount s' = 1 /\
      map (fun c => (token.Offset (call_pos c), call_msg c)) (calls s')
      = [(2, invalid_code_point)]) /\
  (forall (k : EscapeForm) (quote : Z) (s : Scanner) (ds rest : list byte),
      Inv s -> quote = DQUOTE \/ quote = SQUOTE ->
      slice_from (src s) (offset s) = esc_intro k ++ ds ++ rest ->
      List.length ds = esc_n k ->
      Forall (fun d => digitVal (b2z d) < esc_base k) ds ->
      let x := digits_value (esc_base k) ds 0 in
      exists b s',
        scanEscape quote s = Some (b, s') /\
        (b = true <-> x <= esc_max k /\ ~ 0xD800 <= x <= 0xDFFF) /\
        slice_from (src s') (offset s') = rest /\
        (b = true ->
         count_msg invalid_code_point (calls s')
         = count_msg invalid_code_point (calls s)) /\
        (b = false ->
         (exists s2, s' = error (offset s) invalid_code_point s2 /\ quiet s s2) /\
         (err s = true ->
          count_msg invalid_code_point (calls s')
          = count_msg invalid_code_point (calls s) + 1))).
Proof.
  split; [|split].
  - eexists. split; [lazy; reflexivity|]. repeat split; reflexivity.
  - eexists. split; [lazy; reflexivity|]. split; reflexivity.
  - intros k quote s ds rest HI Hq Hs Hlen Hd x.
    destruct (scanEscape_form k quote s ds rest HI Hq Hs Hlen Hd)
      as (s2 & HI2 & Hq2 & E2 & Hs2 & Hrun).
    cbv zeta in Hrun. fold x in Hrun.
    destruct (Z.ltb_spec (esc_max k) x) as [Hmax|Hmax]; cbn [orb] in Hrun.
    + exists false, (error (offset s) invalid_code_point s2).
      split; [assumption|]. split; [split; [discriminate|lia]|].
      destruct (error_fields (offset s) invalid_code_point s2)
        as (X1 & _ & _ & _ & X5 & _).
      split; [now rewrite X1, X5|]. split; [discriminate|]. intros _.
      split; [eauto|]. intros He. rewrite error_count by congruence.
      rewrite (quiet_count _ _ _ Hq2 invalid_not_next). reflexivity.
    + destruct (Z.leb_spec 0xD800 x) as [Hlo|Hlo];
        [destruct (Z.ltb_spec x 0xE000) as [Hhi|Hhi]|]; cbn [andb] in Hrun.
      * exists false, (error (offset s) invalid_code_point s2).
        split; [assumption|]. split; [split; [discriminate|lia]|].
        destruct (error_fields (offset s) invalid_code_point s2)
          as (X1 & _ & _ & _ & X5 & _).
        split; [now rewrite X1, X5|]. split; [discriminate|]. intros _.
        split; [eauto|]. intros He. rewrite error_count by congruence.
        rewrite (quiet_count _ _ _ Hq2 invalid_not_next). reflexivity.
      * exists true, s2. split; [assumption|]. split; [split; [lia|reflexivity]|].
        split; [assumption|]. split; [|discriminate]. intros _.
        exact (quiet_count _ _ _ Hq2 invalid_not_next).
      * exists true, s2. split; [assumption|]. split; [split; [lia|reflexivity]|].
        split; [assumption|]. split; [|discriminate]. intros _.
        exact (quiet_count _ _ _ Hq2 invalid_not_next).
Qed.

End EscapeTheorem.

(** ** The byte order mark *)

Lemma DecodeRune_bom (rest : list byte) :
  utf8.DecodeRune (bom_bytes ++ rest) = (bom, 3).
Proof.
  unfold bom_bytes, utf8.DecodeRune. cbn [app].
  change (b2z xef) with 239. change (b2z xbb) with 187. change (b2z xbf) with 191.
  cbn [Z.ltb Z.eqb Z.leb Z.compare Pos.compare Pos.compare_cont orb andb].
  rewrite !len_cons. pose proof (len_nonneg rest).
  destruct (Z.ltb_spec (1 + (1 + (1 + len rest))) 3); [lia|]. reflexivity.
Qed.

Lemma FilePosition_Offset (f : token.File) (offs : Z) :
  0 < token.base f -> 0 <= offs ->
  token.Offset (token.FilePosition f (token.FilePos f offs)) = offs.
Proof.
  intros Hb Ho. unfold token.FilePosition, token.FilePos.
  destruct (Z.eqb_spec (token.base f + offs) 0); [lia|].
  cbv zeta. destruct (0 <=? token.searchLineInfos _ _);
    [destruct (0 <=? token.searchInts _ _)|]; cbn [token.Offset]; lia.
Qed.

Section BomClaim.

Context {U : UnicodeTables}.

(** C5.  A byte order mark at the very start of the source is decoded
    without a report and skipped by [Init]: the scanner is left behind
    it, with no error at all when the mark is alone or followed by a
    clean byte.  Anywhere past the first byte, the call of [next] that
    decodes a byte order mark reports [illegal_bom] once, at the offset
    of the mark.  When [Scan] is at a byte order mark, which the Unicode
    tables do not count as a letter, it returns an [ILLEGAL] token with
    the encoding of the mark as literal and reports nothing of its own:
    the state it leaves is the one [next] leaves. *)
Theorem C5_byte_order_mark :
  (forall (file : token.File) (rest : list byte) (e : bool),
      token.Size file = len (bom_bytes ++ rest) ->
      let s0 := Init_fields file (bom_bytes ++ rest) e in
      ch (next s0) = bom /\ offset (next s0) = 0 /\
      ErrorCount (next s0) = 0 /\ calls (next s0) = [] /\
      Init file (bom_bytes ++ rest) e = inr (next (next s0)) /\
      offset (next (next s0)) = 3 /\
      slice_from (src (next (next s0))) (offset (next (next s0))) = rest /\
      (clean_head rest ->
       ErrorCount (next (next s0)) = 0 /\ calls (next (next s0)) = [])) /\
  (forall (s : Scanner) (rest : list byte),
      0 < rdOffset s ->
      slice_from (src s) (rdOffset s) = bom_bytes ++ rest ->
      ch (next s) = bom /\ offset (next s) = rdOffset s /\
      rdOffset (next s) = rdOffset s + 3 /\
      ErrorCount (next s) = ErrorCount s + 1 /\
      (err s = false -> calls (next s) = calls s) /\
      (err s = true ->
       exists c, calls (next s) = calls s ++ [c] /\ call_msg c = illegal_bom /\
                 (0 < token.base (file s) ->
                  token.Offset (call_pos c) = rdOffset s))) /\
  (forall (s : Scanner),
      Inv s -> ch s = bom -> unicode_IsLetter bom = false ->
      Scan s = Some ((token.FilePos (file s) (offset s), token.ILLEGAL, bom_bytes),
                     next s)).
Proof.
  split; [|split].
  - intros file rest e Hsz s0.
    assert (H0 : rdOffset s0 = 0) by reflexivity.
    assert (Hlt : rdOffset s0 < len (src s0)).
    { rewrite H0. cbn [src s0 Init_fields]. rewrite len_app.
      change (len bom_bytes) with 3. pose proof (len_nonneg rest). lia. }
    pose proof (next_read s0 ltac:(lia) Hlt) as (E1 & E2 & E3 & E4 & E5 & E6).
    cbv zeta in E1, E2, E3, E4, E5, E6.
    replace (slice_from (src s0) (rdOffset s0)) with (bom_bytes ++ rest)
      in E1, E3, E5, E6 by reflexivity.
    rewrite DecodeRune_bom in E1, E3, E5, E6. cbn [fst snd] in E1, E3, E5, E6.
    rewrite H0 in E2, E3, E5, E6.
    change (decode_msg 0 bom 3) with (@None string) in E5, E6.
    rewrite app_nil_r in E6.
    split; [assumption|]. split; [assumption|].
    split; [exact E5|]. split; [exact E6|].
    assert (HI1 : Inv (next s0)) by now apply next_fresh_Inv.
    assert (Hs1 : slice_from (src (next s0)) (offset (next s0)) = bom_bytes ++ rest).
    { rewrite next_src, E2. reflexivity. }
    destruct (next_rune (next s0) xef (xbb :: xbf :: rest) HI1 Hs1)
      as (w & Hw & Hr & HI2 & F1 & F2 & Ho & Hsl & _).
    assert (Hw3 : w = 3) by lia. subst w.
    split.
    { unfold Init. rewrite Hsz, Z.eqb_refl. cbn [negb]. cbv zeta. fold s0.
      rewrite E1. reflexivity. }
    split; [lia|]. split; [exact Hsl|].
    intros Hcl.
    assert (S : silent (next s0) (next (next s0))).
    { apply next_clean; [assumption|].
      replace (rdOffset (next s0)) with (offset (next (next s0))) by lia.
      rewrite <- F1, Hsl. exact Hcl. }
    destruct S as [S1 S2]. split; [rewrite S1; exact E5|rewrite S2; exact E6].
  - intros s rest Hpos Hs.
    assert (Hlt : rdOffset s < len (src s)).
    { destruct (Z.lt_ge_cases (rdOffset s) (len (src s))) as [|Hge]; [assumption|].
      exfalso. unfold slice_from, len in *. rewrite skipn_all2 in Hs by lia.
      discriminate Hs. }
    pose proof (next_read s ltac:(lia) Hlt) as (E1 & E2 & E3 & E4 & E5 & E6).
    cbv zeta in E1, E3, E5, E6. rewrite Hs, DecodeRune_bom in E1, E3, E5, E6.
    cbn [fst snd] in E1, E3, E5, E6.
    assert (Hm : decode_msg (rdOffset s) bom 3 = Some illegal_bom).
    { unfold decode_msg. change (bom =? 0) with false.
      change ((utf8.RuneSelf <=? bom) && (bom =? utf8.RuneError) && (3 =? 1)) with false.
      change ((utf8.RuneSelf <=? bom) && (bom =? bom)) with true.
      destruct (Z.ltb_spec 0 (rdOffset s)); [reflexivity|lia]. }
    rewrite Hm in E5, E6.
    split; [assumption|]. split; [assumption|]. split; [assumption|].
    split; [assumption|]. split.
    + intros He. rewrite He in E6. now rewrite app_nil_r in E6.
    + intros He. rewrite He in E6. eexists. split; [exact E6|].
      split; [reflexivity|]. intros Hb. cbn [call_pos].
      apply FilePosition_Offset; [|lia].
      unfold line_added. destruct (ch s =? NL); [now rewrite AddLine_base|assumption].
  - intros s HI Hc Hl.
    rewrite (Scan_other s bom Hc eq_refl); [reflexivity| |reflexivity].
    unfold isLetter. change ((rune "a" <=? bom) && (bom <=? rune "z")) with false.
    change ((rune "A" <=? bom) && (bom <=? rune "Z")) with false.
    change (bom =? rune "_") with false.
    change (utf8.RuneSelf <=? bom) with true. cbn [orb andb]. exact Hl.
Qed.

End BomClaim.

(** ** Where errors are reported *)


Section PositionClaim.

Context {U : UnicodeTables}.



End PositionClaim.

(** ** The claims at concrete sources *)

(** The invariant of a concrete scanner, by evaluation. *)
Ltac concrete_Inv :=
  split; [vm_compute; discriminate|];
  first [ left; split; vm_compute; reflexivity
        | right; repeat split; vm_compute; reflexivity ].

Ltac concrete_Forall :=
  repeat first [ apply Forall_nil | apply Forall_cons ];
  vm_compute; repeat split; congruence.

(** C8 as stated fails when the comment holds a byte that [next] reports:
    the block comment that the end of the input cuts short after a NUL
    byte is scanned as a [COMMENT], and one error is reported. *)
Lemma C8_block_comment_counterexample :
  exists s,
    Init (NewFile EmptyString 1 3) [x2f; x2a; x00] true = inr s /\
    ErrorCount s = 0 /\
    forall U : UnicodeTables,
    exists s',
      @Scan U s = Some ((1, token.COMMENT, []), s') /\
      ErrorCount s' = 1 /\
      map call_msg (calls s') = ["illegal character NUL"%string].
Proof.
  eexists. split; [reflexivity|]. split; [reflexivity|]. intros U.
  eexists. split; [lazy; reflexivity|]. split; reflexivity.
Qed.

(** C8 on a block comment and on a line comment. *)
Lemma C8_comments_witness :
  (let s := scanner_of (bytes "/* x") in
   exists s',
     @Scan NoTables s
     = Some ((token.FilePos (file s) (offset s), token.COMMENT, []), s') /\
     Inv s' /\ ch s' = -1 /\ offset s' = len (src s) /\
     quiet s s' /\ (Forall clean_byte (bytes " x") -> silent s s')) /\
  (let s := scanner_of (bytes "// x" ++ [x0a] ++ bytes "y") in
   exists s',
     @Scan NoTables s
     = Some ((token.FilePos (file s) (offset s), token.COMMENT, []), s') /\
     Inv s' /\ offset s' = offset s + 2 + len (bytes " x") /\
     slice_from (src s') (offset s') = x0a :: bytes "y" /\
     quiet s s' /\ (Forall clean_byte (bytes " x") -> silent s s')).
Proof.
  split; cbv zeta.
  - assert (HI : Inv (scanner_of (bytes "/* x"))) by concrete_Inv.
    apply (proj1 (@C8_comments NoTables _ (bytes " x") [] HI)); reflexivity.
  - assert (HI : Inv (scanner_of (bytes "// x" ++ [x0a] ++ bytes "y"))) by concrete_Inv.
    apply (proj2 (@C8_comments NoTables _ (bytes " x") (x0a :: bytes "y") HI)).
    + reflexivity.
    + concrete_Forall.
    + right. now exists (bytes "y").
Defined.

(** C3 on the sources [07800000009] and [078e0] of the tests. *)
Lemma C3_octal_or_float_witness :
  (let s := scanner_of (bytes "07800000009") in
   exists tok lit s',
     @Scan NoTables s = Some ((token.FilePos (file s) (offset s), tok, lit), s') /\
     tok = token.INT /\ lit = bytes "07800000009" /\
     (err s = true ->
      count_msg "illegal octal number" (calls s')
      = count_msg "illegal octal number" (calls s) + 1) /\
     (Forall clean_byte (bytes "7800000009") -> clean_head [] ->
      ErrorCount s' = ErrorCount s + 1)) /\
  (let s := scanner_of (bytes "078e0") in
   exists tok lit s',
     @Scan NoTables s = Some ((token.FilePos (file s) (offset s), tok, lit), s') /\
     tok = token.FLOAT /\
     count_msg "illegal octal number" (calls s')
     = count_msg "illegal octal number" (calls s)).
Proof.
  destruct (@C3_octal_or_float NoTables) as (_ & _ & H).
  split; cbv zeta.
  - assert (HI : Inv (scanner_of (bytes "07800000009"))) by concrete_Inv.
    apply (H _ (bytes "7800000009") [] HI); [reflexivity|concrete_Forall| |exact I].
    apply Exists_cons_tl, Exists_cons_hd. left. reflexivity.
  - assert (HI : Inv (scanner_of (bytes "078e0"))) by concrete_Inv.
    apply (H _ (bytes "78") (bytes "e0") HI); [reflexivity|concrete_Forall| |].
    + apply Exists_cons_tl, Exists_cons_hd. left. reflexivity.
    + vm_compute. intros [_ X]. now apply X.
Defined.

(** C4 on three sources: a string with an escaped quote and an escape
    that is cut short, in front of a newline; a raw string of the tests,
    cut short by a newline; and a string of plain bytes cut short by a
    newline. *)
Lemma C4_unterminated_string_witness :
  (let body := [x61; x5c; x22; x62; x5c; x78; x34] in
   let s := scanner_of (x22 :: body ++ x0a :: bytes "c") in
   exists s1,
     @Scan NoTables s
     = Some ((token.FilePos (file s) (offset s), token.STRING, x22 :: body),
             error (offset s) not_terminated s1) /\
     slice_from (src s1) (offset s1) = x0a :: bytes "c" /\
     avoids not_terminated s s1 /\
     ErrorCount (error (offset s) not_terminated s1) = ErrorCount s1 + 1 /\
     (err s = true ->
      count_msg not_terminated (calls (error (offset s) not_terminated s1))
      = count_msg not_terminated (calls s) + 1)) /\
  (let s := scanner_of (x27 :: x5c :: x27 :: [x0a]) in
   exists lit s',
     @Scan NoTables s
     = Some ((token.FilePos (file s) (offset s), token.RAWSTRING, lit), s') /\
     Inv s' /\ lit = slice (src s) (offset s) (offset s') /\
     Forall (fun b => b2z b <> NL) lit /\
     ((exists s1,
          s' = error (offset s) not_terminated s1 /\
          avoids not_terminated s s1 /\
          line_end (slice_from (src s') (offset s')) /\
          (err s = true ->
           count_msg not_terminated (calls s')
           = count_msg not_terminated (calls s) + 1)) \/
      (exists s0,
          Inv s0 /\ src s0 = src s /\ offset s < offset s0 /\
          s' = next s0 /\ ch s0 = SQUOTE /\ avoids not_terminated s s'))) /\
  (let s := scanner_of (x22 :: bytes "abc" ++ x0a :: bytes "   ") in
   exists s',
     @Scan NoTables s
     = Some ((token.FilePos (file s) (offset s), token.STRING, x22 :: bytes "abc"), s') /\
     slice_from (src s') (offset s') = x0a :: bytes "   " /\
     (err s = true ->
      count_msg not_terminated (calls s')
      = count_msg not_terminated (calls s) + 1) /\
     (Forall clean_byte (bytes "abc") -> ErrorCount s' = ErrorCount s + 1)).
Proof.
  destruct (@C4_unterminated_string NoTables) as (_ & _ & H0 & H1 & H2).
  split; [|split]; cbv zeta.
  - assert (HI : Inv (scanner_of
                        (x22 :: [x61; x5c; x22; x62; x5c; x78; x34] ++ x0a :: bytes "c")))
      by concrete_Inv.
    apply (H0 _ DQUOTE token.STRING x22 [x61; x5c; x22; x62; x5c; x78; x34]
             (x0a :: bytes "c") HI).
    + left. split; reflexivity.
    + reflexivity.
    + reflexivity.
    + reflexivity.
    + right. now exists (bytes "c").
  - assert (HI : Inv (scanner_of (x27 :: x5c :: x27 :: [x0a]))) by concrete_Inv.
    apply (H1 _ SQUOTE token.RAWSTRING HI); [reflexivity|right; split; reflexivity].
  - assert (HI : Inv (scanner_of (x22 :: bytes "abc" ++ x0a :: bytes "   ")))
      by concrete_Inv.
    apply (H2 _ DQUOTE token.STRING x22 (bytes "abc") (x0a :: bytes "   ") HI).
    + left. split; reflexivity.
    + reflexivity.
    + reflexivity.
    + concrete_Forall.
    + right. now exists (bytes "   ").
Defined.

(** C5 on sources of the tests: a lone byte order mark, and two in a
    row. *)
Lemma C5_byte_order_mark_witness :
  (let s0 := Init_fields (NewFile EmptyString 1 3) (bom_bytes ++ []) true in
   ch (next s0) = bom /\ offset (next s0) = 0 /\
   ErrorCount (next s0) = 0 /\ calls (next s0) = [] /\
   Init (NewFile EmptyString 1 3) (bom_bytes ++ []) true = inr (next (next s0)) /\
   offset (next (next s0)) = 3 /\
   slice_from (src (next (next s0))) (offset (next (next s0))) = [] /\
   (clean_head [] ->
    ErrorCount (next (next s0)) = 0 /\ calls (next (next s0)) = [])) /\
  (let s := scanner_of (bom_bytes ++ bom_bytes) in
   @Scan NoTables s
   = Some ((token.FilePos (file s) (offset s), token.ILLEGAL, bom_bytes), next s) /\
   ErrorCount s = 1 /\ ErrorCount (next s) = 1).
Proof.
  destruct (@C5_byte_order_mark NoTables) as (H1 & _ & H3).
  split; cbv zeta.
  - apply (H1 (NewFile EmptyString 1 3) [] true). reflexivity.
  - assert (HI : Inv (scanner_of (bom_bytes ++ bom_bytes))) by concrete_Inv.
    split; [|split; reflexivity].
    apply (H3 _ HI); reflexivity.
Defined.

(** C6 inside the raw strings of the tests: at the escape [\u0000], which
    is accepted, and at the escape [\Uffffffff], which is refused. *)
Lemma C6_escape_code_point_witness :
  (let s := next (next (scanner_of (bytes "'\u0000'"))) in
   exists b s',
     @scanEscape NoTables SQUOTE s = Some (b, s') /\
     (b = true <->
      digits_value 16 (bytes "0000") 0 <= utf8.MaxRune /\
      ~ 0xD800 <= digits_value 16 (bytes "0000") 0 <= 0xDFFF) /\
     slice_from (src s') (offset s') = bytes "'" /\
     (b = true ->
      count_msg invalid_code_point (calls s')
      = count_msg invalid_code_point (calls s)) /\
     (b = false ->
      (exists s2, s' = error (offset s) invalid_code_point s2 /\ quiet s s2) /\
      (err s = true ->
       count_msg invalid_code_point (calls s')
       = count_msg invalid_code_point (calls s) + 1))) /\
  (let s := next (next (scanner_of (bytes "'\Uffffffff'"))) in
   exists b s',
     @scanEscape NoTables SQUOTE s = Some (b, s') /\
     (b = true <->
      digits_value 16 (bytes "ffffffff") 0 <= utf8.MaxRune /\
      ~ 0xD800 <= digits_value 16 (bytes "ffffffff") 0 <= 0xDFFF) /\
     slice_from (src s') (offset s') = bytes "'" /\
     (b = true ->
      count_msg invalid_code_point (calls s')
      = count_msg invalid_code_point (calls s)) /\
     (b = false ->
      (exists s2, s' = error (offset s) invalid_code_point s2 /\ quiet s s2) /\
      (err s = true ->
       count_msg invalid_code_point (calls s')
       = count_msg invalid_code_point (calls s) + 1))).
Proof.
  destruct (@C6_escape_code_point NoTables) as (_ & _ & H).
  split; cbv zeta.
  - assert (HI : Inv (next (next (scanner_of (bytes "'\u0000'"))))) by concrete_Inv.
    apply (H EscU4 SQUOTE _ (bytes "0000") (bytes "'") HI);
      [now right|reflexivity|reflexivity|].
    repeat constructor.
  - assert (HI : Inv (next (next (scanner_of (bytes "'\Uffffffff'"))))) by concrete_Inv.
    apply (H EscU8 SQUOTE _ (bytes "ffffffff") (bytes "'") HI);
      [now right|reflexivity|reflexivity|].
    repeat constructor.
Defined.


(** ** The expectations of the tests *)

(** [testError]: three raw errors, and as many invocations. *)
Example testError_counts :
  exists toks s',
    @ScanAll NoTables 10 (scanner_of [x40; x0a; x40; x20; x40; x0a]) = Some (toks, s') /\
    map tok_of toks = [token.ILLEGAL; token.ILLEGAL; token.ILLEGAL; token.EOF] /\
    ErrorCount s' = 3 /\ len (calls s') = 3 /\
    map (fun c => (token.Line (call_pos c), token.Column (call_pos c))) (calls s')
    = [(1, 1); (2, 1); (2, 3)].
Proof. eexists _, _. split; [vm_compute; reflexivity|]. repeat split; reflexivity. Qed.

(** [TestScanErrors]: the hexadecimal prefix without digits, a NUL inside
    a string, two byte order marks, and a byte order mark in a comment. *)
Example TestScanErrors_hex :
  exists s',
    @Scan NoTables (scanner_of (bytes "0x")) = Some ((1, token.INT, bytes "0x"), s') /\
    map (fun c => (token.Offset (call_pos c), call_msg c)) (calls s')
    = [(0, "illegal hexadecimal number"%string)].
Proof. eexists. split; [vm_compute; reflexivity|reflexivity]. Qed.

Example TestScanErrors_nul :
  exists s',
    @Scan NoTables (scanner_of (x22 :: bytes "abc" ++ x00 :: bytes "def" ++ [x22]))
    = Some ((1, token.STRING, x22 :: bytes "abc" ++ x00 :: bytes "def" ++ [x22]), s') /\
    map (fun c => (token.Offset (call_pos c), call_msg c)) (calls s')
    = [(4, "illegal character NUL"%string)].
Proof. eexists. split; [vm_compute; reflexivity|reflexivity]. Qed.

Example TestScanErrors_bom_bom :
  exists s',
    @Scan NoTables (scanner_of (bom_bytes ++ bom_bytes))
    = Some ((4, token.ILLEGAL, bom_bytes), s') /\
    map (fun c => (token.Offset (call_pos c), call_msg c)) (calls s')
    = [(3, illegal_bom)].
Proof. eexists. split; [vm_compute; reflexivity|reflexivity]. Qed.

Example TestScanErrors_bom_in_comment :
  exists s',
    @Scan NoTables (scanner_of (bytes "//" ++ bom_bytes))
    = Some ((1, token.COMMENT, []), s') /\
    map (fun c => (token.Offset (call_pos c), call_msg c)) (calls s')
    = [(2, illegal_bom)].
Proof. eexists. split; [vm_compute; reflexivity|reflexivity]. Qed.

Example TestScanErrors_illegal_character :
  exists s',
    @Scan NoTables (scanner_of (bytes "#")) = Some ((1, token.ILLEGAL, bytes "#"), s') /\
    map (fun c => (token.Offset (call_pos c), call_msg c)) (calls s')
    = [(0, "illegal character U+0023 '#'"%string)].
Proof. eexists. split; [vm_compute; reflexivity|reflexivity]. Qed.
(** * Further properties *)

(** ** What scanning leaves alone *)

Lemma extends_refl (s : Scanner) : extends s s.
Proof.
  repeat split; try reflexivity; try lia.
  exists []. rewrite app_nil_r. repeat split; try reflexivity.
  change (len (@nil Call)) with 0. lia.
Qed.

Lemma extends_trans (a b c : Scanner) : extends a b -> extends b c -> extends a c.
Proof.
  intros (S1 & E1 & D1 & N1 & l1 & C1 & H1 & G1) (S2 & E2 & D2 & N2 & l2 & C2 & H2 & G2).
  split; [congruence|]. split; [congruence|]. split; [congruence|]. split; [lia|].
  exists (l1 ++ l2). split; [now rewrite C2, C1, app_assoc|]. split.
  - intros He. rewrite len_app, H2, H1 by congruence. lia.
  - intros He. rewrite G1, G2 by congruence. reflexivity.
Qed.

Lemma extends_error (o : Z) (m : string) (s : Scanner) : extends s (error o m s).
Proof.
  destruct s as [f d b e c o' r n l]. unfold extends, error.
  destruct e; rec_simpl.
  - repeat split; try reflexivity; try lia. eexists [_].
    split; [reflexivity|]. split; [reflexivity|discriminate].
  - repeat split; try reflexivity; try lia. exists [].
    rewrite app_nil_r. split; [reflexivity|]. split; [discriminate|reflexivity].
Qed.

Lemma extends_next (s : Scanner) : extends s (next s).
Proof.
  destruct s as [f d b e c o r n l]. unfold extends, next, error.
  break_ifs; (repeat split; try reflexivity; try lia);
    first [ exists []; rewrite app_nil_r; split; [reflexivity|];
            split; [intros _; change (len (@nil Call)) with 0; lia|reflexivity]
          | eexists [_]; split; [reflexivity|];
            split; [reflexivity|discriminate]
          | exists []; rewrite app_nil_r; split; [reflexivity|];
            split; [discriminate|reflexivity] ].
Qed.

(** A call of [Scan], and a run of calls up to the end-of-input token,
    never changes the source, the directory or the handler, never lowers
    the error count, and never touches the invocations of the handler
    made before: it only appends to them, one invocation for each error
    it counts. *)
Theorem Scan_extends {U : UnicodeTables} (s : Scanner) :
  (forall r s', Scan s = Some (r, s') -> extends s s') /\
  (forall n toks s', ScanAll n s = Some (toks, s') -> extends s s').
Proof.
  split.
  - intros r s' H.
    exact (steps_Scan extends extends_refl extends_trans extends_next extends_error
             _ _ _ H).
  - intros n toks s' H.
    exact (steps_ScanAll extends extends_refl extends_trans extends_next extends_error
             n _ _ _ H).
Qed.

Lemma Scan_extends_witness :
  exists r s',
    @Scan NoTables (scanner_of (bytes "@ a")) = Some (r, s') /\
    extends (scanner_of (bytes "@ a")) s'.
Proof.
  destruct (@ok_Scan NoTables _ (scanner_of_Inv (bytes "@ a"))) as (r & s' & H & _).
  exists r, s'. split; [exact H|].
  exact (proj1 (@Scan_extends NoTables _) r s' H).
Defined.
(** ** Where a token starts and what its literal is *)

Section Extent.

Context {U : UnicodeTables}.

Lemma next_while_exit (n : nat) (cond : Z -> bool) (s s' : Scanner) :
  next_while n cond s = Some (tt, s') -> cond (ch s') = false.
Proof.
  revert s. induction n as [|n IH]; intros s H; [discriminate H|].
  cbn [next_while] in H. rewrite bind_gets in H.
  destruct (cond (ch s)) eqn:E.
  - rewrite bind_modify in H. exact (IH _ H).
  - inversion H; subst. exact E.
Qed.

Lemma skipWhiteSpace_exit (s s1 : Scanner) :
  skipWhiteSpace s = Some (tt, s1) -> white (ch s1) = false.
Proof.
  unfold skipWhiteSpace, next_loop. rewrite bind_gets. intros H.
  exact (next_while_exit _ _ _ _ H).
Qed.

(** [Scan] after the white space is [Scan] from there. *)
Lemma Scan_after_space (s s1 : Scanner) :
  skipWhiteSpace s = Some (tt, s1) -> Scan s = Scan s1.
Proof.
  intros H. pose proof (skipWhiteSpace_exit _ _ H) as Hw.
  unfold Scan. rewrite (bind_eq _ _ _ _ _ H).
  unfold skipWhiteSpace at 1.
  erewrite (bind_eq (next_loop _) _ s1); [reflexivity|].
  apply next_loop_stop. exact Hw.
Qed.

Lemma scanNumber_lit (seen : bool) (s s' : Scanner) (r : token.Token * list byte) :
  scanNumber seen s = Some (r, s') ->
  snd r = slice (src s') (if seen then offset s - 1 else offset s) (offset s').
Proof.
  intros H. unfold scanNumber, scanNumber_fraction, scanNumber_exponent,
    scanNumber_exit in H.
  destruct seen; minv H; reflexivity.
Qed.

Lemma scanString_lit (quote : Z) (s s' : Scanner) (lit : list byte) :
  scanString quote s = Some (lit, s') ->
  lit = slice (src s') (offset s - 1) (offset s').
Proof. intros H. unfold scanString in H. minv H. reflexivity. Qed.

(** The inner switch of [Scan]: a token whose kind is a text kind is a
    string, a raw string, or a number that starts with a period, and its
    literal starts one byte before the state the switch is entered in. *)
Lemma Scan_switch_lit (pos c : Z) (s s' : Scanner) (p : token.Pos)
    (tok : token.Token) (lit : list byte) :
  Scan_switch pos c s = Some ((p, tok, lit), s') ->
  text_kind tok = true ->
  (c = DQUOTE \/ c = SQUOTE \/ c = rune ".") /\
  lit = slice (src s') (offset s - 1) (offset s').
Proof.
  intros H Hk. unfold Scan_switch, Scan_pair, Scan_illegal in H.
  minv H; try discriminate Hk;
    repeat match goal with
           | E : (_ =? _) = true |- _ => apply Z.eqb_eq in E
           end.
  - split; [tauto|]. eapply scanString_lit; eassumption.
  - split; [tauto|]. eapply scanString_lit; eassumption.
  - split; [tauto|].
    match goal with Hn : scanNumber true _ = Some _ |- _ =>
      exact (scanNumber_lit _ _ _ _ Hn) end.
Qed.

(** Every token [Scan] returns.  The white space in front of it is
    skipped; the position is that of the first rune after the white
    space, which is not white space itself; the scanner never ends before
    that rune and, unless the token is the end of the input, ends after
    it; and the literal of an identifier, a boolean, a number, a string
    or a raw string is the text of the source from that rune to where the
    scanner ends. *)
Theorem Scan_token_extent (s s' : Scanner) (pos : token.Pos) (tok : token.Token)
    (lit : list byte) :
  Inv s -> Scan s = Some ((pos, tok, lit), s') ->
  exists s1,
    skipWhiteSpace s = Some (tt, s1) /\ white (ch s1) = false /\
    pos = token.FilePos (file s1) (offset s1) /\
    offset s <= offset s1 <= offset s' /\
    (tok <> token.EOF -> offset s1 < offset s') /\
    (text_kind tok = true -> lit = slice (src s) (offset s1) (offset s')).
Proof.
  intros HI H.
  destruct (ok_skipWhiteSpace s HI) as ([] & s1 & Hws & HI1).
  pose proof (skipWhiteSpace_exit _ _ Hws) as Hw.
  pose proof (skipWhiteSpace_forward _ _ _ Hws HI) as (_ & E1 & _ & _ & L1 & _).
  rewrite (Scan_after_space _ _ Hws) in H.
  pose proof (Scan_forward _ _ _ H HI1) as (_ & E2 & _ & _ & L2 & _).
  exists s1. split; [assumption|]. split; [assumption|].
  assert (Hpos : pos = token.FilePos (file s1) (offset s1) /\
                 (text_kind tok = true -> lit = slice (src s') (offset s1) (offset s'))).
  { unfold Scan in H. unfold skipWhiteSpace in H.
    erewrite bind_eq in H; [|apply next_loop_stop; exact Hw].
    rewrite !bind_gets in H.
    destruct (isLetter (ch s1)) eqn:HL.
    - apply bind_Some in H. destruct H as (lit0 & s2 & Hid & H).
      unfold scanIdentifier in Hid. minv Hid.
      destruct (_ || _) in H; inversion H; subst; split; reflexivity.
    - destruct ((rune "0" <=? ch s1) && (ch s1 <=? rune "9")) eqn:HD.
      + apply bind_Some in H. destruct H as (r & s2 & Hn & H).
        inversion H; subst. split; [reflexivity|]. intros _.
        exact (scanNumber_lit _ _ _ _ Hn).
      + rewrite bind_modify in H.
        pose proof (Scan_switch_class _ _ _ _ _ _ _ H) as [Ep _]. subst pos.
        split; [reflexivity|]. intros Hk.
        destruct (Scan_switch_lit _ _ _ _ _ _ _ H Hk) as (Hc & ->).
        destruct (Inv_ascii_ch s1 HI1) as (b & bs & _ & _ & Hr).
        { unfold DQUOTE, SQUOTE, rune, utf8.RuneSelf in *. simpl in Hc.
          destruct Hc as [ -> | [ -> | -> ] ]; lia. }
        destruct (next_Inv s1 HI1) as (_ & Ho & _).
        f_equal. lia. }
  destruct Hpos as [Hp Hl].
  split; [assumption|]. split; [lia|]. split.
  - intros Hne.
    destruct (Scan_progress _ _ _ _ _ H Hne HI1) as (_ & _ & _ & _ & Hlt & _).
    exact Hlt.
  - intros Hk. rewrite (Hl Hk). congruence.
Qed.

End Extent.

Lemma Scan_token_extent_witness :
  let s := scanner_of (bytes "  abc+") in
  exists pos tok lit s' s1,
    @Scan NoTables s = Some ((pos, tok, lit), s') /\
    @skipWhiteSpace s = Some (tt, s1) /\ white (ch s1) = false /\
    pos = token.FilePos (file s1) (offset s1) /\
    offset s <= offset s1 <= offset s' /\
    (tok <> token.EOF -> offset s1 < offset s') /\
    (text_kind tok = true -> lit = slice (src s) (offset s1) (offset s')).
Proof.
  cbv zeta.
  destruct (@ok_Scan NoTables _ (scanner_of_Inv (bytes "  abc+")))
    as ([[pos tok] lit] & s' & H & _).
  destruct (@Scan_token_extent NoTables _ _ _ _ _ (scanner_of_Inv (bytes "  abc+")) H)
    as (s1 & H1).
  exists pos, tok, lit, s', s1. split; [exact H|exact H1].
Defined.
(** ** Identifiers and booleans *)

Lemma bytes_eqb_eq (a b : list byte) : bytes_eqb a b = true <-> a = b.
Proof.
  revert b. induction a as [|x a IH]; intros [|y b]; cbn [bytes_eqb];
    try (split; [discriminate|discriminate]); [split; reflexivity|].
  rewrite andb_true_iff, IH. split.
  - intros [H ->]. f_equal. now apply Byte.byte_dec_bl.
  - intros E. inversion E; subst. split; [|reflexivity].
    now apply Byte.byte_dec_lb.
Qed.

Lemma len_slice {A : Type} (l : list A) (lo hi : Z) :
  0 <= lo <= hi -> hi <= len l -> len (slice l lo hi) = hi - lo.
Proof.
  intros H1 H2. unfold slice, len in *. rewrite length_firstn, length_skipn. lia.
Qed.

Section Identifiers.

Context {U : UnicodeTables}.

(** An identifier or a boolean starts with a letter and ends where the
    letters and digits end; its literal is not empty; it is a boolean
    exactly when its text is [true] or [false]; and nothing but what
    [next] reports is reported while it is scanned. *)
Theorem Scan_ident_or_bool (s s' : Scanner) (pos : token.Pos) (tok : token.Token)
    (lit : list byte) :
  Inv s -> Scan s = Some ((pos, tok, lit), s') ->
  tok = token.IDENT \/ tok = token.BOOL ->
  lit <> [] /\
  (tok = token.BOOL <-> lit = bytes "true" \/ lit = bytes "false") /\
  (exists b bs, lit = b :: bs /\
                (ascii_byte b -> isLetter (b2z b) = true)) /\
  isLetter (ch s') || isDigit (ch s') = false /\
  quiet s s'.
Proof.
  intros HI H Htok.
  destruct (ok_skipWhiteSpace s HI) as ([] & s1 & Hws & HI1).
  pose proof (skipWhiteSpace_exit _ _ Hws) as Hw.
  pose proof (skipWhiteSpace_forward _ _ _ Hws HI) as (_ & E1 & _ & _ & L1 & _).
  pose proof (skipWhiteSpace_quiet _ _ _ Hws) as Q1.
  rewrite (Scan_after_space _ _ Hws) in H.
  pose proof (Scan_forward _ _ _ H HI1) as (HI' & E2 & _ & _ & L2 & _).
  assert (Hne : tok <> token.EOF) by (destruct Htok as [->| ->]; discriminate).
  destruct (Scan_progress _ _ _ _ _ H Hne HI1) as (_ & _ & _ & _ & Hlt & _).
  unfold Scan in H. unfold skipWhiteSpace in H.
  erewrite bind_eq in H; [|apply next_loop_stop; exact Hw].
  rewrite !bind_gets in H.
  destruct (isLetter (ch s1)) eqn:HL.
  - apply bind_Some in H. destruct H as (lit0 & s2 & Hid & H).
    unfold scanIdentifier in Hid. rewrite bind_gets in Hid.
    apply bind_Some in Hid. destruct Hid as ([] & s3 & Hloop & Hid).
    rewrite !bind_gets in Hid. inversion Hid; subst lit0 s2. clear Hid.
    assert (Hlit : lit = slice (src s3) (offset s1) (offset s3) /\ s' = s3 /\
                   (tok = token.BOOL <-> lit = bytes "true" \/ lit = bytes "false")).
    { destruct (bytes_eqb _ (bytes "true") || bytes_eqb _ (bytes "false")) eqn:Hb;
        injection H as Ep Et El Es;
        (split; [symmetry; exact El|]); (split; [symmetry; exact Es|]); rewrite <- El.
      - split; [intros _|intros _; symmetry; exact Et].
        apply orb_true_iff in Hb. destruct Hb as [Hb|Hb]; apply bytes_eqb_eq in Hb; tauto.
      - split; [intros E; rewrite E in Et; discriminate Et|].
        apply orb_false_elim in Hb. destruct Hb as [Hb1 Hb2].
        intros [E|E]; apply bytes_eqb_eq in E; congruence. }
    destruct Hlit as (Elit & Es3 & Hbool). subst s3.
    pose proof (Inv_bounds _ HI') as (Hb1' & Hb2' & _).
    pose proof HI1 as [H0 _].
    assert (Hlen : len lit = offset s' - offset s1).
    { rewrite Elit. apply len_slice; lia. }
    assert (Hnil : lit <> []).
    { intros E. rewrite E in Hlen. change (len (@nil byte)) with 0 in Hlen. lia. }
    split; [assumption|]. split; [assumption|]. split.
    + pose proof (Inv_ch s1 HI1) as Hd.
      destruct lit as [|b bs]; [congruence|]. exists b, bs. split; [reflexivity|].
      intros Hb.
      assert (Hs : exists tl, slice_from (src s1) (offset s1) = b :: tl).
      { unfold slice, slice_from in *. rewrite E2 in Elit.
        destruct (skipn (Z.to_nat (offset s1)) (src s1)) as [|c tl].
        - rewrite firstn_nil in Elit. discriminate Elit.
        - destruct (Z.to_nat (offset s') - Z.to_nat (offset s1))%nat; [discriminate Elit|].
          cbn [firstn] in Elit. inversion Elit; subst. now exists tl. }
      destruct Hs as (tl & Hs).
      pose proof (ch_of_slice s1 _ HI1 Hs) as [Hlo _].
      rewrite <- (Hlo Hb). exact HL.
    + split.
      * unfold next_loop in Hloop. rewrite bind_gets in Hloop.
        exact (next_while_exit _ _ _ _ Hloop).
      * apply (quiet_trans _ s1); [assumption|].
        exact (next_loop_quiet _ _ _ _ Hloop).
  - exfalso.
    destruct ((rune "0" <=? ch s1) && (ch s1 <=? rune "9")) eqn:HD.
    + apply bind_Some in H. destruct H as (r & s2 & Hn & H).
      inversion H; subst.
      destruct (scanNumber_tok _ _ _ _ Hn) as [E|E]; rewrite E in Htok;
        destruct Htok; discriminate.
    + rewrite bind_modify in H. unfold Scan_switch, Scan_pair, Scan_illegal in H.
      minv H; destruct Htok as [E|E]; try discriminate E;
        match goal with
        | Hn : scanNumber _ _ = Some (?r, _) |- _ =>
          destruct (scanNumber_tok _ _ _ _ Hn) as [E'|E']; rewrite E' in E; discriminate E
        end.
Qed.

Lemma ascii_letter_isLetter (b : byte) : ascii_letter b -> isLetter (b2z b) = true.
Proof.
  unfold ascii_letter, isLetter, rune. simpl. intros H.
  destruct (Z.leb_spec 97 (b2z b)), (Z.leb_spec (b2z b) 122),
    (Z.leb_spec 65 (b2z b)), (Z.leb_spec (b2z b) 90), (Z.eqb_spec (b2z b) 95);
    cbn [andb orb]; try reflexivity; lia.
Qed.

Lemma ascii_ident_cond (b : byte) :
  ascii_ident b -> isLetter (b2z b) || isDigit (b2z b) = true.
Proof.
  intros [H|H]; [now rewrite ascii_letter_isLetter|].
  apply orb_true_iff. right. unfold dec_digit, isDigit, rune in *. simpl in *.
  destruct (Z.leb_spec 48 (b2z b)), (Z.leb_spec (b2z b) 57); cbn [andb orb];
    try reflexivity; lia.
Qed.

Lemma ascii_ident_range (b : byte) : ascii_ident b -> 0 < b2z b < utf8.RuneSelf.
Proof.
  unfold ascii_ident, ascii_letter, dec_digit, rune, utf8.RuneSelf. simpl. lia.
Qed.

Lemma ident_end_cond (b : byte) :
  ascii_byte b -> ~ ascii_ident b -> isLetter (b2z b) || isDigit (b2z b) = false.
Proof.
  unfold ascii_byte, ascii_ident, ascii_letter, dec_digit, isLetter, isDigit, rune,
    utf8.RuneSelf. simpl. intros Ha Hn.
  destruct (Z.leb_spec 97 (b2z b)), (Z.leb_spec (b2z b) 122),
    (Z.leb_spec 65 (b2z b)), (Z.leb_spec (b2z b) 90), (Z.eqb_spec (b2z b) 95),
    (Z.leb_spec 48 (b2z b)), (Z.leb_spec (b2z b) 57), (Z.leb_spec 128 (b2z b));
    cbn [andb orb]; try reflexivity; lia.
Qed.

(** An identifier written in ASCII: at a letter followed by letters and
    digits, up to a byte of ASCII that is neither or to the end of the
    input, [Scan] returns the letters and digits as an identifier, or as
    a boolean when they spell [true] or [false], stops right after them
    and reports nothing. *)
Theorem Scan_identifier (s : Scanner) (b : byte) (body rest : list byte) :
  Inv s ->
  slice_from (src s) (offset s) = b :: body ++ rest ->
  ascii_letter b -> Forall ascii_ident body -> ident_end rest ->
  exists s',
    Scan s = Some ((token.FilePos (file s) (offset s), ident_token (b :: body),
                    b :: body), s') /\
    Inv s' /\ offset s' = offset s + len (b :: body) /\
    slice_from (src s') (offset s') = rest /\
    (clean_head rest -> silent s s').
Proof.
  intros HI Hs Hb Hbody Hrest.
  assert (Hid : Forall ascii_ident (b :: body)) by (constructor; [now left|assumption]).
  pose proof (ascii_ident_range b (or_introl Hb)) as Hbr.
  destruct (next_ascii s b (body ++ rest) HI Hs ltac:(lia)) as (Hc & _).
  assert (HL : isLetter (ch s) = true) by (rewrite Hc; now apply ascii_letter_isLetter).
  assert (Hw : white (ch s) = false).
  { rewrite Hc. unfold ascii_letter, white, rune, TAB, NL, CR in *. simpl in *.
    destruct (Z.eqb_spec (b2z b) 32), (Z.eqb_spec (b2z b) 9), (Z.eqb_spec (b2z b) 10),
      (Z.eqb_spec (b2z b) 13); cbn [orb]; try reflexivity; lia. }
  destruct (next_loop_run (fun c => isLetter c || isDigit c) (b :: body) rest s HI Hs)
    as (s' & Hrun & HI' & Ho & Hs' & Hsil).
  { eapply Forall_impl; [|exact Hid]. intros c Hcid. unfold continues.
    pose proof (ascii_ident_range c Hcid) as Hcr.
    destruct (Z.ltb_spec (b2z c) utf8.RuneSelf); [|lia].
    now apply ascii_ident_cond. }
  { split; [apply isLetter_isDigit_eof|].
    destruct rest as [|c rest]; [exact I|]. destruct Hrest as [Ha Hn].
    unfold ascii_byte in Ha. destruct (Z.ltb_spec (b2z c) utf8.RuneSelf); [|lia].
    now apply ident_end_cond. }
  { left. eapply Forall_impl; [|exact Hid]. intros c Hcid.
    pose proof (ascii_ident_range c Hcid). unfold ascii_byte. lia. }
  pose proof (next_loop_forward _ _ _ _ Hrun HI) as (_ & E1 & _).
  pose proof HI as [H0 _].
  exists s'. split.
  { unfold Scan, skipWhiteSpace.
    erewrite bind_eq; [|apply next_loop_stop; exact Hw].
    rewrite !bind_gets, HL.
    assert (Hsi : scanIdentifier s = Some (b :: body, s')).
    { unfold scanIdentifier.
      rewrite bind_gets, (bind_eq _ _ _ _ _ Hrun), !bind_gets. unfold ret.
      now rewrite E1, Ho, (slice_prefix (src s) (b :: body) rest (offset s) H0 Hs). }
    rewrite (bind_eq _ _ _ _ _ Hsi).
    unfold ident_token. destruct (_ || _); reflexivity. }
  split; [assumption|]. split; [assumption|]. split; [assumption|].
  intros Hcr. apply Hsil; [|assumption]. cbn [tl].
  eapply Forall_impl; [|exact Hbody]. intros c Hcid.
  exact (ascii_ident_range c Hcid).
Qed.

End Identifiers.

Lemma Scan_ident_or_bool_witness :
  let s := scanner_of (bytes " true)") in
  exists pos lit s',
    @Scan NoTables s = Some ((pos, token.BOOL, lit), s') /\
    lit <> [] /\
    (token.BOOL = token.BOOL <-> lit = bytes "true" \/ lit = bytes "false") /\
    (exists b bs, lit = b :: bs /\
                  (ascii_byte b -> @isLetter NoTables (b2z b) = true)) /\
    @isLetter NoTables (ch s') || @isDigit NoTables (ch s') = false /\
    quiet s s'.
Proof.
  cbv zeta.
  assert (H : exists s', @Scan NoTables (scanner_of (bytes " true)"))
                         = Some ((2, token.BOOL, bytes "true"), s'))
    by (eexists; lazy; reflexivity).
  destruct H as (s' & H). exists 2, (bytes "true"), s'. split; [exact H|].
  exact (@Scan_ident_or_bool NoTables _ _ _ _ _ (scanner_of_Inv _) H
           (or_intror eq_refl)).
Defined.

Lemma Scan_identifier_witness :
  let s := scanner_of (bytes "x1_y z") in
  exists s',
    @Scan NoTables s
    = Some ((token.FilePos (file s) (offset s), ident_token (bytes "x1_y"),
             bytes "x1_y"), s') /\
    Inv s' /\ offset s' = offset s + len (bytes "x1_y") /\
    slice_from (src s') (offset s') = bytes " z" /\
    (clean_head (bytes " z") -> silent s s').
Proof.
  cbv zeta.
  apply (@Scan_identifier NoTables _ "x"%byte (bytes "1_y") (bytes " z")
           (scanner_of_Inv _)).
  - reflexivity.
  - unfold ascii_letter, rune, b2z. simpl. lia.
  - repeat first [ apply Forall_nil | apply Forall_cons ];
      unfold ascii_ident, ascii_letter, dec_digit, rune, b2z; simpl; lia.
  - unfold ident_end, ascii_byte, ascii_ident, ascii_letter, dec_digit, rune,
      utf8.RuneSelf, b2z. simpl. lia.
Defined.
(** ** White space and the end of the input *)

Lemma white_byte_range (b : byte) : white_byte b -> 0 < b2z b < utf8.RuneSelf.
Proof.
  unfold white_byte, white, rune, TAB, NL, CR, utf8.RuneSelf. simpl.
  destruct (Z.eqb_spec (b2z b) 32), (Z.eqb_spec (b2z b) 9), (Z.eqb_spec (b2z b) 10),
    (Z.eqb_spec (b2z b) 13); cbn [orb]; try discriminate; lia.
Qed.

Section Blank.

Context {U : UnicodeTables}.

(** When nothing but white space is left of the input, and when nothing
    at all is left, [Scan] skips to the end and returns the end-of-input
    token there, with an empty literal, and reports nothing. *)
Theorem Scan_blank (s : Scanner) (body : list byte) :
  Inv s -> slice_from (src s) (offset s) = body -> Forall white_byte body ->
  exists s',
    Scan s = Some ((token.FilePos (file s') (len (src s)), token.EOF, []), s') /\
    Inv s' /\ ch s' = -1 /\ offset s' = len (src s) /\ silent s s'.
Proof.
  intros HI Hs Hw.
  destruct (next_loop_run white body [] s HI) as (s' & Hrun & HI' & Ho & Hs' & Hsil).
  { now rewrite app_nil_r. }
  { eapply Forall_impl; [|exact Hw]. intros b Hb. unfold continues.
    pose proof (white_byte_range b Hb).
    destruct (Z.ltb_spec (b2z b) utf8.RuneSelf); [exact Hb|lia]. }
  { split; [reflexivity|exact I]. }
  { left. eapply Forall_impl; [|exact Hw]. intros b Hb.
    pose proof (white_byte_range b Hb). unfold ascii_byte. lia. }
  pose proof (ch_of_slice s' [] HI' Hs') as Hc. cbn in Hc.
  pose proof (Inv_end s' HI' Hc) as (_ & Hoe & _).
  pose proof (next_loop_forward _ _ _ _ Hrun HI) as (_ & E1 & _).
  exists s'. split.
  { rewrite (Scan_after_space s s' Hrun), (Scan_at_end s' HI' Hc), Hoe, E1. reflexivity. }
  split; [assumption|]. split; [assumption|]. split; [congruence|].
  apply Hsil; [|exact I].
  destruct body as [|b body]; [constructor|]. cbn [tl].
  inversion Hw; subst. eapply Forall_impl; [|eassumption].
  intros c Hc'. exact (white_byte_range c Hc').
Qed.

End Blank.

Lemma Scan_blank_witness :
  let s := scanner_of (bytes "a  ") in
  let s1 := next s in
  exists s',
    @Scan NoTables s1
    = Some ((token.FilePos (file s') (len (src s1)), token.EOF, []), s') /\
    Inv s' /\ ch s' = -1 /\ offset s' = len (src s1) /\ silent s1 s'.
Proof.
  cbv zeta.
  assert (HI : Inv (next (scanner_of (bytes "a  "))))
    by (apply next_Inv, scanner_of_Inv).
  apply (@Scan_blank NoTables _ (bytes "  ") HI); [reflexivity|].
  repeat first [ apply Forall_nil | apply Forall_cons ]; reflexivity.
Defined.
(** ** Initialization *)

Lemma lor_disjoint (a b k : Z) :
  0 <= k -> 0 <= b < 2 ^ k -> Z.lor (a * 2 ^ k) b = a * 2 ^ k + b.
Proof.
  intros Hk Hb.
  assert (E : Z.land (a * 2 ^ k) b = 0).
  { apply Z.bits_inj'. intros n Hn. rewrite Z.land_spec, Z.bits_0.
    destruct (Z.lt_ge_cases n k) as [Hlt|Hge].
    - rewrite Z.mul_pow2_bits_low by lia. reflexivity.
    - rewrite <- (Z.mod_small b (2 ^ k)) by lia.
      rewrite Z.mod_pow2_bits_high by lia. apply andb_false_r. }
  pose proof (Z.add_lor_land (a * 2 ^ k) b) as H. rewrite E in H. lia.
Qed.

Ltac not_bom :=
  let X := fresh in
  intros X; injection X as ? ?; unfold bom, utf8.RuneError in *; exfalso; lia.

Ltac stepbom H :=
  match goal with |- (if ?c then (?e, 1) else _) = _ -> _ =>
    destruct c eqn:H; [not_bom|] end.

(** Only the bytes [EF BB BF] decode to the byte order mark. *)
Lemma DecodeRune_bom_inv (p : list byte) (w : Z) :
  utf8.DecodeRune p = (bom, w) -> starts_with_bom p.
Proof.
  destruct p as [|b tl]; [cbn; not_bom|].
  pose proof (b2z_range b) as Hb.
  unfold utf8.DecodeRune. rewrite !len_cons.
  destruct (Z.ltb_spec (b2z b) 0x80) as [H0|H0]; [not_bom|].
  destruct (Z.ltb_spec (b2z b) 0xC2) as [H1|H1]; [cbn [orb]; not_bom|].
  destruct (Z.ltb_spec 0xF4 (b2z b)) as [H2|H2]; [cbn [orb]; not_bom|].
  cbv [orb].
  destruct (Z.ltb_spec (b2z b) 0xE0) as [H3|H3];
    [|destruct (Z.ltb_spec (b2z b) 0xF0) as [H4|H4]].
  - (* two bytes *)
    stepbom Hlen.
    destruct tl as [|c1 p2]; [not_bom|].
    pose proof (b2z_range c1) as Hc1.
    stepbom Hacc.
    change (2 <=? 2) with true. cbv iota.
    rewrite land_1F, land_3F, Z.shiftl_mul_pow2 by lia.
    rewrite lor_disjoint by zl. change (2 ^ 6) with 64.
    intros X. injection X as X1 X2. unfold bom in X1. exfalso. zl.
  - (* three bytes *)
    stepbom Hlen.
    destruct tl as [|c1 p2]; [not_bom|].
    pose proof (b2z_range c1) as Hc1.
    stepbom Hacc. apply orb_false_elim in Hacc. destruct Hacc as [Hlo Hhi].
    assert (Hb1 : 0x80 <= b2z c1 <= 0xBF).
    { revert Hlo Hhi.
      repeat match goal with |- context [if ?c then _ else _] => destruct c end;
        intros Hlo Hhi; apply Z.ltb_ge in Hlo, Hhi; lia. }
    change (3 <=? 2) with false. change (3 <=? 3) with true. cbv iota.
    destruct p2 as [|c2 p3]; [not_bom|].
    pose proof (b2z_range c2) as Hc2.
    stepbom Hacc2. apply orb_false_elim in Hacc2. destruct Hacc2 as [Hlo2 Hhi2].
    apply Z.ltb_ge in Hlo2, Hhi2.
    rewrite land_0F, !land_3F, !Z.shiftl_mul_pow2 by lia.
    rewrite (lor_disjoint (b2z b mod 16) (b2z c1 mod 64 * 2 ^ 6) 12) by zl.
    replace (b2z b mod 16 * 2 ^ 12 + b2z c1 mod 64 * 2 ^ 6)
      with ((b2z b mod 16 * 64 + b2z c1 mod 64) * 2 ^ 6) by lia.
    rewrite lor_disjoint by zl.
    intros X. injection X as X1 X2. unfold bom in X1.
    assert (E0 : b2z b = 0xEF) by zl.
    assert (E1 : b2z c1 = 0xBB) by zl.
    assert (E2 : b2z c2 = 0xBF) by zl.
    exists p3. unfold bom_bytes. cbn [app].
    f_equal; [apply b2z_inj; exact E0|].
    f_equal; [apply b2z_inj; exact E1|].
    f_equal. apply b2z_inj; exact E2.
  - (* four bytes *)
    stepbom Hlen.
    destruct tl as [|c1 p2]; [not_bom|].
    pose proof (b2z_range c1) as Hc1.
    stepbom Hacc. apply orb_false_elim in Hacc. destruct Hacc as [Hlo Hhi].
    assert (Hb1 : 0x80 <= b2z c1 <= 0xBF /\ (b2z b = 0xF0 -> 0x90 <= b2z c1)).
    { revert Hlo Hhi.
      repeat match goal with |- context [if ?c then _ else _] => destruct c eqn:? end;
        intros Hlo Hhi; apply Z.ltb_ge in Hlo, Hhi;
        repeat match goal with
               | E : (_ =? _) = true |- _ => apply Z.eqb_eq in E
               | E : (_ =? _) = false |- _ => apply Z.eqb_neq in E
               end; lia. }
    destruct Hb1 as [Hb1 Hb1'].
    change (4 <=? 2) with false. change (4 <=? 3) with false. cbv iota.
    destruct p2 as [|c2 p3]; [not_bom|].
    pose proof (b2z_range c2) as Hc2.
    stepbom Hacc2.
    destruct p3 as [|c3 p4]; [not_bom|].
    pose proof (b2z_range c3) as Hc3.
    stepbom Hacc3.
    rewrite land_07, !land_3F, !Z.shiftl_mul_pow2 by lia.
    change (2 ^ 18) with 262144. change (2 ^ 12) with 4096. change (2 ^ 6) with 64.
    intros X. injection X as X1 X2. exfalso.
    assert (L : 0x10000 <= Z.lor (Z.lor (Z.lor (b2z b mod 8 * 262144)
                                               (b2z c1 mod 64 * 4096))
                                        (b2z c2 mod 64 * 64))
                                 (b2z c3 mod 64)).
    { etransitivity; [|apply lor_lower]; try zl.
      2:{ repeat apply lor_nonneg'; zl. }
      etransitivity; [|apply lor_lower]; try zl.
      2:{ repeat apply lor_nonneg'; zl. }
      destruct (Z.eq_dec (b2z b) 0xF0) as [He|He].
      - specialize (Hb1' He). etransitivity; [|apply lor_lower_r]; zl.
      - etransitivity; [|apply lor_lower]; zl. }
    unfold bom in X1. lia.
Qed.

Lemma next_count (s : Scanner) :
  0 <= rdOffset s -> ErrorCount s <= ErrorCount (next s) <= ErrorCount s + 1.
Proof.
  intros H0. destruct (Z.lt_ge_cases (rdOffset s) (len (src s))) as [Hlt|Hge].
  - pose proof (next_read s H0 Hlt) as (_ & _ & _ & _ & E & _). cbv zeta in E.
    rewrite E. destruct (decode_msg _ _ _); lia.
  - pose proof (next_eof s Hge) as (_ & _ & _ & _ & E & _). lia.
Qed.

(** [Init] panics exactly when the size of the file is not the length of
    the source.  Otherwise the scanner starts at offset 0, or at offset 3
    when the source starts with the three bytes of a byte order mark,
    which is skipped; the invariant of the scanning state holds; and the
    error count, which is reset, is at most one, for the one rune read
    ahead. *)
Theorem Init_start (file : token.File) (b : list byte) (e : bool) :
  (token.Size file <> len b -> exists msg, Init file b e = inl msg) /\
  (token.Size file = len b ->
   exists s,
     Init file b e = inr s /\ Inv s /\ src s = b /\ err s = e /\
     0 <= ErrorCount s <= 1 /\
     (starts_with_bom b -> offset s = 3) /\
     (~ starts_with_bom b -> offset s = 0)).
Proof.
  split.
  { intros Hne. unfold Init. destruct (Z.eqb_spec (token.Size file) (len b)); [lia|].
    eexists. reflexivity. }
  intros Hsz. unfold Init. rewrite Hsz, Z.eqb_refl. cbn [negb]. cbv zeta.
  set (s0 := Init_fields file b e).
  assert (H0 : rdOffset s0 = 0) by reflexivity.
  assert (HI1 : Inv (next s0)) by now apply next_fresh_Inv.
  pose proof (next_count s0 ltac:(lia)) as Hn1.
  change (ErrorCount s0) with 0 in Hn1.
  assert (Ho1 : offset (next s0) = 0).
  { destruct (Z.lt_ge_cases (rdOffset s0) (len (src s0))) as [Hlt|Hge].
    - pose proof (next_read s0 ltac:(lia) Hlt) as (_ & E & _). lia.
    - pose proof (next_eof s0 Hge) as (_ & E & _).
      pose proof (len_nonneg (src s0)). lia. }
  assert (Hd : slice_from (src (next s0)) (offset (next s0)) = b).
  { rewrite next_src, Ho1. reflexivity. }
  destruct (Z.eqb_spec (ch (next s0)) bom) as [Hbom|Hbom].
  - (* a byte order mark is skipped *)
    pose proof (Inv_ch _ HI1) as Hch. rewrite Hd in Hch.
    destruct b as [|c0 b'].
    { destruct Hch as (Hc & _). rewrite Hc in Hbom. discriminate Hbom. }
    rewrite Hbom in Hch.
    destruct (DecodeRune_bom_inv _ _ Hch) as (rest & Eb).
    rewrite Eb in Hch. rewrite DecodeRune_bom in Hch. injection Hch as Hw.
    assert (E1 : ErrorCount (next s0) = 0).
    { assert (Hlt : rdOffset s0 < len (src s0)).
      { rewrite H0. change (src s0) with (c0 :: b'). rewrite len_cons.
        pose proof (len_nonneg b'). lia. }
      pose proof (next_read s0 ltac:(lia) Hlt) as (_ & _ & _ & _ & E & _).
      cbv zeta in E. change (slice_from (src s0) (rdOffset s0)) with (c0 :: b') in E.
      rewrite Eb, DecodeRune_bom, H0 in E. exact E. }
    pose proof (next_count (next s0) ltac:(lia)) as Hn2.
    exists (next (next s0)). split; [reflexivity|].
    split; [now apply next_Inv|]. rewrite !next_src, !next_err.
    split; [reflexivity|]. split; [reflexivity|]. split; [lia|]. split.
    + intros _. destruct (next_Inv _ HI1) as (_ & -> & _). lia.
    + intros Hn. exfalso. apply Hn. now exists rest.
  - exists (next s0). split; [reflexivity|]. split; [assumption|].
    rewrite next_src, next_err. split; [reflexivity|]. split; [reflexivity|].
    split; [lia|]. split; [|intros _; exact Ho1].
    intros (rest & Eb). exfalso. apply Hbom.
    pose proof (Inv_ch _ HI1) as Hch. rewrite Hd, Eb in Hch.
    cbn [bom_bytes app] in Hch.
    change (xef :: xbb :: xbf :: rest) with (bom_bytes ++ rest) in Hch.
    rewrite DecodeRune_bom in Hch. now injection Hch.
Qed.

Lemma Init_start_witness :
  (exists msg, Init (NewFile "a" 1 5) (bytes "ab") true = inl msg) /\
  (exists s,
     Init (NewFile "a" 1 5) (bom_bytes ++ bytes "ab") true = inr s /\ Inv s /\
     src s = bom_bytes ++ bytes "ab" /\ err s = true /\
     0 <= ErrorCount s <= 1 /\
     (starts_with_bom (bom_bytes ++ bytes "ab") -> offset s = 3) /\
     (~ starts_with_bom (bom_bytes ++ bytes "ab") -> offset s = 0)).
Proof.
  split.
  - apply (proj1 (Init_start (NewFile "a" 1 5) (bytes "ab") true)).
    vm_compute. discriminate.
  - apply (proj2 (Init_start (NewFile "a" 1 5) (bom_bytes ++ bytes "ab") true)).
    reflexivity.
Defined.
(** ** Numbers *)

Section Mantissa.

Context {U : UnicodeTables}.

(** [scanMantissa] over digits of the base, up to bytes that do not go on
    with one: the digits are consumed. *)
Lemma scanMantissa_run (base : Z) (ds rest : list byte) (s : Scanner) :
  Inv s ->
  slice_from (src s) (offset s) = ds ++ rest ->
  Forall (fun b => 0 < b2z b < utf8.RuneSelf /\ digitVal (b2z b) < base) ds ->
  stops (fun c => digitVal c <? base) rest ->
  exists s',
    scanMantissa base s = Some (tt, s') /\ Inv s' /\
    src s' = src s /\ err s' = err s /\
    offset s' = offset s + len ds /\
    slice_from (src s') (offset s') = rest /\
    quiet s s' /\ (clean_head rest -> silent s s').
Proof.
  intros HI Hs Hd Hst.
  destruct (next_loop_run (fun c => digitVal c <? base) ds rest s HI Hs)
    as (s' & Hrun & HI' & Ho & Hs' & Hsil).
  { eapply Forall_impl; [|exact Hd]. intros b [Hb1 Hb2]. unfold continues.
    destruct (Z.ltb_spec (b2z b) utf8.RuneSelf); [|lia]. now apply Z.ltb_lt. }
  { exact Hst. }
  { left. eapply Forall_impl; [|exact Hd]. intros b [Hb _]. unfold ascii_byte. lia. }
  pose proof (next_loop_forward _ _ _ _ Hrun HI) as (_ & E1 & E2 & _).
  exists s'. split; [exact Hrun|]. split; [assumption|].
  split; [assumption|]. split; [assumption|]. split; [assumption|].
  split; [assumption|]. split; [exact (next_loop_quiet _ _ _ _ Hrun)|].
  intros Hc. apply Hsil; [|assumption].
  destruct ds as [|d ds]; [constructor|]. cbn [tl]. inversion Hd; subst.
  eapply Forall_impl; [|eassumption]. intros b [Hb _]. exact Hb.
Qed.

Lemma dec_digit_mantissa (ds : list byte) :
  Forall dec_digit ds ->
  Forall (fun b => 0 < b2z b < utf8.RuneSelf /\ digitVal (b2z b) < 10) ds.
Proof.
  intros H. eapply Forall_impl; [|exact H]. intros b Hb.
  unfold dec_digit, rune, utf8.RuneSelf in *. simpl in Hb.
  destruct (digitVal_cases (b2z b)) as [X|[X|[X|X]]]; lia.
Qed.

Lemma oct_digit_mantissa (ds : list byte) :
  Forall oct_digit ds ->
  Forall (fun b => 0 < b2z b < utf8.RuneSelf /\ digitVal (b2z b) < 8) ds.
Proof.
  intros H. eapply Forall_impl; [|exact H]. intros b Hb.
  unfold oct_digit, rune, utf8.RuneSelf in *. simpl in Hb.
  destruct (digitVal_cases (b2z b)) as [X|[X|[X|X]]]; lia.
Qed.

Lemma hex_digit_mantissa (ds : list byte) :
  Forall hex_digit ds ->
  Forall (fun b => 0 < b2z b < utf8.RuneSelf /\ digitVal (b2z b) < 16) ds.
Proof.
  intros H. eapply Forall_impl; [|exact H]. intros b Hb.
  unfold hex_digit, dec_digit, rune, utf8.RuneSelf in *. simpl in Hb.
  destruct (digitVal_cases (b2z b)) as [X|[X|[X|X]]]; lia.
Qed.

Lemma stops_hex (rest : list byte) :
  no_hex_ahead rest -> stops (fun c => digitVal c <? 16) rest.
Proof.
  intros H. split; [reflexivity|]. destruct rest as [|b rest]; [exact I|].
  cbn [no_hex_ahead] in H. unfold hex_digit, dec_digit, rune in H. simpl in H.
  unfold utf8.RuneSelf. destruct (Z.ltb_spec (b2z b) 128).
  - apply Z.ltb_ge. destruct (digitVal_cases (b2z b)) as [H'|[H'|[H'|H']]]; lia.
  - intros r Hr. apply Z.ltb_ge.
    destruct (digitVal_cases r) as [H'|[H'|[H'|H']]]; lia.
Qed.

(** The octal digits stop in front of a digit [8] or [9] and wherever the
    decimal digits stop. *)
Lemma stops_oct (rest : list byte) :
  match rest with [] => True | b :: _ => ~ oct_digit b end ->
  stops (fun c => digitVal c <? 8) rest.
Proof.
  intros H. split; [reflexivity|]. destruct rest as [|b rest]; [exact I|].
  unfold oct_digit, rune in H. simpl in H.
  unfold utf8.RuneSelf. destruct (Z.ltb_spec (b2z b) 128).
  - apply Z.ltb_ge. destruct (digitVal_cases (b2z b)) as [H'|[H'|[H'|H']]]; lia.
  - intros r Hr. apply Z.ltb_ge.
    destruct (digitVal_cases r) as [H'|[H'|[H'|H']]]; lia.
Qed.

(** The current rune is one of the bytes of a set of ASCII bytes exactly
    when the bytes ahead start with one. *)
Lemma ch_is (s : Scanner) (p : list byte) (c : Z) :
  Inv s -> slice_from (src s) (offset s) = p -> 0 <= c < utf8.RuneSelf ->
  (ch s =? c) = match p with [] => false | b :: _ => b2z b =? c end.
Proof.
  intros HI Hs Hc. pose proof (ch_of_slice s p HI Hs) as Hch.
  destruct p as [|b p]; [rewrite Hch; apply Z.eqb_neq; lia|].
  destruct Hch as [Hlo Hhi]. unfold utf8.RuneSelf in *.
  destruct (Z.lt_ge_cases (b2z b) 128) as [Hlt|Hge].
  - now rewrite (Hlo Hlt).
  - specialize (Hhi Hge).
    destruct (Z.eqb_spec (ch s) c), (Z.eqb_spec (b2z b) c); try lia; reflexivity.
Qed.

End Mantissa.
Section Hex.

Context {U : UnicodeTables}.

(** A hexadecimal literal: at [0x] or [0X] followed by hexadecimal
    digits, up to bytes that do not go on with one, [Scan] returns the
    prefix and the digits as an integer.  With at least one digit nothing
    is reported; with none, the illegal hexadecimal number is reported,
    at the offset of the leading [0], and the token is returned all the
    same. *)
Theorem Scan_hex (s : Scanner) (x : byte) (ds rest : list byte) :
  Inv s ->
  slice_from (src s) (offset s) = x30 :: x :: ds ++ rest ->
  hex_mark x -> Forall hex_digit ds -> no_hex_ahead rest ->
  exists s3,
    Scan s = Some ((token.FilePos (file s) (offset s), token.INT, x30 :: x :: ds),
                   match ds with
                   | [] => error (offset s) "illegal hexadecimal number" s3
                   | _ :: _ => s3
                   end) /\
    Inv s3 /\ offset s3 = offset s + 2 + len ds /\
    slice_from (src s3) (offset s3) = rest /\
    quiet s s3 /\ (clean_head rest -> silent s s3).
Proof.
  intros HI Hs Hx Hd Hrest.
  pose proof HI as [Hoff _].
  destruct (next_ascii s _ _ HI Hs ltac:(reflexivity))
    as (Hc & Hr & HI1 & E1 & R1 & Ho1 & Hs1).
  assert (Hxr : b2z x = 120 \/ b2z x = 88) by exact Hx.
  destruct (next_ascii (next s) _ _ HI1 Hs1 ltac:(unfold utf8.RuneSelf; lia))
    as (Hc1 & Hr1 & HI2 & E2 & R2 & Ho2 & Hs2).
  destruct (scanMantissa_run 16 ds rest (next (next s)) HI2 Hs2
              (hex_digit_mantissa ds Hd) (stops_hex rest Hrest))
    as (s3 & Hrun & HI3 & E3 & R3 & Ho3 & Hs3 & Hq3 & Hsil3).
  exists s3. split.
  { rewrite (Scan_digit s (b2z x30) Hc eq_refl).
    assert (Hn : scanNumber false s
                 = Some ((token.INT, x30 :: x :: ds),
                         match ds with
                         | [] => error (offset s) "illegal hexadecimal number" s3
                         | _ :: _ => s3
                         end)).
    { unfold scanNumber. rewrite !bind_gets, Hc.
      change (b2z x30 =? rune "0") with true. cbv iota.
      rewrite bind_gets, bind_modify, bind_gets, Hc1.
      replace ((b2z x =? rune "x") || (b2z x =? rune "X")) with true.
      2:{ unfold rune. simpl.
          destruct Hxr as [-> | ->]; reflexivity. }
      cbv iota. rewrite bind_modify, (bind_eq _ _ _ _ _ Hrun), bind_gets.
      unfold scanNumber_exit.
      assert (Hlit : slice (src s) (offset s) (offset s3) = x30 :: x :: ds).
      { rewrite Ho3, Ho2, Ho1.
        replace (offset s + 1 + 1 + len ds) with (offset s + len (x30 :: x :: ds))
          by (rewrite !len_cons; lia).
        apply (slice_prefix (src s) (x30 :: x :: ds) rest (offset s) Hoff Hs). }
      destruct ds as [|d ds].
      - change (len (@nil byte)) with 0 in Ho3.
        destruct (Z.leb_spec (offset s3 - offset s) 2); [|lia].
        rewrite bind_modify, !bind_gets. unfold ret.
        destruct (error_fields (offset s) "illegal hexadecimal number" s3)
          as (X1 & _ & _ & _ & X5 & _).
        rewrite X1, X5, E3, E2, E1, Hlit. reflexivity.
      - rewrite len_cons in Ho3. pose proof (len_nonneg ds).
        destruct (Z.leb_spec (offset s3 - offset s) 2); [lia|].
        rewrite bind_ret, !bind_gets. unfold ret.
        rewrite E3, E2, E1, Hlit. reflexivity. }
    now rewrite (bind_eq _ _ _ _ _ Hn). }
  split; [assumption|]. split; [lia|]. split; [assumption|]. split.
  { apply (quiet_trans _ (next s)); [apply quiet_next|].
    apply (quiet_trans _ (next (next s))); [apply quiet_next|assumption]. }
  intros Hcr.
  apply (silent_trans _ (next s)).
  { apply next_clean; [assumption|]. rewrite Hr, <- Ho1, <- E1, Hs1.
    unfold clean_head, clean_byte, utf8.RuneSelf. lia. }
  apply (silent_trans _ (next (next s))).
  { apply next_clean; [assumption|]. rewrite Hr1, <- Ho2, <- E2, Hs2.
    destruct ds as [|d ds]; [exact Hcr|].
    pose proof (Forall_inv (hex_digit_mantissa _ Hd)) as [X _]. exact X. }
  now apply Hsil3.
Qed.

End Hex.

Lemma Scan_hex_witness :
  let s := scanner_of (bytes "0xFf;") in
  exists s3,
    @Scan NoTables s
    = Some ((token.FilePos (file s) (offset s), token.INT, bytes "0xFf"), s3) /\
    Inv s3 /\ offset s3 = offset s + 2 + len (bytes "Ff") /\
    slice_from (src s3) (offset s3) = bytes ";" /\
    quiet s s3 /\ (clean_head (bytes ";") -> silent s s3).
Proof.
  cbv zeta.
  apply (@Scan_hex NoTables _ "x"%byte (bytes "Ff") (bytes ";") (scanner_of_Inv _)).
  - reflexivity.
  - left. reflexivity.
  - repeat first [ apply Forall_nil | apply Forall_cons ];
      unfold hex_digit, dec_digit, rune, b2z; simpl; lia.
  - unfold no_hex_ahead, hex_digit, dec_digit, rune, b2z. simpl. lia.
Defined.
Section NumberParts.

Context {U : UnicodeTables}.

Lemma scanNumber_exit_run (offs : Z) (tok : token.Token) (s : Scanner) :
  scanNumber_exit offs tok s = Some ((tok, slice (src s) offs (offset s)), s).
Proof. reflexivity. Qed.

Lemma exp_bytes_clean (ex : Exponent) (rest : list byte) :
  exp_ok ex rest -> Forall clean_byte (exp_bytes ex).
Proof.
  destruct ex as [[[e sg] es]|]; [|constructor].
  intros (He & Hes & Hsg). cbn [exp_bytes].
  assert (Hd : Forall clean_byte es).
  { eapply Forall_impl; [|exact (dec_digit_mantissa es Hes)].
    intros b [Hb _]. exact Hb. }
  constructor.
  { unfold exp_mark, clean_byte, rune, utf8.RuneSelf in *. simpl in He. lia. }
  apply Forall_app. split; [|assumption].
  destruct sg as [c|]; [|constructor]. constructor; [|constructor].
  unfold sign_byte, clean_byte, rune, utf8.RuneSelf in *. simpl in Hsg. lia.
Qed.

Lemma clean_head_app (p q : list byte) :
  Forall clean_byte p -> clean_head q -> clean_head (p ++ q).
Proof. intros Hp Hq. destruct p as [|b p]; [exact Hq|]. now inversion Hp. Qed.

(** [scanNumber] from the label [exponent], at an exponent or at none. *)
Lemma scanNumber_exponent_run (s : Scanner) (ex : Exponent) (rest : list byte)
    (offs : Z) (tok : token.Token) :
  Inv s ->
  slice_from (src s) (offset s) = exp_bytes ex ++ rest ->
  exp_ok ex rest -> no_digit_ahead rest ->
  exists s',
    scanNumber_exponent offs tok s
    = Some ((match ex with Some _ => token.FLOAT | None => tok end,
             slice (src s) offs (offset s')), s') /\
    Inv s' /\ src s' = src s /\
    offset s' = offset s + len (exp_bytes ex) /\
    slice_from (src s') (offset s') = rest /\
    quiet s s' /\ (clean_head rest -> silent s s').
Proof.
  intros HI Hs Hex Hrest. unfold scanNumber_exponent. rewrite bind_gets.
  destruct ex as [[[e sg] es]|].
  - destruct Hex as (He & Hes & Hsg). cbn [exp_bytes app] in Hs.
    assert (Her : b2z e = 101 \/ b2z e = 69) by exact He.
    destruct (next_ascii s _ _ HI Hs ltac:(unfold utf8.RuneSelf; lia))
      as (Hc & Hr & HI1 & E1 & R1 & Ho1 & Hs1).
    rewrite Hc.
    replace ((b2z e =? rune "e") || (b2z e =? rune "E")) with true
      by (unfold rune; simpl; destruct Her as [-> | ->]; reflexivity).
    cbv iota. rewrite bind_modify, bind_gets.
    (* the sign *)
    assert (Hsign : exists s2,
      (if (ch (next s) =? rune "-") || (ch (next s) =? rune "+")
       then modify next else ret tt) (next s) = Some (tt, s2) /\
      Inv s2 /\ src s2 = src s /\
      offset s2 = offset s + 1 + len (match sg with Some c => [c] | None => [] end) /\
      slice_from (src s2) (offset s2) = es ++ rest /\
      quiet (next s) s2 /\
      (clean_head (es ++ rest) -> silent (next s) s2)).
    { destruct sg as [c|]; cbn [app] in Hs1.
      - assert (Hcr : b2z c = 43 \/ b2z c = 45) by exact Hsg.
        destruct (next_ascii (next s) _ _ HI1 Hs1 ltac:(unfold utf8.RuneSelf; lia))
          as (Hc1 & Hr1 & HI2 & E2 & R2 & Ho2 & Hs2).
        rewrite Hc1.
        replace ((b2z c =? rune "-") || (b2z c =? rune "+")) with true
          by (unfold rune; simpl; destruct Hcr as [-> | ->]; reflexivity).
        exists (next (next s)). split; [reflexivity|]. split; [assumption|].
        split; [congruence|]. split; [change (len [c]) with 1; lia|].
        split; [assumption|]. split; [apply quiet_next|].
        intros Hcl. apply next_clean; [assumption|].
        now rewrite Hr1, <- Ho2, <- E2, Hs2.
      - rewrite (ch_is (next s) _ (rune "-") HI1 Hs1 ltac:(cbv; split; congruence)).
        rewrite (ch_is (next s) _ (rune "+") HI1 Hs1 ltac:(cbv; split; congruence)).
        replace (match es ++ rest with [] => false | b :: _ => b2z b =? rune "-" end
                 || match es ++ rest with [] => false | b :: _ => b2z b =? rune "+" end)
          with false.
        2:{ destruct (es ++ rest) as [|b p]; [reflexivity|].
            unfold sign_byte, rune in *. simpl in *.
            destruct (Z.eqb_spec (b2z b) 45), (Z.eqb_spec (b2z b) 43);
              try reflexivity; exfalso; apply Hsg; lia. }
        exists (next s). split; [reflexivity|]. split; [assumption|].
        split; [assumption|]. change (len (@nil byte)) with 0. split; [lia|].
        split; [assumption|]. split; [apply quiet_refl|].
        intros _. split; reflexivity. }
    destruct Hsign as (s2 & Hsg2 & HI2 & E2 & Ho2 & Hs2 & Q2 & Sil2).
    rewrite (bind_eq _ _ _ _ _ Hsg2).
    destruct (scanMantissa_run 10 es rest s2 HI2 Hs2 (dec_digit_mantissa es Hes)
                (stops_digits rest Hrest))
      as (s3 & Hrun & HI3 & E3 & R3 & Ho3 & Hs3 & Q3 & Sil3).
    rewrite (bind_eq _ _ _ _ _ Hrun), scanNumber_exit_run.
    exists s3. split; [now rewrite E3, E2|]. split; [assumption|].
    split; [congruence|]. split.
    { rewrite Ho3, Ho2. cbn [exp_bytes]. rewrite len_cons, len_app. lia. }
    split; [assumption|]. split.
    { apply (quiet_trans _ (next s)); [apply quiet_next|].
      apply (quiet_trans _ s2); assumption. }
    intros Hcl.
    assert (Hces : Forall clean_byte es).
    { eapply Forall_impl; [|exact (dec_digit_mantissa es Hes)].
      intros b [Hb _]. exact Hb. }
    assert (Hc2 : clean_head (es ++ rest)) by now apply clean_head_app.
    apply (silent_trans _ (next s)).
    { apply next_clean; [assumption|]. rewrite Hr, <- Ho1, <- E1, Hs1.
      apply clean_head_app; [|assumption].
      apply Forall_app. split; [|assumption].
      destruct sg as [c|]; [|constructor]. constructor; [|constructor].
      unfold sign_byte, clean_byte, rune, utf8.RuneSelf in *. simpl in Hsg. lia. }
    apply (silent_trans _ s2); [now apply Sil2|now apply Sil3].
  - cbn [exp_bytes app] in Hs. cbn [exp_ok] in Hex.
    rewrite (ch_is s _ (rune "e") HI Hs ltac:(cbv; split; congruence)).
    rewrite (ch_is s _ (rune "E") HI Hs ltac:(cbv; split; congruence)).
    replace (match rest with [] => false | b :: _ => b2z b =? rune "e" end
             || match rest with [] => false | b :: _ => b2z b =? rune "E" end)
      with false.
    2:{ destruct rest as [|b p]; [reflexivity|].
        unfold exp_mark, rune in *. simpl in *.
        destruct (Z.eqb_spec (b2z b) 101), (Z.eqb_spec (b2z b) 69);
          try reflexivity; exfalso; apply Hex; lia. }
    rewrite scanNumber_exit_run.
    exists s. split; [reflexivity|]. split; [assumption|]. split; [reflexivity|].
    change (len (exp_bytes None)) with 0. split; [lia|]. split; [assumption|].
    split; [apply quiet_refl|]. intros _. split; reflexivity.
Qed.

Lemma no_digit_ahead_exp (ex : Exponent) (rest : list byte) :
  exp_ok ex rest -> no_digit_ahead rest -> no_digit_ahead (exp_bytes ex ++ rest).
Proof.
  destruct ex as [[[e sg] es]|]; [|intros _ H; exact H].
  intros (He & _) _. cbn. unfold exp_mark, dec_digit, rune in *. simpl in *. lia.
Qed.

(** [scanNumber] from the label [fraction], at a fraction or at none. *)
Lemma scanNumber_fraction_run (s : Scanner) (fr : Fraction) (ex : Exponent)
    (rest : list byte) (offs : Z) :
  Inv s ->
  slice_from (src s) (offset s) = frac_bytes fr ++ exp_bytes ex ++ rest ->
  frac_ok fr -> exp_ok ex rest -> no_digit_ahead rest ->
  (fr = None -> ex = None -> no_period_ahead rest) ->
  exists s',
    scanNumber_fraction offs token.INT s
    = Some ((number_token fr ex, slice (src s) offs (offset s')), s') /\
    Inv s' /\ src s' = src s /\
    offset s' = offset s + len (frac_bytes fr ++ exp_bytes ex) /\
    slice_from (src s') (offset s') = rest /\
    quiet s s' /\ (clean_head rest -> silent s s').
Proof.
  intros HI Hs Hfr Hex Hrest Hper. unfold scanNumber_fraction. rewrite bind_gets.
  destruct fr as [fs|].
  - cbn [frac_bytes app] in Hs. cbn [frac_ok] in Hfr.
    destruct (next_ascii s _ _ HI Hs ltac:(reflexivity))
      as (Hc & Hr & HI1 & E1 & R1 & Ho1 & Hs1).
    rewrite Hc. change (b2z x2e =? rune ".") with true. cbv iota.
    rewrite bind_modify.
    destruct (scanMantissa_run 10 fs (exp_bytes ex ++ rest) (next s) HI1 Hs1
                (dec_digit_mantissa fs Hfr)
                (stops_digits _ (no_digit_ahead_exp ex rest Hex Hrest)))
      as (s2 & Hrun & HI2 & E2 & R2 & Ho2 & Hs2 & Q2 & Sil2).
    rewrite (bind_eq _ _ _ _ _ Hrun).
    destruct (scanNumber_exponent_run s2 ex rest offs token.FLOAT HI2 Hs2 Hex Hrest)
      as (s3 & Hrun3 & HI3 & E3 & Ho3 & Hs3 & Q3 & Sil3).
    rewrite Hrun3.
    exists s3. split.
    { rewrite E2, E1. unfold number_token. destruct ex; reflexivity. }
    split; [assumption|]. split; [congruence|]. split.
    { rewrite Ho3, Ho2, Ho1. cbn [frac_bytes]. rewrite len_app, len_cons. lia. }
    split; [assumption|]. split.
    { apply (quiet_trans _ (next s)); [apply quiet_next|].
      apply (quiet_trans _ s2); assumption. }
    intros Hcl.
    pose proof (exp_bytes_clean ex rest Hex) as Hce.
    assert (Hcf : Forall clean_byte fs).
    { eapply Forall_impl; [|exact (dec_digit_mantissa fs Hfr)].
      intros b [Hb _]. exact Hb. }
    apply (silent_trans _ (next s)).
    { apply next_clean; [assumption|]. rewrite Hr, <- Ho1, <- E1, Hs1.
      apply clean_head_app; [assumption|]. now apply clean_head_app. }
    apply (silent_trans _ s2); [|now apply Sil3].
    apply Sil2. now apply clean_head_app.
  - cbn [frac_bytes app] in Hs.
    rewrite (ch_is s _ (rune ".") HI Hs ltac:(cbv; split; congruence)).
    replace (match exp_bytes ex ++ rest with [] => false | b :: _ => b2z b =? rune "." end)
      with false.
    2:{ destruct ex as [[[e sg] es]|].
        - destruct Hex as (He & _). cbn. unfold exp_mark, rune in *. simpl in *.
          symmetry. apply Z.eqb_neq. lia.
        - specialize (Hper eq_refl eq_refl). cbn [exp_bytes app].
          destruct rest as [|b p]; [reflexivity|].
          symmetry. apply Z.eqb_neq. exact Hper. }
    destruct (scanNumber_exponent_run s ex rest offs token.INT HI Hs Hex Hrest)
      as (s3 & Hrun3 & HI3 & E3 & Ho3 & Hs3 & Q3 & Sil3).
    rewrite Hrun3. exists s3. split.
    { unfold number_token. destruct ex; reflexivity. }
    split; [assumption|]. split; [assumption|]. split; [exact Ho3|].
    split; [assumption|]. split; assumption.
Qed.

End NumberParts.
Section NumberTheorem.

Context {U : UnicodeTables}.

Lemma oct_or_89 (ds : list byte) :
  Forall dec_digit ds ->
  (Forall oct_digit ds /\ existsb (fun d => rune "8" <=? b2z d) ds = false) \/
  (Exists digit_8_9 ds /\ existsb (fun d => rune "8" <=? b2z d) ds = true).
Proof.
  induction 1 as [|d ds Hd _ IH]; [left; split; [constructor|reflexivity]|].
  cbn [existsb]. unfold dec_digit, oct_digit, digit_8_9, rune in *. simpl in *.
  destruct (Z.leb_spec 56 (b2z d)) as [H8|H8].
  - right. split; [|reflexivity]. apply Exists_cons_hd. lia.
  - destruct IH as [[IH1 IH2]|[IH1 IH2]].
    + left. split; [constructor; [lia|assumption]|exact IH2].
    + right. split; [now apply Exists_cons_tl|exact IH2].
Qed.

(** [scanNumber] on a leading [0] followed by octal digits. *)
Lemma scanNumber_zero_octal (s : Scanner) (ds tail : list byte) :
  Inv s ->
  slice_from (src s) (offset s) = x30 :: ds ++ tail ->
  Forall oct_digit ds -> no_digit_ahead tail ->
  (ds = [] -> no_hex_mark_ahead tail) ->
  exists s3,
    Inv s3 /\ quiet s s3 /\ src s3 = src s /\
    offset s3 = offset s + 1 + len ds /\
    slice_from (src s3) (offset s3) = tail /\
    (clean_head tail -> silent s s3) /\
    scanNumber false s =
    if float_mark tail then scanNumber_fraction (offset s) token.INT s3
    else Some ((token.INT, x30 :: ds), s3).
Proof.
  intros HI Hs Hoct Htail Hx.
  pose proof HI as [Hoff _].
  destruct (next_ascii s _ _ HI Hs ltac:(reflexivity))
    as (Hc & Hr & HI1 & E1 & R1 & Ho1 & Hs1).
  assert (Hst : stops (fun c => digitVal c <? 8) tail).
  { apply stops_oct. destruct tail as [|b p]; [exact I|].
    cbn [no_digit_ahead] in Htail. unfold dec_digit, oct_digit, rune in *.
    simpl in *. lia. }
  destruct (scanMantissa_run 8 ds tail (next s) HI1 Hs1 (oct_digit_mantissa ds Hoct) Hst)
    as (s2 & Hrun & HI2 & E2 & R2 & Ho2 & Hs2 & Q2 & Sil2).
  exists s2. split; [assumption|]. split.
  { apply (quiet_trans _ (next s)); [apply quiet_next|assumption]. }
  split; [congruence|]. split; [lia|]. split; [assumption|]. split.
  { intros Hcl. apply (silent_trans _ (next s)); [|now apply Sil2].
    apply next_clean; [assumption|]. rewrite Hr, <- Ho1, <- E1, Hs1.
    apply clean_head_app; [|assumption].
    eapply Forall_impl; [|exact (oct_digit_mantissa ds Hoct)].
    intros b [Hb _]. exact Hb. }
  unfold scanNumber. rewrite !bind_gets, Hc.
  change (b2z x30 =? rune "0") with true. cbv iota.
  rewrite bind_gets, bind_modify, bind_gets.
  rewrite (ch_is (next s) _ (rune "x") HI1 Hs1 ltac:(cbv; split; congruence)).
  rewrite (ch_is (next s) _ (rune "X") HI1 Hs1 ltac:(cbv; split; congruence)).
  replace (match ds ++ tail with [] => false | b :: _ => b2z b =? rune "x" end
           || match ds ++ tail with [] => false | b :: _ => b2z b =? rune "X" end)
    with false.
  2:{ destruct ds as [|d ds].
      - specialize (Hx eq_refl). cbn [app]. destruct tail as [|b p]; [reflexivity|].
        unfold no_hex_mark_ahead, hex_mark, rune in *. simpl in *.
        destruct (Z.eqb_spec (b2z b) 120), (Z.eqb_spec (b2z b) 88);
          try reflexivity; exfalso; apply Hx; lia.
      - cbn [app]. inversion Hoct; subst. unfold oct_digit, rune in *. simpl in *.
        destruct (Z.eqb_spec (b2z d) 120), (Z.eqb_spec (b2z d) 88);
          try reflexivity; lia. }
  cbv iota. rewrite (bind_eq _ _ _ _ _ Hrun), bind_gets.
  rewrite (ch_is s2 _ (rune "8") HI2 Hs2 ltac:(cbv; split; congruence)).
  rewrite (ch_is s2 _ (rune "9") HI2 Hs2 ltac:(cbv; split; congruence)).
  replace (match tail with [] => false | b :: _ => b2z b =? rune "8" end
           || match tail with [] => false | b :: _ => b2z b =? rune "9" end)
    with false.
  2:{ destruct tail as [|b p]; [reflexivity|].
      cbn [no_digit_ahead] in Htail. unfold dec_digit, rune in *. simpl in *.
      destruct (Z.eqb_spec (b2z b) 56), (Z.eqb_spec (b2z b) 57);
        try reflexivity; lia. }
  cbv iota. rewrite bind_ret, bind_gets.
  rewrite (float_mark_ch s2 tail HI2 Hs2).
  destruct (float_mark tail); [reflexivity|].
  rewrite bind_ret, scanNumber_exit_run. rewrite E2, E1, Ho2, Ho1.
  replace (offset s + 1 + len ds) with (offset s + len (x30 :: ds))
    by (rewrite len_cons; lia).
  now rewrite (slice_prefix (src s) (x30 :: ds) tail (offset s) Hoff Hs).
Qed.

Lemma float_mark_tail (fr : Fraction) (ex : Exponent) (rest : list byte) :
  exp_ok ex rest -> (fr = None -> ex = None -> no_period_ahead rest) ->
  float_mark (frac_bytes fr ++ exp_bytes ex ++ rest)
  = match fr, ex with None, None => false | _, _ => true end.
Proof.
  intros Hex Hper. destruct fr as [fs|]; [reflexivity|].
  destruct ex as [[[e sg] es]|].
  - destruct Hex as (He & _). cbn. unfold exp_mark, rune in *. simpl in *.
    destruct He as [-> | ->]; reflexivity.
  - specialize (Hper eq_refl eq_refl). cbn [frac_bytes exp_bytes app].
    destruct rest as [|b p]; [reflexivity|]. cbn [float_mark exp_ok] in *.
    unfold no_period_ahead, exp_mark, rune in *. simpl in *.
    destruct (Z.eqb_spec (b2z b) 46), (Z.eqb_spec (b2z b) 101), (Z.eqb_spec (b2z b) 69);
      try reflexivity; exfalso; try (apply Hex; lia); lia.
Qed.

Lemma no_digit_ahead_tail (fr : Fraction) (ex : Exponent) (rest : list byte) :
  exp_ok ex rest -> no_digit_ahead rest ->
  no_digit_ahead (frac_bytes fr ++ exp_bytes ex ++ rest).
Proof.
  intros Hex Hrest. destruct fr as [fs|].
  - cbn [frac_bytes app no_digit_ahead]. unfold dec_digit, rune, b2z. simpl. lia.
  - now apply no_digit_ahead_exp.
Qed.

(** A number that starts with a digit.  At decimal digits, followed by a
    fraction or none and by an exponent or none, up to bytes that do not
    go on with any of them, [Scan] returns all of it: as a float when
    there is a fraction or an exponent, also when either is without
    digits, and as an integer otherwise.  Nothing is reported, except for
    the integer with a leading [0] and a digit [8] or [9], which is
    reported as an illegal octal number at the offset of the [0]. *)
Theorem Scan_number (s : Scanner) (ip : list byte) (fr : Fraction) (ex : Exponent)
    (rest : list byte) :
  Inv s ->
  slice_from (src s) (offset s) = ip ++ frac_bytes fr ++ exp_bytes ex ++ rest ->
  ip <> [] -> Forall dec_digit ip -> frac_ok fr -> exp_ok ex rest ->
  no_digit_ahead rest ->
  (fr = None -> ex = None ->
   no_period_ahead rest /\ (ip = [x30] -> no_hex_mark_ahead rest)) ->
  exists s3,
    Scan s = Some ((token.FilePos (file s) (offset s), number_token fr ex,
                    ip ++ frac_bytes fr ++ exp_bytes ex),
                   if illegal_octal ip fr ex
                   then error (offset s) "illegal octal number" s3 else s3) /\
    Inv s3 /\
    offset s3 = offset s + len (ip ++ frac_bytes fr ++ exp_bytes ex) /\
    slice_from (src s3) (offset s3) = rest /\
    quiet s s3 /\ (clean_head rest -> silent s s3).
Proof.
  intros HI Hs Hne Hip Hfr Hex Hrest Hend.
  pose proof HI as [Hoff _].
  set (tail := frac_bytes fr ++ exp_bytes ex ++ rest) in *.
  assert (Hper : fr = None -> ex = None -> no_period_ahead rest)
    by (intros A B; now apply Hend).
  pose proof (float_mark_tail fr ex rest Hex Hper) as Hfm. fold tail in Hfm.
  pose proof (no_digit_ahead_tail fr ex rest Hex Hrest) as Htail. fold tail in Htail.
  assert (Hct : clean_head rest -> clean_head tail).
  { intros Hcl. unfold tail. apply clean_head_app.
    - destruct fr as [fs|]; [|constructor]. constructor.
      + cbv. split; congruence.
      + eapply Forall_impl; [|exact (dec_digit_mantissa fs Hfr)].
        intros b [Hb _]. exact Hb.
    - apply clean_head_app; [exact (exp_bytes_clean ex rest Hex)|assumption]. }
  assert (Hlit : forall o, o = offset s + len (ip ++ frac_bytes fr ++ exp_bytes ex) ->
                 slice (src s) (offset s) o = ip ++ frac_bytes fr ++ exp_bytes ex).
  { intros o ->. apply (slice_prefix (src s) _ rest (offset s) Hoff).
    rewrite Hs. unfold tail. now rewrite <- !app_assoc. }
  destruct ip as [|d ds]; [congruence|]. clear Hne.
  assert (Hdr : 48 <= b2z d <= 57)
    by (inversion Hip; subst; unfold dec_digit, rune in *; simpl in *; lia).
  assert (Hc : ch s = b2z d).
  { cbn [app] in Hs.
    destruct (next_ascii s _ _ HI Hs ltac:(unfold utf8.RuneSelf; lia)) as (X & _).
    exact X. }
  assert (Hscan : Scan s = bind (scanNumber false)
            (fun r => ret (token.FilePos (file s) (offset s), fst r, snd r)) s).
  { apply (Scan_digit s (b2z d) Hc). unfold rune. simpl.
    destruct (Z.leb_spec 48 (b2z d)), (Z.leb_spec (b2z d) 57); try lia; reflexivity. }
  rewrite Hscan.
  (* from the digits on *)
  assert (Hfrom : forall s3, Inv s3 -> src s3 = src s ->
            offset s3 = offset s + len (d :: ds) ->
            slice_from (src s3) (offset s3) = tail -> quiet s s3 ->
            (clean_head tail -> silent s s3) ->
            exists s',
              scanNumber_fraction (offset s) token.INT s3
              = Some ((number_token fr ex,
                       (d :: ds) ++ frac_bytes fr ++ exp_bytes ex), s') /\
              Inv s' /\
              offset s' = offset s + len ((d :: ds) ++ frac_bytes fr ++ exp_bytes ex) /\
              slice_from (src s') (offset s') = rest /\
              quiet s s' /\ (clean_head rest -> silent s s')).
  { intros s3 HI3 E3 Ho3 Hs3 Q3 Sil3.
    destruct (scanNumber_fraction_run s3 fr ex rest (offset s) HI3 Hs3 Hfr Hex Hrest Hper)
      as (s' & Hrun & HI' & E' & Ho' & Hs' & Q' & Sil').
    assert (Ho : offset s' = offset s + len ((d :: ds) ++ frac_bytes fr ++ exp_bytes ex)).
    { rewrite Ho', Ho3, (len_app (d :: ds)). lia. }
    exists s'. split; [now rewrite Hrun, E3, (Hlit _ Ho)|].
    split; [assumption|]. split; [assumption|]. split; [assumption|].
    split; [exact (quiet_trans _ _ _ Q3 Q')|].
    intros Hcl. apply (silent_trans _ s3); [apply Sil3; now apply Hct|now apply Sil']. }
  destruct (Z.eq_dec (b2z d) 48) as [Hz|Hnz].
  - (* a leading 0 *)
    assert (d = x30) by (apply b2z_inj; exact Hz). subst d.
    assert (Hds : Forall dec_digit ds) by now inversion Hip.
    change ((x30 :: ds) ++ tail) with (x30 :: ds ++ tail) in Hs.
    destruct (oct_or_89 ds Hds) as [[Hoct Hno]|[H89 Hyes]].
    + destruct (scanNumber_zero_octal s ds tail HI Hs Hoct Htail)
        as (s3 & HI3 & Q3 & E3 & Ho3 & Hs3 & Sil3 & Hrun).
      { intros ->. unfold tail. destruct fr as [fs|].
        - cbn [frac_bytes app no_hex_mark_ahead]. unfold hex_mark, rune, b2z.
          simpl. lia.
        - destruct ex as [[[e sg] es]|].
          + destruct Hex as (He & _). cbn. unfold hex_mark, exp_mark, rune in *.
            simpl in *. lia.
          + now apply Hend. }
      assert (Ho3' : offset s3 = offset s + len (x30 :: ds)) by (rewrite len_cons; lia).
      clear Ho3. rename Ho3' into Ho3.
      rewrite Hfm in Hrun.
      destruct fr as [fs|]; [|destruct ex as [p|]].
      * destruct (Hfrom s3 HI3 E3 Ho3 Hs3 Q3 Sil3) as (s' & Hf & Hrest').
        rewrite Hf in Hrun. exists s'. rewrite (bind_eq _ _ _ _ _ Hrun). tauto.
      * destruct (Hfrom s3 HI3 E3 Ho3 Hs3 Q3 Sil3) as (s' & Hf & Hrest').
        rewrite Hf in Hrun. exists s'. rewrite (bind_eq _ _ _ _ _ Hrun). tauto.
      * exists s3. rewrite (bind_eq _ _ _ _ _ Hrun).
        cbn [illegal_octal frac_bytes exp_bytes number_token fst snd].
        change (b2z x30 =? rune "0") with true. rewrite Hno. cbn [andb].
        rewrite !app_nil_r. split; [reflexivity|]. split; [assumption|].
        split; [exact Ho3|]. split; [exact Hs3|]. split; [assumption|].
        intros Hcl. apply Sil3. now apply Hct.
    + destruct (scanNumber_octal s ds tail HI Hs Hds H89 Htail)
        as (s3 & HI3 & Q3 & E3 & _ & Ho3 & Hs3 & Sil3 & Hrun).
      assert (Ho3' : offset s3 = offset s + len (x30 :: ds)) by (rewrite len_cons; lia).
      clear Ho3. rename Ho3' into Ho3.
      rewrite Hfm in Hrun.
      assert (Sil3' : clean_head tail -> silent s s3).
      { intros Hcl. apply Sil3; [|assumption].
        eapply Forall_impl; [|exact (dec_digit_mantissa ds Hds)].
        intros b [Hb _]. exact Hb. }
      destruct fr as [fs|]; [|destruct ex as [p|]].
      * destruct (Hfrom s3 HI3 E3 Ho3 Hs3 Q3 Sil3') as (s' & Hf & Hrest').
        rewrite Hf in Hrun. exists s'. rewrite (bind_eq _ _ _ _ _ Hrun). tauto.
      * destruct (Hfrom s3 HI3 E3 Ho3 Hs3 Q3 Sil3') as (s' & Hf & Hrest').
        rewrite Hf in Hrun. exists s'. rewrite (bind_eq _ _ _ _ _ Hrun). tauto.
      * exists s3. rewrite (bind_eq _ _ _ _ _ Hrun).
        cbn [illegal_octal frac_bytes exp_bytes number_token fst snd].
        change (b2z x30 =? rune "0") with true. rewrite Hyes. cbn [andb].
        rewrite !app_nil_r. split; [reflexivity|]. split; [assumption|].
        split; [exact Ho3|]. split; [exact Hs3|]. split; [assumption|].
        intros Hcl. apply Sil3'. now apply Hct.
  - (* a leading digit that is not 0 *)
    destruct (scanMantissa_run 10 (d :: ds) tail s HI Hs (dec_digit_mantissa _ Hip)
                (stops_digits tail Htail))
      as (s3 & Hrun & HI3 & E3 & R3 & Ho3 & Hs3 & Q3 & Sil3).
    destruct (Hfrom s3 HI3 E3 Ho3 Hs3 Q3 Sil3) as (s' & Hf & Hrest').
    assert (Hn : scanNumber false s
                 = Some ((number_token fr ex,
                          (d :: ds) ++ frac_bytes fr ++ exp_bytes ex), s')).
    { unfold scanNumber. rewrite !bind_gets, Hc.
      replace (b2z d =? rune "0") with false
        by (symmetry; apply Z.eqb_neq; exact Hnz).
      cbv iota. now rewrite (bind_eq _ _ _ _ _ Hrun). }
    exists s'. rewrite (bind_eq _ _ _ _ _ Hn).
    replace (illegal_octal (d :: ds) fr ex) with false; [tauto|].
    unfold illegal_octal. destruct fr, ex; try reflexivity.
    replace (b2z d =? rune "0") with false
      by (symmetry; apply Z.eqb_neq; exact Hnz).
    reflexivity.
Qed.

End NumberTheorem.
Lemma Scan_number_witness :
  let s := scanner_of (bytes "12.5e+3;") in
  exists s3,
    @Scan NoTables s
    = Some ((token.FilePos (file s) (offset s), token.FLOAT, bytes "12.5e+3"), s3) /\
    Inv s3 /\ offset s3 = offset s + len (bytes "12.5e+3") /\
    slice_from (src s3) (offset s3) = bytes ";" /\
    quiet s s3 /\ (clean_head (bytes ";") -> silent s s3).
Proof.
  cbv zeta.
  apply (@Scan_number NoTables _ (bytes "12") (Some (bytes "5"))
           (Some ("e"%byte, Some "+"%byte, bytes "3")) (bytes ";") (scanner_of_Inv _)).
  - reflexivity.
  - discriminate.
  - repeat first [ apply Forall_nil | apply Forall_cons ];
      unfold dec_digit, rune, b2z; simpl; lia.
  - repeat first [ apply Forall_nil | apply Forall_cons ];
      unfold dec_digit, rune, b2z; simpl; lia.
  - split; [left; reflexivity|]. split; [|left; reflexivity].
    repeat first [ apply Forall_nil | apply Forall_cons ];
      unfold dec_digit, rune, b2z; simpl; lia.
  - unfold no_digit_ahead, dec_digit, rune, b2z. simpl. lia.
  - discriminate.
Defined.

Section Period.

Context {U : UnicodeTables}.

Lemma Scan_switch_period (pos : token.Pos) :
  Scan_switch pos (rune ".") =
  bind (gets ch) (fun c' =>
    if (rune "0" <=? c') && (c' <=? rune "9") then
      bind (scanNumber true) (fun r => ret (pos, fst r, snd r))
    else ret (pos, token.PERIOD, [])).
Proof. reflexivity. Qed.

(** A period.  Followed by a digit it starts a float: [Scan] returns the
    period, the digits and the exponent, if any, as a float, and reports
    nothing.  Followed by anything else, or by nothing, it is the period
    token, with an empty literal, and the scanner has consumed the period
    alone. *)
Theorem Scan_period (s : Scanner) (tail : list byte) :
  Inv s -> slice_from (src s) (offset s) = x2e :: tail ->
  (no_digit_ahead tail ->
   Scan s = Some ((token.FilePos (file s) (offset s), token.PERIOD, []), next s) /\
   offset (next s) = offset s + 1) /\
  (forall (fs : list byte) (ex : Exponent) (rest : list byte),
      tail = fs ++ exp_bytes ex ++ rest ->
      fs <> [] -> Forall dec_digit fs -> exp_ok ex rest -> no_digit_ahead rest ->
      exists s',
        Scan s = Some ((token.FilePos (file s) (offset s), token.FLOAT,
                        x2e :: fs ++ exp_bytes ex), s') /\
        Inv s' /\ offset s' = offset s + 1 + len (fs ++ exp_bytes ex) /\
        slice_from (src s') (offset s') = rest /\
        quiet s s' /\ (clean_head rest -> silent s s')).
Proof.
  intros HI Hs. pose proof HI as [Hoff _].
  destruct (next_ascii s _ _ HI Hs ltac:(reflexivity))
    as (Hc & Hr & HI1 & E1 & R1 & Ho1 & Hs1).
  assert (HScan : Scan s = Scan_switch (token.FilePos (file s) (offset s)) (rune ".")
                             (next s))
    by (apply (Scan_other s (rune ".") Hc); reflexivity).
  rewrite HScan, Scan_switch_period, bind_gets.
  split.
  - intros Hnd. split; [|assumption].
    replace ((rune "0" <=? ch (next s)) && (ch (next s) <=? rune "9")) with false;
      [reflexivity|].
    pose proof (ch_of_slice (next s) tail HI1 Hs1) as Hch.
    destruct tail as [|b p]; [rewrite Hch; reflexivity|].
    destruct Hch as [Hlo Hhi]. cbn [no_digit_ahead] in Hnd.
    unfold dec_digit, rune, utf8.RuneSelf in *. simpl in *.
    destruct (Z.lt_ge_cases (b2z b) 128) as [Hlt|Hge].
    + rewrite (Hlo Hlt).
      destruct (Z.leb_spec 48 (b2z b)), (Z.leb_spec (b2z b) 57); try reflexivity; lia.
    + specialize (Hhi Hge).
      destruct (Z.leb_spec 48 (ch (next s))), (Z.leb_spec (ch (next s)) 57);
        try reflexivity; lia.
  - intros fs ex rest -> Hne Hfs Hex Hrest.
    destruct fs as [|d fs]; [congruence|]. clear Hne.
    assert (Hdr : 48 <= b2z d <= 57)
      by (inversion Hfs; subst; unfold dec_digit, rune in *; simpl in *; lia).
    pose proof (ch_of_slice (next s) _ HI1 Hs1) as [Hlo _]. cbn [app] in Hlo.
    rewrite Hlo by (unfold utf8.RuneSelf; lia).
    replace ((rune "0" <=? b2z d) && (b2z d <=? rune "9")) with true.
    2:{ unfold rune. simpl.
        destruct (Z.leb_spec 48 (b2z d)), (Z.leb_spec (b2z d) 57); try reflexivity; lia. }
    destruct (scanMantissa_run 10 (d :: fs) (exp_bytes ex ++ rest) (next s) HI1 Hs1
                (dec_digit_mantissa _ Hfs)
                (stops_digits _ (no_digit_ahead_exp ex rest Hex Hrest)))
      as (s2 & Hrun & HI2 & E2 & R2 & Ho2 & Hs2 & Q2 & Sil2).
    destruct (scanNumber_exponent_run s2 ex rest (offset (next s) - 1) token.FLOAT
                HI2 Hs2 Hex Hrest)
      as (s3 & Hrun3 & HI3 & E3 & Ho3 & Hs3 & Q3 & Sil3).
    assert (Ho : offset s3 = offset s + len (x2e :: (d :: fs) ++ exp_bytes ex)).
    { rewrite Ho3, Ho2, Ho1, (len_cons x2e), len_app. lia. }
    assert (Hn : scanNumber true (next s)
                 = Some ((token.FLOAT, x2e :: (d :: fs) ++ exp_bytes ex), s3)).
    { unfold scanNumber. rewrite bind_gets. cbv iota zeta.
      rewrite (bind_eq _ _ _ _ _ Hrun), Hrun3.
      replace (match ex with Some _ => token.FLOAT | None => token.FLOAT end)
        with token.FLOAT by (destruct ex; reflexivity).
      rewrite E2, E1, Ho1. replace (offset s + 1 - 1) with (offset s) by lia.
      rewrite Ho.
      rewrite (slice_prefix (src s) (x2e :: (d :: fs) ++ exp_bytes ex) rest (offset s)
                 Hoff); [reflexivity|].
      rewrite Hs. cbn [app]. now rewrite <- !app_assoc. }
    cbv iota. rewrite (bind_eq _ _ _ _ _ Hn).
    exists s3. split; [reflexivity|]. split; [assumption|]. split.
    { rewrite Ho, len_cons. lia. }
    split; [assumption|]. split.
    { apply (quiet_trans _ (next s)); [apply quiet_next|].
      apply (quiet_trans _ s2); assumption. }
    intros Hcl.
    pose proof (exp_bytes_clean ex rest Hex) as Hce.
    apply (silent_trans _ (next s)).
    { apply next_clean; [assumption|]. rewrite Hr, <- Ho1, <- E1, Hs1.
      cbn [app clean_head]. unfold clean_byte, utf8.RuneSelf. lia. }
    apply (silent_trans _ s2); [|now apply Sil3].
    apply Sil2. now apply clean_head_app.
Qed.

End Period.

Lemma Scan_period_witness :
  (let s := scanner_of (bytes ".x") in
   @Scan NoTables s
   = Some ((token.FilePos (file s) (offset s), token.PERIOD, []), next s) /\
   offset (next s) = offset s + 1) /\
  (let s := scanner_of (bytes ".5E2)") in
   exists s',
     @Scan NoTables s
     = Some ((token.FilePos (file s) (offset s), token.FLOAT, bytes ".5E2"), s') /\
     Inv s' /\ offset s' = offset s + 1 + len (bytes "5E2") /\
     slice_from (src s') (offset s') = bytes ")" /\
     quiet s s' /\ (clean_head (bytes ")") -> silent s s')).
Proof.
  split; cbv zeta.
  - apply (proj1 (@Scan_period NoTables (scanner_of (bytes ".x")) (bytes "x")
                    (scanner_of_Inv _) eq_refl)).
    unfold no_digit_ahead, dec_digit, rune, b2z. simpl. lia.
  - apply (proj2 (@Scan_period NoTables (scanner_of (bytes ".5E2)")) (bytes "5E2)")
                    (scanner_of_Inv _) eq_refl)
             (bytes "5") (Some ("E"%byte, None, bytes "2")) (bytes ")")).
    + reflexivity.
    + discriminate.
    + repeat first [ apply Forall_nil | apply Forall_cons ];
        unfold dec_digit, rune, b2z; simpl; lia.
    + split; [right; reflexivity|]. split.
      * repeat first [ apply Forall_nil | apply Forall_cons ];
          unfold dec_digit, rune, b2z; simpl; lia.
      * cbn [app]. unfold sign_byte, rune, b2z. simpl. lia.
    + unfold no_digit_ahead, dec_digit, rune, b2z. simpl. lia.
Defined.
(** ** Escapes: the result and the report *)

Section EscapeResult.

Context {U : UnicodeTables}.

Lemma escape_msg_not_next (m : string) (c : Z) : escape_msg m c -> ~ next_msg m.
Proof.
  unfold escape_msg, next_msg, msg_illegal_in_escape, Sprintf_U, invalid_code_point.
  intros [-> |[-> |[-> | ->]]]; cbn [append]; intros [H|[H|H]]; discriminate H.
Qed.

Lemma reported_refl (s : Scanner) : reported [] s s.
Proof. split; [reflexivity|]. exists []. split; [now rewrite !app_nil_r|constructor]. Qed.

Lemma reported_next (s : Scanner) : reported [] s (next s).
Proof.
  split; [apply next_err|]. destruct (quiet_next s) as (l & E & F).
  exists l. split; [now rewrite app_nil_r|assumption].
Qed.

Lemma reported_trans (own : list Call) (a b c : Scanner) :
  reported [] a b -> reported own b c -> reported own a c.
Proof.
  intros (E1 & l1 & C1 & F1) (E2 & l2 & C2 & F2). split; [congruence|].
  exists (l1 ++ l2). split; [|now apply Forall_app].
  rewrite C2, C1, app_nil_r, <- !app_assoc. reflexivity.
Qed.

Lemma reported_error (o : Z) (m : string) (s : Scanner) :
  err s = true ->
  exists c, call_msg c = m /\ reported [c] s (error o m s).
Proof.
  intros He. destruct (error_fields o m s) as (_ & E2 & _ & _ & _ & _ & _ & E8).
  rewrite He in E8. eexists. split; [|split; [exact E2|]].
  2:{ exists []. split; [exact E8|constructor]. }
  reflexivity.
Qed.

Lemma reported_err (own : list Call) (s s' : Scanner) :
  reported own s s' -> err s = true -> err s' = true.
Proof. intros [E _] H. congruence. Qed.

Lemma scanEscape_digits_result (n : nat) (base x : Z) (s s' : Scanner) (r : option Z) :
  err s = true -> scanEscape_digits n base x s = Some (r, s') ->
  match r with
  | Some _ => reported [] s s'
  | None => exists c, reported [c] s s' /\ escape_msg (call_msg c) (ch s')
  end.
Proof.
  revert x s. induction n as [|n IH]; intros x s He H; cbn [scanEscape_digits] in H.
  - inversion H; subst. apply reported_refl.
  - rewrite bind_gets in H. cbv zeta in H.
    destruct (base <=? wrap32 (digitVal (ch s))).
    + rewrite bind_gets, bind_modify in H. inversion H; subst. clear H.
      destruct (reported_error (offset s)
                  (if ch s <? 0 then "escape sequence not terminated"%string
                   else msg_illegal_in_escape (ch s)) s He) as (c & Hm & Hr).
      exists c. split; [exact Hr|].
      destruct (error_fields (offset s)
                  (if ch s <? 0 then "escape sequence not terminated"%string
                   else msg_illegal_in_escape (ch s)) s) as (_ & _ & _ & -> & _).
      rewrite Hm. unfold escape_msg. destruct (ch s <? 0); tauto.
    + rewrite bind_modify in H.
      pose proof (IH _ _ ltac:(rewrite next_err; exact He) H) as Hr.
      destruct r as [v|].
      * exact (reported_trans _ _ _ _ (reported_next s) Hr).
      * destruct Hr as (c & Hr & Hm). exists c. split; [|exact Hm].
        exact (reported_trans _ _ _ _ (reported_next s) Hr).
Qed.

(** The result of [scanEscape] tells whether it has reported an error of
    its own.  When it returns [true], whatever was reported along the
    escape are reports of [next] for the runes read.  When it returns
    [false], exactly one more error was reported, after those: an
    unknown escape, an escape that the input ends in, a rune that is no
    digit of the escape (the rune the scanner is left at), or a code
    point that is not valid. *)
Theorem scanEscape_result (quote : Z) (s s' : Scanner) (b : bool) :
  err s = true -> scanEscape quote s = Some (b, s') ->
  exists l,
    Forall (fun c => next_msg (call_msg c)) l /\
    if b then calls s' = calls s ++ l
    else exists c, calls s' = calls s ++ l ++ [c] /\
                   escape_msg (call_msg c) (ch s') /\ ~ next_msg (call_msg c).
Proof.
  intros He H.
  assert (G : if b then reported [] s s'
              else exists c, reported [c] s s' /\ escape_msg (call_msg c) (ch s')).
  { unfold scanEscape in H. rewrite !bind_gets in H. cbv zeta in H.
    assert (D : forall n base max s0 s1 b0,
      err s0 = true ->
      bind (scanEscape_digits n base 0)
        (fun r => match r with
                  | Some x0 =>
                    if (max <? x0) || (55296 <=? x0) && (x0 <? 57344)
                    then bind (modify (error (offset s)
                           "escape sequence is invalid Unicode code point"))
                           (fun _ => ret false)
                    else ret true
                  | None => ret false
                  end) s0 = Some (b0, s1) ->
      if b0 then reported [] s0 s1
      else exists c, reported [c] s0 s1 /\ escape_msg (call_msg c) (ch s1)).
    { intros n base max s0 s1 b0 He0 H0. apply bind_Some in H0.
      destruct H0 as (r & s2 & H1 & H2).
      pose proof (scanEscape_digits_result _ _ _ _ _ _ He0 H1) as Hr.
      destruct r as [x0|].
      - destruct ((max <? x0) || (55296 <=? x0) && (x0 <? 57344)).
        + rewrite bind_modify in H2. inversion H2; subst. clear H2.
          destruct (reported_error (offset s)
                      "escape sequence is invalid Unicode code point" s2
                      (reported_err _ _ _ Hr He0)) as (c & Hm & Hr2).
          exists c. split; [exact (reported_trans _ _ _ _ Hr Hr2)|].
          rewrite Hm. unfold escape_msg, invalid_code_point. tauto.
        + inversion H2; subst. exact Hr.
      - inversion H2; subst. exact Hr. }
    assert (N : forall n base max s1 b0,
      bind (modify next) (fun _ =>
        bind (scanEscape_digits n base 0)
          (fun r => match r with
                    | Some x0 =>
                      if (max <? x0) || (55296 <=? x0) && (x0 <? 57344)
                      then bind (modify (error (offset s)
                             "escape sequence is invalid Unicode code point"))
                             (fun _ => ret false)
                      else ret true
                    | None => ret false
                    end)) s = Some (b0, s1) ->
      if b0 then reported [] s s1
      else exists c, reported [c] s s1 /\ escape_msg (call_msg c) (ch s1)).
    { intros n base max s1 b0 H0. rewrite bind_modify in H0.
      apply D in H0; [|rewrite next_err; exact He].
      destruct b0.
      - exact (reported_trans _ _ _ _ (reported_next s) H0).
      - destruct H0 as (c & Hr & Hm). exists c. split; [|exact Hm].
        exact (reported_trans _ _ _ _ (reported_next s) Hr). }
    destruct ((ch s =? rune "a") || (ch s =? rune "b") || (ch s =? rune "f")
              || (ch s =? rune "n") || (ch s =? rune "r") || (ch s =? rune "t")
              || (ch s =? rune "v") || (ch s =? BACKSLASH) || (ch s =? quote)).
    { rewrite bind_modify in H. inversion H; subst. apply reported_next. }
    destruct ((rune "0" <=? ch s) && (ch s <=? rune "7")).
    { exact (D _ _ _ _ _ _ He H). }
    destruct (ch s =? rune "x"); [exact (N _ _ _ _ _ H)|].
    destruct (ch s =? rune "u"); [exact (N _ _ _ _ _ H)|].
    destruct (ch s =? rune "U"); [exact (N _ _ _ _ _ H)|].
    rewrite bind_modify in H. inversion H; subst. clear H.
    destruct (reported_error (offset s)
                (if ch s <? 0 then "escape sequence not terminated"%string
                 else "unknown escape sequence"%string) s He) as (c & Hm & Hr).
    exists c. split; [exact Hr|]. rewrite Hm. unfold escape_msg.
    destruct (ch s <? 0); tauto. }
  destruct b.
  - destruct G as (_ & l & C & F). exists l. split; [assumption|].
    now rewrite C, app_nil_r.
  - destruct G as (c & (_ & l & C & F) & Hm). exists l. split; [assumption|].
    exists c. split; [exact C|]. split; [exact Hm|].
    exact (escape_msg_not_next _ _ Hm).
Qed.

End EscapeResult.

Lemma scanEscape_result_witness :
  let s := next (next (scanner_of [x22; x5c; x71; x22])) in
  exists s' l c,
    @scanEscape NoTables DQUOTE s = Some (false, s') /\
    Forall (fun c => next_msg (call_msg c)) l /\
    calls s' = calls s ++ l ++ [c] /\
    @escape_msg NoTables (call_msg c) (ch s') /\ ~ next_msg (call_msg c).
Proof.
  cbv zeta.
  assert (H : exists s', @scanEscape NoTables DQUOTE
                           (next (next (scanner_of [x22; x5c; x71; x22])))
                         = Some (false, s'))
    by (eexists; lazy; reflexivity).
  destruct H as (s' & H).
  destruct (@scanEscape_result NoTables DQUOTE
              (next (next (scanner_of [x22; x5c; x71; x22]))) s' false eq_refl H)
    as (l & F & c & G).
  exists s', l, c. split; [exact H|]. split; [exact F|exact G].
Defined.
(** ** Block comments that are closed *)

Lemma has_close_star_tl (b : byte) (bs : list byte) :
  has_close ((b :: bs) ++ [x2a]) = false -> has_close (bs ++ [x2a]) = false.
Proof. cbn [app]. apply has_close_tl. Qed.

Section ClosedComment.

Context {U : UnicodeTables}.

(** The loop of a block comment over bytes up to the first closing mark:
    the bytes and the mark are consumed, and no more. *)
Lemma scanComment_block_close (rest : list byte) :
  forall (n : nat) (pre : list byte) (s : Scanner),
    Inv s -> (mu s < n)%nat ->
    slice_from (src s) (offset s) = pre ++ x2a :: x2f :: rest ->
    has_close (pre ++ [x2a]) = false ->
    exists s',
      scanComment_block n s = Some (tt, s') /\ Inv s' /\
      offset s' = offset s + len pre + 2 /\
      slice_from (src s') (offset s') = rest /\
      (Forall clean_byte (tl (pre ++ [x2a; x2f])) -> clean_head rest -> silent s s').
Proof.
  induction n as [|n IH]; intros pre s HI Hmu Hs Hcl; [lia|].
  cbn [scanComment_block]. rewrite bind_gets.
  destruct pre as [|b bs].
  - (* at the closing mark *)
    cbn [app] in Hs.
    destruct (next_ascii s _ _ HI Hs ltac:(reflexivity))
      as (Hc & Hr & HI1 & E1 & R1 & Ho1 & Hs1).
    destruct (next_ascii (next s) _ _ HI1 Hs1 ltac:(reflexivity))
      as (Hc1 & Hr1 & HI2 & E2 & R2 & Ho2 & Hs2).
    rewrite Hc. change (0 <=? b2z x2a) with true. cbv iota.
    rewrite bind_modify, bind_gets, Hc1.
    change ((b2z x2a =? rune "*") && (b2z x2f =? rune "/")) with true. cbv iota.
    exists (next (next s)). split; [reflexivity|]. split; [assumption|].
    change (len (@nil byte)) with 0. split; [lia|]. split; [congruence|].
    cbn [app tl]. intros Hcb Hcr.
    apply (silent_trans _ (next s)).
    + apply next_clean; [assumption|]. rewrite Hr, <- Ho1, <- E1, Hs1.
      cbv. split; congruence.
    + apply next_clean; [assumption|]. now rewrite Hr1, <- Ho2, <- E2, Hs2.
  - (* a rune in front of the closing mark *)
    cbn [app] in Hs.
    destruct (next_rune s b (bs ++ x2a :: x2f :: rest) HI Hs)
      as (w & Hw & Hr & HI' & E1 & E2 & Ho & Hsl & Hlo & Hhi & Hcont).
    pose proof (Inv_ch s HI) as Hd. rewrite Hs in Hd.
    pose proof (DecodeRune_nonneg (b :: bs ++ x2a :: x2f :: rest)) as Hnn.
    rewrite Hd in Hnn. cbn [fst] in Hnn.
    destruct (Z.leb_spec 0 (ch s)) as [_|]; [|lia].
    rewrite bind_modify, bind_gets.
    destruct (progress_next s ltac:(lia) HI) as (_ & _ & _ & _ & _ & _ & Hlt).
    assert (Hwb : w - 1 <= len bs).
    { apply (rune_in_body w bs (x2a :: x2f :: rest) b); try assumption.
      - intros Hb. now destruct (Hlo Hb).
      - right. cbv. reflexivity. }
    pose proof (len_nonneg bs) as Hlb.
    assert (Hsl' : slice_from (src (next s)) (offset (next s))
                   = skipn (Z.to_nat (w - 1)) bs ++ x2a :: x2f :: rest).
    { rewrite Hsl, skipn_app.
      replace (Z.to_nat (w - 1) - List.length bs)%nat with 0%nat
        by (unfold len in Hwb; lia).
      reflexivity. }
    destruct ((ch s =? rune "*") && (ch (next s) =? rune "/")) eqn:Hclose.
    + (* the closing mark would come earlier *)
      exfalso. apply andb_true_iff in Hclose. destruct Hclose as [H1 H2].
      apply Z.eqb_eq in H1, H2.
      pose proof (b2z_range b) as Hb. unfold utf8.RuneSelf in *.
      assert (Hb1 : b2z b < 128).
      { destruct (Z.lt_ge_cases (b2z b) 128) as [|Hge]; [assumption|].
        specialize (Hhi Hge). rewrite H1 in Hhi. unfold rune in Hhi. simpl in Hhi. lia. }
      destruct (Hlo Hb1) as [-> Hcb].
      change (Z.to_nat (1 - 1)) with 0%nat in Hsl'. cbn [skipn] in Hsl'.
      pose proof (ch_of_slice (next s) _ HI' Hsl') as Hc2.
      destruct bs as [|c bs]; cbn [app] in Hc2; destruct Hc2 as [Hlo2 Hhi2].
      * rewrite Hlo2 in H2 by (cbv; reflexivity). discriminate H2.
      * assert (Hc1 : b2z c < 128).
        { destruct (Z.lt_ge_cases (b2z c) 128) as [|Hge]; [assumption|].
          specialize (Hhi2 Hge). rewrite H2 in Hhi2.
          unfold rune, utf8.RuneSelf in Hhi2. simpl in Hhi2. lia. }
        specialize (Hlo2 Hc1). cbn [app has_close] in Hcl.
        rewrite <- Hcb, H1, <- Hlo2, H2 in Hcl. discriminate Hcl.
    + destruct (IH (skipn (Z.to_nat (w - 1)) bs) (next s) HI' ltac:(lia) Hsl')
        as (s' & Hrun & HI2 & Ho2 & Hs2 & Hsil).
      { apply has_close_star_tl in Hcl.
        pose proof (has_close_skipn (Z.to_nat (w - 1)) _ Hcl) as Hk.
        rewrite skipn_app in Hk.
        replace (Z.to_nat (w - 1) - List.length bs)%nat with 0%nat in Hk
          by (unfold len in Hwb; lia).
        exact Hk. }
      exists s'. split; [exact Hrun|]. split; [assumption|]. split.
      { rewrite Ho2, Ho, len_cons, len_skipn by (unfold len in Hwb; lia). lia. }
      split; [assumption|].
      cbn [app tl]. intros Hclean Hcr.
      assert (Hw1 : w = 1).
      { destruct bs as [|c bs]; [change (len (@nil byte)) with 0 in Hwb; lia|].
        destruct (Z.eq_dec w 1) as [|Hne]; [assumption|exfalso].
        replace (Z.to_nat (w - 1)) with (S (Z.to_nat (w - 2))) in Hcont by lia.
        cbn [app firstn] in Hcont. inversion Hcont; subst.
        cbn [app] in Hclean. inversion Hclean; subst. unfold clean_byte in *. lia. }
      subst w. change (Z.to_nat (1 - 1)) with 0%nat in *. cbn [skipn] in *.
      apply (silent_trans _ (next s)).
      * apply next_clean; [assumption|].
        rewrite Hr. rewrite <- Ho, <- E1, Hsl.
        destruct bs as [|c bs]; [cbv; split; congruence|].
        cbn [app] in Hclean. cbn [app clean_head]. now inversion Hclean.
      * apply Hsil; [|assumption].
        destruct bs as [|c bs]; cbn [app tl] in *; [|now inversion Hclean].
        constructor; [cbv; split; congruence|constructor].
Qed.

(** A block comment that is closed: [Scan] returns a [COMMENT] token with
    an empty literal and stops right after the first closing mark that
    follows the opening one.  The star of the opening mark does not count
    for the closing one. *)
Theorem Scan_block_comment (s : Scanner) (pre rest : list byte) :
  Inv s ->
  slice_from (src s) (offset s) = bytes "/*" ++ pre ++ bytes "*/" ++ rest ->
  has_close (pre ++ [x2a]) = false ->
  exists s',
    Scan s = Some ((token.FilePos (file s) (offset s), token.COMMENT, []), s') /\
    Inv s' /\ offset s' = offset s + 4 + len pre /\
    slice_from (src s') (offset s') = rest /\
    quiet s s' /\ (Forall clean_byte pre -> clean_head rest -> silent s s').
Proof.
  intros HI Hs Hcl.
  change (bytes "/*" ++ pre ++ bytes "*/" ++ rest)
    with (x2f :: x2a :: pre ++ x2a :: x2f :: rest) in Hs.
  destruct (next_ascii s _ _ HI Hs ltac:(reflexivity))
    as (Hc & Hr & HI1 & E1 & _ & Ho1 & Hs1).
  destruct (next_ascii (next s) _ _ HI1 Hs1 ltac:(reflexivity))
    as (Hc1 & Hr1 & HI2 & E2 & _ & Ho2 & Hs2).
  destruct (scanComment_block_close rest (budget (next (next s))) pre (next (next s))
              HI2 (budget_mu _) Hs2 Hcl) as (s' & Hrun & HI3 & Ho3 & Hs3 & Hsil).
  assert (Hsc : scanComment (next s) = Some (tt, s')).
  { unfold scanComment. rewrite bind_gets, Hc1.
    change (b2z x2a =? rune "/") with false. cbv iota.
    rewrite bind_modify, bind_gets. exact Hrun. }
  exists s'. split.
  { rewrite (Scan_other s (rune "/")) by (assumption || reflexivity).
    change (Scan_switch (token.FilePos (file s) (offset s)) (rune "/"))
      with (bind (gets ch) (fun c' =>
              if (c' =? rune "/") || (c' =? rune "*") then
                bind scanComment
                     (fun _ => ret (token.FilePos (file s) (offset s), token.COMMENT,
                                    @nil byte))
              else ret (token.FilePos (file s) (offset s), token.QUO, @nil byte))).
    rewrite bind_gets, Hc1.
    change ((b2z x2a =? rune "/") || (b2z x2a =? rune "*")) with true. cbv iota.
    now rewrite (bind_eq _ _ _ _ _ Hsc). }
  split; [assumption|]. split; [lia|]. split; [assumption|]. split.
  { apply (quiet_trans _ (next s)); [apply quiet_next|].
    apply (quiet_trans _ (next (next s))); [apply quiet_next|].
    exact (scanComment_block_quiet _ _ _ _ Hrun). }
  intros Hclean Hcr.
  apply (silent_trans _ (next s)).
  { apply next_clean; [assumption|]. rewrite Hr, <- Ho1, <- E1, Hs1. cbv. auto. }
  apply (silent_trans _ (next (next s))).
  { apply next_clean; [assumption|]. rewrite Hr1, <- Ho2, <- E2, Hs2.
    destruct pre; [cbv; split; congruence|]. cbn [app clean_head]. now inversion Hclean. }
  apply Hsil; [|assumption].
  destruct pre as [|b pre]; cbn [app tl].
  - constructor; [cbv; split; congruence|constructor].
  - inversion Hclean; subst. apply Forall_app. split; [assumption|].
    constructor; [cbv; split; congruence|].
    constructor; [cbv; split; congruence|constructor].
Qed.

End ClosedComment.

Lemma Scan_block_comment_witness :
  let s := scanner_of (bytes "/*/ a **/*/") in
  exists s',
    @Scan NoTables s
    = Some ((token.FilePos (file s) (offset s), token.COMMENT, []), s') /\
    Inv s' /\ offset s' = offset s + 4 + len (bytes "/ a *") /\
    slice_from (src s') (offset s') = bytes "*/" /\
    quiet s s' /\
    (Forall clean_byte (bytes "/ a *") -> clean_head (bytes "*/") -> silent s s').
Proof.
  cbv zeta.
  apply (@Scan_block_comment NoTables (scanner_of (bytes "/*/ a **/*/"))
           (bytes "/ a *") (bytes "*/") (scanner_of_Inv _)); reflexivity.
Defined.
(** ** Strings that are closed *)

Lemma items_skip (quote : Z) (q : byte) (rest : list byte) :
  b2z q < utf8.RuneSelf ->
  forall (k : nat) (items : list StrItem),
    Forall (item_ok quote) items ->
    Forall (fun c => utf8.RuneSelf <= b2z c)
           (firstn k (items_bytes items ++ q :: rest)) ->
    exists items',
      skipn k (items_bytes items ++ q :: rest) = items_bytes items' ++ q :: rest /\
      Forall (item_ok quote) items' /\
      len (items_bytes items) = Z.of_nat k + len (items_bytes items').
Proof.
  intros Hq. induction k as [|k IH]; intros items Hok Hhi.
  - exists items. split; [reflexivity|]. split; [assumption|]. lia.
  - destruct items as [|[b|c] items].
    + cbn in Hhi. inversion Hhi; subst. lia.
    + change (items_bytes (Plain b :: items)) with (b :: items_bytes items) in *.
      cbn [app firstn skipn] in *. inversion Hhi; subst. inversion Hok; subst.
      destruct (IH items ltac:(assumption) ltac:(assumption)) as (items' & E & F & L).
      exists items'. split; [assumption|]. split; [assumption|].
      rewrite len_cons. lia.
    + change (items_bytes (Escaped c :: items)) with (x5c :: c :: items_bytes items) in *.
      cbn [app firstn] in Hhi. inversion Hhi; subst.
      unfold utf8.RuneSelf in *. change (b2z x5c) with 92 in *. lia.
Qed.

Section ClosedString.

Context {U : UnicodeTables}.

(** The loop of [scanString] over plain bytes and escaped bytes up to the
    quote that closes the string. *)
Lemma scanString_loop_items (quote offs : Z) (q : byte) (rest : list byte) :
  b2z q = quote -> quote = DQUOTE \/ quote = SQUOTE ->
  forall (n : nat) (items : list StrItem) (s : Scanner),
    Inv s -> (mu s < n)%nat ->
    slice_from (src s) (offset s) = items_bytes items ++ q :: rest ->
    Forall (item_ok quote) items ->
    exists s',
      scanString_loop n quote offs s = Some (tt, s') /\ Inv s' /\
      src s' = src s /\
      offset s' = offset s + len (items_bytes items) + 1 /\
      slice_from (src s') (offset s') = rest /\
      quiet s s' /\
      (Forall clean_byte (tl (items_bytes items ++ [q])) -> clean_head rest ->
       silent s s').
Proof.
  intros Hq Hquote. subst quote.
  assert (Hqr : b2z q = 34 \/ b2z q = 39) by exact Hquote.
  assert (Hqa : b2z q < utf8.RuneSelf) by (unfold utf8.RuneSelf; lia).
  induction n as [|n IH]; intros items s HI Hmu Hs Hok; [lia|].
  cbn [scanString_loop]. rewrite bind_gets.
  destruct items as [|[b|c] items].
  - (* the closing quote *)
    cbn [items_bytes map List.concat app] in Hs.
    destruct (next_ascii s _ _ HI Hs Hqa) as (Hc & Hr & HI1 & E1 & R1 & Ho1 & Hs1).
    rewrite Hc.
    replace ((b2z q =? NL) || (b2z q <? 0)) with false
      by (unfold NL; destruct Hqr as [-> | ->]; reflexivity).
    cbv iota. rewrite bind_modify, Z.eqb_refl.
    exists (next s). split; [reflexivity|]. split; [assumption|].
    split; [assumption|]. change (len (items_bytes [])) with 0.
    split; [lia|]. split; [assumption|]. split; [apply quiet_next|].
    intros _ Hcr. apply next_clean; [assumption|]. now rewrite Hr, <- Ho1, <- E1, Hs1.
  - (* a plain byte starts a rune *)
    change (items_bytes (Plain b :: items)) with (b :: items_bytes items) in *.
    cbn [app] in Hs.
    destruct (next_rune s b _ HI Hs)
      as (w & Hw & Hr & HI' & E1 & E2 & Ho & Hsl & Hlo & Hhi & Hcont).
    inversion Hok as [|? ? Hb Hok']; subst. cbn [item_ok] in Hb.
    destruct Hb as (Hb1 & Hb2 & Hb3).
    pose proof (b2z_range b) as Hbr.
    assert (Hc : ch s <> NL /\ 0 <= ch s /\ ch s <> b2z q /\ ch s <> BACKSLASH).
    { unfold utf8.RuneSelf, NL, BACKSLASH, rune in *. simpl in *.
      destruct (Z.lt_ge_cases (b2z b) 128) as [Hlt|Hge].
      - destruct (Hlo Hlt) as [_ ->]. lia.
      - specialize (Hhi Hge). lia. }
    destruct Hc as (C1 & C2 & C3 & C4).
    destruct (Z.eqb_spec (ch s) NL); [contradiction|].
    destruct (Z.ltb_spec (ch s) 0); [lia|]. cbn [orb].
    rewrite bind_modify.
    destruct (Z.eqb_spec (ch s) (b2z q)); [contradiction|].
    destruct (Z.eqb_spec (ch s) BACKSLASH); [contradiction|].
    rewrite bind_ret.
    destruct (items_skip (b2z q) q rest Hqa (Z.to_nat (w - 1)) items Hok' Hcont)
      as (items' & Esk & Hok'' & Hlen).
    destruct (progress_next s ltac:(lia) HI) as (_ & _ & _ & _ & _ & _ & Hlt).
    destruct (IH items' (next s) HI' ltac:(lia)) as
      (s' & Hrun & HI2 & F2 & Ho2 & Hs2 & Q2 & Hsil); [now rewrite Hsl|assumption|].
    exists s'. split; [exact Hrun|]. split; [assumption|]. split; [congruence|].
    split; [rewrite Ho2, Ho, len_cons; lia|]. split; [assumption|].
    split; [exact (quiet_trans _ _ _ (quiet_next s) Q2)|].
    cbn [app tl]. intros Hcl Hcr.
    assert (Hw1 : w = 1).
    { destruct (Z.eq_dec w 1) as [|Hne]; [assumption|exfalso].
      replace (Z.to_nat (w - 1)) with (S (Z.to_nat (w - 2))) in Hcont by lia.
      destruct (items_bytes items ++ q :: rest) as [|c l] eqn:El.
      - destruct (items_bytes items); discriminate El.
      - cbn [firstn] in Hcont. inversion Hcont; subst.
        assert (Hcc : clean_byte c).
        { destruct (items_bytes items) as [|c' l'].
          - cbn [app] in El. inversion El; subst. cbn [app] in Hcl. now inversion Hcl.
          - cbn [app] in El. inversion El; subst. cbn [app] in Hcl. now inversion Hcl. }
        unfold clean_byte in Hcc. lia. }
    subst w. change (Z.to_nat (1 - 1)) with 0%nat in *. cbn [skipn] in *.
    assert (Eit : items_bytes items = items_bytes items').
    { apply app_inv_tail in Esk. exact Esk. }
    apply (silent_trans _ (next s)).
    + apply next_clean; [assumption|]. rewrite Hr, <- Ho, <- E1, Hsl.
      destruct (items_bytes items) as [|c' l']; cbn [app clean_head].
      * cbn [app] in Hcl. now inversion Hcl.
      * cbn [app] in Hcl. now inversion Hcl.
    + apply Hsil; [|assumption]. rewrite <- Eit.
      destruct (items_bytes items) as [|c' l']; cbn [app tl] in *.
      * constructor.
      * now inversion Hcl.
  - (* an escaped byte *)
    change (items_bytes (Escaped c :: items)) with (x5c :: c :: items_bytes items) in *.
    cbn [app] in Hs.
    destruct (next_ascii s _ _ HI Hs ltac:(reflexivity))
      as (Hc & Hr & HI1 & E1 & R1 & Ho1 & Hs1).
    inversion Hok as [|? ? Hesc Hok']; subst. cbn [item_ok] in Hesc.
    assert (Hcr : 0 < b2z c < 128).
    { unfold simple_escape, BACKSLASH, rune in Hesc. simpl in Hesc. lia. }
    destruct (next_ascii (next s) _ _ HI1 Hs1 ltac:(unfold utf8.RuneSelf; lia))
      as (Hc1 & Hr1 & HI2 & E2 & R2 & Ho2 & Hs2).
    rewrite Hc. change (b2z x5c =? NL) with false. change (b2z x5c <? 0) with false.
    cbn [orb]. rewrite bind_modify.
    replace (b2z x5c =? b2z q) with false
      by (symmetry; apply Z.eqb_neq; change (b2z x5c) with 92; lia).
    change (b2z x5c =? BACKSLASH) with true. cbv iota.
    assert (Hesc' : scanEscape (b2z q) (next s) = Some (true, next (next s))).
    { unfold scanEscape. rewrite !bind_gets, Hc1. cbv zeta.
      replace ((b2z c =? rune "a") || (b2z c =? rune "b") || (b2z c =? rune "f")
               || (b2z c =? rune "n") || (b2z c =? rune "r") || (b2z c =? rune "t")
               || (b2z c =? rune "v") || (b2z c =? BACKSLASH) || (b2z c =? b2z q))
        with true; [reflexivity|].
      symmetry. unfold simple_escape in Hesc.
      destruct Hesc as [H|[H|[H|[H|[H|[H|[H|[H|H]]]]]]]];
        rewrite H; first [ reflexivity | now rewrite Z.eqb_refl, orb_true_r ]. }
    assert (Hin : bind (scanEscape (b2z q)) (fun _ => ret tt) (next s)
                  = Some (tt, next (next s)))
      by now rewrite (bind_eq _ _ _ _ _ Hesc').
    rewrite (bind_eq _ _ _ _ _ Hin).
    destruct (progress_next s ltac:(rewrite Hc; discriminate) HI)
      as (_ & _ & _ & _ & _ & _ & Hlt).
    destruct (progress_next (next s) ltac:(rewrite Hc1; lia) HI1)
      as (_ & _ & _ & _ & _ & _ & Hlt1).
    destruct (IH items (next (next s)) HI2 ltac:(lia) Hs2 Hok')
      as (s' & Hrun & HI3 & F3 & Ho3 & Hs3 & Q3 & Hsil).
    exists s'. split; [exact Hrun|]. split; [assumption|]. split; [congruence|].
    split; [rewrite Ho3, Ho2, Ho1, !len_cons; lia|]. split; [assumption|]. split.
    { apply (quiet_trans _ (next s)); [apply quiet_next|].
      exact (quiet_trans _ _ _ (quiet_next _) Q3). }
    cbn [app tl]. intros Hcl Hcrest.
    inversion Hcl as [|? ? Hcc Hcl']; subst.
    apply (silent_trans _ (next s)).
    { apply next_clean; [assumption|]. now rewrite Hr, <- Ho1, <- E1, Hs1. }
    apply (silent_trans _ (next (next s))).
    { apply next_clean; [assumption|]. rewrite Hr1, <- Ho2, <- E2, Hs2.
      destruct (items_bytes items) as [|c' l']; cbn [app clean_head] in *;
        now inversion Hcl'. }
    apply Hsil; [|assumption].
    destruct (items_bytes items) as [|c' l']; cbn [app tl] in *;
      [constructor|now inversion Hcl'].
Qed.

(** A string or a raw string that is closed.  At a quote followed by
    plain bytes and by escapes of one byte, up to the next quote that is
    not escaped, [Scan] returns the text from quote to quote as the
    literal and stops right after it.  A quote after a backslash does not
    close the string.  Nothing is reported but what [next] reports for
    the runes read. *)
Theorem Scan_string_closed (s : Scanner) (quote : Z) (tok : token.Token) (q : byte)
    (items : list StrItem) (rest : list byte) :
  Inv s ->
  quote = DQUOTE /\ tok = token.STRING \/ quote = SQUOTE /\ tok = token.RAWSTRING ->
  b2z q = quote ->
  slice_from (src s) (offset s) = q :: items_bytes items ++ q :: rest ->
  Forall (item_ok quote) items ->
  exists s',
    Scan s = Some ((token.FilePos (file s) (offset s), tok,
                    q :: items_bytes items ++ [q]), s') /\
    Inv s' /\ offset s' = offset s + len (items_bytes items) + 2 /\
    slice_from (src s') (offset s') = rest /\
    quiet s s' /\
    (Forall clean_byte (items_bytes items) -> clean_head rest -> silent s s').
Proof.
  intros HI Hq Hb Hs Hok. pose proof HI as [Hoff _].
  assert (Hquote : quote = DQUOTE \/ quote = SQUOTE) by tauto.
  assert (Hqa : b2z q < utf8.RuneSelf)
    by (rewrite Hb; destruct Hquote as [-> | ->]; reflexivity).
  destruct (next_ascii s q _ HI Hs Hqa) as (Hc & Hr & HI1 & E1 & R1 & Ho1 & Hs1).
  rewrite Hb in Hc.
  destruct (Scan_quote s quote tok HI Hc Hq) as (HScan & _).
  destruct (scanString_loop_items quote (offset (next s) - 1) q rest Hb Hquote
              (budget (next s)) items (next s) HI1 (budget_mu _) Hs1 Hok)
    as (s' & Hloop & HI2 & F2 & Ho2 & Hs2 & Q2 & Hsil).
  assert (Hrun : scanString quote (next s) = Some (q :: items_bytes items ++ [q], s')).
  { unfold scanString. rewrite !bind_gets, (bind_eq _ _ _ _ _ Hloop), !bind_gets.
    unfold ret. rewrite F2, E1, Ho2, Ho1.
    replace (offset s + 1 - 1) with (offset s) by lia.
    replace (offset s + 1 + len (items_bytes items) + 1)
      with (offset s + len (q :: items_bytes items ++ [q]))
      by (rewrite len_cons, len_app; change (len [q]) with 1; lia).
    rewrite (slice_prefix (src s) (q :: items_bytes items ++ [q]) rest (offset s) Hoff);
      [reflexivity|].
    rewrite Hs. cbn [app]. now rewrite <- app_assoc. }
  exists s'. split; [now rewrite HScan, (bind_eq _ _ _ _ _ Hrun)|].
  split; [assumption|]. split; [lia|]. split; [assumption|]. split.
  { exact (quiet_trans _ _ _ (quiet_next s) Q2). }
  intros Hcl Hcr.
  assert (Hqc : clean_byte q).
  { unfold clean_byte. rewrite Hb. destruct Hquote as [-> | ->]; cbv; split; congruence. }
  apply (silent_trans _ (next s)).
  { apply next_clean; [assumption|]. rewrite Hr, <- Ho1, <- E1, Hs1.
    apply clean_head_app; [assumption|]. exact Hqc. }
  apply Hsil; [|assumption].
  destruct (items_bytes items) as [|c l]; cbn [app tl]; [constructor|].
  inversion Hcl; subst. apply Forall_app. split; [assumption|].
  constructor; [assumption|constructor].
Qed.

End ClosedString.

Lemma Scan_string_closed_witness :
  let s := scanner_of [x22; x61; x5c; x22; x62; x22; x3b] in
  exists s',
    @Scan NoTables s
    = Some ((token.FilePos (file s) (offset s), token.STRING,
             [x22; x61; x5c; x22; x62; x22]), s') /\
    Inv s' /\ offset s' = offset s + len [x61; x5c; x22; x62] + 2 /\
    slice_from (src s') (offset s') = [x3b] /\
    quiet s s' /\
    (Forall clean_byte [x61; x5c; x22; x62] -> clean_head [x3b] -> silent s s').
Proof.
  cbv zeta.
  apply (@Scan_string_closed NoTables (scanner_of [x22; x61; x5c; x22; x62; x22; x3b])
           DQUOTE token.STRING x22 [Plain x61; Escaped x22; Plain x62] [x3b]
           (scanner_of_Inv _)).
  - left. split; reflexivity.
  - reflexivity.
  - reflexivity.
  - repeat first [ apply Forall_nil | apply Forall_cons ].
    + cbv. repeat split; congruence.
    + cbv. tauto.
    + cbv. repeat split; congruence.
Defined.

(** ** Which tokens come with an error of their own *)

Section OwnErrors.

Context {U : UnicodeTables}.

(** Chaining the runs of a scan that report nothing of their own. *)
Ltac quiet_step :=
  first
    [ apply quiet_refl
    | eapply quiet_trans;
      [ first [ eapply scanMantissa_quiet; eassumption
              | eapply scanComment_quiet; eassumption
              | eapply next_loop_quiet; eassumption
              | eapply skipWhiteSpace_quiet; eassumption
              | eapply (steps_scanNumber_exponent quiet quiet_refl quiet_trans quiet_next);
                eassumption
              | eapply scanNumber_fraction_quiet; eassumption
              | apply quiet_next ] | ] ].

Ltac quiet_chain := solve [ do 8 (try quiet_step) ].

(** A float is scanned without a report of [scanNumber]. *)
Lemma scanNumber_float_quiet (seen : bool) (s s' : Scanner) (lit : list byte) :
  scanNumber seen s = Some ((token.FLOAT, lit), s') -> quiet s s'.
Proof.
  intros H. unfold scanNumber in H. rewrite bind_gets in H.
  destruct seen.
  - cbv zeta in H. apply bind_Some in H. destruct H as ([] & s1 & H1 & H2).
    quiet_chain.
  - rewrite bind_gets in H. destruct (ch s =? rune "0").
    + rewrite bind_gets, bind_modify, bind_gets in H.
      destruct ((ch (next s) =? rune "x") || (ch (next s) =? rune "X")).
      * unfold scanNumber_exit in H. minv H.
      * apply bind_Some in H. destruct H as ([] & s1 & H1 & H).
        rewrite bind_gets in H.
        apply bind_Some in H. destruct H as (seen' & s2 & H2 & H).
        assert (Q2 : quiet s1 s2).
        { destruct ((ch s1 =? rune "8") || (ch s1 =? rune "9")).
          - apply bind_Some in H2. destruct H2 as ([] & s3 & H3 & H4).
            inversion H4; subst. quiet_chain.
          - inversion H2; subst. apply quiet_refl. }
        rewrite bind_gets in H.
        destruct ((ch s2 =? rune ".") || (ch s2 =? rune "e") || (ch s2 =? rune "E")).
        -- apply (quiet_trans _ (next s)); [apply quiet_next|].
           apply (quiet_trans _ s1); [quiet_chain|].
           apply (quiet_trans _ s2); [assumption|]. quiet_chain.
        -- unfold scanNumber_exit in H. minv H.
    + apply bind_Some in H. destruct H as ([] & s1 & H1 & H2). quiet_chain.
Qed.

(** Only an integer, a string, a raw string and an illegal token can come
    with an error that the scan of the token reports itself: with every
    other token, whatever is reported while it is scanned are reports of
    [next] for the runes read. *)
Theorem Scan_quiet_tokens (s s' : Scanner) (pos : token.Pos) (tok : token.Token)
    (lit : list byte) :
  Scan s = Some ((pos, tok, lit), s') ->
  ~ In tok [token.INT; token.STRING; token.RAWSTRING; token.ILLEGAL] ->
  quiet s s'.
Proof.
  intros H Htok. unfold Scan in H.
  apply bind_Some in H. destruct H as ([] & s1 & Hws & H).
  apply (quiet_trans _ s1); [exact (skipWhiteSpace_quiet _ _ _ Hws)|].
  rewrite !bind_gets in H.
  destruct (isLetter (ch s1)).
  - apply bind_Some in H. destruct H as (lit0 & s2 & Hid & H).
    assert (s2 = s') by (destruct (_ || _) in H; inversion H; reflexivity). subst s2.
    unfold scanIdentifier in Hid. minv Hid. quiet_chain.
  - destruct ((rune "0" <=? ch s1) && (ch s1 <=? rune "9")).
    + apply bind_Some in H. destruct H as ([tk l] & s2 & Hn & H).
      inversion H; subst.
      destruct (scanNumber_tok _ _ _ _ Hn) as [E|E]; cbn [fst] in E; subst.
      * exfalso. apply Htok. simpl. tauto.
      * exact (scanNumber_float_quiet _ _ _ _ Hn).
    + rewrite bind_modify in H. apply (quiet_trans _ (next s1)); [apply quiet_next|].
      unfold Scan_switch, Scan_pair, Scan_illegal in H.
      minv H; try (exfalso; apply Htok; simpl; tauto); try quiet_chain.
      match goal with
      | Hn : scanNumber true _ = Some (?r, _) |- _ =>
        destruct r as [tk l];
        destruct (scanNumber_tok _ _ _ _ Hn) as [E|E]; cbn [fst] in E; subst;
        [exfalso; apply Htok; simpl; tauto
        |exact (scanNumber_float_quiet _ _ _ _ Hn)]
      end.
Qed.

(** An illegal token.  It stands for one rune that starts no token: the
    scanner has consumed that rune and no more, the literal is the rune,
    encoded again, and the rune is reported as an illegal character,
    except for a byte order mark, which [next] has reported already. *)
Theorem Scan_illegal_token (s s' : Scanner) (pos : token.Pos) (lit : list byte) :
  Inv s -> Scan s = Some ((pos, token.ILLEGAL, lit), s') ->
  exists s1,
    skipWhiteSpace s = Some (tt, s1) /\
    isLetter (ch s1) = false /\ ch s1 <> -1 /\
    lit = utf8.EncodeRune (ch s1) /\
    offset s' = rdOffset s1 /\
    s' = if ch s1 =? bom then next s1
         else error (token.FileOffset (file (next s1)) pos)
                    (msg_illegal_character (ch s1)) (next s1).
Proof.
  intros HI H.
  destruct (ok_skipWhiteSpace s HI) as ([] & s1 & Hws & HI1).
  pose proof (skipWhiteSpace_exit _ _ Hws) as Hw.
  rewrite (Scan_after_space _ _ Hws) in H.
  exists s1. split; [assumption|].
  unfold Scan in H. unfold skipWhiteSpace in H.
  erewrite bind_eq in H; [|apply next_loop_stop; exact Hw].
  rewrite !bind_gets in H.
  destruct (next_Inv s1 HI1) as (_ & Ho & _).
  destruct (isLetter (ch s1)) eqn:HL.
  { apply bind_Some in H. destruct H as (lit0 & s2 & Hid & H).
    destruct (_ || _) in H; inversion H. }
  split; [reflexivity|].
  destruct ((rune "0" <=? ch s1) && (ch s1 <=? rune "9")) eqn:HD.
  { apply bind_Some in H. destruct H as (r & s2 & Hn & H). inversion H; subst.
    destruct (scanNumber_tok _ _ _ _ Hn) as [E|E]; congruence. }
  rewrite bind_modify in H.
  pose proof (Scan_switch_class _ _ _ _ _ _ _ H) as (Ep & _). subst pos.
  unfold Scan_switch, Scan_pair, Scan_illegal in H.
  minv H;
    try match goal with
        | Hn : scanNumber _ _ = Some (?r, _) |- _ =>
          let E := fresh in
          destruct (scanNumber_tok _ _ _ _ Hn) as [E|E]; rewrite E in *; discriminate
        end;
    repeat match goal with
           | E : (_ =? _) = true |- _ => apply Z.eqb_eq in E
           | E : negb (_ =? _) = true |- _ => apply negb_true_iff in E
           | E : negb (_ =? _) = false |- _ => apply negb_false_iff in E
           end.
  all: assert (Hne : ch s1 <> -1) by (apply Z.eqb_neq; assumption).
  all: split; [exact Hne|]; split; [reflexivity|].
  all: try (destruct (error_fields (token.FileOffset (file (next s1))
                                      (token.FilePos (file s1) (offset s1)))
                        (msg_illegal_character (ch s1)) (next s1))
              as (_ & _ & _ & _ & X & _); rewrite X).
  all: split; [exact Ho|].
  all: destruct (ch s1 =? bom) eqn:B; try reflexivity; exfalso.
  - (* a lone ampersand is no byte order mark *)
    apply Z.eqb_eq in B.
    match goal with E : ch s1 = rune _ |- _ => rewrite B in E; discriminate E end.
  - (* nor is a lone bar *)
    apply Z.eqb_eq in B.
    match goal with E : ch s1 = rune _ |- _ => rewrite B in E; discriminate E end.
  - congruence.
  - apply Z.eqb_neq in B. contradiction.
Qed.

End OwnErrors.

Lemma Scan_quiet_tokens_witness :
  let s := scanner_of (bytes "1.5 x") in
  exists s',
    @Scan NoTables s = Some ((1, token.FLOAT, bytes "1.5"), s') /\ quiet s s'.
Proof.
  cbv zeta.
  assert (H : exists s', @Scan NoTables (scanner_of (bytes "1.5 x"))
                         = Some ((1, token.FLOAT, bytes "1.5"), s'))
    by (eexists; lazy; reflexivity).
  destruct H as (s' & H). exists s'. split; [exact H|].
  apply (@Scan_quiet_tokens NoTables _ _ _ _ _ H).
  simpl. intros [E|[E|[E|[E|[]]]]]; discriminate E.
Defined.

Lemma Scan_illegal_token_witness :
  let s := scanner_of (bytes " & ") in
  exists pos lit s' s1,
    @Scan NoTables s = Some ((pos, token.ILLEGAL, lit), s') /\
    skipWhiteSpace s = Some (tt, s1) /\
    @isLetter NoTables (ch s1) = false /\ ch s1 <> -1 /\
    lit = utf8.EncodeRune (ch s1) /\
    offset s' = rdOffset s1 /\
    s' = if ch s1 =? bom then next s1
         else error (token.FileOffset (file (next s1)) pos)
                    (@msg_illegal_character NoTables (ch s1)) (next s1).
Proof.
  cbv zeta.
  assert (H : exists s', @Scan NoTables (scanner_of (bytes " & "))
                         = Some ((2, token.ILLEGAL, bytes "&"), s'))
    by (eexists; lazy; reflexivity).
  destruct H as (s' & H).
  destruct (@Scan_illegal_token NoTables _ _ _ _ (scanner_of_Inv _) H) as (s1 & G).
  exists 2, (bytes "&"), s', s1. split; [exact H|exact G].
Defined.

(** ** The serializer, read before it is written *)

Lemma Read_files_back (self : token.FileSetRef) (l : list token.serializedFile) :
  map (fun f => token.mkSerializedFile (token.name f) (token.base f) (token.size f)
                  (token.lines f) (token.infos f))
      (map (fun f => token.mkFile self (token.sf_Name f) (token.sf_Base f)
                       (token.sf_Size f) (token.sf_Lines f) (token.sf_Infos f)) l)
  = l.
Proof.
  induction l as [|[n b z li i] l IH]; [reflexivity|].
  cbn [map]. rewrite IH. reflexivity.
Qed.

(** [Read].  When [decode] fails, [Read] returns its error and leaves the
    file set as it is.  When [decode] succeeds, the file set is replaced
    by what was decoded, whatever it held: every file belongs to the
    receiving set, the cache of the last file is empty, and writing the
    set again hands [encode] the value that was decoded (slices are
    lists here, so a nil slice and an empty one are the same value). *)
Theorem Read_then_Write {W : Type} (decode : token.Decoder W) (encode : token.Encoder W)
    (s : token.FileSet) (w : W) :
  (forall ss w' msg,
      decode token.zeroSerializedFileSet w = (ss, w', Some msg) ->
      token.Read s decode w = (s, w', Some msg)) /\
  (forall ss w',
      decode token.zeroSerializedFileSet w = (ss, w', None) ->
      exists s',
        token.Read s decode w = (s', w', None) /\
        token.self s' = token.self s /\
        token.fs_base s' = token.ss_Base ss /\
        List.length (token.files s') = List.length (token.ss_Files ss) /\
        Forall (fun f => token.set f = token.self s) (token.files s') /\
        token.last s' = None /\
        forall w0, token.Write s' encode w0 = encode ss w0).
Proof.
  split.
  - intros ss w' msg H. unfold token.Read. rewrite H. reflexivity.
  - intros ss w' H. unfold token.Read. rewrite H. eexists. split; [reflexivity|].
    cbn [token.self token.fs_base token.files token.last].
    split; [reflexivity|]. split; [reflexivity|]. split; [now rewrite length_map|].
    split; [|split; [reflexivity|]].
    + apply Forall_forall. intros f Hf. apply in_map_iff in Hf.
      destruct Hf as (x & <- & _). reflexivity.
    + intros w0. unfold token.Write. cbn [token.fs_base token.files].
      rewrite Read_files_back. destruct ss. reflexivity.
Qed.

Lemma Read_then_Write_witness :
  let decode : token.Decoder (option token.serializedFileSet) :=
    fun z w => match w with
               | Some x => (x, None, None)
               | None => (z, None, Some "EOF"%string)
               end in
  let encode : token.Encoder (option token.serializedFileSet) :=
    fun x _ => (Some x, None) in
  let ss := token.mkSerializedFileSet 16
              [token.mkSerializedFile "a.zo" 1 10 [0; 4] [];
               token.mkSerializedFile "b.zo" 12 3 [0] [token.mkLineInfo 1 "gen.y" 7]] in
  let s := token.mkFileSet 2%positive 1
             [token.mkFile 2%positive "old.zo" 1 0 [0] []] None in
  token.Read s decode None = (s, None, Some "EOF"%string) /\
  exists s',
    token.Read s decode (Some ss) = (s', None, None) /\
    token.self s' = token.self s /\
    token.fs_base s' = token.ss_Base ss /\
    List.length (token.files s') = List.length (token.ss_Files ss) /\
    Forall (fun f => token.set f = token.self s) (token.files s') /\
    token.last s' = None /\
    forall w0, token.Write s' encode w0 = encode ss w0.
Proof.
  cbv zeta. split.
  - refine (proj1 (Read_then_Write _ (fun x _ => (Some x, None)) _ None) _ _ _ _).
    reflexivity.
  - refine (proj2 (Read_then_Write _ (fun x _ => (Some x, None)) _ (Some _)) _ _ _).
    reflexivity.
Defined.
